(* ===== verification/_CoqProject ===== *)
-Q . S2P
Prelude.v
Utf8.v
Json.v
JsonFacts.v
JsonCompact.v
JsonMembers.v
GoTime.v
Sha256.v
Constant.v
Envelope.v
EnvelopeFacts.v
Uuid.v
Repository.v
RepositoryFacts.v
Migrations.v
Redis.v
Router.v
RouterFacts.v
MigrationsFacts.v
Kafka.v
Outbox.v
OutboxFacts.v
Config.v
ConfigFacts.v
Auth.v
AuthFacts.v
Proto.v
Gateway.v
GatewayFacts.v
App.v
AppFacts.v
Concurrent.v
Consumer.v
ConsumerFacts.v
ConsumerProgress.v
Health.v
HealthFacts.v
Worker.v
WorkerFacts.v
WorkerProgress.v
WorkerRecovery.v
Pipeline.v
PipelineFacts.v
EndToEnd.v
PipelineRecovery.v
Server.v
ServerFacts.v
Gate.v
GateFacts.v
Serve.v
ServeFacts.v
Entry.v
Tests.v
