(* ===== verification/Prelude.v ===== *)
(** * The ocr-gateway, modelled and verified

    The gateway stands between the callers that submit documents and the OCR
    engine.  It is three binaries over PostgreSQL, Redis and Kafka:

    - the grpc binary (src/cmd/grpc) serves Kontrak A: a submit or a poll passes
      the gate ([x-api-key], then the caller's budget), is mapped and forwarded
      to the engine, and the engine's answer goes back unchanged;
    - the consumer (src/cmd/consumer) reads document.processed events, and
      routes each to its caller: one row of the outbox in a transaction, then a
      dedupe mark in Redis; what can never be routed goes to a dead-letter topic;
    - the worker (src/cmd/worker) claims rows of the outbox, publishes each on
      its caller's topic and records the outcome in the row.

    ** How programs are modelled

    Effectful code is a program of the monad [M S A] below: a tree of atomic
    steps on a world of data [S], a clock, and a schedule of what the remote
    calls to come will meet: how long each takes, and whether it goes through,
    fails, or takes effect and loses its acknowledgement.  A theorem about every
    world is a theorem about every such schedule.  Go's [x, err := f()] is
    [try]; an error is a value of [error], whose text is kept as a format and its
    arguments.  [run] executes a program alone; Concurrent.v interleaves the
    steps of many.  [zoom] runs a program on a part of the data ([Lens]).

    Integers that Go keeps in int32 or int64 are [Z] with the wrap-around written
    ([int32], [int64]); times are nanoseconds; strings are byte sequences.

    ** The files, and the code they model

    - Utf8.v, Json.v, GoTime.v, Sha256.v, Uuid.v: what the sources use of Go's
      standard library (UTF-8, encoding/json's scanner, compaction and quoting,
      time.ParseDuration and RFC 3339, crypto/sha256) and of the uuid package;
      JsonFacts.v, JsonCompact.v and JsonMembers.v carry the round trip.
    - Constant.v, Envelope.v: internal/constant, internal/envelope.
    - Repository.v: internal/repository, a table by primary key and one function
      for each statement, [ExecTx] committing in one step; its [Store] is what
      the router and the outbox are given.
    - Migrations.v: db/migrations, the columns of the outbox table with their
      types and defaults, and the migrations as operations on a catalogue.
    - Redis.v, Kafka.v: the servers as classes of operations with the laws the
      code relies on, and a concrete instance of each.
    - Router.v: internal/service/router.  Outbox.v: internal/service/outbox.
    - Config.v: internal/config.  Auth.v: internal/server/auth.go, metrics.go,
      with the context that carries the caller.
    - Proto.v, Gateway.v: contract/ocr/gateway/v1, internal/contract,
      internal/service/gateway, internal/handler/grpc.  The source's interfaces
      ([Client], [Service], [GatewayServer], the repository's [Querier]) are records
      of operations, and its constructors build them.
    - Consumer.v, Worker.v, App.v: internal/app/consumer.go, worker.go, and the
      boot they share; the consumer group is the class [GroupLib].
    - Health.v: internal/handler, internal/handler/health, and the probe server
      of internal/server/health.go with the dependencies it pings.
    - Server.v, Serve.v: internal/server, internal/app/di.go and grpc.go: what
      the server is built from, how its listeners end, and the shutdown.
    - Entry.v: the mains under cmd.  App.v also holds internal/app/version.go.
    - Concurrent.v: systems of programs that share their stores, and a program
      logic for them by rely and guarantee.
    - Pipeline.v: the consumers, workers, limiters and maintenance as one system.
      Gate.v: the requests in flight at the gate, as one system.
    - each [XFacts.v] holds the theorems on [X.v].  ConsumerProgress.v,
      WorkerProgress.v and WorkerRecovery.v are about what gets done, EndToEnd.v
      composes the consumer with the worker, and PipelineRecovery.v starts the
      two from whatever earlier, failing lives left behind.
    - Tests.v: the repository's Go tests, run on the definitions.

    ** What the theorems show

    - The pipeline ([PipelineFacts]): however the processes' steps interleave,
      whatever fails, and wherever processes die and start again, a record below
      a committed offset is dead-lettered, or its row is in the outbox, or a
      record with its routed id is on Kafka ([pipeline_loses_nothing]); a row
      leaves the outbox, or is marked published, only once a record with its id
      is on Kafka ([pipeline_keeps_rows]); and nothing is published that was not
      routed from a valid event of a caller that one of the consumers' own
      configurations registers ([pipeline_invents_nothing]).  The proofs
      are local: each binary keeps a protocol ([respects], [sound], [accounts]).
    - Delivery ([EndToEnd]): where nothing fails, what a poll reads is committed,
      and is dead-lettered or on its caller's topic once the worker has drained
      the outbox ([pipeline_delivers]).  And whatever failed before and wherever
      processes died, once leases and retry delays are over one undisturbed life
      of the consumer and one of the worker bring every record the group is past
      to its caller's topic or the dead-letter topic ([pipeline_recovers]).
    - Routing: [Handle] refines a specification of four outcomes; a dedupe mark
      never precedes its row, redeliveries add no second row, permanent errors
      are exactly the contract violations, and the payload is the source's with
      three fields replaced.
    - The consumer alone: no event is lost over any number of lives, exactly
      the poison is dead-lettered, and where nothing fails a poll takes the group
      past all its records (ConsumerProgress.v).  Two results are about its
      limits: an event PostgreSQL refuses stalls its partition, and the loop is
      only right if a flush commits processed offsets ([GroupLaws] says so).
    - The outbox: the table stays well formed, a row's life, what a claim answers
      and the lease it gives, which a recorded outcome ends, whoever's it is
      ([lease_exclusive], [stale_outcome_ends_lease]); a tick loses nothing.
      Where nothing fails the worker empties the table, one record for each row
      ([worker_drains]); whatever failed before, in however many lives, it still
      can five minutes later ([worker_recovers]); and it stops when told to.  The rows stay within
      the schema of the migrations: types, lengths and defaults
      ([schema_invariant]).
    - Kontrak A: the gate lets exactly the registered callers in, what reaches
      the engine carries the verified caller, and the server that is hosted is
      that gate.  The limiter lets exactly the budget of a window through, for
      requests one after the other ([rate_limit_exact]) and for requests in
      flight together ([rate_limit_concurrent]: there is one order of a window's
      requests, the one Redis counted them in, that decides).  Both ask for
      calls that go through; where they may fail, the limiter lets more through,
      and refuses only after a full budget was counted in the window: Redis under
      MONITOR shows those INCRs ([rate_limit_fails_open]).
    - The configuration: [validate] against its specification, [parseCallers]
      and [Load].  The probes and the life of the grpc binary: readiness against
      its specification and within its three seconds, a drain that no sequence
      of requests undoes ([draining_is_final]), the order in which listeners and
      connections close, that the listeners' closings respect the shutdown's
      deadline, and that the process is gone five seconds after the last connection
      is closed, which waits for those in use.

    ** Bounds and fuel

    The endless loops take a number of rounds ([consume], [publish_loop]); their
    safety theorems hold for every number, and [RunWorker_stops] gives one that
    is enough once the process is told to stop and [select], which chooses at
    random where a tick is ready too, has taken the stop.  [duration_loop] has
    the length of the text as fuel, which [duration_loop_fuel] shows to be enough.
    Everything else is structural.

    ** What is a parameter

    PostgreSQL's treatment of values ([PgLib]), Redis ([RedisLib]), the Kafka
    producer ([KafkaLib]) and consumer group ([GroupLib]), the engine
    ([OcrEngine]), Viper and the platform's validators ([ViperLib],
    [PlatformLib]), the gRPC runtime ([GrpcLib], [PlatformGrpc]) and what its
    [Stop] answers at a deadline, the exporters behind the telemetry's settings,
    the uuid package ([UuidLib]) and the parts of fmt and of Unicode that no
    theorem needs ([FmtOther], [UnicodeLib]).  Each law they are given is their documented
    behaviour, and the witnesses instantiate them.

    ** What is not modelled

    Logging and tracing, which change no state; the platform's migrator and the
    indexes (the binaries find the migrations applied), and PostgreSQL's rounding
    of instants to the microsecond; protobuf's descriptors, reflection and wire
    encoding; the gRPC and HTTP runtimes behind their options; the cancellation
    of a call in flight, which is one of the failures of its schedule; the
    connections the consumer and the worker close as they return.  The
    processes of the pipeline read one clock, and a consumer group hands each
    process its own partitions: rebalancing is a restart.  The requests at the
    gate are a system apart from the pipeline's: they share Redis with it, not
    its keys. *)

From Stdlib Require Export ZArith Ascii Lia.
From Stdlib Require String.
From Stdlib Require DecimalString DecimalZ DecimalPos.
From stdpp Require Export base gmap strings list fin_maps pretty numbers.

(* ------------------------------------------------------------------ *)
(** ** Go values *)

Declare Scope gw_scope.
Delimit Scope gw_scope with gw.
#[global] Open Scope gw_scope.
#[global] Open Scope Z_scope.

(** Text with the apostrophe standing for the double quote, so that JSON
    literals can be written inside Rocq strings. *)
Definition dquote : ascii := Ascii.ascii_of_nat 34.
Definition squote : ascii := Ascii.ascii_of_nat 39.

Fixpoint jtext (s : string) : string :=
  match s with
  | EmptyString => EmptyString
  | String c s' => String (if Ascii.eqb c squote then dquote else c) (jtext s')
  end.

(** The unsigned value of a byte, and the byte of a value modulo 256. *)
Definition byte_val (c : ascii) : Z := Z.of_N (N_of_ascii c).
Definition byte_of (z : Z) : ascii := ascii_of_N (Z.to_N (z mod 256)).

Lemma byte_val_range c : 0 <= byte_val c < 256.
Proof. unfold byte_val. pose proof (N_ascii_bounded c). lia. Qed.

Lemma byte_of_val c : byte_of (byte_val c) = c.
Proof.
  unfold byte_of. rewrite Z.mod_small by apply byte_val_range.
  unfold byte_val. rewrite N2Z.id. apply ascii_N_embedding.
Qed.

Lemma byte_val_of z : 0 <= z < 256 -> byte_val (byte_of z) = z.
Proof.
  intros Hz. unfold byte_val, byte_of.
  rewrite Z.mod_small by done.
  rewrite N_ascii_embedding; lia.
Qed.

Lemma byte_val_inj c d : byte_val c = byte_val d -> c = d.
Proof. intros H. rewrite <- (byte_of_val c), <- (byte_of_val d). by rewrite H. Qed.

Lemma byte_val_eqb c d : Ascii.eqb c d = (byte_val c =? byte_val d).
Proof.
  destruct (Ascii.eqb_spec c d) as [->|Hne]; symmetry.
  - apply Z.eqb_refl.
  - apply Z.eqb_neq. intros H. by apply Hne, byte_val_inj.
Qed.

(** [lia] with [/] and [mod] by constants expanded to their equations. *)
Ltac dlia := Z.to_euclidean_division_equations; lia.

(** Two's-complement wrap-around of Go's [int32] and [int64]. *)
Definition wrap (w z : Z) : Z := (z + 2 ^ (w - 1)) mod 2 ^ w - 2 ^ (w - 1).
Definition int32 (z : Z) : Z := wrap 32 z.
Definition int64 (z : Z) : Z := wrap 64 z.

Lemma wrap_id w z : 0 < w -> - 2 ^ (w - 1) <= z < 2 ^ (w - 1) -> wrap w z = z.
Proof.
  intros Hw Hz. unfold wrap.
  assert (2 ^ w = 2 * 2 ^ (w - 1)) as ->.
  { replace w with (1 + (w - 1)) at 1 by lia. by rewrite Z.pow_add_r by lia. }
  rewrite Z.mod_small; lia.
Qed.

Lemma wrap_range w z : 0 < w -> - 2 ^ (w - 1) <= wrap w z < 2 ^ (w - 1).
Proof.
  intros Hw. unfold wrap.
  assert (2 ^ w = 2 * 2 ^ (w - 1)) as ->.
  { replace w with (1 + (w - 1)) at 1 by lia. by rewrite Z.pow_add_r by lia. }
  assert (0 < 2 ^ (w - 1)) by (apply Z.pow_pos_nonneg; lia).
  pose proof (Z.mod_pos_bound (z + 2 ^ (w - 1)) (2 * 2 ^ (w - 1))). lia.
Qed.

Lemma int32_id z : - 2147483648 <= z < 2147483648 -> int32 z = z.
Proof. intros Hz. unfold int32. apply wrap_id; [lia | exact Hz]. Qed.

Lemma int64_id z : - 9223372036854775808 <= z < 9223372036854775808 -> int64 z = z.
Proof. intros Hz. unfold int64. apply wrap_id; [lia | exact Hz]. Qed.

(** [time.Duration] units, in nanoseconds. *)
Definition Nanosecond : Z := 1.
Definition Microsecond : Z := 1000.
Definition Millisecond : Z := 1000000.
Definition Second : Z := 1000000000.
Definition Minute : Z := 60 * Second.
Definition Hour : Z := 60 * Minute.

(** Go strings are byte sequences. *)
Definition nonempty (s : string) : bool := negb (String.eqb s EmptyString).
Definition str1 (c : ascii) : string := String c EmptyString.

Lemma nonempty_spec s : nonempty s = true <-> s <> EmptyString.
Proof. destruct s; cbn; split; congruence. Qed.

#[global] Arguments String.append !s1 s2 / : simpl nomatch.

Lemma str_app_nil_r s : (s ++ "")%string = s.
Proof. induction s as [|c s IH]; cbn; congruence. Qed.

Lemma str_app_assoc s1 s2 s3 : (s1 ++ (s2 ++ s3))%string = ((s1 ++ s2) ++ s3)%string.
Proof. induction s1 as [|c s IH]; cbn; congruence. Qed.

Lemma str_app_cons_assoc s c t : (s ++ String c t)%string = ((s ++ str1 c) ++ t)%string.
Proof. rewrite <- str_app_assoc. reflexivity. Qed.

Lemma str_app_inj_l s t1 t2 : (s ++ t1)%string = (s ++ t2)%string -> t1 = t2.
Proof. induction s as [|c s IH]; cbn; intros H; [done|]. injection H. auto. Qed.

Lemma str_length_app s t : String.length (s ++ t) = (String.length s + String.length t)%nat.
Proof. induction s as [|c s IH]; cbn; congruence. Qed.

Lemma str_app_inj_r s1 s2 t : (s1 ++ t)%string = (s2 ++ t)%string -> s1 = s2.
Proof.
  revert s2. induction s1 as [|c s IH]; intros [|c2 s2] H; cbn in H.
  - done.
  - apply (f_equal String.length) in H. cbn in H. rewrite str_length_app in H. lia.
  - apply (f_equal String.length) in H. cbn in H. rewrite str_length_app in H. lia.
  - injection H as -> H. f_equal. auto.
Qed.

(** Universal and existential tests over the bytes of a string. *)
Fixpoint str_forallb (p : ascii -> bool) (s : string) : bool :=
  match s with EmptyString => true | String c s' => p c && str_forallb p s' end.

Lemma str_forallb_app p s t :
  str_forallb p (s ++ t) = str_forallb p s && str_forallb p t.
Proof. induction s as [|c s IH]; cbn; [done|]. by rewrite IH, andb_assoc. Qed.

Create Rewrite HintDb gw_str.
#[export] Hint Rewrite str_app_nil_r str_length_app str_forallb_app : gw_str.

(** Decimal text of an integer ([%d], [strconv.Itoa]) and its reading back. *)
Definition format_int (z : Z) : string := DecimalString.NilZero.string_of_int (Z.to_int z).
Definition read_int (s : string) : option Z :=
  Z.of_int <$> DecimalString.NilZero.int_of_string s.

Lemma read_format z : read_int (format_int z) = Some z.
Proof.
  unfold read_int, format_int. rewrite DecimalString.NilZero.isi; cbn.
  - by rewrite DecimalZ.of_to.
  - destruct z; cbn; try done. pose proof (DecimalPos.Unsigned.to_uint_nonnil p). congruence.
  - destruct z; cbn; try done. pose proof (DecimalPos.Unsigned.to_uint_nonnil p). congruence.
Qed.

#[export] Instance format_int_inj : Inj (=) (=) format_int.
Proof. intros x y H. apply (f_equal read_int) in H. rewrite !read_format in H. congruence. Qed.

Lemma app_nil_iff {A} (l k : list A) : l ++ k = [] <-> l = [] /\ k = [].
Proof. destruct l, k; split; intros H; try done; by destruct H. Qed.

(** A key without duplicates determines the element. *)
Lemma NoDup_map_eq {A B} (f : A -> B) l x y :
  NoDup (map f l) -> x ∈ l -> y ∈ l -> f x = f y -> x = y.
Proof.
  intros Hnd Hx Hy Heq. induction l as [|a l IH]; [by apply elem_of_nil in Hx|].
  cbn [map] in Hnd. apply list.NoDup_cons in Hnd as [Ha Hnd].
  apply elem_of_cons in Hx as [->|Hx]; apply elem_of_cons in Hy as [->|Hy]; auto; exfalso; apply Ha.
  - rewrite Heq. by apply list_elem_of_fmap_2.
  - rewrite <- Heq. by apply list_elem_of_fmap_2.
Qed.

(* ------------------------------------------------------------------ *)
(** ** Go errors *)

(** A Go [error].  The text of an error is kept as its format string and the
    arguments it prints ([Errorf f args w], with [w] the error behind [%w] or
    the receiver of a join); nothing in the program branches on the rendered
    text.  [Permanent] is [*router.PermanentError], [Platform] is
    [*platformerrors.Error], [Status] a gRPC status error with its numeric
    code, [External] an error made by a library or a remote service. *)
Inductive error :=
  | Errorf (format : string) (args : list string) (wrapped : list error)
  | Permanent (format : string) (args : list string)
  | Platform (code : string) (status : Z) (message : string)
  | Status (code : Z) (format : string) (args : list string)
  | Canceled
  | External (what : string).

Definition errors_New (msg : string) : error := Errorf msg [] [].

(** [errors.As] and [errors.Is]: a depth-first walk of the wrap tree. *)
Section errors_as.
Context {A : Type} (hit : error -> option A).

Fixpoint errors_As (e : error) : option A :=
  match hit e with
  | Some a => Some a
  | None =>
      match e with
      | Errorf _ _ ws =>
          (fix go (l : list error) : option A :=
             match l with
             | [] => None
             | w :: l' => match errors_As w with Some a => Some a | None => go l' end
             end) ws
      | _ => None
      end
  end.
End errors_as.

Definition as_permanent : error -> option (string * list string) :=
  errors_As (fun e => match e with Permanent f a => Some (f, a) | _ => None end).
Definition as_platform : error -> option (string * Z * string) :=
  errors_As (fun e => match e with Platform c s m => Some (c, s, m) | _ => None end).
Definition as_status : error -> option (Z * (string * list string)) :=
  errors_As (fun e => match e with Status c f a => Some (c, (f, a)) | _ => None end).
Definition is_canceled (e : error) : bool :=
  match errors_As (fun e => match e with Canceled => Some tt | _ => None end) e with
  | Some _ => true
  | None => false
  end.

(** [errors.Join]: nil when there is nothing to join. *)
Definition errors_Join (es : list error) : option error :=
  match es with [] => None | _ => Some (Errorf "join" [] es) end.

(** [error.Error()]: the text of an error is made of its format and of texts
    of libraries. *)
Class ErrorText := error_text : error -> string.

(* ------------------------------------------------------------------ *)
(** ** Effects: a state and error monad with a schedule of remote calls *)

(** What happens to one remote call (Redis, PostgreSQL, Kafka, the engine): it
    goes through, it fails without taking effect, or it takes effect and the
    caller is told it failed (a lost acknowledgement). *)
Inductive fault := NoFault | FailBefore (e : error) | FailAfter (e : error).

(** One entry of the schedule: the time the call takes, and its fault. *)
Record tick := Tick { t_delay : N; t_fault : fault }.

(** The world a handler runs in: its data, the clock in nanoseconds, and the
    schedule of the remote calls to come; past its end calls are instantaneous
    and go through. *)
Record world (S : Type) := World { w_data : S; w_clock : Z; w_sched : list tick }.
Arguments World {S} _ _ _.
Arguments w_data {S} _.
Arguments w_clock {S} _.
Arguments w_sched {S} _.

Inductive result (A : Type) := Ok (a : A) | Err (e : error).
Arguments Ok {A} _.
Arguments Err {A} _.

Definition is_ok {A} (r : result A) : bool := match r with Ok _ => true | Err _ => false end.

(** A program is a tree of atomic steps on the world: what happens between two
    steps, and when, is for the system the program runs in to say.  [Step] does
    its transition and goes on with what it answers. *)
Inductive M (S A : Type) : Type :=
  | Done (r : result A)
  | Step {X : Type} (f : world S -> X * world S) (k : X -> M S A).
Arguments Done {S A} _.
Arguments Step {S A X} _ _.

(** A program running alone: its steps one after the other. *)
Fixpoint run {S A} (m : M S A) (w : world S) : result A * world S :=
  match m with
  | Done r => (r, w)
  | Step f k => let (x, w') := f w in run (k x) w'
  end.
Coercion run : M >-> Funclass.

Section monad.
Context {S : Type}.

Definition ret {A} (a : A) : M S A := Done (Ok a).
Definition throw {A} (e : error) : M S A := Done (Err e).
Fixpoint bind {A B} (m : M S A) (k : A -> M S B) : M S B :=
  match m with
  | Done (Ok a) => k a
  | Done (Err e) => Done (Err e)
  | Step f k' => Step f (fun x => bind (k' x) k)
  end.
(** [try m] hands the outcome of [m] to the program, as Go's [x, err := m()]. *)
Fixpoint try {A} (m : M S A) : M S (result A) :=
  match m with
  | Done r => Done (Ok r)
  | Step f k => Step f (fun x => try (k x))
  end.
(** One step that answers. *)
Definition atomic {A} (f : world S -> result A * world S) : M S A := Step f Done.
Definition get_data : M S S := atomic (fun w => (Ok (w_data w), w)).
Definition modify (f : S -> S) : M S unit :=
  atomic (fun w => (Ok tt, World (f (w_data w)) (w_clock w) (w_sched w))).
(** [time.Now()]. *)
Definition now : M S Z := atomic (fun w => (Ok (w_clock w), w)).
Definition of_result {A} (r : result A) : M S A := Done r.

Definition next_tick (l : list tick) : tick * list tick :=
  match l with [] => (Tick 0 NoFault, []) | t :: l' => (t, l') end.

(** A remote call with effect [f], which sees the clock of its execution. *)
Definition call {A} (f : Z -> S -> result A * S) (w : world S) : result A * world S :=
  let (t, sch) := next_tick (w_sched w) in
  let clk := w_clock w + Z.of_N (t_delay t) in
  match t_fault t with
  | NoFault => let (r, s) := f clk (w_data w) in (r, World s clk sch)
  | FailBefore e => (Err e, World (w_data w) clk sch)
  | FailAfter e => let (_, s) := f clk (w_data w) in (Err e, World s clk sch)
  end.
Definition remote {A} (f : Z -> S -> result A * S) : M S A := atomic (call f).

(** What a program does when it runs alone. *)
Lemma run_bind {A B} (m : M S A) (k : A -> M S B) w :
  run (bind m k) w = match run m w with (Ok a, w') => run (k a) w' | (Err e, w') => (Err e, w') end.
Proof.
  revert w. induction m as [[a|e]|X f k' IH]; intros w; cbn; [done..|].
  destruct (f w) as [x w']. apply IH.
Qed.

Lemma run_try {A} (m : M S A) w : run (try m) w = (Ok (fst (run m w)), snd (run m w)).
Proof.
  revert w. induction m as [r|X f k IH]; intros w; cbn; [done|]. destruct (f w) as [x w']. apply IH.
Qed.

Lemma run_atomic {A} (f : world S -> result A * world S) w : run (atomic f) w = f w.
Proof. cbn. by destruct (f w). Qed.

Lemma run_remote {A} (f : Z -> S -> result A * S) w : run (remote f) w = call f w.
Proof. apply run_atomic. Qed.

Lemma run_of_result {A} (r : result A) w : run (of_result r) w = (r, w).
Proof. done. Qed.
End monad.

Notation "'let!' x ':=' m 'in' k" := (bind m (fun x => k))
  (at level 10, x binder, m at level 100, k at level 200,
   format "'[v' 'let!'  x  ':='  m  'in' '/' k ']'") : gw_scope.
Notation "'do!' m 'in' k" := (bind m (fun _ => k))
  (at level 10, m at level 100, k at level 200,
   format "'[v' 'do!'  m  'in' '/' k ']'") : gw_scope.

(** The three outcomes of a remote call. *)
Lemma remote_inv {S A} (f : Z -> S -> result A * S) w :
  exists clk sch flt,
    w_clock w <= clk /\
    remote f w =
      match flt with
      | NoFault => (fst (f clk (w_data w)), World (snd (f clk (w_data w))) clk sch)
      | FailBefore e => (Err e, World (w_data w) clk sch)
      | FailAfter e => (Err e, World (snd (f clk (w_data w))) clk sch)
      end.
Proof.
  rewrite run_remote. unfold call. destruct (next_tick (w_sched w)) as [[n flt] sch].
  exists (w_clock w + Z.of_N n), sch, flt. cbn. split; [lia|].
  by destruct flt; [destruct (f _ _) | | destruct (f _ _)].
Qed.

Lemma bind_try {S A B} (m : M S A) (k : result A -> M S B) w :
  bind (try m) k w = k (fst (m w)) (snd (m w)).
Proof. by rewrite run_bind, run_try. Qed.

Lemma bind_now {S B} (k : Z -> M S B) w : run (bind now k) w = run (k (w_clock w)) w.
Proof. done. Qed.

Lemma bind_get_data {S B} (k : S -> M S B) w : run (bind get_data k) w = run (k (w_data w)) w.
Proof. done. Qed.

Lemma bind_modify {S B} (f : S -> S) (k : unit -> M S B) w :
  run (bind (modify f) k) w = run (k tt) (World (f (w_data w)) (w_clock w) (w_sched w)).
Proof. done. Qed.

(** Sequencing under a transition preorder: [within R m] says that every run
    of [m] moves the world along [R], whatever the schedule does. *)
Definition within {S A} (R : relation (world S)) (m : M S A) : Prop :=
  forall w, R w (snd (m w)).

Section within_rules.
Context {S : Type} (R : relation (world S)) `{!PreOrder R}.

Lemma within_ret {A} (a : A) : within R (ret a).
Proof. intros w. cbn. reflexivity. Qed.

Lemma within_throw {A} e : within R (@throw S A e).
Proof. intros w. cbn. reflexivity. Qed.

Lemma within_now : within R now.
Proof. intros w. cbn. reflexivity. Qed.

Lemma within_get_data : within R get_data.
Proof. intros w. cbn. reflexivity. Qed.

Lemma within_of_result {A} (r : result A) : within R (of_result r).
Proof. destruct r; [apply within_ret | apply within_throw]. Qed.

Lemma within_bind {A B} (m : M S A) (k : A -> M S B) :
  within R m -> (forall a, within R (k a)) -> within R (bind m k).
Proof.
  intros Hm Hk w. specialize (Hm w). rewrite run_bind.
  destruct (run m w) as [[a|e] w']; cbn in *; [|done].
  etransitivity; [exact Hm | apply Hk].
Qed.

Lemma within_try {A} (m : M S A) : within R m -> within R (try m).
Proof. intros Hm w. specialize (Hm w). by rewrite run_try. Qed.

Lemma within_modify f :
  (forall w, R w (World (f (w_data w)) (w_clock w) (w_sched w))) -> within R (modify f).
Proof. intros Hf w. apply Hf. Qed.

(** A remote call moves along [R] when waiting does and its effect does. *)
Lemma within_remote {A} (f : Z -> S -> result A * S) :
  (forall w clk sch, w_clock w <= clk -> R w (World (w_data w) clk sch)) ->
  (forall w clk sch, w_clock w <= clk ->
     R w (World (snd (f clk (w_data w))) clk sch)) ->
  within R (remote f).
Proof.
  intros Hwait Heff w. rewrite run_remote. unfold call.
  destruct (next_tick (w_sched w)) as [[d flt] sch]; cbn.
  assert (w_clock w <= w_clock w + Z.of_N d) as Hclk by lia.
  specialize (Heff w _ sch Hclk). specialize (Hwait w _ sch Hclk).
  destruct flt; destruct (f _ _) as [r s]; cbn in *; done.
Qed.
End within_rules.

Create HintDb gw_within.
#[export] Hint Resolve within_ret within_throw within_now within_get_data
  within_of_result within_bind within_try within_modify within_remote : gw_within.

(** Hoare triples over outcomes: [hoare P m Q] holds of every schedule. *)
Definition hoare {S A} (P : world S -> Prop) (m : M S A)
    (Q : result A -> world S -> Prop) : Prop :=
  forall w, P w -> Q (fst (m w)) (snd (m w)).

Section hoare_rules.
Context {S : Type}.

Lemma hoare_conseq {A} (P P' : world S -> Prop) (m : M S A) Q Q' :
  hoare P' m Q' -> (forall w, P w -> P' w) -> (forall r w, Q' r w -> Q r w) ->
  hoare P m Q.
Proof. intros Hm HP HQ w Hw. by apply HQ, Hm, HP. Qed.

Lemma hoare_ret {A} (a : A) (Q : result A -> world S -> Prop) :
  hoare (Q (Ok a)) (ret a) Q.
Proof. intros w Hw. exact Hw. Qed.

Lemma hoare_throw {A} e (Q : result A -> world S -> Prop) :
  hoare (Q (Err e)) (throw e) Q.
Proof. intros w Hw. exact Hw. Qed.

Lemma hoare_bind {A B} P (m : M S A) (k : A -> M S B) (mid : A -> world S -> Prop) Q :
  hoare P m (fun r w => match r with Ok a => mid a w | Err e => Q (Err e) w end) ->
  (forall a, hoare (mid a) (k a) Q) ->
  hoare P (bind m k) Q.
Proof.
  intros Hm Hk w Hw. specialize (Hm w Hw). rewrite run_bind.
  destruct (run m w) as [[a|e] w']; cbn in *; [by apply Hk | done].
Qed.

Lemma hoare_try {A} P (m : M S A) (Q : result (result A) -> world S -> Prop) :
  hoare P m (fun r w => Q (Ok r) w) -> hoare P (try m) Q.
Proof. intros Hm w Hw. specialize (Hm w Hw). by rewrite run_try. Qed.
End hoare_rules.

(** Case analysis on the scrutinee of the first [match] of the goal. *)
Ltac case_goal :=
  match goal with |- context [match ?x with _ => _ end] => destruct x eqn:? end.

(** ** Parts of the data *)

(** [get] and [put] read and write a part of the data. *)
Class Lens {S T} (get : S -> T) (put : T -> S -> S) : Prop := {
  get_put x s : get (put x s) = x;
  put_get s : put (get s) s = s;
  put_put x y s : put y (put x s) = put y s;
}.

(** The lens of a field of a record. *)
Ltac solve_lens := split; [done | by intros [] | done].

(** A program on a part of the data, as one on the whole. *)
Definition part {S T} (get : S -> T) (w : world S) : world T :=
  World (get (w_data w)) (w_clock w) (w_sched w).
Definition whole {S T} (put : T -> S -> S) (s : S) (w : world T) : world S :=
  World (put (w_data w) s) (w_clock w) (w_sched w).

Fixpoint zoom {S T A} (get : S -> T) (put : T -> S -> S) (m : M T A) : M S A :=
  match m with
  | Done r => Done r
  | Step f k =>
      Step (fun w => let (x, w') := f (part get w) in (x, whole put (w_data w) w'))
        (fun x => zoom get put (k x))
  end.

Lemma run_zoom {S T A} (get : S -> T) (put : T -> S -> S) `{!Lens get put} (m : M T A) w :
  run (zoom get put m) w = (fst (run m (part get w)), whole put (w_data w) (snd (run m (part get w)))).
Proof.
  revert w. induction m as [r|X f k IH]; intros w; cbn.
  - unfold whole, part. cbn. rewrite put_get. by destruct w.
  - destruct (f (part get w)) as [x w1]. rewrite IH. unfold part, whole. cbn.
    rewrite get_put, put_put. by destruct w1.
Qed.

Lemma within_zoom {S T A} (RT : relation (world T)) (R : relation (world S))
    (get : S -> T) (put : T -> S -> S) `{!Lens get put} (m : M T A) :
  (forall w w', RT (part get w) w' -> R w (whole put (w_data w) w')) ->
  within RT m -> within R (zoom get put m).
Proof. intros HR Hm w. rewrite (run_zoom get put). apply HR, Hm. Qed.

(** A remote call on a part of the data is a remote call on the whole. *)
Lemma zoom_remote {S T A} (get : S -> T) (put : T -> S -> S) (f : Z -> T -> result A * T) w :
  (forall s, put (get s) s = s) ->
  run (zoom get put (remote f)) w =
  run (remote (fun t s => let (r, x) := f t (get s) in (r, put x s))) w.
Proof.
  intros Hput. rewrite run_remote. unfold zoom, remote, atomic, call, part, whole. cbn [run w_sched w_clock w_data].
  destruct (next_tick (w_sched w)) as [[d flt] sch]. cbn [t_fault t_delay].
  destruct flt; cbn [w_sched w_clock w_data]; rewrite ?Hput; try done;
    by destruct (f _ (get (w_data w))).
Qed.

(** The run of a remote call on a part of the data: executed at time [t], it
    left [x] there, which is what was there or what the call makes of it. *)
Lemma zoom_remote_inv {S T A} (get : S -> T) (put : T -> S -> S) (f : Z -> T -> result A * T) w :
  (forall s, put (get s) s = s) ->
  let run := run (zoom get put (remote f)) w in
  exists t x, w_clock w <= t /\ w_clock (snd run) = t /\
    w_data (snd run) = put x (w_data w) /\
    (x = get (w_data w) \/ x = snd (f t (get (w_data w)))) /\
    forall a, fst run = Ok a -> fst (f t (get (w_data w))) = Ok a /\ x = snd (f t (get (w_data w))).
Proof.
  intros Hput. cbn zeta. rewrite zoom_remote by done.
  match goal with |- context [run (remote ?g) w] => destruct (remote_inv g w) as (c & sc & fl & Hc & ->) end.
  destruct (f c (get (w_data w))) as [r x] eqn:Hf.
  destruct fl; cbn [fst snd w_data w_clock].
  - exists c, x. rewrite Hf. cbn. split_and!; auto.
  - exists c, (get (w_data w)). rewrite Hput. split_and!; auto; done.
  - exists c, x. rewrite Hf. cbn. split_and!; auto; done.
Qed.

(** Time moves forward. *)
Definition later {S} (w w' : world S) : Prop := w_clock w <= w_clock w'.

#[export] Instance later_preorder {S} : PreOrder (@later S).
Proof. split; unfold later; intros ?; [lia|]. intros; lia. Qed.

Lemma later_remote {S A} (f : Z -> S -> result A * S) : within later (remote f).
Proof. by apply within_remote. Qed.

Lemma later_zoom {S T A} (get : S -> T) put `{!Lens get put} (m : M T A) :
  within later m -> within later (zoom get put m).
Proof. intros Hm. apply (within_zoom later later get put); [|done]. by unfold later. Qed.

#[export] Hint Resolve later_remote later_zoom : gw_within.

(** Which errors a program can end with, given those the schedule injects:
    [raises P m] when [P] holds of every error [m] returns on a schedule whose
    faults satisfy [P]. *)
Section raises.
Context (P : error -> Prop).

Definition fault_ok (t : tick) : Prop :=
  match t_fault t with NoFault => True | FailBefore e | FailAfter e => P e end.

Definition raises {S A} (m : M S A) : Prop :=
  hoare (fun w => Forall fault_ok (w_sched w)) m
    (fun r w => Forall fault_ok (w_sched w) /\ forall e, r = Err e -> P e).

Lemma raises_ret {S A} (a : A) : raises (@ret S A a).
Proof. by intros w Hw. Qed.

Lemma raises_throw {S A} e : P e -> raises (@throw S A e).
Proof. intros He w Hw. split; [done|]. by intros ? [= <-]. Qed.

Lemma raises_bind {S A B} (m : M S A) (k : A -> M S B) :
  raises m -> (forall a, raises (k a)) -> raises (bind m k).
Proof.
  intros Hm Hk w Hw. specialize (Hm w Hw). rewrite run_bind.
  destruct (run m w) as [[a|e] w1]; cbn in *; [apply Hk, Hm | naive_solver].
Qed.

(** What is tried never fails; its errors are the continuation's to judge. *)
Lemma raises_try {S A B} (m : M S A) (k : result A -> M S B) :
  raises m -> (forall a, raises (k (Ok a))) -> (forall e, P e -> raises (k (Err e))) ->
  raises (bind (try m) k).
Proof.
  intros Hm Hok Herr w Hw. specialize (Hm w Hw). rewrite bind_try.
  destruct (run m w) as [[a|e] w1]; cbn in *; [apply Hok, Hm | apply Herr; naive_solver].
Qed.

Lemma raises_remote {S A} (f : Z -> S -> result A * S) :
  (forall t s e, fst (f t s) = Err e -> P e) -> raises (remote f).
Proof.
  intros Hf w Hw. rewrite run_remote. unfold call.
  assert (fault_ok (fst (next_tick (w_sched w))) /\ Forall fault_ok (snd (next_tick (w_sched w))))
    as [Ht Hs] by (revert Hw; destruct (w_sched w); intros Hw; [by split | by apply (Forall_cons_1 _ t l)]).
  destruct (next_tick (w_sched w)) as [[n flt] sch]. cbn in *.
  destruct flt; cbn in *; [specialize (Hf (w_clock w + Z.of_N n) (w_data w))| | ];
    try destruct (f _ _); cbn in *; split; naive_solver.
Qed.

Lemma raises_zoom {S T A} (get : S -> T) put `{!Lens get put} (m : M T A) :
  raises m -> raises (zoom get put m).
Proof. intros Hm w Hw. rewrite (run_zoom get put). exact (Hm (part get w) Hw). Qed.
End raises.

Create HintDb gw_raises.
#[export] Hint Resolve raises_ret raises_zoom : gw_raises.
