(* ===== verification/Utf8.v ===== *)
(** * UTF-8 as Go's [unicode/utf8] reads and writes it

    [encoding/json] and [strings] walk strings rune by rune; this file holds
    the decoder ([DecodeRune], which answers [RuneError] with size 1 on an
    invalid byte), the encoder ([EncodeRune]) and [strings.TrimSpace]'s notion
    of white space, with the facts that make them inverse on valid input. *)
From S2P Require Import Prelude.

Fixpoint str_take (n : nat) (s : string) : string :=
  match n, s with
  | O, _ => ""
  | S _, EmptyString => ""
  | S n', String c s' => String c (str_take n' s')
  end.

Fixpoint str_drop (n : nat) (s : string) : string :=
  match n, s with
  | O, _ => s
  | S _, EmptyString => ""
  | S n', String _ s' => str_drop n' s'
  end.

Lemma str_take_drop n s : (str_take n s ++ str_drop n s)%string = s.
Proof. revert n; induction s as [|c s IH]; intros [|n]; cbn; try done. by rewrite IH. Qed.

Lemma str_length_drop n s : String.length (str_drop n s) = (String.length s - n)%nat.
Proof. revert n; induction s as [|c s IH]; intros [|n]; cbn; auto. Qed.

Definition RuneError : Z := 0xFFFD.

Definition in_range (lo hi z : Z) : bool := (lo <=? z) && (z <=? hi).

(** The bounds of the second byte, by the first ([acceptRanges]). *)
Definition accept_lo (p0 : Z) : Z :=
  if p0 =? 0xE0 then 0xA0 else if p0 =? 0xF0 then 0x90 else 0x80.
Definition accept_hi (p0 : Z) : Z :=
  if p0 =? 0xED then 0x9F else if p0 =? 0xF4 then 0x8F else 0xBF.

(** The continuation bytes of a sequence that starts with [p0], [None] when
    [p0] starts none. *)
Definition rune_tail (p0 : Z) : option nat :=
  if in_range 0xC2 0xDF p0 then Some 1%nat
  else if in_range 0xE0 0xEF p0 then Some 2%nat
  else if in_range 0xF0 0xF4 p0 then Some 3%nat
  else None.

(** [utf8.DecodeRuneInString]: the first rune and its size. *)
Definition decode_rune (s : string) : Z * nat :=
  match s with
  | EmptyString => (RuneError, 0%nat)
  | String c0 s1 =>
      let p0 := byte_val c0 in
      if p0 <? 0x80 then (p0, 1%nat) else
      match rune_tail p0, s1 with
      | Some n, String c1 s2 =>
          let p1 := byte_val c1 in
          if negb (in_range (accept_lo p0) (accept_hi p0) p1) then (RuneError, 1%nat)
          else match n, s2 with
          | 1%nat, _ => ((p0 - 0xC0) * 64 + (p1 - 0x80), 2%nat)
          | 2%nat, String c2 _ =>
              let p2 := byte_val c2 in
              if in_range 0x80 0xBF p2
              then (((p0 - 0xE0) * 64 + (p1 - 0x80)) * 64 + (p2 - 0x80), 3%nat)
              else (RuneError, 1%nat)
          | 3%nat, String c2 (String c3 _) =>
              let p2 := byte_val c2 in
              let p3 := byte_val c3 in
              if in_range 0x80 0xBF p2 && in_range 0x80 0xBF p3
              then ((((p0 - 0xF0) * 64 + (p1 - 0x80)) * 64 + (p2 - 0x80)) * 64 + (p3 - 0x80), 4%nat)
              else (RuneError, 1%nat)
          | _, _ => (RuneError, 1%nat)
          end
      | _, _ => (RuneError, 1%nat)
      end
  end.

(** [utf8.EncodeRune]: surrogates and values beyond U+10FFFF become U+FFFD. *)
Definition encode3 (r : Z) : string :=
  String (byte_of (0xE0 + r / 4096)) (String (byte_of (0x80 + r / 64 mod 64))
    (str1 (byte_of (0x80 + r mod 64)))).

Definition encode_rune (r : Z) : string :=
  if in_range 0 0x7F r then str1 (byte_of r)
  else if in_range 0 0x7FF r then String (byte_of (0xC0 + r / 64)) (str1 (byte_of (0x80 + r mod 64)))
  else if (r <? 0) || (0x10FFFF <? r) || in_range 0xD800 0xDFFF r then encode3 RuneError
  else if r <=? 0xFFFF then encode3 r
  else String (byte_of (0xF0 + r / 262144)) (String (byte_of (0x80 + r / 4096 mod 64))
         (String (byte_of (0x80 + r / 64 mod 64)) (str1 (byte_of (0x80 + r mod 64))))).

(** Whether the first rune of [s] is an invalid byte. *)
Definition bad_rune (s : string) : bool :=
  let (r, n) := decode_rune s in (r =? RuneError) && (n =? 1)%nat.

(** [sanitize] replaces every invalid byte by U+FFFD; [k] counts the bytes of
    the current rune still to copy. *)
Fixpoint sanitize_from (k : nat) (s : string) : string :=
  match s with
  | EmptyString => ""
  | String c s' =>
      match k with
      | S k' => String c (sanitize_from k' s')
      | O => if bad_rune s then encode_rune RuneError ++ sanitize_from 0 s'
             else String c (sanitize_from (pred (snd (decode_rune s))) s')
      end
  end.
Definition sanitize (s : string) : string := sanitize_from 0 s.

(** [utf8.ValidString]. *)
Definition valid_utf8 (s : string) : Prop := sanitize s = s.

#[export] Instance valid_utf8_dec s : Decision (valid_utf8 s).
Proof. unfold valid_utf8. apply _. Defined.

(** [unicode.IsSpace]. *)
Definition is_space_rune (r : Z) : bool :=
  in_range 9 13 r || (r =? 32) || (r =? 0x85) || (r =? 0xA0) || (r =? 0x1680)
  || in_range 0x2000 0x200A r || (r =? 0x2028) || (r =? 0x2029) || (r =? 0x202F)
  || (r =? 0x205F) || (r =? 0x3000).

(** [strings.TrimSpace s == ""]: every rune is white space. *)
Fixpoint is_blank_from (k : nat) (s : string) : bool :=
  match s with
  | EmptyString => true
  | String c s' =>
      match k with
      | S k' => is_blank_from k' s'
      | O => is_space_rune (fst (decode_rune s)) && is_blank_from (pred (snd (decode_rune s))) s'
      end
  end.
Definition is_blank (s : string) : bool := is_blank_from 0 s.

(* ------------------------------------------------------------------ *)
(** ** Facts *)

Ltac unrange :=
  unfold in_range, RuneError in *;
  repeat match goal with
    | H : andb _ _ = true |- _ => apply andb_true_iff in H; destruct H
    | H : orb _ _ = false |- _ => apply orb_false_iff in H; destruct H
    | H : negb _ = false |- _ => apply negb_false_iff in H
    | H : (_ <=? _) = true |- _ => apply Z.leb_le in H
    | H : (_ <? _) = true |- _ => apply Z.ltb_lt in H
    | H : (_ =? _) = true |- _ => apply Z.eqb_eq in H
    | H : (_ <=? _) = false |- _ => apply Z.leb_gt in H
    | H : (_ <? _) = false |- _ => apply Z.ltb_ge in H
    | H : (_ =? _) = false |- _ => apply Z.eqb_neq in H
    end.

(** The shapes a rune can have at the head of a string. *)
Inductive rune_view : string -> Z -> nat -> Prop :=
  | rv_ascii c t : byte_val c < 0x80 -> rune_view (String c t) (byte_val c) 1
  | rv_2 c0 c1 t r :
      0x80 <= r <= 0x7FF -> byte_val c0 = 0xC0 + r / 64 -> byte_val c1 = 0x80 + r mod 64 ->
      rune_view (String c0 (String c1 t)) r 2
  | rv_3 c0 c1 c2 t r :
      0x800 <= r <= 0xFFFF -> (r < 0xD800 \/ 0xDFFF < r) ->
      byte_val c0 = 0xE0 + r / 4096 -> byte_val c1 = 0x80 + r / 64 mod 64 ->
      byte_val c2 = 0x80 + r mod 64 ->
      rune_view (String c0 (String c1 (String c2 t))) r 3
  | rv_4 c0 c1 c2 c3 t r :
      0x10000 <= r <= 0x10FFFF ->
      byte_val c0 = 0xF0 + r / 262144 -> byte_val c1 = 0x80 + r / 4096 mod 64 ->
      byte_val c2 = 0x80 + r / 64 mod 64 -> byte_val c3 = 0x80 + r mod 64 ->
      rune_view (String c0 (String c1 (String c2 (String c3 t)))) r 4.

(** A rune either is an invalid byte, answered [(RuneError, 1)], or has one of
    the four shapes. *)
Lemma decode_rune_view c s :
  decode_rune (String c s) = (RuneError, 1%nat) \/
  rune_view (String c s) (fst (decode_rune (String c s))) (snd (decode_rune (String c s))).
Proof.
  pose proof (byte_val_range c) as Hc. cbn -[Z.mul Z.sub].
  destruct (byte_val c <? 0x80) eqn:Ha.
  { right. cbn. apply rv_ascii. by apply Z.ltb_lt. }
  unfold rune_tail.
  destruct (in_range 0xC2 0xDF (byte_val c)) eqn:H2;
    [|destruct (in_range 0xE0 0xEF (byte_val c)) eqn:H3;
      [|destruct (in_range 0xF0 0xF4 (byte_val c)) eqn:H4; [|by left]]];
    destruct s as [|c1 s]; try (by left).
  - destruct (in_range (accept_lo _) _ _) eqn:H1; cbn -[Z.mul Z.sub]; [|by left].
    right. unfold accept_lo, accept_hi in H1. unrange.
    destruct (byte_val c =? 0xE0) eqn:?, (byte_val c =? 0xF0) eqn:?,
      (byte_val c =? 0xED) eqn:?, (byte_val c =? 0xF4) eqn:?; unrange; try lia.
    apply rv_2; dlia.
  - destruct (in_range (accept_lo _) _ _) eqn:H1; cbn -[Z.mul Z.sub]; [|by left].
    destruct s as [|c2 s]; [by left|].
    destruct (in_range 0x80 0xBF (byte_val c2)) eqn:H5; [|by left].
    right. unfold accept_lo, accept_hi in H1. unrange. cbn -[Z.mul Z.sub].
    destruct (byte_val c =? 0xE0) eqn:?, (byte_val c =? 0xF0) eqn:?,
      (byte_val c =? 0xED) eqn:?, (byte_val c =? 0xF4) eqn:?; unrange; try lia;
    apply rv_3; dlia.
  - destruct (in_range (accept_lo _) _ _) eqn:H1; cbn -[Z.mul Z.sub]; [|by left].
    destruct s as [|c2 [|c3 s]]; [by left|by left|].
    destruct (in_range 0x80 0xBF (byte_val c2) && in_range 0x80 0xBF (byte_val c3)) eqn:H5;
      [|by left].
    right. unfold accept_lo, accept_hi in H1. unrange. cbn -[Z.mul Z.sub].
    destruct (byte_val c =? 0xE0) eqn:?, (byte_val c =? 0xF0) eqn:?,
      (byte_val c =? 0xED) eqn:?, (byte_val c =? 0xF4) eqn:?; unrange; try lia;
    apply rv_4; dlia.
Qed.

Lemma in_range_true lo hi z : lo <= z <= hi -> in_range lo hi z = true.
Proof. intros H. unfold in_range. apply andb_true_iff. split; lia. Qed.

Lemma in_range_false lo hi z : z < lo \/ hi < z -> in_range lo hi z = false.
Proof. intros H. unfold in_range. apply andb_false_iff. destruct H; [left|right]; lia. Qed.

Lemma rune_tail_1 p : 0xC2 <= p <= 0xDF -> rune_tail p = Some 1%nat.
Proof. intros H. unfold rune_tail. by rewrite in_range_true. Qed.

Lemma rune_tail_2 p : 0xE0 <= p <= 0xEF -> rune_tail p = Some 2%nat.
Proof. intros H. unfold rune_tail. by rewrite in_range_false, in_range_true by lia. Qed.

Lemma rune_tail_3 p : 0xF0 <= p <= 0xF4 -> rune_tail p = Some 3%nat.
Proof. intros H. unfold rune_tail. by rewrite !in_range_false, in_range_true by lia. Qed.

(** The second byte of a well-formed rune is in the range its first allows. *)
Lemma accept_ok p0 p1 :
  0x80 <= p1 <= 0xBF -> (p0 = 0xE0 -> 0xA0 <= p1) -> (p0 = 0xF0 -> 0x90 <= p1) ->
  (p0 = 0xED -> p1 <= 0x9F) -> (p0 = 0xF4 -> p1 <= 0x8F) ->
  in_range (accept_lo p0) (accept_hi p0) p1 = true.
Proof.
  intros. apply in_range_true. unfold accept_lo, accept_hi.
  repeat case_goal; unrange; lia.
Qed.

(** The decoder reads a well-formed rune back. *)
Lemma view_decode s r n : rune_view s r n -> decode_rune s = (r, n).
Proof.
  destruct 1 as [c t Ha|c0 c1 t r Hr H0 H1|c0 c1 c2 t r Hr Hs H0 H1 H2
    |c0 c1 c2 c3 t r Hr H0 H1 H2 H3]; cbn -[Z.mul Z.sub].
  - apply Z.ltb_lt in Ha. by rewrite Ha.
  - rewrite (proj2 (Z.ltb_ge _ _)), rune_tail_1, accept_ok by dlia.
    cbn -[Z.mul Z.sub]. f_equal. dlia.
  - rewrite (proj2 (Z.ltb_ge _ _)), rune_tail_2, accept_ok by dlia.
    cbn -[Z.mul Z.sub]. rewrite in_range_true by dlia. f_equal. dlia.
  - rewrite (proj2 (Z.ltb_ge _ _)), rune_tail_3, accept_ok by dlia.
    cbn -[Z.mul Z.sub]. rewrite !in_range_true by dlia. cbn [andb]. f_equal. dlia.
Qed.

(** The rune [EncodeRune] writes for [r]. *)
Definition norm_rune (r : Z) : Z :=
  if (r <? 0) || (0x10FFFF <? r) || in_range 0xD800 0xDFFF r then RuneError else r.

(** Writing a rune gives one of the four shapes. *)
Lemma encode_rune_view r t :
  rune_view (encode_rune r ++ t) (norm_rune r) (String.length (encode_rune r)).
Proof.
  assert (forall r, 0x800 <= r <= 0xFFFF -> r < 0xD800 \/ 0xDFFF < r ->
    rune_view (encode3 r ++ t) r 3) as H3.
  { intros r' Hr Hs. unfold encode3, str1. apply rv_3; [done..| | |];
      rewrite byte_val_of; dlia. }
  unfold encode_rune, norm_rune.
  destruct (in_range 0 0x7F r) eqn:E1.
  { unrange. rewrite !orb_false_intro by lia. cbn.
    rewrite <- (byte_val_of r) at 2 by lia. apply rv_ascii. rewrite byte_val_of; lia. }
  destruct (in_range 0 0x7FF r) eqn:E2.
  { unfold in_range in *. rewrite !orb_false_intro by lia.
    cbn -[Z.div Z.modulo]. apply rv_2; [lia| |]; rewrite byte_val_of; dlia. }
  destruct ((r <? 0) || (0x10FFFF <? r) || in_range 0xD800 0xDFFF r) eqn:E3.
  { apply H3; unfold RuneError; lia. }
  unfold in_range in *. destruct (r <=? 0xFFFF) eqn:E4.
  { apply H3; lia. }
  cbn -[Z.div Z.modulo]. apply rv_4; [lia| | | |]; rewrite byte_val_of; dlia.
Qed.

Lemma decode_encode r t :
  decode_rune (encode_rune r ++ t) = (norm_rune r, String.length (encode_rune r)).
Proof. apply view_decode, encode_rune_view. Qed.

(** Writing back a rune that was read gives the bytes it was read from. *)
Lemma view_encode s r n : rune_view s r n -> encode_rune r = str_take n s.
Proof.
  destruct 1 as [c t Ha|c0 c1 t r Hr H0 H1|c0 c1 c2 t r Hr Hs H0 H1 H2
    |c0 c1 c2 c3 t r Hr H0 H1 H2 H3]; unfold encode_rune; cbn -[Z.div Z.modulo].
  - pose proof (byte_val_range c). rewrite in_range_true by lia. by rewrite byte_of_val.
  - rewrite in_range_false, in_range_true by lia. by rewrite <- H0, <- H1, !byte_of_val.
  - rewrite !in_range_false by lia. rewrite !(proj2 (Z.ltb_ge _ _)) by lia. cbn.
    rewrite (proj2 (Z.leb_le _ _)) by lia. unfold encode3.
    by rewrite <- H0, <- H1, <- H2, !byte_of_val.
  - rewrite !in_range_false by lia. rewrite !(proj2 (Z.ltb_ge _ _)) by lia. cbn -[Z.div Z.modulo].
    rewrite (proj2 (Z.leb_gt _ _)) by lia.
    by rewrite <- H0, <- H1, <- H2, <- H3, !byte_of_val.
Qed.

(** ** Induction rune by rune *)

Lemma rune_view_size s r n : rune_view s r n -> (1 <= n <= String.length s)%nat.
Proof. destruct 1; cbn; lia. Qed.

Lemma rune_ind (P : string -> Prop) :
  P "" ->
  (forall c s, bad_rune (String c s) = true -> P s -> P (String c s)) ->
  (forall s r n, rune_view s r n -> P (str_drop n s) -> P s) ->
  forall s, P s.
Proof.
  intros H0 Hbad Hview s.
  assert (forall m s, (String.length s <= m)%nat -> P s) as H; [|by eapply H].
  clear s. intros m. induction m as [|m IH]; intros s Hs.
  - destruct s; [done | cbn in Hs; lia].
  - destruct s as [|c s]; [done|]. cbn in Hs.
    destruct (decode_rune_view c s) as [Hd|Hv].
    + apply Hbad; [|apply IH; lia]. unfold bad_rune. by rewrite Hd.
    + eapply Hview; [exact Hv|]. apply IH.
      apply rune_view_size in Hv. rewrite str_length_drop. cbn [String.length] in *. lia.
Qed.

(** A well-formed rune is not taken for an invalid byte. *)
Lemma view_not_bad s r n : rune_view s r n -> bad_rune s = false.
Proof.
  intros Hv. unfold bad_rune. rewrite (view_decode _ _ _ Hv).
  apply andb_false_iff. destruct Hv; [left; unfold RuneError; lia | by right..].
Qed.

Lemma bad_rune_high c s : bad_rune (String c s) = true -> 128 <= byte_val c.
Proof.
  unfold bad_rune. intros H.
  destruct (Z.ltb_spec (byte_val c) 128) as [Hlt|]; [|done].
  rewrite (view_decode _ _ _ (rv_ascii c s Hlt)) in H.
  apply andb_true_iff in H as [H _]. apply Z.eqb_eq in H. unfold RuneError in H. lia.
Qed.

Lemma sanitize_from_skip k s :
  sanitize_from k s = (str_take k s ++ sanitize_from 0 (str_drop k s))%string.
Proof.
  revert k; induction s as [|c s IH]; intros [|k]; cbn [str_take str_drop sanitize_from]; try done.
  rewrite IH. done.
Qed.

Lemma view_head s r n : rune_view s r n ->
  exists c s', s = String c s' /\ str_take n s = String c (str_take (pred n) s') /\
    str_drop n s = str_drop (pred n) s'.
Proof. destruct 1; eexists _, _; cbn; done. Qed.

Lemma sanitize_view s r n : rune_view s r n ->
  sanitize s = (str_take n s ++ sanitize (str_drop n s))%string.
Proof.
  intros Hv. destruct (view_head _ _ _ Hv) as (c & s' & -> & -> & ->).
  unfold sanitize. cbn [sanitize_from]. rewrite (view_not_bad _ _ _ Hv).
  rewrite (view_decode _ _ _ Hv). cbn [snd]. by rewrite sanitize_from_skip.
Qed.

Lemma sanitize_bad c s : bad_rune (String c s) = true ->
  sanitize (String c s) = (encode_rune RuneError ++ sanitize s)%string.
Proof. intros H. unfold sanitize. cbn [sanitize_from]. by rewrite H. Qed.

Lemma str_take_app s t : str_take (String.length s) (s ++ t) = s.
Proof. induction s as [|c s IH]; cbn; [by destruct t|]. by rewrite IH. Qed.

Lemma str_drop_app s t : str_drop (String.length s) (s ++ t) = t.
Proof. induction s as [|c s IH]; cbn; [by destruct t|]. exact IH. Qed.

(** Text that starts with an encoded rune is valid when the rest is. *)
Lemma valid_encode r t : valid_utf8 t -> valid_utf8 (encode_rune r ++ t).
Proof.
  unfold valid_utf8. intros Ht. rewrite (sanitize_view _ _ _ (encode_rune_view r t)).
  by rewrite str_take_app, str_drop_app, Ht.
Qed.

Lemma valid_ascii c t : byte_val c < 128 -> valid_utf8 t -> valid_utf8 (String c t).
Proof.
  unfold valid_utf8. intros Hc Ht. rewrite (sanitize_view _ _ _ (rv_ascii c t Hc)).
  cbn [str_take str_drop String.append]. by rewrite Ht.
Qed.

Lemma view_take s r n t : rune_view s r n -> rune_view (str_take n s ++ t) r n.
Proof. destruct 1; cbn; by constructor. Qed.

Definition high (c : ascii) : bool := 128 <=? byte_val c.

(** All the bytes of a rune of several bytes are high. *)
Lemma view_high s r n : rune_view s r n -> (1 < n)%nat -> str_forallb high (str_take n s) = true.
Proof.
  destruct 1 as [| | |]; intros Hn; [lia|..]; cbn [str_take str_forallb]; unfold high;
    repeat (rewrite (proj2 (Z.leb_le _ _)) by dlia); done.
Qed.
