(* ===== verification/Json.v ===== *)
(** * The part of [encoding/json] the gateway uses

    The scanner is Go's own byte-driven state machine: one [scan_step] per
    byte with an explicit parse stack bounded by [maxNestingDepth], so
    recognising a text is a structural fold and needs no fuel.  On it are built
    validity ([checkValid]), compaction with HTML escaping ([appendCompact]),
    the one-level split of an object or array into raw members, string quoting
    ([appendString]) and unquoting ([unquoteBytes]), and the case-folding key
    match of struct decoding. *)
From S2P Require Import Prelude Utf8.

Module Scanner.

Inductive step :=
  | BeginValueOrEmpty | BeginValue | BeginStringOrEmpty | BeginString
  | EndValue | EndTop
  | InString | InStringEsc | InStringEscU | InStringEscU1 | InStringEscU12 | InStringEscU123
  | StNeg | St1 | St0 | StDot | StDot0 | StE | StESign | StE0
  | StT | StTr | StTru | StF | StFa | StFal | StFals | StN | StNu | StNul
  | SError.

Inductive parse_state := ParseObjectKey | ParseObjectValue | ParseArrayValue.

Inductive op :=
  | Continue | BeginLiteral | BeginObject | ObjectKey | ObjectValue | EndObject
  | BeginArray | ArrayValue | EndArray | SkipSpace | End | Error.

#[export] Instance step_eq_dec : EqDecision step.
Proof. solve_decision. Defined.
#[export] Instance op_eq_dec : EqDecision op.
Proof. solve_decision. Defined.
#[export] Instance parse_state_eq_dec : EqDecision parse_state.
Proof. solve_decision. Defined.

(** The current step and the parse stack, innermost first. *)
Definition scanner : Type := step * list parse_state.

Definition maxNestingDepth : N := 10000%N.

Definition chr (c : ascii) (n : Z) : bool := byte_val c =? n.
Definition is_space (c : ascii) : bool := chr c 32 || chr c 9 || chr c 13 || chr c 10.
Definition is_digit (c : ascii) : bool := in_range 48 57 (byte_val c).
Definition is_hex (c : ascii) : bool :=
  is_digit c || in_range 97 102 (byte_val c) || in_range 65 70 (byte_val c).

Section step.
(** The nesting bound; Go's is [maxNestingDepth]. *)
Context (lim : N).

Definition err (stk : list parse_state) : scanner * op := ((SError, stk), Error).

Definition push (p : parse_state) (next : step) (o : op) (stk : list parse_state) : scanner * op :=
  if (N.of_nat (length (p :: stk)) <=? lim)%N
  then ((next, p :: stk), o)
  else err (p :: stk).

Definition pop (stk : list parse_state) (o : op) : scanner * op :=
  match stk with
  | [] => ((EndTop, []), o)
  | _ => ((EndValue, stk), o)
  end.

Definition end_top (c : ascii) (stk : list parse_state) : scanner * op :=
  if is_space c then ((EndTop, stk), End) else ((SError, stk), End).

Definition end_value (c : ascii) (stk : list parse_state) : scanner * op :=
  match stk with
  | [] => end_top c []
  | p :: stk' =>
      if is_space c then ((EndValue, stk), SkipSpace) else
      match p with
      | ParseObjectKey =>
          if chr c 58 then ((BeginValue, ParseObjectValue :: stk'), ObjectKey) else err stk
      | ParseObjectValue =>
          if chr c 44 then ((BeginString, ParseObjectKey :: stk'), ObjectValue)
          else if chr c 125 then pop stk' EndObject else err stk
      | ParseArrayValue =>
          if chr c 44 then ((BeginValue, stk), ArrayValue)
          else if chr c 93 then pop stk' EndArray else err stk
      end
  end.

Definition begin_value (c : ascii) (stk : list parse_state) : scanner * op :=
  if is_space c then ((BeginValue, stk), SkipSpace)
  else if chr c 123 then push ParseObjectKey BeginStringOrEmpty BeginObject stk
  else if chr c 91 then push ParseArrayValue BeginValueOrEmpty BeginArray stk
  else if chr c 34 then ((InString, stk), BeginLiteral)
  else if chr c 45 then ((StNeg, stk), BeginLiteral)
  else if chr c 48 then ((St0, stk), BeginLiteral)
  else if chr c 116 then ((StT, stk), BeginLiteral)
  else if chr c 102 then ((StF, stk), BeginLiteral)
  else if chr c 110 then ((StN, stk), BeginLiteral)
  else if in_range 49 57 (byte_val c) then ((St1, stk), BeginLiteral)
  else err stk.

Definition begin_string (c : ascii) (stk : list parse_state) : scanner * op :=
  if is_space c then ((BeginString, stk), SkipSpace)
  else if chr c 34 then ((InString, stk), BeginLiteral)
  else err stk.

Definition state0 (c : ascii) (stk : list parse_state) : scanner * op :=
  if chr c 46 then ((StDot, stk), Continue)
  else if chr c 101 || chr c 69 then ((StE, stk), Continue)
  else end_value c stk.

Definition state_esign (c : ascii) (stk : list parse_state) : scanner * op :=
  if is_digit c then ((StE0, stk), Continue) else err stk.

(** Continue with [next] when the byte is [n], fail otherwise. *)
Definition expect (n : Z) (next : step) (c : ascii) (stk : list parse_state) : scanner * op :=
  if chr c n then ((next, stk), Continue) else err stk.
Definition expect_hex (next : step) (c : ascii) (stk : list parse_state) : scanner * op :=
  if is_hex c then ((next, stk), Continue) else err stk.

Definition is_escape (c : ascii) : bool :=
  chr c 98 || chr c 102 || chr c 110 || chr c 114 || chr c 116 || chr c 92 || chr c 47 || chr c 34.

(** [s.step(s, c)]. *)
Definition step_at (sc : scanner) (c : ascii) : scanner * op :=
  let (q, stk) := sc in
  match q with
  | BeginValueOrEmpty =>
      if is_space c then ((q, stk), SkipSpace)
      else if chr c 93 then end_value c stk else begin_value c stk
  | BeginValue => begin_value c stk
  | BeginStringOrEmpty =>
      if is_space c then ((q, stk), SkipSpace)
      else if chr c 125 then
        match stk with
        | _ :: stk' => end_value c (ParseObjectValue :: stk')
        | [] => err stk
        end
      else begin_string c stk
  | BeginString => begin_string c stk
  | EndValue => end_value c stk
  | EndTop => end_top c stk
  | InString =>
      if chr c 34 then ((EndValue, stk), Continue)
      else if chr c 92 then ((InStringEsc, stk), Continue)
      else if byte_val c <? 32 then err stk
      else ((InString, stk), Continue)
  | InStringEsc =>
      if is_escape c then ((InString, stk), Continue)
      else if chr c 117 then ((InStringEscU, stk), Continue)
      else err stk
  | InStringEscU => expect_hex InStringEscU1 c stk
  | InStringEscU1 => expect_hex InStringEscU12 c stk
  | InStringEscU12 => expect_hex InStringEscU123 c stk
  | InStringEscU123 => expect_hex InString c stk
  | StNeg =>
      if chr c 48 then ((St0, stk), Continue)
      else if in_range 49 57 (byte_val c) then ((St1, stk), Continue)
      else err stk
  | St1 => if is_digit c then ((St1, stk), Continue) else state0 c stk
  | St0 => state0 c stk
  | StDot => if is_digit c then ((StDot0, stk), Continue) else err stk
  | StDot0 =>
      if is_digit c then ((StDot0, stk), Continue)
      else if chr c 101 || chr c 69 then ((StE, stk), Continue)
      else end_value c stk
  | StE => if chr c 43 || chr c 45 then ((StESign, stk), Continue) else state_esign c stk
  | StESign => state_esign c stk
  | StE0 => if is_digit c then ((StE0, stk), Continue) else end_value c stk
  | StT => expect 114 StTr c stk
  | StTr => expect 117 StTru c stk
  | StTru => expect 101 EndValue c stk
  | StF => expect 97 StFa c stk
  | StFa => expect 108 StFal c stk
  | StFal => expect 115 StFals c stk
  | StFals => expect 101 EndValue c stk
  | StN => expect 117 StNu c stk
  | StNu => expect 108 StNul c stk
  | StNul => expect 108 EndValue c stk
  | SError => err stk
  end.

Fixpoint run_at (sc : scanner) (s : string) : scanner :=
  match s with
  | EmptyString => sc
  | String c s' => run_at (fst (step_at sc c)) s'
  end.

End step.

Definition scan_step : scanner -> ascii -> scanner * op := step_at maxNestingDepth.
Definition run : scanner -> string -> scanner := run_at maxNestingDepth.

Definition start : scanner := (BeginValue, []).

(** [scan.eof() != scanError]: one more space completes a pending value. *)
Definition eof_ok (sc : scanner) : bool :=
  match fst (fst (scan_step sc " "%char)) with EndTop => true | _ => false end.

(** [checkValid(data) == nil]. *)
Definition checkValid (s : string) : bool := eof_ok (run start s).

End Scanner.
Import Scanner.

(* ------------------------------------------------------------------ *)
(** ** Strings *)

Definition backslash : ascii := Ascii.ascii_of_nat 92.

(** The lowercase hex digit of [0 <= n < 16], and the value of a hex digit. *)
Definition hex_digit (n : Z) : ascii := byte_of (if n <? 10 then 48 + n else 87 + n).
Definition hex_val (c : ascii) : option Z :=
  let v := byte_val c in
  if in_range 48 57 v then Some (v - 48)
  else if in_range 97 102 v then Some (v - 97 + 10)
  else if in_range 65 70 v then Some (v - 65 + 10)
  else None.

Definition esc (c : ascii) (s : string) : string := String backslash (String c s).
(** [\u00XY], the escape of a byte. *)
Definition esc_u00 (z : Z) : string :=
  esc "u"%char (String "0"%char (String "0"%char
    (String (hex_digit (z / 16)) (str1 (hex_digit (z mod 16)))))).
(** [\u202X], the escapes of U+2028 and U+2029. *)
Definition esc_u202 (z : Z) : string :=
  esc "u"%char (String "2"%char (String "0"%char
    (String "2"%char (str1 (hex_digit (z mod 16)))))).
Definition esc_ufffd : string :=
  esc "u"%char (String "f"%char (String "f"%char (String "f"%char (str1 "d"%char)))).

(** [htmlSafeSet], for bytes below [utf8.RuneSelf]. *)
Definition html_safe (c : ascii) : bool :=
  (32 <=? byte_val c) &&
  negb (chr c 34 || chr c 38 || chr c 60 || chr c 62 || chr c 92).

Definition escape_ascii (c : ascii) : string :=
  if html_safe c then str1 c
  else if chr c 92 || chr c 34 then esc c ""
  else if chr c 8 then esc "b"%char ""
  else if chr c 12 then esc "f"%char ""
  else if chr c 10 then esc "n"%char ""
  else if chr c 13 then esc "r"%char ""
  else if chr c 9 then esc "t"%char ""
  else esc_u00 (byte_val c).

(** The body [appendString] writes between the quotes, HTML escaping on.  [k]
    bytes of the current rune are still to be copied or, for an escaped
    separator, dropped. *)
Fixpoint quote_from (copy : bool) (k : nat) (s : string) : string :=
  match s with
  | EmptyString => ""
  | String c s' =>
      match k with
      | S k' => if copy then String c (quote_from copy k' s') else quote_from copy k' s'
      | O =>
          if byte_val c <? 128 then escape_ascii c ++ quote_from true 0 s'
          else if bad_rune s then esc_ufffd ++ quote_from true 0 s'
          else let (r, n) := decode_rune s in
               if (r =? 0x2028) || (r =? 0x2029)
               then esc_u202 r ++ quote_from false (pred n) s'
               else String c (quote_from true (pred n) s')
      end
  end.

Definition in_quotes (s : string) : string := String dquote (s ++ str1 dquote).
Definition appendString (s : string) : string := in_quotes (quote_from true 0 s).

(** [getu4]: the value of a [\uXXXX] escape at the head of [s]. *)
Definition getu4 (s : string) : option Z :=
  match s with
  | String b (String u (String c1 (String c2 (String c3 (String c4 _))))) =>
      if chr b 92 && chr u 117 then
        match hex_val c1, hex_val c2, hex_val c3, hex_val c4 with
        | Some v1, Some v2, Some v3, Some v4 => Some (((v1 * 16 + v2) * 16 + v3) * 16 + v4)
        | _, _, _, _ => None
        end
      else None
  | _ => None
  end.

Definition is_surrogate (r : Z) : bool := in_range 0xD800 0xDFFF r.

(** [utf16.DecodeRune], on the optional second half. *)
Definition utf16_decode (r1 : Z) (r2 : option Z) : option Z :=
  match r2 with
  | Some r2 =>
      if in_range 0xD800 0xDBFF r1 && in_range 0xDC00 0xDFFF r2
      then Some ((r1 - 0xD800) * 1024 + (r2 - 0xDC00) + 0x10000)
      else None
  | None => None
  end.

(** The one-letter escapes. *)
Definition simple_escape (e : ascii) : option ascii :=
  if chr e 34 || chr e 92 || chr e 47 || chr e 39 then Some e
  else if chr e 98 then Some (byte_of 8)
  else if chr e 102 then Some (byte_of 12)
  else if chr e 110 then Some (byte_of 10)
  else if chr e 114 then Some (byte_of 13)
  else if chr e 116 then Some (byte_of 9)
  else None.

(** The bytes a rune escape at the head of [s] stands for and its length: a
    surrogate pair is one rune, a lone surrogate is U+FFFD. *)
Definition unescape_rune (s : string) : option (string * nat) :=
  match getu4 s with
  | None => None
  | Some rr =>
      if is_surrogate rr then
        match utf16_decode rr (getu4 (str_drop 6 s)) with
        | Some dec => Some (encode_rune dec, 12%nat)
        | None => Some (encode_rune RuneError, 6%nat)
        end
      else Some (encode_rune rr, 6%nat)
  end.

(** The body of [unquoteBytes], after the quotes are cut off; [k] bytes are
    already consumed. *)
Fixpoint unquote_from (k : nat) (s : string) : option string :=
  match s with
  | EmptyString => Some ""
  | String c s' =>
      match k with
      | S k' => unquote_from k' s'
      | O =>
          if chr c 92 then
            match s' with
            | EmptyString => None
            | String e _ =>
                if chr e 117 then
                  match unescape_rune s with
                  | Some (bs, n) => String.append bs <$> unquote_from (pred n) s'
                  | None => None
                  end
                else match simple_escape e with
                | Some d => String d <$> unquote_from 1 s'
                | None => None
                end
            end
          else if chr c 34 || (byte_val c <? 32) then None
          else if byte_val c <? 128 then String c <$> unquote_from 0 s'
          else let (r, n) := decode_rune s in
               String.append (encode_rune r) <$> unquote_from (pred n) s'
      end
  end.

(** Cut the closing quote off. *)
Fixpoint cut_last (s : string) : option (string * ascii) :=
  match s with
  | EmptyString => None
  | String c EmptyString => Some ("", c)
  | String c s' => '(b, l) ← cut_last s'; Some (String c b, l)
  end.

Definition unquoteBytes (s : string) : option string :=
  match s with
  | String q s' =>
      match cut_last s' with
      | Some (body, l) => if chr q 34 && chr l 34 then unquote_from 0 body else None
      | None => None
      end
  | EmptyString => None
  end.

(* ------------------------------------------------------------------ *)
(** ** Compaction *)

Definition html_char (c : ascii) : bool := chr c 60 || chr c 62 || chr c 38.

(** Whether U+2028 or U+2029 starts at the head of [s]. *)
Definition separator_at (s : string) : option Z :=
  match s with
  | String a (String b (String c _)) =>
      if chr a 0xE2 && chr b 0x80 && (chr c 0xA8 || chr c 0xA9) then Some (byte_val c) else None
  | _ => None
  end.

(** The loop of [appendCompact]: the text written and the final scanner; [k]
    bytes of an escaped separator are still to be passed over. *)
Fixpoint compact_from (k : nat) (sc : scanner) (s : string) : string * scanner :=
  match s with
  | EmptyString => ("", sc)
  | String c s' =>
      let (sc', o) := scan_step sc c in
      match k with
      | S k' => compact_from k' sc' s'
      | O =>
          if html_char c then
            let (out, fin) := compact_from 0 sc' s' in ((esc_u00 (byte_val c) ++ out)%string, fin)
          else match separator_at s with
          | Some b => let (out, fin) := compact_from 2 sc' s' in ((esc_u202 b ++ out)%string, fin)
          | None =>
              let (out, fin) := compact_from 0 sc' s' in
              match o with
              | SkipSpace | End => (out, fin)
              | _ => (String c out, fin)
              end
          end
      end
  end.

(** [appendCompact(nil, src, true)]. *)
Definition appendCompact (s : string) : option string :=
  let (out, fin) := compact_from 0 start s in
  if eof_ok fin then Some out else None.

(* ------------------------------------------------------------------ *)
(** ** Decoding, one level at a time *)

(** The members of an object (raw key, raw value) or the elements of an array
    (empty key), in order and with the space around them cut off. *)
Fixpoint members_from (sc : scanner) (key acc : string) (s : string) : list (string * string) :=
  match s with
  | EmptyString => []
  | String c s' =>
      let (sc', o) := scan_step sc c in
      match o, length (snd sc') with
      | (BeginObject | BeginArray), 1%nat => members_from sc' "" "" s'
      | ObjectKey, 1%nat => members_from sc' acc "" s'
      | (ObjectValue | ArrayValue), 1%nat => (key, acc) :: members_from sc' "" "" s'
      | (EndObject | EndArray), 0%nat => if nonempty acc then [(key, acc)] else []
      | SkipSpace, 1%nat => members_from sc' key acc s'
      | _, _ => members_from sc' key (acc ++ str1 c) s'
      end
  end.
Definition members (raw : string) : list (string * string) := members_from start "" "" raw.

(** The kind of a value, from the first byte that is not space. *)
Inductive kind := KNull | KBool | KNumber | KString | KArray | KObject.

Fixpoint kind_of (raw : string) : kind :=
  match raw with
  | EmptyString => KNull
  | String c s' =>
      if is_space c then kind_of s'
      else if chr c 123 then KObject
      else if chr c 91 then KArray
      else if chr c 34 then KString
      else if chr c 110 then KNull
      else if chr c 116 || chr c 102 then KBool
      else KNumber
  end.

(** [foldName], as far as matching the ASCII names of struct fields goes:
    letters fold to upper case, and so do the two other runes whose fold
    orbit meets ASCII, U+017F (to S) and U+212A (to K). *)
Definition fold_ascii (c : ascii) : ascii :=
  if in_range 97 122 (byte_val c) then byte_of (byte_val c - 32) else c.

Fixpoint foldName (s : string) : string :=
  match s with
  | EmptyString => ""
  | String a s1 =>
      match s1 with
      | String b s2 =>
          if chr a 0xC5 && chr b 0xBF then String "S"%char (foldName s2) else
          match s2 with
          | String c s3 =>
              if chr a 0xE2 && chr b 0x84 && chr c 0xAA then String "K"%char (foldName s3)
              else String (fold_ascii a) (foldName s1)
          | EmptyString => String (fold_ascii a) (foldName s1)
          end
      | EmptyString => str1 (fold_ascii a)
      end
  end.

(** Whether an unquoted object key selects the struct field [name]. *)
Definition key_matches (key name : string) : bool := String.eqb (foldName key) (foldName name).

(** Store a raw value into a string variable: the new value and whether the
    type matched; [null] leaves the variable alone. *)
Definition store_string (raw old : string) : string * bool :=
  match kind_of raw with
  | KNull => (old, true)
  | KString => match unquoteBytes raw with Some s => (s, true) | None => (old, false) end
  | _ => (old, false)
  end.

(** A raw message takes the bytes of the value, [null] included. *)
Definition store_raw (raw : string) : option string := Some raw.

(** [RawMessage.MarshalJSON] followed by the encoder's compaction. *)
Definition marshal_raw (raw : option string) : option string :=
  appendCompact (default "null" raw).

(** The text of an object with the given names and encoded values. *)
Definition member_text (name value : string) : string :=
  (in_quotes name ++ ":" ++ value)%string.

Fixpoint object_body (l : list (string * string)) : string :=
  match l with
  | [] => "}"
  | [(n, v)] => member_text n v ++ "}"
  | (n, v) :: l' => member_text n v ++ "," ++ object_body l'
  end.
Definition object_text (l : list (string * string)) : string := "{" ++ object_body l.

Example scan_ex1 : checkValid (jtext "{'a':[1,-2.5e+3,true,null,'x\u00e9\n'],'b':{}} ") = true.
Proof. vm_compute. reflexivity. Qed.
Example scan_ex2 : map checkValid [""; "01"; "{'a'}"; "[1,]"; "'a"; "1 2"; "+1"] = replicate 7 false.
Proof. vm_compute. reflexivity. Qed.
Example members_ex : members (jtext " { 'a' : [1, {'k':2}] , 'b':{}, 'c' : 'x y' } ")
  = [(jtext "'a'", jtext "[1, {'k':2}]"); (jtext "'b'", "{}"); (jtext "'c'", jtext "'x y'")].
Proof. vm_compute. reflexivity. Qed.
Example elements_ex : snd <$> members (jtext "[1 , [2,3],{'a':1}]") = ["1"; "[2,3]"; jtext "{'a':1}"].
Proof. vm_compute. reflexivity. Qed.
Example compact_ex : appendCompact (jtext " { 'a' : '<b> & c' , 'b' : [ 1 , 2 ] } ")
  = Some (jtext "{'a':'\u003cb\u003e \u0026 c','b':[1,2]}").
Proof. vm_compute. reflexivity. Qed.
Example unquote_ex : unquoteBytes (jtext "'a\u0041\ud83d\ude00\n'") =
  Some ("aA" ++ encode_rune 0x1F600 ++ str1 (byte_of 10))%string.
Proof. vm_compute. reflexivity. Qed.
