(* ===== verification/JsonFacts.v ===== *)
(** * Facts about the JSON model

    Framing of the scanner (a value scans the same way at top level and nested
    in another value), the shape of compacted and quoted text, and the inverse
    of quoting.  They carry the round trip of the envelope. *)
From S2P Require Import Prelude Utf8 Json.
Import Scanner.

(** ** Runs restricted to some operations *)

Definition clean_op (o : op) : bool := match o with End | Error => false | _ => true end.
Definition tight_op (o : op) : bool := match o with End | Error | SkipSpace => false | _ => true end.

(** The scanner after [s], as long as every byte is answered with an operation
    in [p]. *)
Fixpoint crun (lim : N) (p : op -> bool) (sc : scanner) (s : string) : option scanner :=
  match s with
  | EmptyString => Some sc
  | String c s' =>
      let (sc', o) := step_at lim sc c in
      if p o then crun lim p sc' s' else None
  end.

Lemma crun_app lim p sc s t :
  crun lim p sc (s ++ t) = sc' ← crun lim p sc s; crun lim p sc' t.
Proof.
  revert sc; induction s as [|c s IH]; intros sc; cbn; [done|].
  destruct (step_at lim sc c) as [sc' o]. destruct (p o); [apply IH | done].
Qed.

Lemma crun_app_Some lim p sc s t sc1 sc2 :
  crun lim p sc s = Some sc1 -> crun lim p sc1 t = Some sc2 ->
  crun lim p sc (s ++ t) = Some sc2.
Proof. intros H1 H2. rewrite crun_app, H1. exact H2. Qed.

Lemma crun_run lim p sc s sc' : crun lim p sc s = Some sc' -> run_at lim sc s = sc'.
Proof.
  revert sc; induction s as [|c s IH]; intros sc; cbn; [by intros [= ->]|].
  destruct (step_at lim sc c) as [sc1 o]. destruct (p o); [apply IH | done].
Qed.

Lemma crun_weaken lim (p q : op -> bool) sc s sc' :
  (forall o, p o = true -> q o = true) ->
  crun lim p sc s = Some sc' -> crun lim q sc s = Some sc'.
Proof.
  intros Hpq. revert sc; induction s as [|c s IH]; intros sc; cbn; [done|].
  destruct (step_at lim sc c) as [sc1 o]. destruct (p o) eqn:Hp; [|done].
  rewrite (Hpq _ Hp). apply IH.
Qed.

Lemma tight_clean o : tight_op o = true -> clean_op o = true.
Proof. by destruct o. Qed.

(** The bytes the scanner tests for, as facts on [byte_val]. *)
Ltac chr_facts :=
  unfold is_escape, html_char, is_space, is_hex, is_digit, chr, in_range in *;
  repeat match goal with
    | H : (_ || _)%bool = true |- _ => apply orb_true_iff in H
    | H : (_ || _)%bool = false |- _ => apply orb_false_iff in H; destruct H
    | H : (_ && _)%bool = true |- _ => apply andb_true_iff in H; destruct H
    | H : (_ =? _) = true |- _ => apply Z.eqb_eq in H
    | H : (_ =? _) = false |- _ => apply Z.eqb_neq in H
    | H : (_ <=? _) = true |- _ => apply Z.leb_le in H
    | H : (_ <? _) = true |- _ => apply Z.ltb_lt in H
    | H : (_ <? _) = false |- _ => apply Z.ltb_ge in H
    end.

Ltac unfold_step :=
  unfold step_at, begin_value, begin_string, state0, state_esign, end_value, end_top,
    expect, expect_hex, push, pop, err in *.

(** ** Framing *)

(** The scanner inside an enclosing value whose stack is [base]: a completed
    top-level value is a pending [EndValue] there. *)
Definition under (base : list parse_state) (sc : scanner) : scanner :=
  ((match fst sc with EndTop => EndValue | q => q end), snd sc ++ base).

(** States in which a top-level text may end. *)
Definition complete (sc : scanner) : bool :=
  match sc with
  | ((EndTop | EndValue | St1 | St0 | StDot0 | StE0), []) => true
  | _ => false
  end.

(** An [EndTop] scanner has an empty stack. *)
Definition wf_scanner (sc : scanner) : Prop := fst sc = EndTop -> snd sc = [].

Lemma complete_eof sc : complete sc = true -> eof_ok sc = true.
Proof. destruct sc as [q [|p stk]]; destruct q; try done; by intros _; vm_compute. Qed.

Lemma eof_complete sc : wf_scanner sc -> eof_ok sc = true -> complete sc = true.
Proof.
  intros Hwf. destruct sc as [q [|p stk]].
  - destruct q; try done; vm_compute; done.
  - destruct q; unfold eof_ok; cbn; try done;
      try (intros _; by specialize (Hwf eq_refl)).
    all: destruct p; vm_compute; done.
Qed.

Lemma wf_step lim sc c : wf_scanner sc -> snd (step_at lim sc c) <> Error ->
  wf_scanner (fst (step_at lim sc c)).
Proof.
  destruct sc as [q stk]; unfold wf_scanner; cbn [fst snd]; intros Hwf Hop.
  destruct q; unfold_step; repeat case_match; simplify_eq/=; try done; auto.
Qed.

(** The scanner of an enclosing value follows the one at top level. *)
Lemma step_under lim base sc c :
  base <> [] -> wf_scanner sc ->
  clean_op (snd (step_at lim sc c)) = true ->
  step_at (lim + N.of_nat (length base)) (under base sc) c
    = (under base (fst (step_at lim sc c)), snd (step_at lim sc c)).
Proof.
  intros Hbase Hwf. destruct sc as [q stk]. unfold wf_scanner in Hwf. cbn in Hwf.
  assert (forall (p : parse_state) (l : list parse_state),
    (N.of_nat (length (p :: l ++ base)) <=? lim + N.of_nat (length base))%N
      = (N.of_nat (length (p :: l)) <=? lim)%N) as Hlen.
  { intros p l. cbn [length]. rewrite length_app.
    destruct (N.leb_spec (N.of_nat (S (length l + length base))) (lim + N.of_nat (length base)));
    destruct (N.leb_spec (N.of_nat (S (length l))) lim); try done; lia. }
  destruct q; unfold under; cbn [fst snd]; unfold_step; rewrite ?Hlen; intros Hop.
  all: try (by destruct stk as [|? [|? ?]]; cbn in *; rewrite ?Hlen;
            repeat (case_match; simplify_eq/=); simplify_eq/=;
            try done; destruct base; done).
Qed.

Lemma clean_not_error o : clean_op o = true -> o <> Error.
Proof. by destruct o. Qed.

Lemma crun_wf lim p sc s sc' :
  (forall o, p o = true -> clean_op o = true) ->
  wf_scanner sc -> crun lim p sc s = Some sc' -> wf_scanner sc'.
Proof.
  intros Hp. revert sc; induction s as [|c s IH]; intros sc Hwf; cbn; [by intros [= <-]|].
  pose proof (wf_step lim sc c Hwf) as Hstep.
  destruct (step_at lim sc c) as [sc1 o]; cbn in *. destruct (p o) eqn:Ho; [|done].
  apply IH, Hstep, clean_not_error, Hp, Ho.
Qed.

(** A text that scans at top level scans in the same way under [base]. *)
Lemma crun_under lim p base sc s sc' :
  (forall o, p o = true -> clean_op o = true) ->
  base <> [] -> wf_scanner sc -> crun lim p sc s = Some sc' ->
  crun (lim + N.of_nat (length base)) p (under base sc) s = Some (under base sc').
Proof.
  intros Hp Hbase. revert sc; induction s as [|c s IH]; intros sc Hwf; cbn; [by intros [= <-]|].
  pose proof (wf_step lim sc c Hwf) as Hstep.
  pose proof (step_under lim base sc c Hbase Hwf) as Hu.
  destruct (step_at lim sc c) as [sc1 o]; cbn in *. destruct (p o) eqn:Ho; [|done].
  rewrite Hu by auto. rewrite Ho. apply IH, Hstep, clean_not_error, Hp, Ho.
Qed.

(** Separators leave the enclosing stack in place, closing pops it. *)
Lemma op_stack lim sc c :
  match snd (step_at lim sc c) with
  | BeginObject | BeginArray | ObjectKey | ObjectValue | ArrayValue => snd (fst (step_at lim sc c)) <> []
  | _ => True
  end.
Proof.
  destruct sc as [q stk]; destruct q; unfold_step; repeat case_match; simplify_eq/=; done.
Qed.

(** The text of a value of nesting at most [lim], without space around or
    inside it ([tight_op]) or with it ([clean_op]). *)
Definition is_value (lim : N) (p : op -> bool) (v : string) : Prop :=
  exists fin, crun lim p start v = Some fin /\ complete fin = true.

Definition depth1 (p : parse_state) : scanner := (BeginValue, [p]).

(** Reading a tight value inside an object or array collects exactly it. *)
Lemma members_value p v t key acc fin :
  crun (maxNestingDepth - 1) tight_op start v = Some fin ->
  members_from (depth1 p) key acc (v ++ t) = members_from (under [p] fin) key (acc ++ v) t.
Proof.
  change (depth1 p) with (under [p] start).
  assert (wf_scanner start) as Hwf by done. revert Hwf.
  generalize start as sc. intros sc. revert sc acc.
  induction v as [|c v IH]; intros sc acc Hwf; cbn [crun].
  { intros [= <-]. by rewrite str_app_nil_r. }
  intros H. cbn [String.append members_from]. unfold scan_step.
  pose proof (wf_step (maxNestingDepth - 1) sc c Hwf) as Hwf'.
  pose proof (step_under (maxNestingDepth - 1) [p] sc c ltac:(done) Hwf) as Hu.
  pose proof (op_stack (maxNestingDepth - 1) sc c) as Ho.
  change (maxNestingDepth - 1 + N.of_nat (length [p]))%N with maxNestingDepth in Hu.
  destruct (step_at (maxNestingDepth - 1) sc c) as [sc1 o]; cbn [fst snd] in *.
  destruct (tight_op o) eqn:Htight; [|done].
  rewrite Hu by (by apply tight_clean). cbn [snd under].
  assert (members_from (under [p] sc1) key (acc ++ str1 c) (v ++ t) =
          members_from (under [p] fin) key (acc ++ String c v) t) as Hgo.
  { rewrite IH; [|apply Hwf'; by destruct o|done]. by rewrite <- str_app_cons_assoc. }
  unfold under in *.
  destruct (snd sc1) as [|x l]; cbn [app length] in *.
  - destruct o; try done; exact Hgo.
  - rewrite length_app. cbn [length]. rewrite Nat.add_1_r. destruct o; try done; exact Hgo.
Qed.

(** ** Quoted text *)

Lemma quote_from_skip k s :
  quote_from true k s = (str_take k s ++ quote_from true 0 (str_drop k s))%string.
Proof.
  revert k; induction s as [|c s IH]; intros [|k]; cbn [str_take str_drop]; try done.
  cbn [quote_from]. by rewrite IH.
Qed.

Lemma quote_from_drop k s : quote_from false k s = quote_from true 0 (str_drop k s).
Proof.
  revert k; induction s as [|c s IH]; intros [|k]; try done.
  cbn [quote_from str_drop]. apply IH.
Qed.

(** What quoting writes for a well-formed rune at the head of [s]. *)
Definition quoted_rune (s : string) (r : Z) (n : nat) : string :=
  match s with
  | String c _ =>
      if byte_val c <? 128 then escape_ascii c
      else if (r =? 0x2028) || (r =? 0x2029) then esc_u202 r
      else str_take n s
  | EmptyString => ""
  end.

Lemma quote_view s r n : rune_view s r n ->
  quote_from true 0 s = (quoted_rune s r n ++ quote_from true 0 (str_drop n s))%string.
Proof.
  intros Hv. destruct (view_head _ _ _ Hv) as (c & s' & -> & Ht & Hd). rewrite Hd.
  cbn [quote_from quoted_rune].
  destruct (byte_val c <? 128) eqn:Hc.
  { apply Z.ltb_lt in Hc. pose proof (view_decode _ _ _ Hv) as Hdec.
    rewrite (view_decode _ _ _ (rv_ascii c s' Hc)) in Hdec. by injection Hdec as _ <-. }
  rewrite (view_not_bad _ _ _ Hv), (view_decode _ _ _ Hv).
  case_match.
  - by rewrite quote_from_drop.
  - rewrite Ht, quote_from_skip. done.
Qed.

Lemma quote_bad c s : bad_rune (String c s) = true ->
  quote_from true 0 (String c s) = (esc_ufffd ++ quote_from true 0 s)%string.
Proof.
  intros H. cbn [quote_from]. pose proof (bad_rune_high _ _ H).
  rewrite (proj2 (Z.ltb_ge _ _)) by lia. by rewrite H.
Qed.

(** Case analysis on all the bytes. *)
Ltac all_bytes c := destruct c as [[] [] [] [] [] [] [] []].

Lemma scan_escape lim stk c : (byte_val c <? 128) = true ->
  crun lim tight_op (InString, stk) (escape_ascii c) = Some (InString, stk).
Proof. all_bytes c; done. Qed.

Lemma scan_high lim stk s : str_forallb high s = true ->
  crun lim tight_op (InString, stk) s = Some (InString, stk).
Proof.
  induction s as [|c s IH]; cbn; [done|]. intros H. apply andb_true_iff in H as [Hc Hs].
  unfold chr. unfold high in Hc. apply Z.leb_le in Hc.
  rewrite !(proj2 (Z.eqb_neq _ _)) by lia. rewrite (proj2 (Z.ltb_ge _ _)) by lia.
  cbn. by apply IH.
Qed.

Lemma sep_cases r : (r =? 0x2028) || (r =? 0x2029) = true -> r = 0x2028 \/ r = 0x2029.
Proof. lia. Qed.

Lemma view_multi c s r n : rune_view (String c s) r n -> (byte_val c <? 128) = false -> (1 < n)%nat.
Proof. inversion 1; subst; lia. Qed.

Lemma scan_quoted_rune lim stk s r n : rune_view s r n ->
  crun lim tight_op (InString, stk) (quoted_rune s r n) = Some (InString, stk).
Proof.
  intros Hv. destruct (view_head _ _ _ Hv) as (c & s' & -> & _). cbn [quoted_rune].
  destruct (byte_val c <? 128) eqn:Hc; [by apply scan_escape|].
  case_match; [|by eapply scan_high, view_high, view_multi].
  by destruct (sep_cases r) as [-> | ->].
Qed.

(** The body of a quoted string stays inside the string. *)
Lemma scan_quoted lim stk s :
  crun lim tight_op (InString, stk) (quote_from true 0 s) = Some (InString, stk).
Proof.
  induction s as [|c s Hbad IH|s r n Hv IH] using rune_ind; [done|..].
  - rewrite quote_bad by done. by eapply crun_app_Some.
  - rewrite (quote_view _ _ _ Hv). eapply crun_app_Some; [by apply scan_quoted_rune | done].
Qed.

(** A quoted string is a tight value, wherever a value may start. *)
Lemma scan_appendString lim p s :
  crun lim tight_op (BeginValue, p) (appendString s) = Some (EndValue, p).
Proof.
  unfold appendString, in_quotes. cbn [crun]. cbn.
  eapply crun_app_Some; [apply scan_quoted | done].
Qed.

(** Unquoting reads every piece back. *)
Lemma unquote_escape c t : (byte_val c <? 128) = true ->
  unquote_from 0 (escape_ascii c ++ t) = String c <$> unquote_from 0 t.
Proof. all_bytes c; done. Qed.

Lemma unquote_from_skip k s : unquote_from k s = unquote_from 0 (str_drop k s).
Proof. revert k; induction s as [|c s IH]; intros [|k]; try done. apply IH. Qed.

Lemma unquote_take s r n t : rune_view s r n -> str_forallb high (str_take n s) = true ->
  unquote_from 0 (str_take n s ++ t) = String.append (str_take n s) <$> unquote_from 0 t.
Proof.
  intros Hv Hh. pose proof (view_take _ _ _ t Hv) as Hv'.
  pose proof (view_encode _ _ _ Hv') as Henc.
  assert (str_take n (str_take n s ++ t) = str_take n s) as Htt by (by destruct Hv; cbn).
  assert (str_drop n (str_take n s ++ t) = t) as Hdd by (by destruct Hv; cbn).
  rewrite Htt in Henc.
  destruct (view_head _ _ _ Hv') as (c & s' & Heq & Hta & Hdr). rewrite Heq in *.
  rewrite Htt in Hta. rewrite Hdd in Hdr. rewrite Hta in Hh. cbn in Hh.
  apply andb_true_iff in Hh as [Hc _]. unfold high in Hc. apply Z.leb_le in Hc.
  cbn [unquote_from]. unfold chr.
  rewrite !(proj2 (Z.eqb_neq _ _)), !(proj2 (Z.ltb_ge _ _)) by lia. cbn [orb].
  rewrite (view_decode _ _ _ Hv'). by rewrite Henc, unquote_from_skip, <- Hdr.
Qed.

Lemma append_assoc_fmap a b (o : option string) :
  String.append a <$> (String.append b <$> o) = String.append (a ++ b) <$> o.
Proof. destruct o; cbn; [|done]. by rewrite str_app_assoc. Qed.

Lemma unquote_quoted_rune s r n t : rune_view s r n ->
  unquote_from 0 (quoted_rune s r n ++ t) = String.append (str_take n s) <$> unquote_from 0 t.
Proof.
  intros Hv. destruct (view_head _ _ _ Hv) as (c & s' & -> & Ht & _). cbn [quoted_rune].
  destruct (byte_val c <? 128) eqn:Hc.
  - rewrite unquote_escape by done.
    pose proof (view_decode _ _ _ Hv) as Hdec. apply Z.ltb_lt in Hc.
    rewrite (view_decode _ _ _ (rv_ascii c s' Hc)) in Hdec. injection Hdec as _ <-.
    rewrite Ht. by destruct s'.
  - case_match eqn:Hsep; [|by eapply unquote_take, view_high, view_multi].
    rewrite <- (view_encode _ _ _ Hv).
    by destruct (sep_cases r) as [-> | ->].
Qed.

Lemma unquote_quoted s : unquote_from 0 (quote_from true 0 s) = Some (sanitize s).
Proof.
  induction s as [|c s Hbad IH|s r n Hv IH] using rune_ind; [done|..].
  - rewrite quote_bad, sanitize_bad by done.
    change (unquote_from 0 (esc_ufffd ++ quote_from true 0 s))
      with (String.append (encode_rune RuneError) <$> unquote_from 0 (quote_from true 0 s)).
    by rewrite IH.
  - rewrite (quote_view _ _ _ Hv), (sanitize_view _ _ _ Hv).
    rewrite unquote_quoted_rune by done. by rewrite IH.
Qed.

Lemma cut_last_app s c : cut_last (s ++ str1 c) = Some (s, c).
Proof.
  induction s as [|d s IH]; [done|]. cbn [String.append cut_last]. rewrite IH. cbn.
  by destruct s.
Qed.

(** Quoting then unquoting replaces the invalid bytes and nothing else. *)
Lemma unquote_appendString s : unquoteBytes (appendString s) = Some (sanitize s).
Proof.
  unfold appendString, in_quotes, unquoteBytes. rewrite cut_last_app. cbn.
  apply unquote_quoted.
Qed.

(** ** Unquoted text is valid UTF-8 *)

Lemma simple_escape_ascii e d : simple_escape e = Some d -> byte_val d < 128.
Proof. all_bytes e; intros [= <-]; done. Qed.

Lemma unescape_rune_encoded s bs n : unescape_rune s = Some (bs, n) -> exists r, bs = encode_rune r.
Proof. unfold unescape_rune. repeat case_match; intros [= <- _]; eauto. Qed.

Lemma unquote_valid k s t : unquote_from k s = Some t -> valid_utf8 t.
Proof.
  revert k t; induction s as [|c s IH]; intros k t; [by intros [= <-]|].
  destruct k as [|k]; [|apply IH]. cbn [unquote_from].
  destruct (chr c 92).
  { destruct s as [|e s']; [done|]. destruct (chr e 117).
    - destruct (unescape_rune _) as [[bs n]|] eqn:He; [|done].
      apply unescape_rune_encoded in He as [r ->].
      destruct (unquote_from (pred n) _) as [u|] eqn:Hu; [|done].
      intros [= <-]. eapply valid_encode, IH, Hu.
    - destruct (simple_escape e) as [d|] eqn:He; [|done].
      destruct (unquote_from 1 _) as [u|] eqn:Hu; [|done].
      intros [= <-]. eapply valid_ascii; [by eapply simple_escape_ascii | by eapply IH]. }
  destruct (chr c 34 || _); [done|]. destruct (byte_val c <? 128) eqn:Hc.
  - destruct (unquote_from 0 s) as [u|] eqn:Hu; [|done].
    intros [= <-]. apply valid_ascii; [by apply Z.ltb_lt | by eapply IH].
  - destruct (decode_rune _) as [r n]. destruct (unquote_from (pred n) s) as [u|] eqn:Hu; [|done].
    intros [= <-]. eapply valid_encode, IH, Hu.
Qed.

Lemma unquoteBytes_valid raw t : unquoteBytes raw = Some t -> valid_utf8 t.
Proof.
  unfold unquoteBytes. destruct raw; [done|]. repeat case_match; try done. apply unquote_valid.
Qed.

