(* ===== verification/JsonCompact.v ===== *)
(** * Compaction of JSON values

    [appendCompact] drops the space between tokens and escapes the HTML
    characters of strings; here is the proof that it answers every well-formed
    value, that its output scans like the input, and that the output has no
    space left. *)
From S2P Require Import Prelude Utf8 Json JsonFacts.
Import Scanner.

Lemma step_mono lim lim' sc c : (lim <= lim')%N ->
  snd (step_at lim sc c) <> Error -> step_at lim' sc c = step_at lim sc c.
Proof.
  intros Hle. destruct sc as [q stk]; destruct q; unfold_step; intros Hop;
    repeat (case_match; simplify_eq/=); try done;
    repeat match goal with
      | H : (_ <=? _)%N = true |- _ => apply N.leb_le in H
      | H : (_ <=? _)%N = false |- _ => apply N.leb_gt in H
      end; lia.
Qed.

(** Dropping the space after a number leaves its scanner one step behind. *)
Definition num_state (q : step) : bool :=
  match q with St1 | St0 | StDot0 | StE0 => true | _ => false end.

Definition lag (sc sc2 : scanner) : Prop :=
  sc2 = sc \/ (fst sc = EndValue /\ num_state (fst sc2) = true /\ snd sc2 = snd sc /\ snd sc <> []).

Lemma step_lag lim sc sc2 c : lag sc sc2 ->
  tight_op (snd (step_at lim sc c)) = true -> step_at lim sc2 c = step_at lim sc c.
Proof.
  intros [->|(Hq & Hn & Hs & Hne)]; [done|].
  destruct sc as [q stk], sc2 as [q2 stk2]; cbn in *; subst.
  destruct q2; try done; destruct stk as [|p stk]; try done; unfold_step; cbn;
    repeat (case_match; simplify_eq/=); intros Hop; try done; chr_facts; lia.
Qed.

Lemma step_lag_space lim sc sc2 c : lag sc sc2 ->
  snd (step_at lim sc c) = SkipSpace -> lag (fst (step_at lim sc c)) sc2.
Proof.
  intros [->|(Hq & Hn & Hs & Hne)].
  - destruct sc as [q stk]; destruct q; unfold_step; cbn;
      repeat (case_match; simplify_eq/=); intros Hop; try done; try (by left); right; done.
  - destruct sc as [q stk], sc2 as [q2 stk2]; cbn in *; subst q stk2.
    destruct stk as [|p stk]; [done|].
    unfold_step; cbn; repeat (case_match; simplify_eq/=); intros Hop; try done; right; done.
Qed.

Lemma lag_step lim sc sc2 c : lag sc sc2 ->
  tight_op (snd (step_at lim sc c)) = true -> lag (fst (step_at lim sc c)) (fst (step_at lim sc2 c)).
Proof. intros Hl Ht. rewrite (step_lag _ _ _ _ Hl Ht). by left. Qed.

(** Bytes the scanner accepts only inside a string. *)
Definition string_only (c : ascii) : bool := html_char c || chr c 0xE2.

Lemma step_string_only lim sc c : string_only c = true ->
  clean_op (snd (step_at lim sc c)) = true ->
  fst sc = InString /\ step_at lim sc c = (sc, Continue).
Proof.
  unfold string_only. intros Hc. destruct sc as [q stk]; destruct q; unfold_step; cbn;
    repeat (case_match; simplify_eq/=); intros Hop; try done; chr_facts; lia.
Qed.

Lemma lag_in_string sc sc2 : lag sc sc2 -> fst sc = InString -> sc2 = sc.
Proof. intros [->|(Hq & _)] H; [done | congruence]. Qed.

Lemma scan_esc_u00 lim sc c : html_char c = true -> fst sc = InString ->
  crun lim tight_op sc (esc_u00 (byte_val c)) = Some sc.
Proof. destruct sc as [q stk]; cbn [fst]; intros Hc ->. revert Hc. by all_bytes c. Qed.

Lemma scan_esc_u202 lim sc b : b = 0xA8 \/ b = 0xA9 -> fst sc = InString ->
  crun lim tight_op sc (esc_u202 b) = Some sc.
Proof. destruct sc as [q stk]; cbn [fst]; intros [-> | ->] ->; done. Qed.

Lemma separator_at_Some s b : separator_at s = Some b ->
  exists a1 a2 a3 t, s = String a1 (String a2 (String a3 t)) /\ string_only a1 = true /\
    128 <= byte_val a2 /\ 128 <= byte_val a3 /\ (b = 0xA8 \/ b = 0xA9).
Proof.
  destruct s as [|a1 [|a2 [|a3 t]]]; try done. cbn. case_match eqn:E; [|done]. intros [= <-].
  exists a1, a2, a3, t. apply andb_true_iff in E as [E E3]. apply andb_true_iff in E as [E1 E2].
  unfold string_only. rewrite E1, orb_true_r.
  split; [done|]. split; [done|]. apply orb_true_iff in E3. destruct E3; chr_facts; lia.
Qed.

Lemma step_high_in_string lim sc c : fst sc = InString -> 128 <= byte_val c ->
  step_at lim sc c = (sc, Continue).
Proof.
  destruct sc as [q stk]; cbn [fst]; intros -> Hc. unfold step_at, chr.
  rewrite !(proj2 (Z.eqb_neq _ _)), (proj2 (Z.ltb_ge _ _)) by lia. done.
Qed.

Lemma crun_cons lim p sc c s fin : crun lim p sc (String c s) = Some fin ->
  p (snd (step_at lim sc c)) = true /\ crun lim p (fst (step_at lim sc c)) s = Some fin.
Proof. cbn [crun]. destruct (step_at lim sc c) as [sc1 o]. by destruct (p o) eqn:E. Qed.

Lemma scan_step_at lim sc c : (lim <= maxNestingDepth)%N ->
  clean_op (snd (step_at lim sc c)) = true -> scan_step sc c = step_at lim sc c.
Proof. intros Hl Hc. apply step_mono; [done|]. by apply clean_not_error. Qed.

(** Compacting a clean text: the scanner ends where it would, and the output
    scans without space from any scanner lagging behind. *)
Lemma compact_clean lim n : (lim <= maxNestingDepth)%N -> forall s sc sc2 fin,
  (String.length s <= n)%nat -> crun lim clean_op sc s = Some fin -> lag sc sc2 ->
  exists fin2, snd (compact_from 0 sc s) = fin /\
    crun lim tight_op sc2 (fst (compact_from 0 sc s)) = Some fin2 /\ lag fin fin2.
Proof.
  intros Hlim. induction n as [|n IH]; intros s sc sc2 fin Hn Hrun Hlag.
  { destruct s; [|cbn in Hn; lia]. injection Hrun as <-. by exists sc2. }
  destruct s as [|c s]; [injection Hrun as <-; by exists sc2|]. cbn in Hn.
  apply crun_cons in Hrun as [Hop Hrun]. cbn [compact_from].
  rewrite (scan_step_at lim) by done.
  destruct (html_char c) eqn:Hc.
  { destruct (step_string_only lim sc c) as [Hin Hst]; [unfold string_only; by rewrite Hc|done|].
    rewrite (lag_in_string _ _ Hlag Hin). rewrite Hst in Hrun |- *. cbn in Hrun.
    destruct (IH s sc sc fin ltac:(lia) Hrun ltac:(by left)) as (fin2 & H1 & H2 & H3).
    destruct (compact_from 0 sc s) as [out f]. exists fin2. cbn [fst snd] in *. split; [done|]. split; [|done].
    eapply crun_app_Some; [by apply scan_esc_u00 | done]. }
  destruct (separator_at (String c s)) as [b|] eqn:Hsep.
  { apply separator_at_Some in Hsep as (a1 & a2 & a3 & t & Heq & Hso & H2 & H3 & Hb).
    injection Heq as -> ->. destruct (step_string_only lim sc a1) as [Hin Hst]; [done..|].
    rewrite (lag_in_string _ _ Hlag Hin). rewrite Hst in Hrun |- *. cbn [fst] in Hrun.
    apply crun_cons in Hrun as [_ Hrun]. rewrite step_high_in_string in Hrun by done.
    apply crun_cons in Hrun as [_ Hrun]. rewrite step_high_in_string in Hrun by done.
    cbn [compact_from fst]. unfold scan_step. rewrite !step_high_in_string by done.
    destruct (IH t sc sc fin ltac:(cbn in Hn; lia) Hrun ltac:(by left)) as (fin2 & H4 & H5 & H6).
    destruct (compact_from 0 sc t) as [out f]. exists fin2. cbn [fst snd] in *. split; [done|]. split; [|done].
    eapply crun_app_Some; [by apply scan_esc_u202 | done]. }
  destruct (step_at lim sc c) as [sc1 o] eqn:Hst. cbn [fst snd] in *.
  destruct (tight_op o) eqn:Ht.
  - pose proof (step_lag lim sc sc2 c Hlag) as Hs2. rewrite Hst in Hs2. specialize (Hs2 Ht).
    destruct (IH s sc1 sc1 fin ltac:(lia) Hrun ltac:(by left)) as (fin2 & H1 & H2 & H3).
    destruct (compact_from 0 sc1 s) as [out f]. exists fin2.
    destruct o; try done; cbn in *; rewrite Hs2; done.
  - assert (o = SkipSpace) as -> by (by destruct o).
    pose proof (step_lag_space lim sc sc2 c Hlag) as Hl. rewrite Hst in Hl.
    destruct (IH s sc1 sc2 fin ltac:(lia) Hrun (Hl eq_refl)) as (fin2 & H1 & H2 & H3).
    destruct (compact_from 0 sc1 s) as [out f]. by exists fin2.
Qed.

(** Compaction answers every clean value with a tight one. *)
Lemma appendCompact_value lim v : (lim <= maxNestingDepth)%N -> is_value lim clean_op v ->
  exists d, appendCompact v = Some d /\ is_value lim tight_op d.
Proof.
  intros Hlim (fin & Hrun & Hc).
  destruct (compact_clean lim _ Hlim v start start fin (le_n _) Hrun ltac:(by left))
    as (fin2 & H1 & H2 & H3).
  unfold appendCompact. destruct (compact_from 0 start v) as [out f]; cbn in *. subst f.
  rewrite (complete_eof _ Hc). exists out. split; [done|]. exists fin2. split; [done|].
  destruct H3 as [->|(_ & _ & _ & Hne)]; [done|].
  destruct fin as [q [|p l]]; [done|]. by destruct q.
Qed.
