(* ===== verification/JsonMembers.v ===== *)
(** * The members of a valid object

    Every value [members] cuts out of a valid object is itself a clean value,
    one nesting level shallower.  This is what lets an envelope that was parsed
    be marshalled again without an error. *)
From S2P Require Import Prelude Utf8 Json JsonFacts JsonCompact.
Import Scanner.

(** Operations by which a value goes on at its own level. *)
Definition inner_op (o : op) : bool :=
  match o with Continue | BeginLiteral | BeginObject | BeginArray => true | _ => false end.

(** Conversely to [step_under]: inside [p] the scanner does what it does at top
    level, as long as the value goes on. *)
Lemma step_unframe lim p sc c : wf_scanner sc ->
  (snd sc <> [] \/ inner_op (snd (step_at (lim + 1) (under [p] sc) c)) = true) ->
  clean_op (snd (step_at (lim + 1) (under [p] sc) c)) = true ->
  step_at (lim + 1) (under [p] sc) c
    = (under [p] (fst (step_at lim sc c)), snd (step_at lim sc c)).
Proof.
  intros Hwf. destruct sc as [q stk]. unfold wf_scanner in Hwf. cbn in Hwf.
  assert (forall (x : parse_state) (l : list parse_state),
    (N.of_nat (length (x :: l ++ [p])) <=? lim + 1)%N
      = (N.of_nat (length (x :: l)) <=? lim)%N) as Hlen.
  { intros x l. cbn [length]. rewrite length_app. cbn [length].
    destruct (N.leb_spec (N.of_nat (S (length l + 1))) (lim + 1));
    destruct (N.leb_spec (N.of_nat (S (length l))) lim); try done; lia. }
  destruct q; unfold under; cbn [fst snd]; unfold_step; rewrite ?Hlen; intros Hin Hop.
  all: try (by destruct stk as [|? [|? ?]]; cbn in *; rewrite ?Hlen in *;
            repeat (case_match; simplify_eq/=); simplify_eq/=;
            try done; destruct Hin; done).
  all: destruct stk; [cbn in *; repeat case_match; simplify_eq/=; by destruct Hin|].
  all: by specialize (Hwf eq_refl).
Qed.

(** A completed value at its own level is continued only by its own bytes. *)
Lemma end_value_object lim c :
  match step_at lim (EndValue, [ParseObjectValue]) c with
  | (_, Error) => True
  | (sc', SkipSpace) => sc' = (EndValue, [ParseObjectValue])
  | (sc', ObjectValue) => sc' = (BeginString, [ParseObjectKey])
  | (sc', EndObject) => sc' = (EndTop, [])
  | _ => False
  end.
Proof. unfold_step. repeat (case_match; simplify_eq/=); done. Qed.

(** A scanner that may close an empty object or array has one open. *)
Definition opened (sc : scanner) : Prop :=
  match fst sc with BeginStringOrEmpty | BeginValueOrEmpty => snd sc <> [] | _ => True end.

Lemma opened_step lim sc c : opened sc -> opened (fst (step_at lim sc c)).
Proof.
  destruct sc as [q stk]; unfold opened; cbn [fst snd]; intros Hwf.
  destruct q; unfold_step; repeat case_match; done.
Qed.

(** At depth one a step goes on with the value, passes space before it, or
    answers as a completed value does. *)
Lemma step_depth1 lim sc c : opened sc -> snd sc = [] ->
  snd (step_at lim (under [ParseObjectValue] sc) c) <> Error ->
  inner_op (snd (step_at lim (under [ParseObjectValue] sc) c)) = true \/
  step_at lim (under [ParseObjectValue] sc) c = (under [ParseObjectValue] sc, SkipSpace) \/
  (complete sc = true /\
   step_at lim (under [ParseObjectValue] sc) c = step_at lim (EndValue, [ParseObjectValue]) c).
Proof.
  intros Hwf Hs. destruct sc as [q stk]. unfold opened in Hwf. cbn in Hs, Hwf. subst stk.
  destruct q; try done; unfold under; cbn [fst snd app]; unfold_step; intros Hop;
    repeat (case_match; simplify_eq/=); first [done | by left | by right; left | by right; right].
Qed.

(** ** The loop of [members] *)

Section members_clean.
Let lim : N := (maxNestingDepth - 1)%N.

Lemma lim_succ : (lim + 1)%N = maxNestingDepth.
Proof. done. Qed.

(** The states of an object key. *)
Definition key_state (q : step) : bool :=
  match q with
  | BeginString | InString | InStringEsc | InStringEscU | InStringEscU1 | InStringEscU12
  | InStringEscU123 | EndValue => true
  | _ => false
  end.

(** The text collected so far, against the scanner at depth one or more. *)
Definition collecting (sc : scanner) (acc : string) : Prop :=
  (sc = (BeginStringOrEmpty, [ParseObjectKey]) /\ acc = "") \/
  (exists q, sc = (q, [ParseObjectKey]) /\ key_state q = true) \/
  (exists sc1, crun lim clean_op start acc = Some sc1 /\ wf_scanner sc1 /\ opened sc1 /\
    (sc = under [ParseObjectValue] sc1 \/
     (sc = (EndValue, [ParseObjectValue]) /\ complete sc1 = true))).

Lemma run_error stk s : eof_ok (run_at maxNestingDepth (SError, stk) s) = false.
Proof. revert stk. induction s as [|c s IH]; intros stk; [done|]. apply IH. Qed.

Lemma step_error sc c : snd (step_at maxNestingDepth sc c) = Error ->
  fst (fst (step_at maxNestingDepth sc c)) = SError.
Proof.
  destruct sc as [q stk]; destruct q; unfold_step; repeat (case_match; simplify_eq/=); done.
Qed.

Lemma run_not_error sc c s : eof_ok (run_at maxNestingDepth (fst (step_at maxNestingDepth sc c)) s) = true ->
  snd (step_at maxNestingDepth sc c) <> Error.
Proof.
  intros H He. apply step_error in He.
  destruct (step_at maxNestingDepth sc c) as [[q stk] o]; cbn in *. subst.
  by rewrite run_error in H.
Qed.

(** The members emitted from here on are clean. *)
Definition all_clean (l : list (string * string)) : Prop :=
  Forall (fun m => is_value lim clean_op (snd m)) l.

Lemma crun_snoc sc acc sc1 c : crun lim clean_op sc acc = Some sc1 ->
  clean_op (snd (step_at lim sc1 c)) = true ->
  crun lim clean_op sc (acc ++ str1 c) = Some (fst (step_at lim sc1 c)).
Proof.
  intros H Hc. eapply crun_app_Some; [exact H|]. cbn.
  destruct (step_at lim sc1 c) as [sc2 o]; cbn in *. by rewrite Hc.
Qed.

Lemma step_key q c : key_state q = true ->
  match step_at maxNestingDepth (q, [ParseObjectKey]) c with
  | (_, Error) => True
  | (sc', ObjectKey) => sc' = (BeginValue, [ParseObjectValue])
  | (sc', (Continue | BeginLiteral | SkipSpace)) =>
      exists q', sc' = (q', [ParseObjectKey]) /\ key_state q' = true
  | _ => False
  end.
Proof.
  destruct q; try done; intros _; unfold_step; repeat (case_match; simplify_eq/=); eauto.
Qed.

Lemma step_first_key c :
  match step_at maxNestingDepth (BeginStringOrEmpty, [ParseObjectKey]) c with
  | (_, Error) => True
  | (sc', SkipSpace) => sc' = (BeginStringOrEmpty, [ParseObjectKey])
  | (sc', EndObject) => sc' = (EndTop, [])
  | (sc', BeginLiteral) => sc' = (InString, [ParseObjectKey])
  | _ => False
  end.
Proof.
  unfold_step; repeat (case_match; simplify_eq/=); try done; try congruence;
    chr_facts; lia.
Qed.

Lemma step_no_end sc c : fst sc <> EndTop -> snd sc <> [] ->
  snd (step_at maxNestingDepth sc c) <> End.
Proof.
  destruct sc as [q stk]; cbn [fst snd]; intros H1 H2; destruct q; try done;
    unfold_step; repeat (case_match; simplify_eq/=); done.
Qed.

Lemma step_space_stack L sc c : snd (step_at L sc c) = SkipSpace ->
  snd (fst (step_at L sc c)) = snd sc.
Proof.
  destruct sc as [q stk]; destruct q; unfold_step; repeat (case_match; simplify_eq/=); done.
Qed.

Lemma under_nonempty sc : fst (under [ParseObjectValue] sc) <> EndTop /\
  snd (under [ParseObjectValue] sc) <> [].
Proof. destruct sc as [q stk]; split; cbn; [by destruct q | by destruct stk]. Qed.

Definition clean_from (s : string) : Prop := forall sc key acc, collecting sc acc ->
  eof_ok (run_at maxNestingDepth sc s) = true -> all_clean (members_from sc key acc s).

(** A completed value: it is emitted at the comma or at the closing brace. *)
Lemma clean_completed c s sc sc1 key acc : clean_from s ->
  crun lim clean_op start acc = Some sc1 -> wf_scanner sc1 -> opened sc1 ->
  complete sc1 = true ->
  step_at maxNestingDepth sc c = step_at maxNestingDepth (EndValue, [ParseObjectValue]) c ->
  eof_ok (run_at maxNestingDepth sc (String c s)) = true ->
  all_clean (members_from sc key acc (String c s)).
Proof.
  intros IH Hr Hwf Hop Hc Hst Hrun. cbn [run_at] in Hrun. cbn [members_from].
  unfold scan_step. pose proof (run_not_error _ _ _ Hrun) as Hne. rewrite Hst in *.
  pose proof (end_value_object maxNestingDepth c) as Hev.
  destruct (step_at maxNestingDepth (EndValue, [ParseObjectValue]) c) as [sc' o]; cbn [fst snd] in *.
  destruct o; try done; subst sc'; cbn [snd length].
  - constructor; [by exists sc1|]. apply IH; [right; left; by eexists | done].
  - case_match; [constructor; [by exists sc1|]|]; by constructor.
  - apply IH; [|done]. right; right. exists sc1. auto 10.
Qed.

(** A value that goes on: the byte is collected. *)
Lemma clean_inner c s sc1 key acc : clean_from s ->
  crun lim clean_op start acc = Some sc1 -> wf_scanner sc1 -> opened sc1 ->
  snd sc1 <> [] \/ inner_op (snd (step_at maxNestingDepth (under [ParseObjectValue] sc1) c)) = true ->
  eof_ok (run_at maxNestingDepth (under [ParseObjectValue] sc1) (String c s)) = true ->
  all_clean (members_from (under [ParseObjectValue] sc1) key acc (String c s)).
Proof.
  intros IH Hr Hwf Hop Hin Hrun. cbn [run_at] in Hrun. cbn [members_from]. unfold scan_step.
  pose proof (run_not_error _ _ _ Hrun) as Hne.
  destruct (under_nonempty sc1) as [Hu1 Hu2]. pose proof (step_no_end _ c Hu1 Hu2) as Hnend.
  assert (clean_op (snd (step_at maxNestingDepth (under [ParseObjectValue] sc1) c)) = true) as Hcl
    by (by destruct (snd (step_at maxNestingDepth _ c))).
  pose proof (step_unframe lim ParseObjectValue sc1 c Hwf) as Huf.
  rewrite lim_succ in Huf. specialize (Huf Hin Hcl). rewrite Huf in *. cbn [fst snd] in *.
  pose proof (op_stack lim sc1 c) as Hos. pose proof (step_space_stack lim sc1 c) as Hss.
  pose proof (wf_step lim sc1 c Hwf Hne) as Hwf'. pose proof (opened_step lim sc1 c Hop) as Hop'.
  pose proof (crun_snoc start acc sc1 c Hr Hcl) as Hr'.
  assert (all_clean (members_from (under [ParseObjectValue] (fst (step_at lim sc1 c))) key
            (acc ++ str1 c) s)) as Hgo.
  { apply IH; [|done]. right; right. eexists. split; [exact Hr'|]. auto 10. }
  unfold under in *. cbn [snd] in *. rewrite length_app. cbn [length].
  destruct (snd (step_at lim sc1 c)) eqn:Ho; try done;
    destruct (snd (fst (step_at lim sc1 c))) as [|x l] eqn:Hl; try done.
  all: try (by cbn [length]; rewrite Nat.add_1_r; cbn).
  exfalso. rewrite <- Hss in Hin by done. destruct Hin as [Hin|Hin]; done.
Qed.

Lemma members_from_clean s : clean_from s.
Proof.
  induction s as [|c s IH]; intros sc key acc Hcol Hrun; [by constructor|].
  destruct Hcol as [[-> ->]|[(q & -> & Hq)|(sc1 & Hr & Hwf & Hop & Hsc)]].
  - cbn [run_at] in Hrun. cbn [members_from]. unfold scan_step.
    pose proof (run_not_error _ _ _ Hrun) as Hne. pose proof (step_first_key c) as Hf.
    destruct (step_at _ _ c) as [sc' o]; cbn [fst snd] in *.
    destruct o; try done; subst sc'; cbn [snd length nonempty]; try by constructor.
    + apply IH; [right; left; by eexists | done].
    + apply IH; [by left | done].
  - cbn [run_at] in Hrun. cbn [members_from]. unfold scan_step.
    pose proof (run_not_error _ _ _ Hrun) as Hne. pose proof (step_key q c Hq) as Hf.
    destruct (step_at _ _ c) as [sc' o]; cbn [fst snd] in *.
    destruct o; try done; try subst sc'; try destruct Hf as (q' & -> & Hq'); cbn [snd length];
      (apply IH; [|done]); try (right; left; by eexists).
    right; right. exists start. split; [done|]. split; [done|]. split; [done|]. by left.
  - destruct Hsc as [->|[-> Hc]]; [|by eapply clean_completed].
    destruct (snd sc1) as [|p l] eqn:Hs; [|apply clean_inner; auto; left; by rewrite Hs].
    assert (snd (step_at maxNestingDepth (under [ParseObjectValue] sc1) c) <> Error) as Hne
      by (eapply run_not_error; exact Hrun).
    destruct (step_depth1 maxNestingDepth sc1 c Hop Hs Hne) as [Hin|[Hsp|[Hc Hst]]].
    + apply clean_inner; auto.
    + cbn [run_at] in Hrun. cbn [members_from]. unfold scan_step.
      rewrite Hsp in *. cbn [fst snd] in *. unfold under at 1. cbn [snd]. rewrite Hs. cbn [app length].
      apply IH; [|done]. right; right. exists sc1. auto 10.
    + by eapply clean_completed.
Qed.

(** The values of a valid object, scanned from its beginning. *)
Lemma members_clean msg : checkValid msg = true -> kind_of msg = KObject ->
  all_clean (members msg).
Proof.
  unfold checkValid, members, run, start. generalize "" at 1 as key. generalize "" at 1 as acc.
  induction msg as [|c msg IH]; intros acc key Hrun Hk; [done|].
  cbn [kind_of] in Hk. cbn [run_at] in Hrun. cbn [members_from]. unfold scan_step.
  destruct (is_space c) eqn:Hsp.
  - cbn [step_at] in *. unfold begin_value in *. rewrite Hsp in *. cbn [fst snd length] in *.
    by apply IH.
  - destruct (chr c 123) eqn:Hb; [|repeat case_match; done].
    cbn [step_at] in *. unfold begin_value in *. rewrite Hsp, Hb in *. unfold push in *.
    cbn [fst snd length] in *. cbn in Hrun |- *.
    apply members_from_clean; [by left | done].
Qed.
End members_clean.

(** ** Objects written by [object_text] *)

(** A name that needs no escape. *)
Definition plain_name (n : string) : bool :=
  str_forallb (fun c => negb (chr c 34) && negb (chr c 92) && (32 <=? byte_val c)) n.

Lemma step_plain lim stk c :
  negb (chr c 34) && negb (chr c 92) && (32 <=? byte_val c) = true ->
  step_at lim (InString, stk) c = ((InString, stk), Continue).
Proof.
  intros H. apply andb_true_iff in H as [H H3]. apply andb_true_iff in H as [H1 H2].
  apply negb_true_iff in H1, H2. cbn. rewrite H1, H2. apply Z.leb_le in H3.
  by rewrite (proj2 (Z.ltb_ge _ _)) by lia.
Qed.

Lemma scan_plain lim stk n : plain_name n = true ->
  crun lim tight_op (InString, stk) n = Some (InString, stk).
Proof.
  induction n as [|c n IH]; [done|]. intros H. apply andb_true_iff in H as [Hc Hn].
  cbn [crun]. rewrite step_plain by done. by apply IH.
Qed.

Lemma members_plain n key acc t : plain_name n = true ->
  members_from (InString, [ParseObjectKey]) key acc (n ++ t) =
  members_from (InString, [ParseObjectKey]) key (acc ++ n) t.
Proof.
  revert acc; induction n as [|c n IH]; intros acc H; [by rewrite str_app_nil_r|].
  apply andb_true_iff in H as [Hc Hn]. cbn [String.append members_from].
  unfold scan_step. rewrite step_plain by done. cbn. rewrite IH by done.
  by rewrite <- str_app_cons_assoc.
Qed.

(** The scanner that has just entered an object or passed a comma. *)
Definition at_key (sc : scanner) : Prop :=
  sc = (BeginString, [ParseObjectKey]) \/ sc = (BeginStringOrEmpty, [ParseObjectKey]).

Definition object_ok (l : list (string * string)) : Prop :=
  Forall (fun m => plain_name (fst m) = true /\ is_value (maxNestingDepth - 1) tight_op (snd m)) l.

Lemma in_quotes_app n u : (in_quotes n ++ u)%string = String dquote (n ++ String dquote u).
Proof. unfold in_quotes. cbn. f_equal. by rewrite <- str_app_assoc. Qed.

Lemma step_open_key lim sc : at_key sc ->
  step_at lim sc dquote = ((InString, [ParseObjectKey]), BeginLiteral).
Proof. by intros [-> | ->]. Qed.

Lemma crun_key sc n t : at_key sc -> plain_name n = true ->
  crun maxNestingDepth tight_op sc (in_quotes n ++ ":" ++ t) =
  crun maxNestingDepth tight_op (depth1 ParseObjectValue) t.
Proof.
  intros Hsc Hn. rewrite in_quotes_app. cbn [crun]. rewrite step_open_key by done.
  cbn [tight_op]. rewrite crun_app, scan_plain by done. done.
Qed.

Lemma members_key sc n t key : at_key sc -> plain_name n = true ->
  members_from sc key "" (in_quotes n ++ ":" ++ t) =
  members_from (depth1 ParseObjectValue) (in_quotes n) "" t.
Proof.
  intros Hsc Hn. rewrite in_quotes_app. cbn [members_from]. unfold scan_step at 1.
  rewrite step_open_key by done. cbn [snd length]. by rewrite members_plain.
Qed.

(** After a value: the comma, or the end of the object. *)
Lemma step_after_value fin c : complete fin = true -> c = ","%char \/ c = "}"%char ->
  scan_step (under [ParseObjectValue] fin) c = scan_step (EndValue, [ParseObjectValue]) c.
Proof.
  destruct fin as [q [|p stk]]; [|by destruct q]. destruct q; try done; by intros _ [-> | ->].
Qed.

Lemma members_object_body l sc key : at_key sc -> l <> [] -> object_ok l ->
  members_from sc key "" (object_body l) = (fun m => (in_quotes (fst m), snd m)) <$> l.
Proof.
  intros Hsc Hl Hok. revert sc key Hsc Hl. induction Hok as [|[n v] l [Hn (fin & Hr & Hc)] Hok IH];
    intros sc key Hsc Hl; [done|]. cbn [fst snd] in *.
  assert (nonempty v = true) as Hv.
  { apply nonempty_spec. intros ->. injection Hr as <-. done. }
  cbn [fmap list_fmap fst snd]. destruct l as [|m l].
  - cbn [object_body]. unfold member_text. rewrite <- !str_app_assoc.
    rewrite members_key, (members_value _ _ _ _ _ fin) by done.
    cbn [String.append members_from]. rewrite step_after_value by auto.
    cbn. by rewrite Hv.
  - change (object_body ((n, v) :: m :: l)) with (member_text n v ++ "," ++ object_body (m :: l))%string.
    unfold member_text. rewrite <- !str_app_assoc.
    rewrite members_key, (members_value _ _ _ _ _ fin) by done.
    cbn [String.append members_from]. rewrite step_after_value by auto.
    cbn -[object_body]. f_equal. apply IH; [by left | done].
Qed.

Lemma crun_object_body l sc : at_key sc -> l <> [] -> object_ok l ->
  crun maxNestingDepth tight_op sc (object_body l) = Some (EndTop, []).
Proof.
  intros Hsc Hl Hok. revert sc Hsc Hl. induction Hok as [|[n v] l [Hn (fin & Hr & Hc)] Hok IH];
    intros sc Hsc Hl; [done|]. cbn [fst snd] in *.
  pose proof (crun_under _ _ [ParseObjectValue] start _ _ tight_clean ltac:(done) ltac:(done) Hr) as Hu.
  change (maxNestingDepth - 1 + N.of_nat (length [ParseObjectValue]))%N with maxNestingDepth in Hu.
  change (under [ParseObjectValue] start) with (depth1 ParseObjectValue) in Hu.
  pose proof (fun c H => step_after_value fin c Hc H) as Hafter. unfold scan_step in Hafter.
  destruct l as [|m l].
  - cbn [object_body]. unfold member_text. rewrite <- !str_app_assoc.
    rewrite crun_key, crun_app, Hu by done. cbn -[maxNestingDepth under].
    by rewrite Hafter by auto.
  - change (object_body ((n, v) :: m :: l)) with (member_text n v ++ "," ++ object_body (m :: l))%string.
    unfold member_text. rewrite <- !str_app_assoc.
    rewrite crun_key, crun_app, Hu by done. cbn [mbind option_bind String.append crun].
    rewrite Hafter by auto. cbn -[maxNestingDepth object_body crun].
    apply IH; [by left | done].
Qed.

(** An object written by [object_text] is valid, and its members are the ones
    it was written from. *)
Lemma object_text_ok l : l <> [] -> object_ok l ->
  checkValid (object_text l) = true /\ kind_of (object_text l) = KObject /\
  members (object_text l) = (fun m => (in_quotes (fst m), snd m)) <$> l.
Proof.
  intros Hl Hok. split; [|split; [done|]].
  - unfold checkValid, run. apply complete_eof.
    rewrite (crun_run _ tight_op _ _ (EndTop, [])); [done|].
    change (crun maxNestingDepth tight_op start (object_text l))
      with (crun maxNestingDepth tight_op (BeginStringOrEmpty, [ParseObjectKey]) (object_body l)).
    apply crun_object_body; [by right | done..].
  - unfold members.
    change (members_from start "" "" (object_text l))
      with (members_from (BeginStringOrEmpty, [ParseObjectKey]) "" "" (object_body l)).
    apply members_object_body; [by right | done..].
Qed.
