(* ===== verification/GoTime.v ===== *)
(** * The parts of Go's [time] package the gateway uses

    [rfc3339_ok] is the acceptance test of [time.Parse(time.RFC3339, s)]
    (envelope validation), [ParseDuration] parses the rate-limit windows of
    the caller registry, and [seconds_ceil] is
    [int(math.Ceil(d.Seconds()))], the retry-after computation, in binary64
    arithmetic. *)
From S2P Require Import Prelude Utf8.
From Stdlib Require Import SpecFloat.

(* ------------------------------------------------------------------ *)
(** ** RFC 3339 timestamps *)

Definition digit (c : ascii) : option Z :=
  if in_range 48 57 (byte_val c) then Some (byte_val c - 48) else None.

(** [getnum]: a one- or two-digit number, two when [fixed]. *)
Definition getnum (s : string) (fixed : bool) : option (Z * string) :=
  match s with
  | String a s1 =>
      x ← digit a;
      match s1 with
      | String b s2 =>
          match digit b with
          | Some y => Some (x * 10 + y, s2)
          | None => if fixed then None else Some (x, s1)
          end
      | EmptyString => if fixed then None else Some (x, s1)
      end
  | EmptyString => None
  end.

(** The four digits of a year. *)
Definition getyear (s : string) : option (Z * string) :=
  match s with
  | String a (String b (String c (String d s'))) =>
      w ← digit a; x ← digit b; y ← digit c; z ← digit d;
      Some (((w * 10 + x) * 10 + y) * 10 + z, s')
  | _ => None
  end.

Definition skip_char (c : Z) (s : string) : option string :=
  match s with
  | String a s' => if byte_val a =? c then Some s' else None
  | EmptyString => None
  end.

Definition guard_opt (b : bool) : option unit := if b then Some tt else None.

Fixpoint skip_digits (s : string) : string :=
  match s with
  | String a s' => match digit a with Some _ => skip_digits s' | None => s end
  | EmptyString => s
  end.

(** An optional fraction of a second after the seconds. *)
Definition skip_fraction (s : string) : string :=
  match s with
  | String a ((String b _) as s1) =>
      if (byte_val a =? 46) || (byte_val a =? 44)
      then match digit b with Some _ => skip_digits s1 | None => s end
      else s
  | _ => s
  end.

(** [Z] or a numeric offset; hours up to 24 and minutes up to 60 pass. *)
Definition skip_zone (s : string) : option string :=
  match s with
  | String a s1 =>
      if byte_val a =? 90 then Some s1 else
      '(hr, s2) ← getnum s1 true;
      s3 ← skip_char 58 s2;
      '(mm, s4) ← getnum s3 true;
      _ ← guard_opt ((hr <=? 24) && (mm <=? 60));
      _ ← guard_opt ((byte_val a =? 43) || (byte_val a =? 45));
      Some s4
  | EmptyString => None
  end.

Definition is_leap (year : Z) : bool :=
  (year mod 4 =? 0) && (negb (year mod 100 =? 0) || (year mod 400 =? 0)).

Definition days_in (month year : Z) : Z :=
  if month =? 2 then (if is_leap year then 29 else 28)
  else if (month =? 4) || (month =? 6) || (month =? 9) || (month =? 11) then 30 else 31.

(** The civil fields of a timestamp: year, month, day, hour, minute, second. *)
Definition parse_rfc3339 (s : string) : option (Z * Z * Z * Z * Z * Z) :=
  '(year, s) ← getyear s;
  s ← skip_char 45 s;
  '(month, s) ← getnum s true;
  _ ← guard_opt ((1 <=? month) && (month <=? 12));
  s ← skip_char 45 s;
  '(day, s) ← getnum s true;
  s ← skip_char 84 s;
  '(hour, s) ← getnum s false;
  _ ← guard_opt (hour <? 24);
  s ← skip_char 58 s;
  '(minute, s) ← getnum s true;
  _ ← guard_opt (minute <? 60);
  s ← skip_char 58 s;
  '(sec, s) ← getnum s true;
  _ ← guard_opt (sec <? 60);
  s ← skip_zone (skip_fraction s);
  _ ← guard_opt (negb (nonempty s));
  _ ← guard_opt ((1 <=? day) && (day <=? days_in month year));
  Some (year, month, day, hour, minute, sec).

(** [time.Parse(time.RFC3339, s)] returns no error. *)
Definition rfc3339_ok (s : string) : bool :=
  match parse_rfc3339 s with Some _ => true | None => false end.

Example rfc3339_good : map rfc3339_ok
  ["2026-10-17T00:00:00Z"; "2026-10-17T7:05:09.123456789012+07:00"; "2024-02-29T23:59:59,5-24:60"]
  = [true; true; true].
Proof. vm_compute. reflexivity. Qed.
Example rfc3339_bad : map rfc3339_ok
  [""; "2026-10-17"; "2026-13-01T00:00:00Z"; "2025-02-29T00:00:00Z"; "2026-10-17T24:00:00Z";
   "2026-10-17T00:00:00"; "2026-10-17T00:00:00Zx"; "2026-10-17 00:00:00Z"; "2026-10-17T00:00:00+25:00"]
  = replicate 9 false.
Proof. vm_compute. reflexivity. Qed.

(* ------------------------------------------------------------------ *)
(** ** binary64 arithmetic *)

Definition prec64 : Z := 53.
Definition emax64 : Z := 1024.

(** [float64(z)], rounded to nearest even. *)
Definition f64_of_Z (z : Z) : spec_float := binary_normalize prec64 emax64 z 0 false.
Definition f64_add : spec_float -> spec_float -> spec_float := SFadd prec64 emax64.
Definition f64_mul : spec_float -> spec_float -> spec_float := SFmul prec64 emax64.
Definition f64_div : spec_float -> spec_float -> spec_float := SFdiv prec64 emax64.

(** The conversions of a finite float to an integer, truncating and rounding
    up; infinities and NaN do not occur here. *)
Definition f64_trunc (x : spec_float) : Z :=
  match x with
  | S754_finite s m e =>
      let a := if 0 <=? e then Z.pos m * 2 ^ e else Z.pos m / 2 ^ (- e) in
      if s then - a else a
  | _ => 0
  end.

Definition f64_ceil (x : spec_float) : Z :=
  match x with
  | S754_finite s m e =>
      if 0 <=? e then (if s then - (Z.pos m * 2 ^ e) else Z.pos m * 2 ^ e)
      else if s then - (Z.pos m / 2 ^ (- e))
      else - ((- Z.pos m) / 2 ^ (- e))
  | _ => 0
  end.

(** [Duration.Seconds]: whole seconds plus the rest, each converted exactly. *)
Definition Seconds (d : Z) : spec_float :=
  f64_add (f64_of_Z (Z.quot d Second)) (f64_div (f64_of_Z (Z.rem d Second)) (f64_of_Z Second)).

(** [int(math.Ceil(d.Seconds()))]. *)
Definition seconds_ceil (d : Z) : Z := f64_ceil (Seconds d).

Example seconds_ceil_ex :
  map seconds_ceil [0; 1; 999999999; 1000000000; 1000000001; 3599999999999; -1; -1000000001]
  = [0; 1; 1; 1; 2; 3600; 0; -1].
Proof. vm_compute. reflexivity. Qed.

(* ------------------------------------------------------------------ *)
(** ** Durations *)

Definition two63 : Z := 9223372036854775808.

(** [leadingInt]: the leading decimal digits, [None] beyond [1<<63]. *)
Fixpoint leadingInt (x : Z) (s : string) : option (Z * string) :=
  match s with
  | String c s' =>
      match digit c with
      | Some d =>
          if two63 / 10 <? x then None
          else if two63 <? x * 10 + d then None
          else leadingInt (x * 10 + d) s'
      | None => Some (x, s)
      end
  | EmptyString => Some (x, s)
  end.

(** [leadingFraction]: the digits that fit, and the power of ten they scale
    by; [ov] records that further digits are passed over. *)
Fixpoint leadingFraction (x scale : Z) (ov : bool) (s : string) : Z * Z * string :=
  match s with
  | String c s' =>
      match digit c with
      | Some d =>
          if ov then leadingFraction x scale true s'
          else if (two63 - 1) / 10 <? x then leadingFraction x scale true s'
          else if two63 <? x * 10 + d then leadingFraction x scale true s'
          else leadingFraction (x * 10 + d) (scale * 10) false s'
      | None => (x, scale, s)
      end
  | EmptyString => (x, scale, s)
  end.

(** The unit: the bytes up to the next digit or period. *)
Fixpoint split_unit (s : string) : string * string :=
  match s with
  | String c s' =>
      if (byte_val c =? 46) || in_range 48 57 (byte_val c) then ("", s)
      else let (u, r) := split_unit s' in (String c u, r)
  | EmptyString => ("", "")
  end.

Definition unitMap (u : string) : option Z :=
  if String.eqb u "ns" then Some Nanosecond
  else if String.eqb u "us" then Some Microsecond
  else if String.eqb u (encode_rune 0xB5 ++ "s") then Some Microsecond
  else if String.eqb u (encode_rune 0x3BC ++ "s") then Some Microsecond
  else if String.eqb u "ms" then Some Millisecond
  else if String.eqb u "s" then Some Second
  else if String.eqb u "m" then Some Minute
  else if String.eqb u "h" then Some Hour
  else None.

(** The nanoseconds of a fraction [f / scale] of [unit]. *)
Definition fraction_ns (f unit scale : Z) : Z :=
  f64_trunc (f64_mul (f64_of_Z f) (f64_div (f64_of_Z unit) (f64_of_Z scale))).

(** One [number unit] group: its nanoseconds and the text after it. *)
Definition duration_group (s : string) : option (Z * string) :=
  match s with
  | EmptyString => None
  | String c _ =>
      _ ← guard_opt ((byte_val c =? 46) || in_range 48 57 (byte_val c));
      '(v, s1) ← leadingInt 0 s;
      let pre := negb (String.length s1 =? String.length s)%nat in
      let '(f, scale, s2, post) :=
        match s1 with
        | String p s1' =>
            if byte_val p =? 46 then
              let '(f, scale, s2) := leadingFraction 0 1 false s1' in
              (f, scale, s2, negb (String.length s2 =? String.length s1')%nat)
            else (0, 1, s1, false)
        | EmptyString => (0, 1, s1, false)
        end in
      _ ← guard_opt (pre || post);
      let (u, s3) := split_unit s2 in
      _ ← guard_opt (nonempty u);
      unit ← unitMap u;
      _ ← guard_opt (v <=? two63 / unit);
      let v := v * unit in
      let v := if 0 <? f then v + fraction_ns f unit scale else v in
      _ ← guard_opt (v <=? two63);
      Some (v, s3)
  end.

(** The loop over the groups, with the length of the text as fuel: every group
    consumes at least its unit. *)
Fixpoint duration_loop (fuel : nat) (d : Z) (s : string) : option Z :=
  match s with
  | EmptyString => Some d
  | _ =>
      match fuel with
      | O => None
      | S fuel' =>
          '(v, s') ← duration_group s;
          _ ← guard_opt (d + v <=? two63);
          duration_loop fuel' (d + v) s'
      end
  end.

(** [time.ParseDuration]; [None] is its error. *)
Definition ParseDuration (s : string) : option Z :=
  let '(neg, s) :=
    match s with
    | String c s' =>
        if byte_val c =? 45 then (true, s') else if byte_val c =? 43 then (false, s') else (false, s)
    | EmptyString => (false, s)
    end in
  if String.eqb s "0" then Some 0
  else if negb (nonempty s) then None
  else
    d ← duration_loop (String.length s) 0 s;
    if neg then Some (- d)
    else if two63 - 1 <? d then None else Some d.

Example ParseDuration_good : map ParseDuration ["1s"; "1m30s"; "1.5h"; "-2ms"; "0"; ".5s"; "100ms"; "1.000000001s"]
  = Some <$> [Second; 90 * Second; 90 * Minute; - (2 * Millisecond); 0; 500 * Millisecond;
              100 * Millisecond; Second + 1].
Proof. vm_compute. reflexivity. Qed.
Example ParseDuration_bad : map ParseDuration [""; "1"; "s"; "1x"; "-"; ".s"; "9223372037s"; "1s "; "99999999999999999999s"]
  = replicate 9 None.
Proof. vm_compute. reflexivity. Qed.

(** ** The fuel of [duration_loop] suffices *)

Lemma leadingInt_length s : forall x v s', leadingInt x s = Some (v, s') ->
  (String.length s' <= String.length s)%nat.
Proof.
  induction s as [|c s IH]; cbn; intros x v s' H.
  - by injection H as <- <-.
  - destruct (digit c); [|by injection H as <- <-].
    repeat case_match; try done. apply IH in H. lia.
Qed.

Lemma leadingFraction_length s : forall x sc ov,
  (String.length (snd (leadingFraction x sc ov s)) <= String.length s)%nat.
Proof.
  induction s as [|c s IH]; cbn; intros x sc ov; [done|].
  destruct (digit c); [|done].
  repeat case_match; etransitivity; try apply IH; lia.
Qed.

Lemma split_unit_length s :
  (String.length (fst (split_unit s)) + String.length (snd (split_unit s)) = String.length s)%nat.
Proof.
  induction s as [|c s IH]; cbn; [done|]. case_match; [done|].
  destruct (split_unit s); cbn in *. lia.
Qed.

(** Every group is shorter than what it leaves behind. *)
Lemma duration_group_progress s v s' :
  duration_group s = Some (v, s') -> (String.length s' < String.length s)%nat.
Proof.
  destruct s as [|c s]; [done|]. unfold duration_group.
  destruct (guard_opt (_ || _)); [|done]. cbn [mbind option_bind].
  destruct (leadingInt 0 _) as [[v0 s1]|] eqn:Hi; [|done].
  apply leadingInt_length in Hi. cbn [mbind option_bind].
  set (frac := match s1 with EmptyString => _ | String _ _ => _ end).
  assert (String.length (snd (fst frac)) <= String.length s1)%nat as Hf.
  { unfold frac. destruct s1 as [|p s1]; [done|]. destruct (byte_val p =? 46); [|done].
    pose proof (leadingFraction_length s1 0 1 false) as Hl.
    destruct (leadingFraction 0 1 false s1) as [[? ?] ?]; cbn in *. lia. }
  destruct frac as [[[f sc] s2] post]; cbn in Hf.
  destruct (guard_opt (_ || post)); [|done]. cbn [mbind option_bind].
  pose proof (split_unit_length s2) as Hu.
  destruct (split_unit s2) as [un s3]; cbn in Hu.
  destruct un as [|c0 un]; [done|]. cbn [mbind option_bind].
  destruct (unitMap _) as [unit|]; [|done]. cbn [mbind option_bind].
  destruct (guard_opt (v0 <=? _)); [|done]. cbn [mbind option_bind].
  destruct (guard_opt _); [|done]. cbn [mbind option_bind].
  intros H. injection H as _ <-. cbn in *. lia.
Qed.

(** More fuel than the length of the text changes nothing. *)
Lemma duration_loop_fuel n : forall m d s,
  (String.length s <= n)%nat -> (n <= m)%nat -> duration_loop m d s = duration_loop n d s.
Proof.
  induction n as [|n IH]; intros m d s Hs Hm.
  - destruct s; [|cbn in Hs; lia]. by destruct m.
  - destruct m as [|m]; [lia|]. destruct s as [|c s]; [done|]. cbn [duration_loop].
    destruct (duration_group (String c s)) as [[v s']|] eqn:Hg; [|done]. cbn [mbind option_bind].
    apply duration_group_progress in Hg.
    destruct (guard_opt _); [|done]. cbn [mbind option_bind]. apply IH; lia.
Qed.
