(* ===== verification/Sha256.v ===== *)
(** * SHA-256 and its hexadecimal digest

    [HashAPIKey] compares digests, so the standard library's [sha256.Sum256] and
    [hex.EncodeToString] are modelled in full, as computable functions on
    32-bit words kept in [Z], together with the shape of the result: 64
    lowercase hexadecimal digits. *)
From S2P Require Import Prelude Utf8.

Definition w32 (z : Z) : Z := z mod 2 ^ 32.
Definition rotr (n z : Z) : Z := Z.lor (Z.shiftr z n) (w32 (Z.shiftl z (32 - n))).

(** The constants by their definition: the first thirty-two bits of the
    fractional parts of the cube roots of the first sixty-four primes, and of
    the square roots of the first eight. *)
Definition is_prime (n : nat) : bool :=
  (2 <=? n)%nat && forallb (fun d => negb (n mod d =? 0)%nat) (seq 2 (n - 2)).
Definition primes : list Z := Eval vm_compute in
  map Z.of_nat (List.filter is_prime (seq 2 310)).

(** The largest [r] in [lo, lo + 2^bits) with [r ^ n <= x]. *)
Fixpoint int_root (n x : Z) (bits : nat) (lo : Z) : Z :=
  match bits with
  | O => lo
  | S b => let mid := lo + 2 ^ Z.of_nat b in int_root n x b (if mid ^ n <=? x then mid else lo)
  end.

Definition sha_k : list Z := Eval vm_compute in
  map (fun p => w32 (int_root 3 (p * 2 ^ 96) 36 0)) primes.
Definition sha_init : list Z := Eval vm_compute in
  map (fun p => w32 (int_root 2 (p * 2 ^ 64) 37 0)) (take 8 primes).

Definition big_sigma0 (x : Z) : Z := Z.lxor (Z.lxor (rotr 2 x) (rotr 13 x)) (rotr 22 x).
Definition big_sigma1 (x : Z) : Z := Z.lxor (Z.lxor (rotr 6 x) (rotr 11 x)) (rotr 25 x).
Definition small_sigma0 (x : Z) : Z := Z.lxor (Z.lxor (rotr 7 x) (rotr 18 x)) (Z.shiftr x 3).
Definition small_sigma1 (x : Z) : Z := Z.lxor (Z.lxor (rotr 17 x) (rotr 19 x)) (Z.shiftr x 10).
Definition sha_ch (x y z : Z) : Z := Z.lxor (Z.land x y) (Z.land (w32 (Z.lnot x)) z).
Definition sha_maj (x y z : Z) : Z := Z.lxor (Z.lxor (Z.land x y) (Z.land x z)) (Z.land y z).

(** The message schedule grows one word at a time; [win] is the last sixteen
    words, oldest first. *)
Definition schedule_next (win : list Z) : Z :=
  w32 (small_sigma1 (nth 14 win 0) + nth 9 win 0 + small_sigma0 (nth 1 win 0) + nth 0 win 0).

Definition sha_round (st : list Z) (k w : Z) : list Z :=
  match st with
  | [a; b; c; d; e; f; g; h] =>
      let t1 := h + big_sigma1 e + sha_ch e f g + k + w in
      let t2 := big_sigma0 a + sha_maj a b c in
      [w32 (t1 + t2); a; b; c; w32 (d + t1); e; f; g]
  | _ => st
  end.

Fixpoint sha_rounds (ks : list Z) (win st : list Z) : list Z :=
  match ks with
  | [] => st
  | k :: ks' =>
      sha_rounds ks' (tail win ++ [schedule_next win]) (sha_round st k (nth 0 win 0))
  end.

Fixpoint be_words (l : list Z) : list Z :=
  match l with
  | a :: b :: c :: d :: l' => (((a * 256 + b) * 256 + c) * 256 + d) :: be_words l'
  | _ => []
  end.

Definition sha_block (st : list Z) (block : list Z) : list Z :=
  zip_with (fun a b => w32 (a + b)) st (sha_rounds sha_k (be_words block) st).

Definition be_bytes (n : nat) (z : Z) : list Z :=
  map (fun i => Z.shiftr z (8 * Z.of_nat i) mod 256) (rev (seq 0 n)).

Definition sha_pad (l : list Z) : list Z :=
  let n := length l in
  let fill := ((119 - n mod 64) mod 64)%nat in
  l ++ [0x80] ++ replicate fill 0 ++ be_bytes 8 (8 * Z.of_nat n).

(** The padded message, 64 bytes at a time. *)
Definition sha_blocks (st : list Z) (l : list Z) : list Z :=
  foldl (fun st i => sha_block st (take 64 (drop (64 * i) l))) st (seq 0 (length l / 64)).

Definition str_bytes (s : string) : list Z := byte_val <$> String.list_ascii_of_string s.

(** [sha256.Sum256], as its eight words. *)
Definition sum256 (s : string) : list Z := sha_blocks sha_init (sha_pad (str_bytes s)).

Definition hex_nibble (n : Z) : ascii := byte_of (if n <? 10 then 48 + n else 87 + n).

(** [hex.EncodeToString] of one big-endian word. *)
Definition hex_word (w : Z) : string :=
  String.string_of_list_ascii (map (fun i => hex_nibble (Z.shiftr w (4 * i) mod 16)) [7; 6; 5; 4; 3; 2; 1; 0]).

Fixpoint hex_words (l : list Z) : string :=
  match l with [] => "" | w :: l' => hex_word w ++ hex_words l' end.

Definition sha256_hex (s : string) : string := hex_words (sum256 s).

Example sha256_abc :
  sha256_hex "abc" = "ba7816bf8f01cfea414140de5dae2223b00361a396177a9cb410ff61f20015ad".
Proof. vm_compute. reflexivity. Qed.
Example sha256_empty :
  sha256_hex "" = "e3b0c44298fc1c149afbf4c8996fb92427ae41e4649b934ca495991b7852b855".
Proof. vm_compute. reflexivity. Qed.
(** The digest of the development key that [.env.example] registers. *)
Example sha256_env_example :
  sha256_hex "local-expense-gateway-key" = "79345f2cfc3293537f0d277da3908fa4bb831eceaad61e9566e2ddf9e3d55a78".
Proof. vm_compute. reflexivity. Qed.
Example sha256_two_blocks :
  sha256_hex "abcdbcdecdefdefgefghfghighijhijkijkljklmklmnlmnomnopnopq" =
  "248d6a61d20638b8e5c026930c3e6039a33ce45964ff2167f6ecedd419db06c1".
Proof. vm_compute. reflexivity. Qed.

(* ------------------------------------------------------------------ *)
(** ** The shape of a digest *)

Definition is_lower_hex (c : ascii) : bool :=
  in_range 48 57 (byte_val c) || in_range 97 102 (byte_val c).

Lemma hex_nibble_lower n : 0 <= n < 16 -> is_lower_hex (hex_nibble n) = true.
Proof.
  intros H. unfold is_lower_hex, hex_nibble.
  destruct (n <? 10) eqn:E; rewrite byte_val_of by lia; unfold in_range; lia.
Qed.

Lemma hex_word_shape w :
  String.length (hex_word w) = 8%nat /\ str_forallb is_lower_hex (hex_word w) = true.
Proof.
  split; [done|]. unfold hex_word. cbn [map String.string_of_list_ascii str_forallb].
  by rewrite !hex_nibble_lower by (apply Z.mod_pos_bound; lia).
Qed.

Lemma hex_words_shape l :
  String.length (hex_words l) = (8 * length l)%nat /\ str_forallb is_lower_hex (hex_words l) = true.
Proof.
  induction l as [|w l [IH1 IH2]]; cbn [hex_words]; [done|].
  destruct (hex_word_shape w) as [H1 H2]. autorewrite with gw_str.
  rewrite H1, H2, IH1, IH2. cbn [length]. split; [lia | done].
Qed.

Lemma sha_round_length st k w : length (sha_round st k w) = length st.
Proof. unfold sha_round. by do 9 (destruct st as [|? st]; [done|]). Qed.

Lemma sha_rounds_length ks : forall win st, length (sha_rounds ks win st) = length st.
Proof.
  induction ks as [|k ks IH]; intros win st; cbn [sha_rounds]; [done|].
  by rewrite IH, sha_round_length.
Qed.

Lemma sha_block_length st b : length (sha_block st b) = length st.
Proof. unfold sha_block. rewrite length_zip_with, sha_rounds_length. lia. Qed.

Lemma sha_blocks_length st l : length (sha_blocks st l) = length st.
Proof.
  unfold sha_blocks. generalize (seq 0 (length l / 64)) as ix.
  intros ix. revert st. induction ix as [|i ix IH]; intros st; cbn [foldl]; [done|].
  by rewrite IH, sha_block_length.
Qed.

(** A digest is 64 lowercase hexadecimal digits. *)
Lemma sha256_hex_shape s :
  String.length (sha256_hex s) = 64%nat /\ str_forallb is_lower_hex (sha256_hex s) = true.
Proof.
  unfold sha256_hex. destruct (hex_words_shape (sum256 s)) as [H1 H2].
  rewrite H1, H2. unfold sum256. by rewrite sha_blocks_length.
Qed.
