(* ===== verification/Constant.v ===== *)
(** * The wire vocabulary: [internal/constant/constant.go]

    Topic, event-type, producer and header names, and [RoutedTopic], the
    [fmt.Sprintf] of the routed-topic template with one string argument. *)
From S2P Require Import Prelude Utf8.

Definition TopicDocumentProcessed : string := "ocr.document.processed.v1".
Definition TopicDocumentProcessedDLQ : string := "ocr.document.processed.dlq".

Definition EventTypeDocumentProcessed : string := "document.processed".
Definition EventTypeDocumentRouted : string := "document.routed".
Definition ProducerName : string := "ocr-gateway".
Definition SourceService : string := "ocr-gateway".

Definition HeaderEventID : string := "event-id".
Definition HeaderEventType : string := "event-type".
Definition HeaderEventVersion : string := "event-version".
Definition HeaderSource : string := "source-service".
Definition HeaderAggType : string := "aggregate-type".
Definition HeaderAggID : string := "aggregate-id".
Definition HeaderTraceID : string := "trace-id".

Definition AggregateType : string := "document".
Definition EventVersion : Z := 1.

Definition percent : ascii := "%"%char.
Definition is_percent (c : ascii) : bool := Ascii.eqb c percent.

(** What [fmt.Sprintf] prints for one string operand on a template made of
    plain text, [%s], [%v] and [%%]; [arg] is the operand while it has not been
    consumed.  [None]: the template has another directive. *)
Fixpoint sprintf_string (t : string) (arg : option string) : option string :=
  match t with
  | EmptyString =>
      Some (match arg with None => "" | Some a => ("%!(EXTRA string=" ++ a ++ ")")%string end)
  | String c t' =>
      if is_percent c then
        match t' with
        | EmptyString =>
            Some ("%!(NOVERB)" ++
              match arg with None => "" | Some a => ("%!(EXTRA string=" ++ a ++ ")")%string end)%string
        | String v t'' =>
            if is_percent v then String percent <$> sprintf_string t'' arg
            else if Ascii.eqb v "s" || Ascii.eqb v "v" then
              match arg with
              | Some a => String.append a <$> sprintf_string t'' None
              | None => String.append (String percent (String "!" (String v "(MISSING)")))
                          <$> sprintf_string t'' None
              end
            else None
        end
      else String c <$> sprintf_string t' arg
  end.

(** [fmt.Sprintf] on the templates outside that fragment. *)
Class FmtOther := fmt_other : string -> string -> string.

Definition RoutedTopic `{FmtOther} (template callerID : string) : string :=
  default (fmt_other template callerID) (sprintf_string template (Some callerID)).

(** [strings.Count t "%s"]. *)
Fixpoint count_percent_s (t : string) : nat :=
  match t with
  | EmptyString => 0
  | String c t' =>
      match t' with
      | String v t'' =>
          if is_percent c && Ascii.eqb v "s" then S (count_percent_s t'')
          else count_percent_s t'
      | EmptyString => 0
      end
  end.

(** A template whose only directive is one [%s]. *)
Definition plain (s : string) : bool := str_forallb (fun c => negb (is_percent c)) s.
Definition simple_template (pre post : string) : string := (pre ++ "%s" ++ post)%string.

Lemma sprintf_plain pre t arg :
  plain pre = true -> sprintf_string (pre ++ t) arg = String.append pre <$> sprintf_string t arg.
Proof.
  induction pre as [|c pre IH]; cbn; intros H.
  - by destruct (sprintf_string t arg).
  - apply andb_true_iff in H as [Hc Hp]. apply negb_true_iff in Hc. rewrite Hc, IH by done.
    by destruct (sprintf_string t arg).
Qed.

Lemma sprintf_plain_end post : plain post = true -> sprintf_string post None = Some post.
Proof.
  intros H. rewrite <- (str_app_nil_r post), sprintf_plain by done. cbn.
  by rewrite str_app_nil_r.
Qed.

(** The topic of a simple template is the caller's name between its halves. *)
Lemma RoutedTopic_simple `{FmtOther} pre post c :
  plain pre = true -> plain post = true ->
  RoutedTopic (simple_template pre post) c = (pre ++ c ++ post)%string.
Proof.
  intros Hpre Hpost. unfold RoutedTopic, simple_template.
  rewrite sprintf_plain by done. cbn [String.append sprintf_string].
  by rewrite sprintf_plain_end.
Qed.

(** A stand-in for the other directives, for concrete runs. *)
Definition demo_fmt_other : FmtOther := fun t c => (t ++ c)%string.

Example RoutedTopic_ex :
  @RoutedTopic demo_fmt_other "ocr.document.routed.%s.v1" "expense" = "ocr.document.routed.expense.v1".
Proof. reflexivity. Qed.
Example RoutedTopic_escaped :
  @RoutedTopic demo_fmt_other "ocr.%%s.v1" "expense" = "ocr.%s.v1%!(EXTRA string=expense)".
Proof. reflexivity. Qed.
