(* ===== verification/Envelope.v ===== *)
(** * The wire envelope: [internal/envelope/envelope.go]

    The value of a document.processed or document.routed record, its decoding
    with and without validation, and its encoding. *)
From S2P Require Import Prelude Utf8 Json GoTime Constant.

(** A [json.RawMessage]: [None] is the nil slice of an absent field. *)
Abbreviation RawMessage := (option string).

Record Envelope := MkEnvelope {
  SchemaVersion : string;
  EventID : string;
  EventType : string;
  OccurredAt : string;
  DocumentID : string;
  ExternalRef : string;
  CallerID : string;
  IdempotencyKey : string;
  Producer : string;
  Data : RawMessage;
  Error : RawMessage;
}.

#[export] Instance Envelope_eq_dec : EqDecision Envelope.
Proof. solve_decision. Defined.

(** [Envelope{}]. *)
Definition zero_envelope : Envelope := MkEnvelope "" "" "" "" "" "" "" "" "" None None.

(** ** Decoding *)

(** The struct fields with their JSON names: how each takes a raw value, and
    whether the value's type suited it. *)
Definition with_string (get : Envelope -> string) (put : Envelope -> string -> Envelope)
    (e : Envelope) (raw : string) : Envelope * bool :=
  let (s, ok) := store_string raw (get e) in (put e s, ok).

Definition set_SchemaVersion (e : Envelope) (s : string) : Envelope :=
  let '(MkEnvelope _ b c d f g h i j k l) := e in MkEnvelope s b c d f g h i j k l.
Definition set_EventID (e : Envelope) (s : string) : Envelope :=
  let '(MkEnvelope a _ c d f g h i j k l) := e in MkEnvelope a s c d f g h i j k l.
Definition set_EventType (e : Envelope) (s : string) : Envelope :=
  let '(MkEnvelope a b _ d f g h i j k l) := e in MkEnvelope a b s d f g h i j k l.
Definition set_OccurredAt (e : Envelope) (s : string) : Envelope :=
  let '(MkEnvelope a b c _ f g h i j k l) := e in MkEnvelope a b c s f g h i j k l.
Definition set_DocumentID (e : Envelope) (s : string) : Envelope :=
  let '(MkEnvelope a b c d _ g h i j k l) := e in MkEnvelope a b c d s g h i j k l.
Definition set_ExternalRef (e : Envelope) (s : string) : Envelope :=
  let '(MkEnvelope a b c d f _ h i j k l) := e in MkEnvelope a b c d f s h i j k l.
Definition set_CallerID (e : Envelope) (s : string) : Envelope :=
  let '(MkEnvelope a b c d f g _ i j k l) := e in MkEnvelope a b c d f g s i j k l.
Definition set_IdempotencyKey (e : Envelope) (s : string) : Envelope :=
  let '(MkEnvelope a b c d f g h _ j k l) := e in MkEnvelope a b c d f g h s j k l.
Definition set_Producer (e : Envelope) (s : string) : Envelope :=
  let '(MkEnvelope a b c d f g h i _ k l) := e in MkEnvelope a b c d f g h i s k l.
Definition set_Data (e : Envelope) (r : RawMessage) : Envelope :=
  let '(MkEnvelope a b c d f g h i j _ l) := e in MkEnvelope a b c d f g h i j r l.
Definition set_Error (e : Envelope) (r : RawMessage) : Envelope :=
  let '(MkEnvelope a b c d f g h i j k _) := e in MkEnvelope a b c d f g h i j k r.

Definition envelope_fields : list (string * (Envelope -> string -> Envelope * bool)) :=
  [("schema_version", with_string SchemaVersion set_SchemaVersion);
   ("event_id", with_string EventID set_EventID);
   ("event_type", with_string EventType set_EventType);
   ("occurred_at", with_string OccurredAt set_OccurredAt);
   ("document_id", with_string DocumentID set_DocumentID);
   ("external_ref", with_string ExternalRef set_ExternalRef);
   ("caller_id", with_string CallerID set_CallerID);
   ("idempotency_key", with_string IdempotencyKey set_IdempotencyKey);
   ("producer", with_string Producer set_Producer);
   ("data", fun e raw => (set_Data e (store_raw raw), true));
   ("error", fun e raw => (set_Error e (store_raw raw), true))].

(** The field a key selects; unknown keys are ignored. *)
Definition find_field {A} (key : string) (fields : list (string * A)) : option A :=
  snd <$> List.find (fun '(name, _) => key_matches key name) fields.

(** One member of the object. *)
Definition store_member (acc : Envelope * bool) (m : string * string) : Envelope * bool :=
  let (e, ok) := acc in
  match unquoteBytes (fst m) with
  | None => (e, false)
  | Some key =>
      match find_field key envelope_fields with
      | Some store => let (e', ok') := store e (snd m) in (e', ok && ok')
      | None => (e, ok)
      end
  end.

(** [json.Unmarshal(value, &env)]: [None] is its error. *)
Definition json_Unmarshal (value : string) : option Envelope :=
  if Scanner.checkValid value then
    match kind_of value with
    | KObject =>
        let (e, ok) := foldl store_member (zero_envelope, true) (members value) in
        if ok then Some e else None
    | KNull => Some zero_envelope
    | _ => None
    end
  else None.

Definition decode_error : error := Errorf "decode envelope: %w" [] [External "encoding/json"].

(** ** [Unmarshal], [Parse], [Marshal] *)

Definition Unmarshal (value : string) : result Envelope :=
  match json_Unmarshal value with
  | Some env => Ok env
  | None => Err decode_error
  end.

(** [present]: the raw field carries a value. *)
Definition present (raw : RawMessage) : bool :=
  match raw with
  | None => false
  | Some s => nonempty s && negb (String.eqb s "null")
  end.

Definition missing (s : string) (what : string) : list error :=
  if nonempty s then [] else [errors_New what].

(** The contract violations [Parse] collects, in its order. *)
Definition violations (env : Envelope) : list error :=
  missing (SchemaVersion env) "schema_version missing"
  ++ missing (EventID env) "event_id missing"
  ++ (if String.eqb (EventType env) "document.processed" then []
      else [Errorf "event_type %q: want document.processed" [EventType env] []])
  ++ (if rfc3339_ok (OccurredAt env) then []
      else [Errorf "occurred_at %q: %w" [OccurredAt env] [External "time"]])
  ++ missing (DocumentID env) "document_id missing"
  ++ missing (ExternalRef env) "external_ref missing"
  ++ missing (CallerID env) "caller_id missing"
  ++ missing (IdempotencyKey env) "idempotency_key missing"
  ++ (if present (Data env) && present (Error env)
      then [errors_New "data and error both present"] else [])
  ++ (if negb (present (Data env)) && negb (present (Error env))
      then [errors_New "data and error both absent"] else []).

Definition Parse (value : string) : result Envelope :=
  match json_Unmarshal value with
  | None => Err decode_error
  | Some env =>
      match errors_Join (violations env) with
      | Some err => Err err
      | None => Ok env
      end
  end.

(** [json.Marshal(env)]: the fields in declaration order. *)
Definition json_Marshal (e : Envelope) : option string :=
  data ← marshal_raw (Data e);
  err ← marshal_raw (Error e);
  Some (object_text
    [("schema_version", appendString (SchemaVersion e));
     ("event_id", appendString (EventID e));
     ("event_type", appendString (EventType e));
     ("occurred_at", appendString (OccurredAt e));
     ("document_id", appendString (DocumentID e));
     ("external_ref", appendString (ExternalRef e));
     ("caller_id", appendString (CallerID e));
     ("idempotency_key", appendString (IdempotencyKey e));
     ("producer", appendString (Producer e));
     ("data", data);
     ("error", err)]).

Definition Marshal (e : Envelope) : result string :=
  match json_Marshal e with
  | Some value => Ok value
  | None => Err (Errorf "encode envelope: %w" [] [External "encoding/json"])
  end.
