(* ===== verification/EnvelopeFacts.v ===== *)
(** * Theorems on the envelope

    [Parse] accepts exactly the records that meet the document.processed
    contract; an envelope that was decoded can always be encoded again, and
    decoding the encoding gives it back with its raw fields compacted. *)
From S2P Require Import Prelude Utf8 Json JsonFacts JsonCompact JsonMembers GoTime Constant Envelope.

(** ** The contract of document.processed *)

Record contract (env : Envelope) : Prop := {
  c_schema_version : SchemaVersion env <> "";
  c_event_id : EventID env <> "";
  c_event_type : EventType env = EventTypeDocumentProcessed;
  c_occurred_at : rfc3339_ok (OccurredAt env) = true;
  c_document_id : DocumentID env <> "";
  c_external_ref : ExternalRef env <> "";
  c_caller_id : CallerID env <> "";
  c_idempotency_key : IdempotencyKey env <> "";
  (** exactly one of data and error is present *)
  c_data_or_error : present (Data env) = negb (present (Error env));
}.

Lemma missing_nil s w : missing s w = [] <-> s <> "".
Proof. unfold missing. rewrite <- nonempty_spec. by destruct (nonempty s). Qed.

Lemma if_nil (b : bool) (e : error) : (if b then [] else [e]) = [] <-> b = true.
Proof. by destruct b. Qed.

Lemma if_nil_not (b : bool) (e : error) : (if b then [e] else []) = [] <-> b = false.
Proof. by destruct b. Qed.

Lemma violations_nil env : violations env = [] <-> contract env.
Proof.
  unfold violations. rewrite !app_nil_iff, !missing_nil, !if_nil, !if_nil_not, String.eqb_eq.
  split.
  - intros (?&?&?&?&?&?&?&?&?&?). split; auto.
    by destruct (present (Data env)), (present (Error env)).
  - intros []. split_and!; auto; by destruct (present (Data env)), (present (Error env)).
Qed.

Lemma errors_Join_None es : errors_Join es = None <-> es = [].
Proof. by destruct es. Qed.

Lemma Parse_decodes value env : Parse value = Ok env -> json_Unmarshal value = Some env.
Proof. unfold Parse. by destruct (json_Unmarshal value) as [e|]; [destruct (errors_Join _); intros [= ->]|]. Qed.

(** C26: [Parse] returns an envelope exactly when the value decodes to it and it
    meets the contract: every key present, the right event type, an RFC 3339
    timestamp, and exactly one of data and error; every other value is an
    error. *)
Theorem Parse_spec value env :
  Parse value = Ok env <-> json_Unmarshal value = Some env /\ contract env.
Proof.
  unfold Parse. destruct (json_Unmarshal value) as [e|]; [|by split; [|intros []]].
  destruct (errors_Join (violations e)) as [err|] eqn:Hj.
  - split; [done|]. intros [[= ->] Hc]. apply violations_nil in Hc. by rewrite Hc in Hj.
  - apply errors_Join_None, violations_nil in Hj. split; [by intros [= ->] | by intros [[= ->] _]].
Qed.

(** ** What decoding guarantees *)

Definition raw_ok (r : RawMessage) : Prop :=
  match r with Some v => is_value (Scanner.maxNestingDepth - 1) clean_op v | None => True end.

Record decoded_ok (e : Envelope) : Prop := {
  d_schema_version : valid_utf8 (SchemaVersion e);
  d_event_id : valid_utf8 (EventID e);
  d_event_type : valid_utf8 (EventType e);
  d_occurred_at : valid_utf8 (OccurredAt e);
  d_document_id : valid_utf8 (DocumentID e);
  d_external_ref : valid_utf8 (ExternalRef e);
  d_caller_id : valid_utf8 (CallerID e);
  d_idempotency_key : valid_utf8 (IdempotencyKey e);
  d_producer : valid_utf8 (Producer e);
  d_data : raw_ok (Data e);
  d_error : raw_ok (Error e);
}.

Lemma valid_empty : valid_utf8 "".
Proof. done. Qed.

Lemma zero_decoded : decoded_ok zero_envelope.
Proof. by split. Qed.

Lemma store_string_valid raw old s ok :
  valid_utf8 old -> store_string raw old = (s, ok) -> valid_utf8 s.
Proof.
  unfold store_string. destruct (kind_of raw); try (by intros ? [= <- _]).
  destruct (unquoteBytes raw) as [u|] eqn:Hu; [|by intros ? [= <- _]].
  intros _ [= <- _]. by eapply unquoteBytes_valid.
Qed.

(** Storing into any field keeps the envelope well formed. *)
Lemma store_field_decoded key store e raw :
  find_field key envelope_fields = Some store ->
  decoded_ok e -> is_value (Scanner.maxNestingDepth - 1) clean_op raw ->
  decoded_ok (fst (store e raw)).
Proof.
  unfold find_field. intros Hf He Hraw.
  apply fmap_Some in Hf as ([n st] & Hf & ->). apply List.find_some in Hf as [Hin _].
  destruct e, He. cbn in *. unfold with_string in Hin.
  repeat destruct Hin as [[= <- <-]|Hin]; try done; cbn.
  all: try (match goal with |- context [store_string ?r ?o] => destruct (store_string r o) eqn:Hs end;
    apply store_string_valid in Hs; [|done]).
  all: by split.
Qed.

Lemma store_member_decoded acc m :
  decoded_ok (fst acc) -> is_value (Scanner.maxNestingDepth - 1) clean_op (snd m) ->
  decoded_ok (fst (store_member acc m)).
Proof.
  destruct acc as [e ok], m as [k raw]. cbn [fst snd store_member]. intros He Hraw.
  destruct (unquoteBytes k) as [key|]; [|done].
  destruct (find_field key envelope_fields) as [store|] eqn:Hf; [|done].
  pose proof (store_field_decoded key store e raw Hf He Hraw) as H.
  by destruct (store e raw).
Qed.

(** Whatever decodes has valid UTF-8 strings and well-formed raw fields. *)
Lemma json_Unmarshal_decoded value env : json_Unmarshal value = Some env -> decoded_ok env.
Proof.
  unfold json_Unmarshal. destruct (Scanner.checkValid value) eqn:Hv; [|done].
  destruct (kind_of value) eqn:Hk; try done.
  { intros [= <-]. apply zero_decoded. }
  pose proof (members_clean value Hv Hk) as Hm. unfold all_clean in Hm.
  assert (decoded_ok (fst (foldl store_member (zero_envelope, true) (members value)))) as Hd.
  { revert Hm. generalize (members value) as ms.
    assert (decoded_ok (fst (zero_envelope, true))) as H0 by apply zero_decoded.
    revert H0. generalize (zero_envelope, true) as acc. intros acc H0 ms.
    revert acc H0. induction ms as [|m ms IH]; intros acc H0 Hm; [done|].
    inversion Hm as [|? ? Hm1 Hm2]; subst. cbn [foldl].
    apply IH; [by apply store_member_decoded | done]. }
  destruct (foldl _ _ _) as [e ok]. destruct ok; [|done]. by intros [= <-].
Qed.

(** ** Encoding and the round trip *)

Lemma null_value : is_value (Scanner.maxNestingDepth - 1) clean_op "null".
Proof. by eexists. Qed.

(** The raw field as the encoder writes it. *)
Lemma marshal_raw_ok r : raw_ok r ->
  exists d, marshal_raw r = Some d /\ is_value (Scanner.maxNestingDepth - 1) tight_op d.
Proof.
  intros Hr. unfold marshal_raw. apply (appendCompact_value (Scanner.maxNestingDepth - 1)); [done|].
  destruct r; [exact Hr | exact null_value].
Qed.

Lemma string_value s : is_value (Scanner.maxNestingDepth - 1) tight_op (appendString s).
Proof. exists (Scanner.EndValue, []). split; [apply scan_appendString | done]. Qed.

Lemma store_appendString s old : store_string (appendString s) old = (sanitize s, true).
Proof.
  unfold store_string. change (kind_of (appendString s)) with KString. cbn [kind_of].
  by rewrite unquote_appendString.
Qed.

(** Storing the members of an encoded envelope, one after the other. *)
Lemma store_members_encoded e d er :
  foldl store_member (zero_envelope, true)
    ((fun m => (in_quotes (fst m), snd m)) <$>
     [("schema_version", appendString (SchemaVersion e)); ("event_id", appendString (EventID e));
      ("event_type", appendString (EventType e)); ("occurred_at", appendString (OccurredAt e));
      ("document_id", appendString (DocumentID e)); ("external_ref", appendString (ExternalRef e));
      ("caller_id", appendString (CallerID e)); ("idempotency_key", appendString (IdempotencyKey e));
      ("producer", appendString (Producer e)); ("data", d); ("error", er)])
  = (MkEnvelope (sanitize (SchemaVersion e)) (sanitize (EventID e)) (sanitize (EventType e))
       (sanitize (OccurredAt e)) (sanitize (DocumentID e)) (sanitize (ExternalRef e))
       (sanitize (CallerID e)) (sanitize (IdempotencyKey e)) (sanitize (Producer e))
       (Some d) (Some er), true).
Proof.
  assert (forall n get put e0 s, find_field n envelope_fields = Some (with_string get put) ->
    unquoteBytes (in_quotes n) = Some n ->
    store_member (e0, true) (in_quotes n, appendString s) = (put e0 (sanitize s), true)) as Hs.
  { intros n get put e0 s Hf Hu. unfold store_member. cbn [fst snd]. rewrite Hu, Hf.
    unfold with_string. by rewrite store_appendString. }
  cbn [fmap list_fmap foldl fst snd].
  erewrite !Hs by reflexivity. reflexivity.
Qed.

(** The envelope with its raw fields replaced. *)
Definition with_raw (e : Envelope) (d er : string) : Envelope :=
  set_Error (set_Data e (Some d)) (Some er).

Lemma encode_decode e d er :
  decoded_ok e -> marshal_raw (Data e) = Some d -> marshal_raw (Error e) = Some er ->
  is_value (Scanner.maxNestingDepth - 1) tight_op d ->
  is_value (Scanner.maxNestingDepth - 1) tight_op er ->
  exists text, json_Marshal e = Some text /\ json_Unmarshal text = Some (with_raw e d er).
Proof.
  intros Hd Hdata Herr Hvd Hve. unfold json_Marshal. rewrite Hdata, Herr. cbn [mbind option_bind].
  eexists. split; [reflexivity|]. unfold json_Unmarshal.
  match goal with |- context [object_text ?l] => destruct (object_text_ok l) as (H1 & H2 & H3) end.
  { done. }
  { repeat (apply List.Forall_cons; [split; [done | cbn [snd]; auto using string_value]|]). apply List.Forall_nil. }
  rewrite H1, H2, H3, store_members_encoded.
  destruct Hd as [Ha Hb Hc Hde Hf Hg Hh Hi Hj _ _]. unfold valid_utf8 in *.
  rewrite Ha, Hb, Hc, Hde, Hf, Hg, Hh, Hi, Hj. by destruct e.
Qed.

(** A decoded envelope with three fields rewritten encodes, and decodes again. *)
Lemma decoded_rewritten value env t p i :
  json_Unmarshal value = Some env -> valid_utf8 t -> valid_utf8 p -> valid_utf8 i ->
  decoded_ok (set_EventID (set_Producer (set_EventType env t) p) i).
Proof.
  intros Henv Ht Hp Hi. apply json_Unmarshal_decoded in Henv. destruct env, Henv. by split.
Qed.

Lemma Marshal_decoded e :
  decoded_ok e ->
  exists text d er,
    Marshal e = Ok text /\
    appendCompact (default "null" (Data e)) = Some d /\
    appendCompact (default "null" (Error e)) = Some er /\
    Unmarshal text = Ok (with_raw e d er).
Proof.
  intros Hr.
  destruct (marshal_raw_ok (Data e)) as (d & Hd & Hvd); [apply Hr|].
  destruct (marshal_raw_ok (Error e)) as (er & He & Hve); [apply Hr|].
  destruct (encode_decode e d er Hr Hd He Hvd Hve) as (text & Hm & Hu).
  exists text, d, er. unfold Marshal, Unmarshal. by rewrite Hm, Hu.
Qed.

(** C27: an envelope that was decoded and then had its event type, producer and
    event id rewritten to any valid text can always be encoded, and decoding
    the encoding gives every string field back exactly and the raw fields as
    the encoder compacted them. *)
Theorem Marshal_Unmarshal value env t p i :
  json_Unmarshal value = Some env -> valid_utf8 t -> valid_utf8 p -> valid_utf8 i ->
  let routed := set_EventID (set_Producer (set_EventType env t) p) i in
  exists text d er,
    Marshal routed = Ok text /\
    appendCompact (default "null" (Data env)) = Some d /\
    appendCompact (default "null" (Error env)) = Some er /\
    Unmarshal text = Ok (with_raw routed d er).
Proof.
  intros Henv Ht Hp Hi. cbn zeta. pose proof (decoded_rewritten _ _ t p i Henv Ht Hp Hi) as Hr.
  destruct (Marshal_decoded _ Hr) as (text & d & er & Hm & Hd & He & Hu).
  exists text, d, er. split_and!; try done; [rewrite <- Hd | rewrite <- He]; by destruct env.
Qed.

(** ** A concrete record *)

Definition demo_value : string := jtext
  "{'schema_version':'1.0','event_id':'018f1f88-2f00-7000-8000-000000000001','event_type':'document.processed','occurred_at':'2026-07-15T10:00:00Z','document_id':'018f1f88-2f00-7000-8000-000000000002','external_ref':'claim-<1>','caller_id':'expense','idempotency_key':'k-1','producer':'ocr-engine','data':{'total': 12.5},'error':null}".

Definition demo_env : Envelope :=
  match json_Unmarshal demo_value with Some env => env | None => zero_envelope end.

Lemma demo_decodes : json_Unmarshal demo_value = Some demo_env.
Proof. vm_compute. reflexivity. Qed.

Lemma Marshal_Unmarshal_witness :
  exists text d er,
    Marshal (set_EventID (set_Producer (set_EventType demo_env "document.routed") "ocr-gateway") "e-2") = Ok text /\
    appendCompact (default "null" (Data demo_env)) = Some d /\
    Unmarshal text = Ok (with_raw (set_EventID (set_Producer (set_EventType demo_env "document.routed")
      "ocr-gateway") "e-2") d er).
Proof.
  destruct (Marshal_Unmarshal demo_value demo_env "document.routed" "ocr-gateway" "e-2" demo_decodes)
    as (text & d & er & Hm & Hd & _ & Hu); [reflexivity | reflexivity | reflexivity |].
  exists text, d, er. split; [exact Hm|]. split; [exact Hd | exact Hu].
Defined.

(** Whether the raw fields travel as the bytes they were. *)
Definition verbatim (env : Envelope) : Prop :=
  appendCompact (default "null" (Data env)) = Some (default "null" (Data env)).

(** The raw fields are not forwarded byte for byte: there is a record that
    meets the contract whose data field the encoder rewrites. *)
Theorem data_not_verbatim : exists value env, Parse value = Ok env /\ ~ verbatim env.
Proof.
  exists demo_value, demo_env. split; [vm_compute; reflexivity|].
  unfold verbatim. vm_compute. discriminate.
Qed.
