(* ===== verification/Uuid.v ===== *)
(** * The UUID library as the gateway uses it

    [github.com/google/uuid] is not part of the repository: its parser, its
    printer and its name-based constructor are parameters, and [UuidLaws] is
    what the code relies on.  A UUID is its sixteen bytes ([uuid.UUID] is a
    [16]byte array). *)
From S2P Require Import Prelude Utf8.

Abbreviation UUID := string (only parsing).

Class UuidLib := {
  uuid_Parse : string -> option UUID;
  uuid_String : UUID -> string;
  uuid_NewSHA1 : UUID -> string -> UUID;
  NameSpaceURL : UUID;
}.

Class UuidLaws `{UuidLib} := {
  uuid_Parse_length s u : uuid_Parse s = Some u -> String.length u = 16%nat;
  uuid_NewSHA1_length ns d : String.length (uuid_NewSHA1 ns d) = 16%nat;
  uuid_String_valid u : String.length u = 16%nat -> valid_utf8 (uuid_String u);
  uuid_Parse_String u : String.length u = 16%nat -> uuid_Parse (uuid_String u) = Some u;
}.

(** The order of UUIDs: [memcmp], which on sixteen bytes is the order of the
    big-endian number. *)
Fixpoint be_number (acc : Z) (s : string) : Z :=
  match s with
  | EmptyString => acc
  | String c s' => be_number (acc * 256 + byte_val c) s'
  end.
Definition uuid_number (u : UUID) : Z := be_number 0 u.

(** ** A concrete library, for running the model

    Parsing and printing of the canonical 36-character form, and a stand-in
    for the hash that complements the last sixteen bytes of the name. *)
Definition hex_value (c : ascii) : option Z :=
  let v := byte_val c in
  if in_range 48 57 v then Some (v - 48)
  else if in_range 97 102 v then Some (v - 87)
  else if in_range 65 70 v then Some (v - 55)
  else None.
Definition hex_char (n : Z) : ascii := byte_of (if n <? 10 then 48 + n else 87 + n).

(** The bytes of a hex text with dashes where the canonical form has them;
    [i] counts the bytes read. *)
Fixpoint demo_parse_from (i : nat) (s : string) : option string :=
  match s with
  | EmptyString => if (i =? 16)%nat then Some "" else None
  | String a s1 =>
      match s1 with
      | EmptyString => None
      | String b s2 =>
          match hex_value a, hex_value b with
          | Some x, Some y =>
              rest ← match s2 with
                     | String d s3 =>
                         if ((S i =? 4) || (S i =? 6) || (S i =? 8) || (S i =? 10))%nat
                         then if byte_val d =? 45 then demo_parse_from (S i) s3 else None
                         else demo_parse_from (S i) s2
                     | EmptyString => demo_parse_from (S i) s2
                     end;
              Some (String (byte_of (x * 16 + y)) rest)
          | _, _ => None
          end
      end
  end.

Fixpoint demo_string_from (i : nat) (u : string) : string :=
  match u with
  | EmptyString => ""
  | String c u' =>
      let v := byte_val c in
      let t := demo_string_from (S i) u' in
      String (hex_char (v / 16)) (String (hex_char (v mod 16))
        (if ((S i =? 4) || (S i =? 6) || (S i =? 8) || (S i =? 10))%nat then String "-" t else t))
  end.

Fixpoint str_map (f : ascii -> ascii) (s : string) : string :=
  match s with EmptyString => "" | String c s' => String (f c) (str_map f s') end.

Fixpoint str_rev (s acc : string) : string :=
  match s with EmptyString => acc | String c s' => str_rev s' (String c acc) end.

(** [n] bytes of a string, padded with zeros. *)
Fixpoint str_pad (n : nat) (s : string) : string :=
  match n with
  | O => ""
  | S n' =>
      match s with
      | EmptyString => String (byte_of 0) (str_pad n' "")
      | String c s' => String c (str_pad n' s')
      end
  end.

Definition demo_sha1 (data : string) : UUID :=
  str_map (fun c => byte_of (255 - byte_val c)) (str_pad 16 (str_rev data "")).

Definition demo_uuid : UuidLib := {|
  uuid_Parse := demo_parse_from 0;
  uuid_String := demo_string_from 0;
  uuid_NewSHA1 := fun _ data => demo_sha1 data;
  NameSpaceURL := "0123456789abcdef";
|}.

Example demo_uuid_roundtrip :
  (s ← @uuid_Parse demo_uuid "018f1f88-2f00-7000-8000-000000000001"; Some (@uuid_String demo_uuid s))
  = Some "018f1f88-2f00-7000-8000-000000000001".
Proof. reflexivity. Qed.

(** ** The laws hold of it *)

Lemma str_pad_length n s : String.length (str_pad n s) = n.
Proof. revert s. induction n as [|n IH]; intros [|c s]; cbn; auto. Qed.

Lemma str_map_length f s : String.length (str_map f s) = String.length s.
Proof. induction s as [|c s IH]; cbn; auto. Qed.

Lemma hex_char_spec n : 0 <= n < 16 ->
  hex_value (hex_char n) = Some n /\ byte_val (hex_char n) < 128 /\ byte_val (hex_char n) <> 45.
Proof.
  intros Hn. unfold hex_char, hex_value, in_range. destruct (Z.ltb_spec n 10); rewrite byte_val_of by lia.
  - rewrite !(proj2 (Z.leb_le _ _)) by lia. cbn [andb]. split_and!; [f_equal|..]; lia.
  - rewrite (proj2 (Z.leb_gt (87 + n) 57)) by lia. rewrite andb_false_r.
    rewrite !(proj2 (Z.leb_le _ _)) by lia. cbn [andb]. split_and!; [f_equal|..]; lia.
Qed.

Lemma demo_parse_length i s u : demo_parse_from i s = Some u -> (i + String.length u = 16)%nat.
Proof.
  revert i u. induction s as [s IH] using (induction_ltof1 _ String.length). intros i u. unfold ltof in IH.
  destruct s as [|a [|b s2]]; cbn [demo_parse_from].
  - destruct (Nat.eqb_spec i 16); [|done]. intros [= <-]. cbn. lia.
  - done.
  - destruct (hex_value a), (hex_value b); try done.
    assert (forall t, (String.length t <= String.length s2)%nat -> forall r,
      demo_parse_from (S i) t = Some r -> (S i + String.length r = 16)%nat) as Ht.
    { intros t Hl r Hr. apply (IH t); [cbn; lia | done]. }
    intros H. apply bind_Some in H as (r & Hr & [= <-]). cbn [String.length].
    assert (S i + String.length r = 16)%nat; [|lia].
    destruct s2 as [|d s3]; [exact (Ht _ (le_n _) _ Hr)|].
    destruct (_ || _)%bool; [destruct (_ =? _); [|done]|];
      [exact (Ht s3 (le_S _ _ (le_n _)) _ Hr) | exact (Ht _ (le_n _) _ Hr)].
Qed.

Lemma demo_string_valid i u : valid_utf8 (demo_string_from i u).
Proof.
  revert i. induction u as [|c u IH]; intros i; [done|]. cbn [demo_string_from].
  pose proof (byte_val_range c).
  apply valid_ascii; [apply hex_char_spec; dlia|].
  apply valid_ascii; [apply hex_char_spec; dlia|].
  destruct (_ || _)%bool; [by apply valid_ascii|apply IH].
Qed.

Lemma demo_parse_string i u :
  (i + String.length u = 16)%nat -> demo_parse_from i (demo_string_from i u) = Some u.
Proof.
  revert i. induction u as [|c u IH]; intros i Hi; cbn [String.length] in Hi.
  { cbn. by rewrite (proj2 (Nat.eqb_eq i 16)) by lia. }
  cbn [demo_string_from demo_parse_from]. pose proof (byte_val_range c).
  destruct (hex_char_spec (byte_val c / 16)) as (-> & _ & _); [dlia|].
  destruct (hex_char_spec (byte_val c mod 16)) as (-> & _ & _); [dlia|].
  assert (byte_of (byte_val c / 16 * 16 + byte_val c mod 16) = c) as ->.
  { rewrite <- (byte_of_val c) at 3. f_equal. dlia. }
  specialize (IH (S i) ltac:(lia)). destruct (_ || _)%bool eqn:Hd; cbn; [by rewrite IH|].
  destruct (demo_string_from (S i) u) eqn:Hs; by rewrite IH.
Qed.

#[export] Instance demo_uuid_laws : @UuidLaws demo_uuid.
Proof.
  split; cbn [uuid_Parse uuid_NewSHA1 uuid_String demo_uuid].
  - intros s u Hu. by apply demo_parse_length in Hu.
  - intros _ d. unfold demo_sha1. by rewrite str_map_length, str_pad_length.
  - intros u _. apply demo_string_valid.
  - intros u Hu. by apply demo_parse_string.
Qed.
