(* ===== verification/Repository.v ===== *)
(** * The outbox table: [internal/repository]

    The rows of [outbox_events] (models.go and the migration), the six
    statements of outbox.sql.go as functions of the table and of the database
    clock, and [ExecTx] (store.go).  What PostgreSQL does with a value on its
    way into a column is a parameter ([PgLib]): which texts it takes, how JSONB
    normalises a document, and in which order an UPDATE returns its rows. *)
From S2P Require Import Prelude Utf8 Json Uuid.
From stdpp Require Import sorting.
#[local] Open Scope Z_scope.

(** ** Rows *)

(** [repository.OutboxEvent]; nullable columns are options, instants are
    nanoseconds. *)
Record OutboxEvent := MkOutboxEvent {
  ID : UUID;
  AggregateType : string;
  AggregateID : UUID;
  EventType : string;
  EventVersion : Z;
  Topic : string;
  Payload : string;
  CreatedAt : Z;
  PublishedAt : option Z;
  TraceID : option string;
  AttemptCount : Z;
  NextAttemptAt : option Z;
  LockedAt : option Z;
  LockedBy : option string;
  LastError : option string;
}.

(** The columns the statements write after the insertion. *)
Definition set_lock (e : OutboxEvent) (at_ : option Z) (by_ : option string) : OutboxEvent :=
  let '(MkOutboxEvent a b c d f g h i j k l m _ _ p) := e in
  MkOutboxEvent a b c d f g h i j k l m at_ by_ p.
Definition set_published (e : OutboxEvent) (t : Z) : OutboxEvent :=
  let '(MkOutboxEvent a b c d f g h i _ k l m _ _ _) := e in
  MkOutboxEvent a b c d f g h i (Some t) k l m None None None.
Definition set_failed (e : OutboxEvent) (next : option Z) (err : option string) : OutboxEvent :=
  let '(MkOutboxEvent a b c d f g h i j k l _ _ _ _) := e in
  MkOutboxEvent a b c d f g h i j k (l + 1) next None None err.

(** The columns no statement changes after the insertion. *)
Definition fixed_part (e : OutboxEvent) :=
  (ID e, AggregateType e, AggregateID e, EventType e, EventVersion e, Topic e, Payload e,
   CreatedAt e, TraceID e).

(** [repository.CreateOutboxEventParams]. *)
Record CreateOutboxEventParams := MkCreateParams {
  p_AggregateType : string;
  p_AggregateID : UUID;
  p_ID : UUID;
  p_EventType : string;
  p_EventVersion : Z;
  p_Topic : string;
  p_Payload : string;
  p_TraceID : option string;
}.

Record MarkOutboxEventFailedParams := MkFailedParams {
  f_ID : UUID;
  f_NextAttemptAt : option Z;
  f_LastError : option string;
}.

(** The database: the table by primary key, and the rows other open
    transactions have locked, which SKIP LOCKED passes over. *)
Record db := MkDb { db_rows : gmap UUID OutboxEvent; db_busy : gset UUID }.

Definition with_rows (d : db) (r : gmap UUID OutboxEvent) : db := MkDb r (db_busy d).

(** ** PostgreSQL *)

Class PgLib := {
  (** the texts a TEXT or VARCHAR column takes *)
  pg_text : string -> bool;
  (** JSONB input and output: [None] is a rejected document *)
  pg_jsonb : string -> option string;
  (** the order in which UPDATE ... RETURNING answers its rows *)
  pg_returning : list OutboxEvent -> list OutboxEvent;
}.

(** No order is promised, but every row is answered once. *)
Class PgLaws `{PgLib} := pg_returning_perm l : Permutation (pg_returning l) l.

Definition pg_error (what : string) : error := External what.

(** VARCHAR(n) counts characters. *)
Fixpoint char_length_from (k : nat) (s : string) : N :=
  match s with
  | EmptyString => 0
  | String _ s' =>
      match k with
      | S k' => char_length_from k' s'
      | O => N.succ (char_length_from (pred (snd (decode_rune s))) s')
      end
  end.
Definition char_length (s : string) : N := char_length_from 0 s.
Definition pg_varchar `{PgLib} (n : N) (s : string) : bool := pg_text s && (char_length s <=? n)%N.

Definition opt_text `{PgLib} (o : option string) : bool :=
  match o with Some s => pg_text s | None => true end.

Section statements.
Context `{PgLib}.

(** ** CreateOutboxEvent

    The parameters are converted to the column types before the conflict
    check; an existing row with the same id is left alone.  The result is
    the number of rows inserted. *)
Definition new_row (arg : CreateOutboxEventParams) (payload : string) (now : Z) : OutboxEvent :=
  MkOutboxEvent (p_ID arg) (p_AggregateType arg) (p_AggregateID arg) (p_EventType arg)
    (p_EventVersion arg) (p_Topic arg) payload now None (p_TraceID arg) 0 None None None None.

Definition CreateOutboxEvent (arg : CreateOutboxEventParams) (now : Z) (d : db) : result Z * db :=
  if negb (pg_text (p_AggregateType arg) && pg_text (p_EventType arg)
           && pg_varchar 255 (p_Topic arg) && opt_text (p_TraceID arg))
  then (Err (pg_error "invalid text"), d)
  else match pg_jsonb (p_Payload arg) with
  | None => (Err (pg_error "invalid input syntax for type json"), d)
  | Some payload =>
      match db_rows d !! p_ID arg with
      | Some _ => (Ok 0, d)
      | None => (Ok 1, with_rows d (<[p_ID arg := new_row arg payload now]> (db_rows d)))
      end
  end.

(** ** ClaimPendingOutboxEvents *)

Definition lock_timeout : Z := 5 * Minute.

Definition due (now : Z) (e : OutboxEvent) : bool :=
  match NextAttemptAt e with None => true | Some t => t <=? now end.
Definition unlocked (now : Z) (e : OutboxEvent) : bool :=
  match LockedAt e with None => true | Some t => t <? now - lock_timeout end.
Definition unpublished (e : OutboxEvent) : bool :=
  match PublishedAt e with None => true | Some _ => false end.
(** The WHERE clause of the claim. *)
Definition claimable (now : Z) (e : OutboxEvent) : bool :=
  unpublished e && due now e && unlocked now e.

(** ORDER BY created_at ASC, id ASC. *)
Definition older (e1 e2 : OutboxEvent) : Prop :=
  CreatedAt e1 < CreatedAt e2 \/
  (CreatedAt e1 = CreatedAt e2 /\ uuid_number (ID e1) <= uuid_number (ID e2)).

#[export] Instance older_dec e1 e2 : Decision (older e1 e2).
Proof. unfold older. apply _. Defined.

(** The candidates, oldest first. *)
Definition candidates (now : Z) (d : db) : list OutboxEvent :=
  merge_sort older
    (List.filter (fun e => claimable now e && negb (bool_decide (ID e ∈ db_busy d)))
       (map_to_list (db_rows d)).*2).

Definition pending_events (limit now : Z) (d : db) : list OutboxEvent :=
  take (Z.to_nat limit) (candidates now d).

(** The UPDATE of the claimed rows. *)
Definition lock_rows (now : Z) (by_ : option string) (es : list OutboxEvent)
    (rows : gmap UUID OutboxEvent) : gmap UUID OutboxEvent :=
  foldr (fun e r => alter (fun row => set_lock row (Some now) by_) (ID e) r) rows es.

Definition ClaimPendingOutboxEvents (limit : Z) (lockedBy : option string) (now : Z) (d : db)
    : result (list OutboxEvent) * db :=
  if limit <? 0 then (Err (pg_error "LIMIT must not be negative"), d)
  else if negb (opt_text lockedBy) then (Err (pg_error "invalid text"), d)
  else
    let picked := pending_events limit now d in
    (Ok (pg_returning (map (fun e => set_lock e (Some now) lockedBy) picked)),
     with_rows d (lock_rows now lockedBy picked (db_rows d))).

(** ** The updates of one row: [WHERE id = $1 AND published_at IS NULL] *)

Definition update_unpublished (id : UUID) (f : OutboxEvent -> OutboxEvent) (d : db) : db :=
  with_rows d (alter (fun e => if unpublished e then f e else e) id (db_rows d)).

Definition MarkOutboxEventPublished (id : UUID) (now : Z) (d : db) : result unit * db :=
  (Ok tt, update_unpublished id (fun e => set_published e now) d).

(** [attempt_count + 1] is an INTEGER: the statement fails beyond it. *)
Definition max_int32 : Z := 2147483647.

Definition MarkOutboxEventFailed (arg : MarkOutboxEventFailedParams) (now : Z) (d : db)
    : result unit * db :=
  if negb (opt_text (f_LastError arg)) then (Err (pg_error "invalid text"), d)
  else match db_rows d !! f_ID arg with
  | Some e =>
      if unpublished e && (max_int32 <=? AttemptCount e)
      then (Err (pg_error "integer out of range"), d)
      else (Ok tt, update_unpublished (f_ID arg)
                     (fun e => set_failed e (f_NextAttemptAt arg) (f_LastError arg)) d)
  | None => (Ok tt, d)
  end.

Definition ReleaseOutboxEventLock (id : UUID) (now : Z) (d : db) : result unit * db :=
  (Ok tt, update_unpublished id (fun e => set_lock e None None) d).

(** ** DeletePublishedOutboxEvents *)

Definition retention : Z := 7 * 24 * Hour.
Definition expired (now : Z) (e : OutboxEvent) : bool :=
  match PublishedAt e with Some t => t <? now - retention | None => false end.

Definition DeletePublishedOutboxEvents (now : Z) (d : db) : result Z * db :=
  let doomed := filter (fun kv => expired now (snd kv) = true) (db_rows d) in
  (Ok (Z.of_nat (size doomed)),
   with_rows d (filter (fun kv => expired now (snd kv) = false) (db_rows d))).

(** ** The store

    [Querier]: the statements as round trips to the database. *)
Record Querier := MkQuerier {
  q_ClaimPendingOutboxEvents : Z -> option string -> M db (list OutboxEvent);
  q_CreateOutboxEvent : CreateOutboxEventParams -> M db Z;
  q_DeletePublishedOutboxEvents : M db Z;
  q_MarkOutboxEventFailed : MarkOutboxEventFailedParams -> M db unit;
  q_MarkOutboxEventPublished : UUID -> M db unit;
  q_ReleaseOutboxEventLock : UUID -> M db unit;
}.

(** [New]: the queries, on the pool or on a transaction of it ([WithTx]), whose
    statements work on what the transaction has done so far. *)
Definition New : Querier := {|
  q_ClaimPendingOutboxEvents := fun limit lockedBy => remote (ClaimPendingOutboxEvents limit lockedBy);
  q_CreateOutboxEvent := fun arg => remote (CreateOutboxEvent arg);
  q_DeletePublishedOutboxEvents := remote DeletePublishedOutboxEvents;
  q_MarkOutboxEventFailed := fun arg => remote (MarkOutboxEventFailed arg);
  q_MarkOutboxEventPublished := fun id => remote (MarkOutboxEventPublished id);
  q_ReleaseOutboxEventLock := fun id => remote (ReleaseOutboxEventLock id);
|}.
Definition WithTx (q : Querier) : Querier := New.

(** [ExecTx]: begin, run [fn] on the transaction, commit; the deferred rollback drops
    what an uncommitted transaction did.  To the others a transaction happens
    at once, when it commits: the body and the commit are one step. *)
Definition begin_tx : M db unit := remote (fun _ d => (Ok tt, d)).

Definition body_and_commit {A} (fn : M db A) (w : world db) : result unit * world db :=
  match run fn w with
  | (Err e, w') => (Err e, World (w_data w) (w_clock w') (w_sched w'))
  | (Ok _, w') => run (remote (fun _ _ => (Ok tt, w_data w'))) (World (w_data w) (w_clock w') (w_sched w'))
  end.

Definition ExecTx {A} (fn : Querier -> M db A) : M db unit :=
  let! begun := try begin_tx in
  match begun with
  | Err e => throw (Errorf "begin tx: %w" [] [e])
  | Ok _ => atomic (body_and_commit (fn (WithTx New)))
  end.

(** [Store]: the queries on the pool, and transactions. *)
Record Store := MkRepo {
  repo_Queries : Querier;
  repo_ExecTx : (Querier -> M db unit) -> M db unit;
}.
Definition NewStore : Store := MkRepo New ExecTx.
End statements.

(** A concrete PostgreSQL for running the model: texts are valid UTF-8 without
    NUL, JSONB keeps a valid document as it is, and RETURNING answers in the
    order of the update. *)
Definition demo_pg_text (s : string) : bool :=
  str_forallb (fun c => negb (byte_val c =? 0)) s && bool_decide (valid_utf8 s).
Definition demo_pg : PgLib := {|
  pg_text := demo_pg_text;
  pg_jsonb := fun s => if Scanner.checkValid s then Some s else None;
  pg_returning := fun es => es;
|}.

#[export] Instance demo_pg_laws : @PgLaws demo_pg.
Proof. intros l. reflexivity. Qed.
