(* ===== verification/RepositoryFacts.v ===== *)
(** * Theorems on the outbox table

    Well-formedness of the rows and its preservation by every statement, the
    life of a row (what never changes, and that a row only disappears after it
    was published), what a claim returns, the lease a claim gives, and the
    atomicity of [ExecTx]. *)
From S2P Require Import Prelude Utf8 Uuid Repository.
From stdpp Require Import sorting.
#[local] Open Scope Z_scope.

(** The statements, as one type. *)
Inductive statement :=
  | SCreate (arg : CreateOutboxEventParams)
  | SClaim (limit : Z) (lockedBy : option string)
  | SMarkPublished (id : UUID)
  | SMarkFailed (arg : MarkOutboxEventFailedParams)
  | SRelease (id : UUID)
  | SDelete.

Definition exec `{PgLib} (s : statement) (now : Z) (d : db) : db :=
  match s with
  | SCreate arg => snd (CreateOutboxEvent arg now d)
  | SClaim limit by_ => snd (ClaimPendingOutboxEvents limit by_ now d)
  | SMarkPublished id => snd (MarkOutboxEventPublished id now d)
  | SMarkFailed arg => snd (MarkOutboxEventFailed arg now d)
  | SRelease id => snd (ReleaseOutboxEventLock id now d)
  | SDelete => snd (DeletePublishedOutboxEvents now d)
  end.

(** ** Well-formed tables *)

Record row_wf (e : OutboxEvent) : Prop := {
  wf_published : PublishedAt e <> None -> LockedAt e = None /\ LastError e = None;
  wf_attempts : 0 <= AttemptCount e <= max_int32;
}.

Definition table_wf (d : db) : Prop :=
  forall id e, db_rows d !! id = Some e -> ID e = id /\ row_wf e.

Lemma unpublished_spec e : unpublished e = true <-> PublishedAt e = None.
Proof. unfold unpublished. by destruct (PublishedAt e). Qed.

Lemma claimable_spec now e :
  claimable now e = true <->
  PublishedAt e = None /\
  (forall t, NextAttemptAt e = Some t -> t <= now) /\
  (forall t, LockedAt e = Some t -> t < now - lock_timeout).
Proof.
  unfold claimable, due, unlocked. rewrite !andb_true_iff, unpublished_spec.
  assert (forall (o : option Z) p P, (forall t, p t = true <-> P t) ->
    match o with None => true | Some t => p t end = true <-> forall t, o = Some t -> P t) as Hopt.
  { intros [t|] p P HP; [|done]. rewrite HP. split; [by intros ? ? [= <-] | auto]. }
  rewrite (Hopt _ (fun t => t <=? now) (fun t => t <= now)) by (intros; apply Z.leb_le).
  rewrite (Hopt _ (fun t => t <? now - lock_timeout) (fun t => t < now - lock_timeout))
    by (intros; apply Z.ltb_lt).
  tauto.
Qed.

(** ** What each statement does to one row *)

Section rows.
Context `{PgLib}.

Lemma lock_rows_lookup now by_ es rows id :
  lock_rows now by_ es rows !! id =
  if bool_decide (id ∈ map ID es)
  then (fun row => set_lock row (Some now) by_) <$> rows !! id
  else rows !! id.
Proof.
  induction es as [|e es IH]; [done|]. unfold lock_rows in *. cbn [foldr map].
  destruct (decide (ID e = id)) as [->|Hne].
  - rewrite lookup_alter, decide_True by done. rewrite IH.
    rewrite (bool_decide_true (id ∈ id :: map ID es)) by set_solver.
    case_bool_decide; [|done]. destruct (rows !! id) as [[]|]; done.
  - rewrite lookup_alter_ne by done. rewrite IH.
    repeat case_bool_decide; set_solver.
Qed.

Lemma update_unpublished_lookup id f d id' :
  db_rows (update_unpublished id f d) !! id' =
  if bool_decide (id = id') then (fun e => if unpublished e then f e else e) <$> db_rows d !! id'
  else db_rows d !! id'.
Proof.
  unfold update_unpublished. cbn [db_rows with_rows]. case_bool_decide.
  - subst. by rewrite lookup_alter, decide_True.
  - by rewrite lookup_alter_ne.
Qed.

(** The candidates of a claim are rows of the table. *)
Lemma elem_of_candidates now d e :
  e ∈ candidates now d <->
  (exists id, db_rows d !! id = Some e) /\ claimable now e = true /\ ID e ∉ db_busy d.
Proof.
  unfold candidates. rewrite merge_sort_Permutation, list_elem_of_In, List.filter_In,
    <- list_elem_of_In, list_elem_of_fmap, andb_true_iff, negb_true_iff, bool_decide_eq_false.
  split.
  - intros [([id e'] & -> & Hin) Hc]. rewrite elem_of_map_to_list in Hin. cbn. eauto.
  - intros [[id Hid] Hc]. split; [|done]. exists (id, e). by rewrite elem_of_map_to_list.
Qed.

Lemma pending_candidates limit now d e :
  e ∈ pending_events limit now d -> e ∈ candidates now d.
Proof. unfold pending_events. intros He. eapply subseteq_take, He. Qed.

(** A row after a statement: gone, or the row with some of its mutable
    columns rewritten, and by which statement. *)
Inductive row_step (now : Z) (e : OutboxEvent) : statement -> option OutboxEvent -> Prop :=
  | row_kept s : row_step now e s (Some e)
  | row_locked limit by_ : claimable now e = true ->
      row_step now e (SClaim limit by_) (Some (set_lock e (Some now) by_))
  | row_published : PublishedAt e = None ->
      row_step now e (SMarkPublished (ID e)) (Some (set_published e now))
  | row_failed arg : f_ID arg = ID e -> PublishedAt e = None -> AttemptCount e < max_int32 ->
      row_step now e (SMarkFailed arg) (Some (set_failed e (f_NextAttemptAt arg) (f_LastError arg)))
  | row_released : PublishedAt e = None ->
      row_step now e (SRelease (ID e)) (Some (set_lock e None None))
  | row_deleted t : PublishedAt e = Some t -> t < now - retention -> row_step now e SDelete None.

(** A step takes a lease at its own time, or none. *)
Lemma row_step_lease now e s e' l :
  row_step now e s (Some e') -> LockedAt e' = Some l -> LockedAt e = Some l \/ l = now.
Proof. inversion 1; subst; try destruct e; cbn; naive_solver. Qed.

Lemma exec_row s now d id e :
  table_wf d -> db_rows d !! id = Some e -> row_step now e s (db_rows (exec s now d) !! id).
Proof.
  intros Hwf He. pose proof (proj1 (Hwf _ _ He)) as Hid. destruct s as [arg|limit by_|id'|arg|id'|]; cbn [exec].
  - unfold CreateOutboxEvent. repeat case_match; cbn [snd db_rows with_rows]; rewrite ?He;
      try by constructor.
    rewrite lookup_insert_ne by congruence. rewrite He. constructor.
  - unfold ClaimPendingOutboxEvents. repeat case_match; cbn [snd db_rows with_rows]; rewrite ?He;
      try by constructor.
    rewrite lock_rows_lookup, He. case_bool_decide as Hin; [|by constructor].
    apply list_elem_of_fmap in Hin as (e' & -> & Hin).
    apply pending_candidates, elem_of_candidates in Hin as ([id' Hid'] & Hc & _).
    assert (e' = e) as ->; [|by constructor].
    destruct (Hwf _ _ Hid') as [<- _]. congruence.
  - cbn [MarkOutboxEventPublished snd]. rewrite update_unpublished_lookup, He.
    case_bool_decide as Hid'; cbn; [|constructor].
    destruct (unpublished e) eqn:Hu; [|constructor].
    subst. constructor. by apply unpublished_spec.
  - unfold MarkOutboxEventFailed.
    destruct (negb (opt_text (f_LastError arg))); [cbn; rewrite He; constructor|].
    destruct (db_rows d !! f_ID arg) as [ea|] eqn:Ha; [|cbn; rewrite He; constructor].
    destruct (unpublished ea && _) eqn:Hov; [cbn; rewrite He; constructor|].
    cbn [snd]. rewrite update_unpublished_lookup, He.
    case_bool_decide as Hid'; cbn; [|constructor]. subst id.
    rewrite Hid', He in Ha. injection Ha as <-.
    destruct (unpublished e) eqn:Hu; [|constructor]. cbn in Hov. apply Z.leb_gt in Hov.
    constructor; [done | by apply unpublished_spec | done].
  - cbn [ReleaseOutboxEventLock snd]. rewrite update_unpublished_lookup, He.
    case_bool_decide as Hid'; cbn; [|constructor].
    destruct (unpublished e) eqn:Hu; [|constructor].
    subst. constructor. by apply unpublished_spec.
  - cbn [DeletePublishedOutboxEvents snd db_rows with_rows].
    rewrite map_lookup_filter, He. cbn.
    destruct (expired now e) eqn:Hx; cbn.
    + unfold expired in Hx. destruct (PublishedAt e) as [t|] eqn:Ht; [|done].
      apply Z.ltb_lt in Hx. by eapply row_deleted.
    + rewrite option_guard_True by done. constructor.
Qed.

(** The rows a statement adds. *)
Lemma exec_new s now d id e :
  db_rows d !! id = None -> db_rows (exec s now d) !! id = Some e ->
  exists arg payload, s = SCreate arg /\ p_ID arg = id /\
    pg_jsonb (p_Payload arg) = Some payload /\ e = new_row arg payload now.
Proof.
  intros He. destruct s as [arg|limit by_|id'|arg|id'|]; cbn [exec].
  - unfold CreateOutboxEvent. repeat case_match; cbn [snd db_rows with_rows]; rewrite ?He; try done.
    destruct (decide (p_ID arg = id)) as [<-|Hne].
    + rewrite lookup_insert, decide_True by done. intros [= <-]. eauto 6.
    + rewrite lookup_insert_ne by done. by rewrite He.
  - unfold ClaimPendingOutboxEvents. repeat case_match; cbn [snd db_rows with_rows]; rewrite ?He; try done.
    rewrite lock_rows_lookup, He. by case_bool_decide.
  - cbn [MarkOutboxEventPublished snd]. rewrite update_unpublished_lookup, He. by case_bool_decide.
  - unfold MarkOutboxEventFailed.
    repeat case_match; cbn [snd db_rows with_rows]; rewrite ?He; try done.
    rewrite update_unpublished_lookup, He. by case_bool_decide.
  - cbn [ReleaseOutboxEventLock snd]. rewrite update_unpublished_lookup, He. by case_bool_decide.
  - cbn [DeletePublishedOutboxEvents snd db_rows with_rows].
    by rewrite map_lookup_filter, He.
Qed.
End rows.

(** ** Invariants of a table *)

Section runs.
Context `{PgLib}.

Lemma set_lock_ID e a b : ID (set_lock e a b) = ID e.
Proof. by destruct e. Qed.
Lemma set_published_ID e t : ID (set_published e t) = ID e.
Proof. by destruct e. Qed.
Lemma set_failed_ID e n x : ID (set_failed e n x) = ID e.
Proof. by destruct e. Qed.

Lemma new_row_wf arg payload now : row_wf (new_row arg payload now).
Proof. split; cbn; [done | unfold max_int32; lia]. Qed.

(** Every statement that keeps a row keeps its identity and its invariant. *)
Lemma row_step_some now e s o :
  row_wf e -> row_step now e s o ->
  match o with
  | Some e' => ID e' = ID e /\ row_wf e' /\ fixed_part e' = fixed_part e /\
      AttemptCount e <= AttemptCount e' /\ (PublishedAt e <> None -> e' = e) /\
      (forall t, PublishedAt e' = Some t ->
         PublishedAt e = Some t \/ s = SMarkPublished (ID e) /\ t = now)
  | None => s = SDelete /\ exists t, PublishedAt e = Some t /\ t < now - retention
  end.
Proof.
  intros [Hp Ha] Hs. destruct Hs as [s|limit by_ Hc|Hu|arg Hid Hu Hm|Hu|t Ht Hx]; [| | | | |eauto].
  2: apply claimable_spec in Hc as [Hu _].
  all: destruct e; cbn in *; subst; split_and!; try done; try lia; auto;
    try (split; cbn; try done; lia).
  intros t [= <-]. auto.
Qed.

Lemma exec_wf s now d : table_wf d -> table_wf (exec s now d).
Proof.
  intros Hwf id e' He'. destruct (db_rows d !! id) as [e|] eqn:He.
  - destruct (Hwf _ _ He) as [<- Hrow]. pose proof (exec_row s now d _ e Hwf He) as Hs.
    rewrite He' in Hs. apply row_step_some in Hs; naive_solver.
  - destruct (exec_new _ _ _ _ _ He He') as (arg & payload & _ & <- & _ & ->).
    split; [done | apply new_row_wf].
Qed.

(** The locks of other transactions are theirs. *)
Lemma exec_busy st t d : db_busy (exec st t d) = db_busy d.
Proof.
  destruct st; cbn [exec]; unfold CreateOutboxEvent, ClaimPendingOutboxEvents, MarkOutboxEventFailed;
    repeat case_match; done.
Qed.

(** A history: statements of any process, in the order the table serves
    them, with their times. *)
Definition history := list (statement * Z).
Definition replay (h : history) (d : db) : db := foldl (fun d sn => exec (fst sn) (snd sn) d) d h.

Lemma replay_snoc h s now d : replay (h ++ [(s, now)]) d = exec s now (replay h d).
Proof. unfold replay. by rewrite foldl_app. Qed.

Lemma replay_wf h d : table_wf d -> table_wf (replay h d).
Proof.
  induction h as [|[s now] h IH] using rev_ind; [done|]. intros Hwf.
  rewrite replay_snoc. by apply exec_wf, IH.
Qed.

(** What a row still is after a history. *)
Definition same_event (e e' : OutboxEvent) : Prop :=
  fixed_part e' = fixed_part e /\ AttemptCount e <= AttemptCount e' /\
  (PublishedAt e <> None -> e' = e).

Lemma same_event_trans e1 e2 e3 : same_event e1 e2 -> same_event e2 e3 -> same_event e1 e3.
Proof.
  intros (Hf & Ha & Hp) (Hf' & Ha' & Hp'). split_and!; [congruence | lia |].
  intros H1. specialize (Hp H1). subst. auto.
Qed.

(** When and how a row came to be published. *)
Definition published_by (h : history) (e e' : OutboxEvent) : Prop :=
  forall t, PublishedAt e' = Some t -> PublishedAt e = Some t \/ (SMarkPublished (ID e), t) ∈ h.

Definition deleted_by (h : history) (d : db) (id : UUID) (e : OutboxEvent) : Prop :=
  exists h1 now h2 em t,
    h = h1 ++ (SDelete, now) :: h2 /\ db_rows (replay h1 d) !! id = Some em /\
    same_event e em /\ published_by h1 e em /\ PublishedAt em = Some t /\ t < now - retention.

Lemma row_life_aux h d id e :
  table_wf d -> db_rows d !! id = Some e ->
  (exists e', db_rows (replay h d) !! id = Some e' /\ same_event e e' /\ published_by h e e') \/
  deleted_by h d id e.
Proof.
  intros Hwf He. induction h as [|[s now] h IH] using rev_ind.
  { left. exists e. split_and!; [done | | intros t Ht; by left]. by split_and!. }
  destruct IH as [(e' & He' & Hse & Hpub) | (h1 & now' & h2 & em & t & -> & Hem)].
  2: { right. exists h1, now', (h2 ++ [(s, now)]), em, t. by rewrite <- app_assoc. }
  pose proof (replay_wf h d Hwf) as Hwf'.
  pose proof (exec_row s now _ _ _ Hwf' He') as Hs. rewrite replay_snoc.
  destruct (Hwf' _ _ He') as [Hid' Hrow']. destruct (Hwf _ _ He) as [Hid _].
  apply row_step_some in Hs; [|done].
  destruct (db_rows (exec s now (replay h d)) !! id) as [e2|] eqn:He2.
  - destruct Hs as (_ & _ & Hf & Ha & Hfr & Hp). left. exists e2. split_and!; [done | |].
    { eapply same_event_trans; [done | by split_and!]. }
    intros t Ht. destruct (Hp t Ht) as [H'|[-> ->]].
    + destruct (Hpub t H'); [by left | right]. set_solver.
    + right. rewrite Hid', <- Hid. set_solver.
  - destruct Hs as [-> (t & Ht & Hx)]. right. exists h, now, [], e', t. by split_and!.
Qed.

(** ** What a claim returns *)

Lemma candidates_sorted now d : StronglySorted older (candidates now d).
Proof.
  apply StronglySorted_merge_sort.
  - intros x y z. unfold older. lia.
  - intros x y. unfold older. lia.
Qed.

Lemma candidates_NoDup now d : table_wf d -> NoDup (map ID (candidates now d)).
Proof.
  intros Hwf. unfold candidates. rewrite merge_sort_Permutation.
  assert (forall l : list (UUID * OutboxEvent), NoDup l.*1 ->
    (forall kv, kv ∈ l -> ID kv.2 = kv.1) -> forall p, NoDup (map ID (List.filter p l.*2))) as Hl.
  { intros l Hnd Hid p. induction l as [|[k e] l IH]; [constructor|].
    change (NoDup (k :: l.*1)) in Hnd. change (NoDup (map ID (List.filter p (e :: l.*2)))).
    apply NoDup_cons in Hnd as [Hk Hnd]. cbn [List.filter snd].
    assert (NoDup (map ID (List.filter p l.*2))) by (apply IH; [done | intros kv Hkv; apply Hid; by right]).
    destruct (p e); [|done]. cbn [map]. apply NoDup_cons. split; [|done].
    intros Hin. apply Hk. apply list_elem_of_fmap in Hin as (e' & Heq & Hin).
    apply list_elem_of_In, List.filter_In in Hin as [Hin _]. apply list_elem_of_In in Hin.
    apply list_elem_of_fmap in Hin as ([k' e''] & -> & Hin).
    apply list_elem_of_fmap. exists (k', e''). split; [|done]. cbn in *.
    pose proof (Hid (k, e) ltac:(left)). pose proof (Hid (k', e'') ltac:(by right)).
    cbn in *. congruence. }
  apply Hl; [apply NoDup_fst_map_to_list|].
  intros [k e] Hin. apply elem_of_map_to_list in Hin. by destruct (Hwf _ _ Hin).
Qed.

Lemma sorted_take_drop {A} (R : A -> A -> Prop) n l x y :
  StronglySorted R l -> x ∈ take n l -> y ∈ drop n l -> R x y.
Proof.
  intros Hl. revert n. induction Hl as [|a l Hl IH Ha]; intros [|n] Hx Hy;
    cbn in *; try by apply elem_of_nil in Hx.
  apply elem_of_cons in Hx as [->|Hx]; [|by eapply IH].
  rewrite Forall_forall in Ha. apply Ha. eapply subseteq_drop, Hy.
Qed.
End runs.

(** ** Theorems *)

(** Every statement preserves the well-formedness of the table: rows are
    stored under their id, a published row holds no lock and no error, and
    [attempt_count] stays within the INTEGER column. *)
Theorem statement_preserves_wf `{PgLib} s now d : table_wf d -> table_wf (exec s now d).
Proof. apply exec_wf. Qed.

(** C24: whatever statements any number of processes run against the table, a row
    is never altered in its event part and never lost: it is still there, with
    the same identity, topic and payload, frozen if it was published, and
    published only at the time of a MarkOutboxEventPublished of its id; or it
    was deleted by the retention DELETE more than seven days after it was
    published. *)
Theorem row_life `{PgLib} h d id e :
  table_wf d -> db_rows d !! id = Some e ->
  (exists e', db_rows (replay h d) !! id = Some e' /\ same_event e e' /\ published_by h e e') \/
  deleted_by h d id e.
Proof. apply row_life_aux. Qed.

(** The shape of a claim that succeeds. *)
Lemma claim_inv `{PgLaws} limit by_ now d es d' :
  ClaimPendingOutboxEvents limit by_ now d = (Ok es, d') ->
  let picked := pending_events limit now d in
  0 <= limit /\
  Permutation es (map (fun e => set_lock e (Some now) by_) picked) /\
  Permutation (map ID es) (map ID picked) /\
  (forall id, db_rows d' !! id =
     if bool_decide (id ∈ map ID picked)
     then (fun row => set_lock row (Some now) by_) <$> db_rows d !! id
     else db_rows d !! id).
Proof.
  unfold ClaimPendingOutboxEvents.
  destruct (limit <? 0) eqn:Hl; [done|]. apply Z.ltb_ge in Hl.
  destruct (negb (opt_text by_)); [done|]. intros Hd. injection Hd as <- <-. cbn zeta.
  split_and!; [done | apply pg_returning_perm | |].
  - rewrite pg_returning_perm, map_map.
    apply Permutation_refl', map_ext. intros e. apply set_lock_ID.
  - intros id. cbn [db_rows with_rows]. apply lock_rows_lookup.
Qed.

(** The rows of a claim, and what it does to the table. *)
Lemma claim_rows `{PgLaws} limit by_ now d es d' :
  table_wf d -> ClaimPendingOutboxEvents limit by_ now d = (Ok es, d') ->
  Z.of_nat (length es) <= limit /\ NoDup (map ID es) /\
  (forall e', e' ∈ es -> exists e,
     db_rows d !! ID e = Some e /\ claimable now e = true /\ ID e ∉ db_busy d /\
     e' = set_lock e (Some now) by_ /\ db_rows d' !! ID e = Some e') /\
  (forall id, id ∉ map ID es -> db_rows d' !! id = db_rows d !! id).
Proof.
  intros Hwf Hclaim. destruct (claim_inv _ _ _ _ _ _ Hclaim) as (Hl & Hperm & Hids & Hrows).
  set (picked := pending_events limit now d) in *. split_and!.
  - rewrite Hperm, length_map. unfold picked, pending_events. rewrite length_take. lia.
  - rewrite Hids. unfold picked, pending_events. rewrite <- firstn_map.
    eapply sublist_NoDup; [by apply candidates_NoDup | apply sublist_take].
  - intros e' He'. rewrite Hperm in He'. apply list_elem_of_fmap in He' as (e & -> & He).
    exists e. pose proof (pending_candidates _ _ _ _ He) as Hc.
    apply elem_of_candidates in Hc as ([id Hid] & Hc & Hb).
    destruct (Hwf _ _ Hid) as [<- _]. split_and!; try done.
    rewrite Hrows, bool_decide_true, Hid; [done | by apply list_elem_of_fmap_2].
  - intros id Hid. rewrite Hrows, bool_decide_false; [done | by rewrite <- Hids].
Qed.

(** A claim skips a claimable row only for older ones. *)
Lemma claim_full `{PgLaws} limit by_ now d es d' e :
  ClaimPendingOutboxEvents limit by_ now d = (Ok es, d') ->
  db_rows d !! ID e = Some e -> claimable now e = true -> ID e ∉ db_busy d -> ID e ∉ map ID es ->
  Z.of_nat (length es) = limit /\
  forall e', e' ∈ es -> exists e0, e' = set_lock e0 (Some now) by_ /\ older e0 e.
Proof.
  intros Hclaim He Hc Hb Hne. destruct (claim_inv _ _ _ _ _ _ Hclaim) as (Hl & Hperm & Hids & _).
  rewrite Hids in Hne.
  assert (e ∈ candidates now d) as Hcand by (apply elem_of_candidates; eauto).
  unfold pending_events in *. rewrite <- (take_drop (Z.to_nat limit)) in Hcand.
  apply elem_of_app in Hcand as [Hcand|Hcand].
  { destruct Hne. by apply list_elem_of_fmap_2. }
  split.
  - rewrite Hperm, length_map, length_take. pose proof (length_drop (candidates now d) (Z.to_nat limit)) as Hd.
    destruct (drop _ _); [by apply elem_of_nil in Hcand | cbn in Hd; lia].
  - intros e' He'. rewrite Hperm in He'. apply list_elem_of_fmap in He' as (e0 & -> & He0).
    exists e0. split; [done|]. eapply sorted_take_drop; [apply candidates_sorted | done | done].
Qed.

(** C19: a claim answers at most [limit] distinct rows of the table, each
    unpublished, due, not leased and not locked by another transaction, now
    leased to the caller in the table as in the answer; it leaves every other
    row as it was, and it skips a claimable row only when the answer is full
    and holds no younger row. *)
Theorem claim_spec `{PgLaws} limit by_ now d es d' :
  table_wf d -> ClaimPendingOutboxEvents limit by_ now d = (Ok es, d') ->
  Z.of_nat (length es) <= limit /\ NoDup (map ID es) /\
  (forall e', e' ∈ es -> exists e,
     db_rows d !! ID e = Some e /\ claimable now e = true /\ ID e ∉ db_busy d /\
     e' = set_lock e (Some now) by_ /\ db_rows d' !! ID e = Some e') /\
  (forall id, id ∉ map ID es -> db_rows d' !! id = db_rows d !! id) /\
  (forall e, db_rows d !! ID e = Some e -> claimable now e = true -> ID e ∉ db_busy d ->
     ID e ∉ map ID es ->
     Z.of_nat (length es) = limit /\
     forall e', e' ∈ es -> exists e0, e' = set_lock e0 (Some now) by_ /\ older e0 e).
Proof.
  intros Hwf Hclaim. destruct (claim_rows _ _ _ _ _ _ Hwf Hclaim) as (? & ? & ? & ?).
  split_and!; [done..|]. intros e. by apply (claim_full _ by_ _ d es d').
Qed.

(** ** The lease a claim gives *)

(** What makes a claimed row claimable again before its lease is over: the lock
    was released, or a failure recorded, whose retry delay the row now has.
    Neither statement asks who holds the lease. *)
Definition freed (h : history) (e : OutboxEvent) : Prop :=
  SRelease (ID e) ∈ map fst h \/
  exists arg, SMarkFailed arg ∈ map fst h /\ f_ID arg = ID e /\ NextAttemptAt e = f_NextAttemptAt arg.

(** A row claimed at [t], after the history [h]. *)
Record claimed_row (t : Z) (h : history) (id : UUID) (e : OutboxEvent) : Prop := {
  cr_id : ID e = id;
  cr_published p : PublishedAt e = Some p -> t <= p;
  cr_held : PublishedAt e = None -> LockedAt e = Some t \/ freed h e;
}.

Lemma freed_snoc h sn e e' :
  ID e' = ID e -> NextAttemptAt e' = NextAttemptAt e -> freed h e -> freed (h ++ [sn]) e'.
Proof.
  intros Hid Hn [Hr|(arg & Harg & Hid' & Hna)]; [left | right; exists arg]; rewrite map_app, elem_of_app, Hid;
    [by left|]. rewrite Hn. by split; [left|].
Qed.

Lemma leased_not_claimable t now e :
  LockedAt e = Some t -> now <= t + lock_timeout -> claimable now e = false.
Proof.
  intros Hl Ht. destruct (claimable now e) eqn:Hc; [|done].
  apply claimable_spec in Hc as (_ & _ & Hc). specialize (Hc t Hl). lia.
Qed.

(** A step of the row, while the lease runs. *)
Lemma step_claimed t h id e s now o :
  claimed_row t h id e -> t <= now <= t + lock_timeout -> row_step now e s o ->
  exists e', o = Some e' /\ claimed_row t (h ++ [(s, now)]) id e'.
Proof.
  intros [Hid Hp Hh] Ht Hs. destruct Hs as [s|limit by_ Hc|Hu|arg Harg Hu _|Hu|p Hp' Hx].
  - exists e. split; [done|]. split; [done|done|]. intros Hu. destruct (Hh Hu) as [|Hf]; [by left | right].
    by eapply freed_snoc.
  - exists (set_lock e (Some now) by_). split; [done|]. assert (freed h e) as Hf.
    { apply claimable_spec in Hc as Hc'. destruct Hc' as [Hu _]. destruct (Hh Hu) as [Hl|]; [|done].
      by rewrite (leased_not_claimable t) in Hc; [|done|lia]. }
    split; [by destruct e | by destruct e |]. intros _. right. by eapply freed_snoc, Hf; destruct e.
  - exists (set_published e now). split; [done|]. by split; destruct e; cbn; [|intros p [= <-]; lia|].
  - exists (set_failed e (f_NextAttemptAt arg) (f_LastError arg)). split; [done|].
    split; [by destruct e | destruct e; cbn in *; congruence |]. intros _. right. right. exists arg.
    rewrite map_app, elem_of_app. split; [right; left|]. split; [by destruct e | by destruct e].
  - exists (set_lock e None None). split; [done|]. split; [by destruct e | destruct e; cbn in *; congruence |].
    intros _. right. left. rewrite map_app, elem_of_app. right. destruct e. left.
  - specialize (Hp p Hp'). unfold retention, lock_timeout, Hour, Minute, Second in *. lia.
Qed.

Lemma claim_claims `{PgLaws} limit by_ t d es d' e :
  table_wf d -> ClaimPendingOutboxEvents limit by_ t d = (Ok es, d') -> e ∈ es ->
  exists r, db_rows d' !! ID e = Some r /\ claimed_row t [] (ID e) r.
Proof.
  intros Hwf Hclaim He. destruct (claim_rows _ _ _ _ _ _ Hwf Hclaim) as (_ & _ & Hes & _).
  destruct (Hes e He) as (e0 & _ & Hc & _ & -> & Hrow). exists (set_lock e0 (Some t) by_). rewrite set_lock_ID.
  split; [done|]. apply claimable_spec in Hc as [Hu _]. destruct e0; cbn in *; subst. by split; [| |left].
Qed.

(** C18: a claim leases its rows: within five minutes of a claim, whatever runs
    against the table meanwhile, another claim answers the same row only if in
    between its lock was released, or its failure recorded with a retry delay
    that is over.  (The statements do not ask whether the worker that ends the
    lease is the one that holds it: see [stale_outcome_ends_lease].) *)
Theorem lease_exclusive `{PgLaws} limit by_ t d es d' e h limit2 by2 t2 es2 d2 :
  table_wf d -> ClaimPendingOutboxEvents limit by_ t d = (Ok es, d') -> e ∈ es ->
  Forall (fun sn => t <= snd sn <= t + lock_timeout) h ->
  ClaimPendingOutboxEvents limit2 by2 t2 (replay h d') = (Ok es2, d2) -> t2 <= t + lock_timeout ->
  ID e ∈ map ID es2 ->
  SRelease (ID e) ∈ map fst h \/
  exists arg, SMarkFailed arg ∈ map fst h /\ f_ID arg = ID e /\
    forall n, f_NextAttemptAt arg = Some n -> n <= t2.
Proof.
  intros Hwf Hclaim He Hh Hclaim2 Ht2 Hin.
  assert (table_wf d') as Hwf'.
  { replace d' with (exec (SClaim limit by_) t d) by (cbn; by rewrite Hclaim). by apply exec_wf. }
  assert (exists r, db_rows (replay h d') !! ID e = Some r /\ claimed_row t h (ID e) r) as (r & Hr & [Hid _ Hheld]).
  { clear Hclaim2. induction h as [|[s now] h IH] using rev_ind; [by apply (claim_claims _ _ _ _ _ _ _ Hwf Hclaim)|].
    apply Forall_app in Hh as [Hh [Hs _]%list.Forall_cons]. destruct (IH Hh) as (r & Hr & Hcr). rewrite replay_snoc.
    apply (step_claimed t h (ID e) r s now); [exact Hcr | exact Hs|]. by apply exec_row; [apply replay_wf|]. }
  destruct (claim_rows _ _ _ _ _ _ (replay_wf h _ Hwf') Hclaim2) as (_ & _ & Hes & _).
  apply list_elem_of_fmap in Hin as (e2 & Heq & Hin). destruct (Hes e2 Hin) as (e0 & He0 & Hc & _ & -> & _).
  rewrite set_lock_ID in Heq. rewrite <- Heq, Hr in He0. injection He0 as <-.
  pose proof (proj1 (claimable_spec t2 r) Hc) as (Hu & Hdue & _).
  destruct (Hheld Hu) as [Hl|[Hrel|(arg & Harg & Hida & Hna)]].
  - by rewrite (leased_not_claimable t) in Hc.
  - left. by rewrite <- Hid.
  - right. exists arg. split; [done|]. split; [congruence|]. intros n Hn. apply Hdue. congruence.
Qed.

(** ** Creation and transactions *)

(** CreateOutboxEvent is idempotent per id: a success leaves the event's row
    in the table, inserted now or by an earlier call and not touched again,
    and no other row is affected. *)
Theorem CreateOutboxEvent_idempotent `{PgLib} arg now d n d' :
  CreateOutboxEvent arg now d = (Ok n, d') ->
  (forall id, id <> p_ID arg -> db_rows d' !! id = db_rows d !! id) /\
  ((n = 0 /\ d' = d /\ is_Some (db_rows d !! p_ID arg)) \/
   (n = 1 /\ db_rows d !! p_ID arg = None /\ exists payload,
      pg_jsonb (p_Payload arg) = Some payload /\
      db_rows d' !! p_ID arg = Some (new_row arg payload now))) /\
  forall now', now <= now' -> CreateOutboxEvent arg now' d' = (Ok 0, d').
Proof.
  unfold CreateOutboxEvent. destruct (negb _) eqn:Hneg; [done|].
  destruct (pg_jsonb (p_Payload arg)) as [payload|] eqn:Hp; [|done].
  destruct (db_rows d !! p_ID arg) as [r|] eqn:Hr; intros [= <- <-].
  - split_and!; [done | left; by split_and! | by rewrite Hr].
  - cbn [db_rows with_rows]. split_and!.
    + intros id Hid. by rewrite lookup_insert_ne.
    + right. split_and!; [done..|]. exists payload. by rewrite lookup_insert, decide_True.
    + intros now' _. by rewrite lookup_insert, decide_True.
Qed.

Lemma run_ExecTx `{PgLib} {A} (fn : Querier -> M db A) w :
  run (ExecTx fn) w =
  match run begin_tx w with
  | (Ok _, w1) => body_and_commit (fn New) w1
  | (Err e, w1) => (Err (Errorf "begin tx: %w" [] [e]), w1)
  end.
Proof.
  unfold ExecTx. rewrite bind_try. destruct (run begin_tx w) as [[a|e] w1]; [|done].
  apply run_atomic.
Qed.

(** ExecTx is atomic: its run either leaves the database as it found it or
    leaves exactly what the whole transaction function did, and it reports
    success only in the second case; a failure of the function is returned
    unchanged with the database untouched. *)
Theorem ExecTx_atomic `{PgLib} {A} (fn : Querier -> M db A) w :
  exists w1, w_data w1 = w_data w /\
    let (r, w') := ExecTx fn w in
    match fst (fn New w1) with
    | Ok _ => (w_data w' = w_data w \/ w_data w' = w_data (snd (fn New w1))) /\
        (r = Ok tt -> w_data w' = w_data (snd (fn New w1)))
    | Err e => is_ok r = false /\ w_data w' = w_data w /\
        (r = Err e \/ exists e0, r = Err (Errorf "begin tx: %w" [] [e0]))
    end.
Proof.
  rewrite run_ExecTx. unfold begin_tx, body_and_commit.
  destruct (remote_inv (fun (_ : Z) (d : db) => (Ok tt, d)) w) as (clk & sch & flt & _ & Hb).
  rewrite Hb. clear Hb. exists (World (w_data w) clk sch). split; [done|].
  destruct flt; cbn [fst snd].
  2, 3: destruct (run (fn New) _) as [[a|e0] w2]; cbn [fst snd w_data is_ok]; split_and!; eauto; try done.
  destruct (run (fn New) _) as [[a|e'] w2]; cbn [fst snd w_data]; [|split_and!; auto].
  destruct (remote_inv (fun (_ : Z) (_ : db) => (Ok tt, w_data w2))
    (World (w_data w) (w_clock w2) (w_sched w2))) as (clk2 & sch2 & flt2 & _ & Hc).
  rewrite Hc. by destruct flt2; cbn; split; auto; congruence.
Qed.

(** ** Concrete runs *)

#[local] Existing Instance demo_pg.

Definition demo_create (id : string) : CreateOutboxEventParams :=
  MkCreateParams "document" "0123456789abcdef" id "document.routed" 1
    "ocr.document.routed.expense.v1" "{}" None.

Definition demo_db : db :=
  replay [(SCreate (demo_create "aaaaaaaaaaaaaaa1"), 10);
          (SCreate (demo_create "aaaaaaaaaaaaaaa2"), 20);
          (SCreate (demo_create "aaaaaaaaaaaaaaa3"), 30)] (MkDb ∅ ∅).

Lemma empty_wf : table_wf (MkDb ∅ ∅).
Proof. intros id e He. cbn in He. by rewrite lookup_empty in He. Qed.

Lemma demo_db_wf : table_wf demo_db.
Proof. apply replay_wf, empty_wf. Qed.

Definition demo_row : OutboxEvent := new_row (demo_create "aaaaaaaaaaaaaaa1") "{}" 10.

Lemma statement_preserves_wf_witness : table_wf (exec (SClaim 2 (Some "w")) 50 demo_db).
Proof. apply statement_preserves_wf, demo_db_wf. Defined.

(** Claimed, published, and deleted eight days later. *)
Definition demo_life : history :=
  [(SClaim 10 (Some "w"), 40); (SMarkPublished "aaaaaaaaaaaaaaa1", 50);
   (SDelete, 8 * 24 * Hour)].

Lemma row_life_witness : deleted_by demo_life demo_db "aaaaaaaaaaaaaaa1" demo_row.
Proof.
  destruct (row_life demo_life demo_db "aaaaaaaaaaaaaaa1" demo_row demo_db_wf) as [(e' & He' & _)|Hd].
  - vm_compute. reflexivity.
  - exfalso. assert (db_rows (replay demo_life demo_db) !! "aaaaaaaaaaaaaaa1" = None) as Hn
      by (vm_compute; reflexivity).
    pose proof (eq_trans (eq_sym Hn) He') as Hc. discriminate Hc.
  - exact Hd.
Defined.

Definition demo_claimed : list OutboxEvent :=
  match fst (ClaimPendingOutboxEvents 2 (Some "w") 40 demo_db) with Ok es => es | Err _ => [] end.
Definition demo_db2 : db := snd (ClaimPendingOutboxEvents 2 (Some "w") 40 demo_db).

Lemma claim_spec_witness :
  map ID demo_claimed = ["aaaaaaaaaaaaaaa1"; "aaaaaaaaaaaaaaa2"] /\ NoDup (map ID demo_claimed).
Proof.
  split; [vm_compute; reflexivity|].
  destruct (claim_spec 2 (Some "w") 40 demo_db demo_claimed demo_db2 demo_db_wf) as (_ & Hnd & _).
  - vm_compute. reflexivity.
  - exact Hnd.
Defined.

(** The worker records that the publish failed; the row is answered again three
    seconds later, after a retry delay of two. *)
Definition demo_failure : MarkOutboxEventFailedParams :=
  MkFailedParams "aaaaaaaaaaaaaaa1" (Some (3 * Second)) (Some "no broker").
Definition demo_retried : history :=
  [(SMarkPublished "aaaaaaaaaaaaaaa2", 1 * Second); (SMarkFailed demo_failure, 1 * Second)].

Lemma lease_exclusive_witness :
  exists arg, SMarkFailed arg ∈ map fst demo_retried /\ f_ID arg = "aaaaaaaaaaaaaaa1" /\
    forall n, f_NextAttemptAt arg = Some n -> n <= 4 * Second.
Proof.
  destruct (lease_exclusive 2 (Some "w") 40 demo_db demo_claimed demo_db2
    (set_lock demo_row (Some 40) (Some "w")) demo_retried 9 (Some "x") (4 * Second)
    match fst (ClaimPendingOutboxEvents 9 (Some "x") (4 * Second) (replay demo_retried demo_db2)) with
    | Ok es => es | Err _ => [] end
    (snd (ClaimPendingOutboxEvents 9 (Some "x") (4 * Second) (replay demo_retried demo_db2)))) as [Hrel|Harg].
  - exact demo_db_wf.
  - vm_compute. reflexivity.
  - vm_compute. left.
  - repeat constructor; cbn; unfold lock_timeout, Minute, Second; lia.
  - vm_compute. reflexivity.
  - unfold lock_timeout, Minute, Second. lia.
  - vm_compute. left.
  - exfalso. cbn in Hrel. repeat (apply elem_of_cons in Hrel as [Hrel|Hrel]; [discriminate Hrel|]).
    by apply elem_of_nil in Hrel.
  - exact Harg.
Defined.

(** The outcome of a worker whose lease is over ends the lease of the next
    holder: [w1] claims a row and hangs; once its lease is over [w2] claims it;
    [w1] records its failure, and [w3] is answered the row ten seconds into the
    lease of [w2]. *)
Definition demo_claim (by_ : string) (t : Z) : statement * Z := (SClaim 1 (Some by_), t).
Definition demo_late : Z := 6 * Minute.
Definition demo_stale : history :=
  [demo_claim "w1" (1 * Second); demo_claim "w2" demo_late;
   (SMarkFailed (MkFailedParams "aaaaaaaaaaaaaaa1" (Some (demo_late + 6 * Second)) (Some "timeout")), demo_late + 1 * Second)].

Theorem stale_outcome_ends_lease :
  let holder n t := LockedBy <$> db_rows (replay (take n demo_stale ++ [demo_claim "w3" t]) demo_db) !! "aaaaaaaaaaaaaaa1" in
  holder 2%nat (demo_late + 10 * Second) = Some (Some "w2") /\
  holder 3%nat (demo_late + 10 * Second) = Some (Some "w3").
Proof. vm_compute. split; reflexivity. Qed.

Lemma CreateOutboxEvent_idempotent_witness :
  CreateOutboxEvent (demo_create "aaaaaaaaaaaaaaa1") 99
    (snd (CreateOutboxEvent (demo_create "aaaaaaaaaaaaaaa1") 10 (MkDb ∅ ∅)))
  = (Ok 0, snd (CreateOutboxEvent (demo_create "aaaaaaaaaaaaaaa1") 10 (MkDb ∅ ∅))).
Proof.
  apply (CreateOutboxEvent_idempotent (demo_create "aaaaaaaaaaaaaaa1") 10 (MkDb ∅ ∅) 1); [|lia].
  vm_compute. reflexivity.
Defined.
