(* ===== verification/Migrations.v ===== *)
(** * The schema: [db/migrations]

    The two migrations as operations on a catalogue, the table of the second one
    with its columns, types and defaults, and the function [uuidv7] that the
    first one defines for servers older than 18.  The rest of the development
    speaks of the rows as Go sees them; here is what PostgreSQL makes of the
    same rows: that the statements keep the schema, and that an insertion fills
    the columns it does not name with the migration's defaults. *)
From S2P Require Import Prelude Uuid Repository RepositoryFacts.
#[local] Open Scope Z_scope.

(** ** uuidv7 *)

(** [extract(epoch FROM ts) * 1000] as a BIGINT: a timestamp holds microseconds,
    and the conversion rounds halves away from zero. *)
Definition epoch_ms (us : Z) : Z :=
  if 0 <=? us then (us + 500) / 1000 else - ((500 - us) / 1000).

(** The last [n] bytes of an integer, the first one first ([int8send]). *)
Fixpoint be_bytes (n : nat) (z : Z) : string :=
  match n with
  | O => ""
  | S n' => String (byte_of (Z.shiftr z (8 * Z.of_nat n'))) (be_bytes n' z)
  end.

(** [get_byte] and [set_byte]. *)
Definition get_byte (s : string) (i : nat) : Z :=
  match String.get i s with Some c => byte_val c | None => 0 end.
Fixpoint set_byte (s : string) (i : nat) (v : Z) : string :=
  match s, i with
  | EmptyString, _ => EmptyString
  | String _ s', O => String (byte_of v) s'
  | String c s', S i' => String c (set_byte s' i' v)
  end.

(** [bits || get_byte(s, i)::bit(k)] as an integer. *)
Definition tag_byte (s : string) (i : nat) (bits k : Z) : Z :=
  Z.lor (Z.shiftl bits k) (Z.land (get_byte s i) (Z.ones k)).

Definition uuidv7 (us : Z) (random : UUID) : UUID :=
  let uuid_bytes := (be_bytes 6 (epoch_ms us) ++ String.substring 6 10 random)%string in
  let uuid_bytes := set_byte uuid_bytes 6 (tag_byte uuid_bytes 6 7 4) in
  set_byte uuid_bytes 8 (tag_byte uuid_bytes 8 2 6).

(** ** The table *)

Inductive sql_type := SqlUuid | SqlText | SqlVarchar (n : N) | SqlInteger | SqlJsonb | SqlTimestamptz.

Inductive sql_value :=
  | VUuid (u : UUID)
  | VText (s : string)
  | VInteger (z : Z)
  | VJsonb (document : string)
  | VTimestamptz (t : Z).

Inductive sql_default := DefaultUuidv7 | DefaultInteger (z : Z) | DefaultNow.

Record column := MkColumn {
  c_Name : string;
  c_Type : sql_type;
  c_NotNull : bool;
  c_Default : option sql_default;
}.

(** [CREATE TABLE outbox_events]; a primary key is NOT NULL. *)
Definition outbox_events : list column :=
  [MkColumn "id" SqlUuid true (Some DefaultUuidv7);
   MkColumn "aggregate_type" SqlText true None;
   MkColumn "aggregate_id" SqlUuid true None;
   MkColumn "event_type" SqlText true None;
   MkColumn "event_version" SqlInteger true (Some (DefaultInteger 1));
   MkColumn "topic" (SqlVarchar 255) true None;
   MkColumn "payload" SqlJsonb true None;
   MkColumn "created_at" SqlTimestamptz true (Some DefaultNow);
   MkColumn "published_at" SqlTimestamptz false None;
   MkColumn "trace_id" SqlText false None;
   MkColumn "attempt_count" SqlInteger true (Some (DefaultInteger 0));
   MkColumn "next_attempt_at" SqlTimestamptz false None;
   MkColumn "locked_at" SqlTimestamptz false None;
   MkColumn "locked_by" SqlText false None;
   MkColumn "last_error" SqlText false None].

(** A row in the order of the columns; [None] is NULL. *)
Definition row_values (e : OutboxEvent) : list (option sql_value) :=
  [Some (VUuid (ID e)); Some (VText (AggregateType e)); Some (VUuid (AggregateID e));
   Some (VText (EventType e)); Some (VInteger (EventVersion e));
   Some (VText (Topic e)); Some (VJsonb (Payload e)); Some (VTimestamptz (CreatedAt e));
   VTimestamptz <$> PublishedAt e; VText <$> TraceID e; Some (VInteger (AttemptCount e));
   VTimestamptz <$> NextAttemptAt e; VTimestamptz <$> LockedAt e; VText <$> LockedBy e;
   VText <$> LastError e].

Definition min_int32 : Z := -2147483648.

Section schema.
Context `{PgLib}.

Definition has_type (ty : sql_type) (v : sql_value) : Prop :=
  match ty, v with
  | SqlUuid, VUuid u => String.length u = 16%nat
  | SqlText, VText s => pg_text s = true
  | SqlVarchar n, VText s => pg_varchar n s = true
  | SqlInteger, VInteger z => min_int32 <= z <= max_int32
  | SqlJsonb, VJsonb d => exists document, pg_jsonb document = Some d
  | SqlTimestamptz, VTimestamptz _ => True
  | _, _ => False
  end.

(** A column takes NULL unless it is NOT NULL, and values of its type. *)
Definition admits (c : column) (v : option sql_value) : Prop :=
  match v with None => c_NotNull c = false | Some x => has_type (c_Type c) x end.

Definition fits (e : OutboxEvent) : Prop := Forall2 admits outbox_events (row_values e).

(** The table of the migration: rows under their primary key, all of the schema. *)
Record conforms (d : db) : Prop := {
  cf_wf : table_wf d;
  cf_fits id e : db_rows d !! id = Some e -> fits e;
}.

(** ** Insertion *)

(** What [DEFAULT] gives a column an INSERT leaves out, [generated] being what
    [uuidv7()] answers; NULL where there is none. *)
Definition default_value (now : Z) (generated : UUID) (c : column) : option sql_value :=
  match c_Default c with
  | Some DefaultUuidv7 => Some (VUuid generated)
  | Some (DefaultInteger z) => Some (VInteger z)
  | Some DefaultNow => Some (VTimestamptz now)
  | None => None
  end.

Fixpoint named (given : list (string * option sql_value)) (name : string) : option (option sql_value) :=
  match given with
  | [] => None
  | (n, v) :: given' => if String.eqb n name then Some v else named given' name
  end.

Definition insert_values (given : list (string * option sql_value)) (now : Z) (generated : UUID)
    : list (option sql_value) :=
  map (fun c => default (default_value now generated c) (named given (c_Name c))) outbox_events.

(** The columns [CreateOutboxEvent] names, in its order. *)
Definition create_columns (arg : CreateOutboxEventParams) (payload : string) : list (string * option sql_value) :=
  [("aggregate_type", Some (VText (p_AggregateType arg)));
   ("aggregate_id", Some (VUuid (p_AggregateID arg)));
   ("id", Some (VUuid (p_ID arg)));
   ("event_type", Some (VText (p_EventType arg)));
   ("event_version", Some (VInteger (p_EventVersion arg)));
   ("topic", Some (VText (p_Topic arg)));
   ("payload", Some (VJsonb payload));
   ("trace_id", VText <$> p_TraceID arg)].
End schema.

(** ** The migrations *)

(** What the migrations make: the gateway's own [uuidv7], and the table. *)
Record catalog := MkCatalog { cat_uuidv7 : option (Z -> UUID -> UUID); cat_table : option db }.

Record migration := MkMigration {
  m_File : string;
  m_Up : catalog -> result catalog;
  m_Down : catalog -> result catalog;
}.

Section migrations.
(** [server_version_num]: from 18 on [uuidv7] is PostgreSQL's own *)
Variable server_version : Z.

Definition extensions : migration := {|
  m_File := "00001_extensions.sql";
  m_Up := fun c => Ok (if 180000 <=? server_version then c else MkCatalog (Some uuidv7) (cat_table c));
  m_Down := fun c => Ok (if server_version <? 180000 then MkCatalog None (cat_table c) else c);
|}.

(** CREATE TABLE fails on a table that is there; its default needs [uuidv7]. *)
Definition create_outbox_events : migration := {|
  m_File := "00002_outbox_events.sql";
  m_Up := fun c =>
    match cat_table c with
    | Some _ => Err (pg_error "relation already exists")
    | None =>
        if (180000 <=? server_version) || (if cat_uuidv7 c then true else false)
        then Ok (MkCatalog (cat_uuidv7 c) (Some (MkDb ∅ ∅)))
        else Err (pg_error "function uuidv7() does not exist")
    end;
  m_Down := fun c => Ok (MkCatalog (cat_uuidv7 c) None);
|}.

(** The embedded files, by name. *)
Definition FS : list migration := [extensions; create_outbox_events].

(** The migrations up in the order of their files, and down in the other. *)
Fixpoint migrate_up (ms : list migration) (c : catalog) : result catalog :=
  match ms with
  | [] => Ok c
  | m :: ms' => match m_Up m c with Ok c' => migrate_up ms' c' | Err e => Err e end
  end.
Fixpoint migrate_down (ms : list migration) (c : catalog) : result catalog :=
  match ms with
  | [] => Ok c
  | m :: ms' => match migrate_down ms' c with Ok c' => m_Down m c' | Err e => Err e end
  end.
End migrations.
