(* ===== verification/Redis.v ===== *)
(** * Redis as the gateway uses it

    The Redis server and its Go client are not part of the repository.  The
    commands the gateway sends (EXISTS, SETNX, INCR, EXPIRE) are the operations
    of a class over an abstract keyspace; [RedisLaws] states the documented
    behaviour the router and the rate limiter rely on.  Keys may expire at any
    time their time to live allows, and a lookup is made at a time. *)
From S2P Require Import Prelude.

Class RedisLib (R : Type) := {
  (** the live value of a key at a time *)
  rd_get : Z -> string -> R -> option string;
  (** EXISTS key: the number of live keys among the arguments *)
  rd_exists : Z -> string -> R -> Z;
  (** SET key value NX with a time to live: whether the key was set *)
  rd_setnx : Z -> string -> string -> Z -> R -> bool * R;
  (** INCR key: the value after the increment *)
  rd_incr : Z -> string -> R -> result Z * R;
  (** EXPIRE key: whether a time to live was set *)
  rd_expire : Z -> string -> Z -> R -> bool * R;
}.

(** The text of a counter. *)
Definition counter_text (n : Z) : string := format_int n.

(** EXPIRE takes whole seconds: the client truncates a duration to seconds and
    sends one second for less. *)
Definition whole_seconds (d : Z) : Z := if d <? Second then Second else d - d mod Second.

Lemma whole_seconds_half d : 0 < d -> d <= whole_seconds (2 * d).
Proof. intros Hd. unfold whole_seconds, Second. case_match; dlia. Qed.

Class RedisLaws (R : Type) `{RedisLib R} := {
  exists_get t k r : rd_exists t k r = if rd_get t k r then 1 else 0;
  (** commands do not touch other keys *)
  setnx_other t k v ttl r t' k' :
    t <= t' -> k' <> k -> rd_get t' k' (snd (rd_setnx t k v ttl r)) = rd_get t' k' r;
  incr_other t k r t' k' :
    t <= t' -> k' <> k -> rd_get t' k' (snd (rd_incr t k r)) = rd_get t' k' r;
  expire_other t k ttl r t' k' :
    t <= t' -> k' <> k -> rd_get t' k' (snd (rd_expire t k ttl r)) = rd_get t' k' r;
  (** a live key is not set again *)
  setnx_live t k v ttl r x :
    rd_get t k r = Some x -> rd_setnx t k v ttl r = (false, r);
  (** an absent key is, and stays up to its time to live at most *)
  setnx_absent t k v ttl r :
    rd_get t k r = None -> fst (rd_setnx t k v ttl r) = true;
  setnx_value t k v ttl r t' x :
    rd_get t k r = None -> Millisecond <= ttl -> t <= t' ->
    rd_get t' k (snd (rd_setnx t k v ttl r)) = Some x -> x = v /\ t' < t + ttl;
  setnx_keeps t k v ttl r t' :
    rd_get t k r = None -> Millisecond <= ttl -> t <= t' < t + ttl - Millisecond ->
    rd_get t' k (snd (rd_setnx t k v ttl r)) = Some v;
  (** a counter counts from its live value, from zero when it has none *)
  incr_absent t k r :
    rd_get t k r = None ->
    fst (rd_incr t k r) = Ok 1 /\ forall t', t <= t' -> rd_get t' k (snd (rd_incr t k r)) = Some (counter_text 1);
  incr_live t k r n :
    rd_get t k r = Some (counter_text n) -> 0 <= n < 9223372036854775807 ->
    fst (rd_incr t k r) = Ok (n + 1) /\
    rd_get t k (snd (rd_incr t k r)) = Some (counter_text (n + 1)) /\
    forall t', t <= t' -> rd_get t' k (snd (rd_incr t k r)) = None <-> rd_get t' k r = None;
  incr_live_value t k r n t' x :
    rd_get t k r = Some (counter_text n) -> 0 <= n < 9223372036854775807 -> t <= t' ->
    rd_get t' k (snd (rd_incr t k r)) = Some x -> x = counter_text (n + 1);
  (** a new time to live replaces the old one *)
  expire_keeps t k ttl r t' x :
    0 < ttl -> t <= t' < t + whole_seconds ttl -> rd_get t k r = Some x ->
    rd_get t' k (snd (rd_expire t k ttl r)) = Some x;
  expire_value t k ttl r t' x :
    0 < ttl -> t <= t' -> rd_get t' k (snd (rd_expire t k ttl r)) = Some x ->
    rd_get t k r = Some x;
  (** values do not come back *)
  get_earlier t t' k r x :
    t <= t' -> rd_get t' k r = Some x -> rd_get t k r = Some x;
}.

(** ** A concrete server *)

(** Values with the time they expire at. *)
Abbreviation keyspace := (gmap string (string * option Z)) (only parsing).

Definition ks_get (t : Z) (k : string) (r : keyspace) : option string :=
  '(v, x) ← r !! k;
  match x with
  | Some until => if t <? until then Some v else None
  | None => Some v
  end.

(** The number a value holds when it is the text of one below the limit. *)
Definition ks_count (v : string) : option Z :=
  n ← read_int v;
  if String.eqb v (counter_text n) && (n <? 9223372036854775807) then Some n else None.

Lemma ks_count_text n : n < 9223372036854775807 -> ks_count (counter_text n) = Some n.
Proof.
  intros Hn. unfold ks_count, counter_text. rewrite read_format. cbn.
  by rewrite String.eqb_refl, (proj2 (Z.ltb_lt _ _) Hn).
Qed.

Definition ks_incr (t : Z) (k : string) (r : keyspace) : result Z * keyspace :=
  match ks_get t k r with
  | None => (Ok 1, <[k := (counter_text 1, None)]> r)
  | Some v =>
      match ks_count v with
      | Some n => (Ok (n + 1), <[k := (counter_text (n + 1), '(_, x) ← r !! k; x)]> r)
      | None => (Err (External "ERR value is not an integer or out of range"), r)
      end
  end.

#[export] Instance keyspace_redis : RedisLib keyspace := {
  rd_get := ks_get;
  rd_exists := fun t k r => if ks_get t k r then 1 else 0;
  rd_setnx := fun t k v ttl r =>
    match ks_get t k r with
    | Some _ => (false, r)
    | None => (true, <[k := (v, Some (t + ttl))]> r)
    end;
  rd_incr := ks_incr;
  rd_expire := fun t k ttl r =>
    match ks_get t k r with
    | Some v => (true, <[k := (v, Some (t + whole_seconds ttl))]> r)
    | None => (false, r)
    end;
}.

Example incr_ex :
  ks_get 7 "a" (snd (ks_incr 6 "a" (snd (ks_incr 5 "a" ∅)))) = Some "2".
Proof. vm_compute. reflexivity. Qed.

Lemma ks_insert_ne t k k' x (r : keyspace) : k' <> k -> ks_get t k' (<[k := x]> r) = ks_get t k' r.
Proof. intros Hk. unfold ks_get. by rewrite lookup_insert_ne. Qed.

Lemma ks_insert t k v x (r : keyspace) :
  ks_get t k (<[k := (v, x)]> r) =
  match x with Some until => if t <? until then Some v else None | None => Some v end.
Proof. unfold ks_get. by rewrite lookup_insert, decide_True. Qed.

Lemma ks_get_earlier t t' k (r : keyspace) x : t <= t' -> ks_get t' k r = Some x -> ks_get t k r = Some x.
Proof.
  intros Ht. unfold ks_get. destruct (r !! k) as [[v [u|]]|]; cbn; try done.
  destruct (Z.ltb_spec t' u), (Z.ltb_spec t u); try done. lia.
Qed.

#[export] Instance keyspace_laws : RedisLaws keyspace.
Proof.
  split; cbn [rd_get rd_exists rd_setnx rd_incr rd_expire keyspace_redis].
  - done.
  - intros. destruct (ks_get t k r); cbn; [done|]. by apply ks_insert_ne.
  - intros. unfold ks_incr. repeat case_match; cbn; try done; by apply ks_insert_ne.
  - intros. destruct (ks_get t k r); cbn; [|done]. by apply ks_insert_ne.
  - intros * ->. done.
  - intros * ->. done.
  - intros * -> ? ?. cbn. rewrite ks_insert. case_match eqn:Hlt; [|done]. apply Z.ltb_lt in Hlt.
    by intros [= ->].
  - intros * -> ? ?. cbn. rewrite ks_insert. unfold Millisecond in *.
    by rewrite (proj2 (Z.ltb_lt _ _)) by lia.
  - intros * Hk. unfold ks_incr. rewrite Hk. cbn. split; [done|]. intros. by rewrite ks_insert.
  - intros * Hk Hn. unfold ks_incr. rewrite Hk, ks_count_text by lia. cbn [fst snd].
    unfold ks_get in Hk. destruct (r !! k) as [[v x]|] eqn:Hr; [|done]. cbn in Hk |- *.
    split; [done|]. split.
    + rewrite ks_insert. destruct x; [|done]. by case_match.
    + intros t' Ht. rewrite ks_insert. unfold ks_get. rewrite Hr. cbn.
      destruct x as [u|]; [destruct (t' <? u)|]; split; done.
  - intros * Hk Hn Ht. unfold ks_incr. rewrite Hk, ks_count_text by lia. cbn [fst snd].
    rewrite ks_insert. repeat case_match; congruence.
  - intros * ? ? Hk. rewrite Hk. cbn. rewrite ks_insert. by rewrite (proj2 (Z.ltb_lt _ _)) by lia.
  - intros * ? ? Hk. destruct (ks_get t k r) as [v|] eqn:Hv; cbn in Hk.
    + rewrite ks_insert in Hk. by case_match; simplify_eq.
    + apply (ks_get_earlier t) in Hk; [congruence | done].
  - intros *. apply ks_get_earlier.
Qed.

(** ** A server under MONITOR *)

(** Any server, with a record of the INCR commands it carried out: when, and on
    which key. *)
Record monitored (R : Type) := MkMonitored { mo_redis : R; mo_incrs : list (Z * string) }.
Arguments MkMonitored {R} _ _.
Arguments mo_redis {R} _.
Arguments mo_incrs {R} _.

#[export] Instance monitored_redis `{RedisLib R} : RedisLib (monitored R) := {
  rd_get t k r := rd_get t k (mo_redis r);
  rd_exists t k r := rd_exists t k (mo_redis r);
  rd_setnx t k v ttl r :=
    (fst (rd_setnx t k v ttl (mo_redis r)), MkMonitored (snd (rd_setnx t k v ttl (mo_redis r))) (mo_incrs r));
  rd_incr t k r :=
    (fst (rd_incr t k (mo_redis r)), MkMonitored (snd (rd_incr t k (mo_redis r))) (mo_incrs r ++ [(t, k)]));
  rd_expire t k ttl r :=
    (fst (rd_expire t k ttl (mo_redis r)), MkMonitored (snd (rd_expire t k ttl (mo_redis r))) (mo_incrs r));
}.

#[export] Instance monitored_laws `{RedisLaws R} : RedisLaws (monitored R).
Proof.
  split; cbn [rd_get rd_exists rd_setnx rd_incr rd_expire monitored_redis mo_redis fst snd]; intros.
  - apply exists_get.
  - by apply setnx_other.
  - by apply incr_other.
  - by apply expire_other.
  - destruct r as [r l]. cbn [mo_redis mo_incrs] in *. by rewrite (setnx_live _ _ _ _ _ x).
  - by apply setnx_absent.
  - by eapply setnx_value.
  - by apply setnx_keeps.
  - by apply incr_absent.
  - by apply incr_live.
  - by eapply incr_live_value.
  - by apply expire_keeps.
  - by eapply expire_value.
  - by eapply get_earlier.
Qed.

(** The times of the INCRs on a key from one time up to another. *)
Definition incrs_in {R} (key : string) (from til : Z) (r : monitored R) : list Z :=
  map fst (List.filter (fun x => String.eqb (snd x) key && (from <=? fst x) && (fst x <? til)) (mo_incrs r)).

Lemma incrs_in_incr `{RedisLib R} key from til t k (r : monitored R) :
  incrs_in key from til (snd (rd_incr t k r)) =
  incrs_in key from til r ++ (if String.eqb k key && (from <=? t) && (t <? til) then [t] else []).
Proof.
  unfold incrs_in. cbn [rd_incr monitored_redis snd mo_incrs]. rewrite List.filter_app, map_app. f_equal.
  cbn [List.filter fst snd]. by destruct (_ && _).
Qed.
