(* ===== verification/Router.v ===== *)
(** * The routing service: [internal/service/router]

    [Handle] routes one document.processed event to its caller's topic: the
    permanent checks first, the Redis fast path, one transaction writing the
    routed outbox row, and the Redis mark after the commit.  Tracing and
    logging have no effect on the state and are left out. *)
From S2P Require Import Prelude Utf8 Json GoTime Uuid Repository Redis Constant Envelope.

Definition dedupeKeyPrefix : string := "ocr:dedupe:routed:v2:event:".
Definition routedEventIDNamespace : string := "disillusioned-labs/ocr-gateway/document.routed/v1/".

(** [router.Options]. *)
Record Options := MkOptions {
  DedupeTTL : Z;
  RoutedTopicTemplate : string;
  KnownCaller : string -> bool;
}.

(** [routerService]: [rdb_up] is [rdb != nil]. *)
Record routerService := MkRouter { rdb_up : bool; opts : Options }.

(** [NewService]; the store is the world's. *)
Definition NewService (rdb_up : bool) (opts : Options) : routerService := MkRouter rdb_up opts.

(** The stores a consumer shares with the other processes. *)
Record store (R : Type) := MkStore { st_redis : R; st_db : db }.
Arguments MkStore {R} _ _.
Arguments st_redis {R} _.
Arguments st_db {R} _.

#[export] Instance redis_lens {R} : Lens st_redis (fun (r : R) s => MkStore r (st_db s)).
Proof. solve_lens. Qed.
#[export] Instance db_lens {R} : Lens st_db (fun d (s : store R) => MkStore (st_redis s) d).
Proof. solve_lens. Qed.

Definition on_redis {R A} : M R A -> M (store R) A :=
  zoom st_redis (fun r s => MkStore r (st_db s)).
Definition on_db {R A} : M db A -> M (store R) A :=
  zoom st_db (fun d s => MkStore (st_redis s) d).

Section router.
Context {R : Type} `{RedisLib R, UuidLib, PgLib, FmtOther}.

Definition caller_not_registered (env : Envelope) : error :=
  Permanent "caller_id %q is not registered" [CallerID env].
Definition document_id_not_uuid (env : Envelope) : error :=
  Permanent "document_id %q is not a uuid" [DocumentID env].
Definition event_id_not_uuid (env : Envelope) : error :=
  Permanent "event_id %q is not a uuid" [EventID env].

(** The id of the routed event, a name-based UUID of the source event's. *)
Definition routed_id (sourceEventID : UUID) : UUID :=
  uuid_NewSHA1 NameSpaceURL (routedEventIDNamespace ++ sourceEventID)%string.

(** The routed envelope: a copy with three fields replaced. *)
Definition routed_envelope (env : Envelope) (routedID : UUID) : Envelope :=
  set_EventID (set_Producer (set_EventType env EventTypeDocumentRouted) ProducerName)
    (uuid_String routedID).

Definition dedupe_key (env : Envelope) : string := (dedupeKeyPrefix ++ EventID env)%string.

(** [pgtype.Text{String: s, Valid: s != ''}]. *)
Definition text_if (s : string) : option string := if nonempty s then Some s else None.

Definition routed_params (o : Options) (env : Envelope) (traceID : string)
    (documentID routedID : UUID) (payload : string) : CreateOutboxEventParams :=
  MkCreateParams AggregateType documentID routedID EventTypeDocumentRouted EventVersion
    (RoutedTopic (RoutedTopicTemplate o) (CallerID env)) payload (text_if traceID).

(** The Redis commands of the service. *)
Definition Exists (key : string) : M R Z := remote (fun t r => (Ok (rd_exists t key r), r)).
Definition SetNX (key value : string) (ttl : Z) : M R bool :=
  remote (fun t r => let (b, r') := rd_setnx t key value ttl r in (Ok b, r')).

(** The transaction function. *)
Definition insert_routed (arg : CreateOutboxEventParams) (q : Querier) : M db unit :=
  do! q_CreateOutboxEvent q arg in
  ret tt.

Definition Handle (s : routerService) (env : Envelope) (traceID : string) : M (store R) unit :=
  if negb (KnownCaller (opts s) (CallerID env)) then throw (caller_not_registered env)
  else match uuid_Parse (DocumentID env) with
  | None => throw (document_id_not_uuid env)
  | Some documentID =>
  match uuid_Parse (EventID env) with
  | None => throw (event_id_not_uuid env)
  | Some sourceEventID =>
      let routedID := routed_id sourceEventID in
      if negb (rdb_up s) then throw (errors_New "dedupe redis unavailable")
      else
        let key := dedupe_key env in
        let! found := try (on_redis (Exists key)) in
        match found with
        | Err err => throw (Errorf "dedupe %s: %w" [EventID env] [err])
        | Ok exists_ =>
            if 0 <? exists_ then ret tt
            else
              let routed := routed_envelope env routedID in
              match Marshal routed with
              | Err err => throw (Errorf "marshal routed payload: %w" [] [err])
              | Ok payload =>
                  let! done_ := try (on_db (repo_ExecTx NewStore (insert_routed
                      (routed_params (opts s) env traceID documentID routedID payload)))) in
                  match done_ with
                  | Err err => throw (Errorf "insert routed outbox event: %w" [] [err])
                  | Ok _ =>
                      do! try (on_redis (SetNX key "1" (DedupeTTL (opts s)))) in
                      ret tt
                  end
              end
        end
  end
  end.
End router.
