(* ===== verification/RouterFacts.v ===== *)
(** * Theorems on the routing service

    Every run of [Handle] is one of a few outcomes, whatever the schedule of
    faults ([Handle_refines]); from them: an acknowledged event is durable, the
    Redis mark never precedes the row, redeliveries never produce a second
    row, the permanent errors are exactly the contract violations, and the
    routed payload differs from the source in three fields. *)
From S2P Require Import Prelude Utf8 Json GoTime Uuid Repository RepositoryFacts Redis Constant Envelope EnvelopeFacts Router.

(** ** Transactions that insert one row *)

Section tx.
Context `{PgLib}.

Lemma later_insert arg : within later (insert_routed arg New).
Proof. unfold insert_routed. cbn [New q_CreateOutboxEvent]. eauto with gw_within typeclass_instances. Qed.

Lemma later_commit {A} (fn : M db A) w : within later fn -> later w (snd (body_and_commit fn w)).
Proof.
  intros Hfn. unfold body_and_commit. specialize (Hfn w).
  destruct (run fn w) as [[x|e] w2]; cbn [snd] in *; [|exact Hfn].
  etransitivity; [exact Hfn|]. apply (later_remote _ (World (w_data w) (w_clock w2) (w_sched w2))).
Qed.

Lemma later_ExecTx {A} (fn : Querier -> M db A) : within later (fn New) -> within later (ExecTx fn).
Proof.
  intros Hfn w. rewrite run_ExecTx. unfold begin_tx.
  pose proof (later_remote (fun (_ : Z) (d : db) => (Ok tt, d)) w) as Hb.
  destruct (run (remote _) w) as [[a|e] w1]; [|exact Hb].
  etransitivity; [exact Hb | by apply later_commit].
Qed.

(** A transaction either leaves the table alone and fails, or inserts. *)
Inductive tx_result (arg : CreateOutboxEventParams) (w : world db) : result unit -> world db -> Prop :=
  | tx_rolled_back e w' : w_data w' = w_data w -> tx_result arg w (Err e) w'
  | tx_inserted r t n w' :
      w_clock w <= t <= w_clock w' ->
      CreateOutboxEvent arg t (w_data w) = (Ok n, w_data w') ->
      tx_result arg w r w'.

Lemma commit_insert arg w :
  tx_result arg w (fst (body_and_commit (insert_routed arg New) w)) (snd (body_and_commit (insert_routed arg New) w)).
Proof.
  unfold body_and_commit, insert_routed. cbn [New q_CreateOutboxEvent]. rewrite run_bind.
  destruct (remote_inv (CreateOutboxEvent arg) w) as (c2 & s2 & f2 & Hc2 & ->).
  destruct f2; cbn [fst snd w_data w_clock w_sched] in *; [|by constructor|by constructor].
  destruct (CreateOutboxEvent arg c2 (w_data w)) as [[n|e] d'] eqn:Hcr; cbn [fst snd ret run]; [|by constructor].
  cbn [w_data w_clock w_sched].
  destruct (remote_inv (fun (_ : Z) (_ : db) => (Ok tt, d')) (World (w_data w) c2 s2)) as (c3 & s3 & f3 & Hc3 & ->).
  cbn [w_data w_clock w_sched] in Hc3.
  destruct f3; cbn [fst snd w_data w_clock]; [| by constructor |];
    apply (tx_inserted _ _ _ c2 n); cbn; done || lia.
Qed.

Lemma ExecTx_insert arg w :
  tx_result arg w (fst (ExecTx (insert_routed arg) w)) (snd (ExecTx (insert_routed arg) w)).
Proof.
  rewrite run_ExecTx. unfold begin_tx.
  destruct (remote_inv (fun (_ : Z) (d : db) => (Ok tt, d)) w) as (c1 & s1 & f1 & Hc1 & ->).
  destruct f1; cbn [fst snd]; [|by constructor|by constructor].
  destruct (commit_insert arg (World (w_data w) c1 s1)) as [e w' Hd|r t n w' Ht Hcr]; [by constructor|].
  apply (tx_inserted _ _ _ t n); [cbn in Ht; lia | exact Hcr].
Qed.

Lemma insert_now arg t d n d' :
  CreateOutboxEvent arg t d = (Ok n, d') ->
  is_Some (db_rows d' !! p_ID arg) /\
  (forall id e, db_rows d !! id = Some e -> db_rows d' !! id = Some e) /\
  (forall id e, db_rows d' !! id = Some e -> db_rows d !! id = Some e \/
     id = p_ID arg /\ exists payload, pg_jsonb (p_Payload arg) = Some payload /\ e = new_row arg payload t).
Proof.
  unfold CreateOutboxEvent. destruct (negb _); [done|].
  destruct (pg_jsonb (p_Payload arg)) as [payload|]; [|done].
  destruct (db_rows d !! p_ID arg) as [r|] eqn:Hr; intros [= <- <-]; cbn [db_rows with_rows].
  { split_and!; eauto. }
  split_and!.
  - by rewrite lookup_insert, decide_True.
  - intros id e He. rewrite lookup_insert_ne; congruence.
  - intros id e. rewrite lookup_insert. case_decide; [|auto]. intros [= <-]. eauto.
Qed.
End tx.

(** ** The outcomes of [Handle] *)

Section outcomes.
Context {R : Type} `{RedisLib R, UuidLib, PgLib, FmtOther}.
Variables (s : routerService) (env : Envelope) (traceID : string).

(** The contract violations the router detects, in its order. *)
Definition refusal : option error :=
  if negb (KnownCaller (opts s) (CallerID env)) then Some (caller_not_registered env)
  else match uuid_Parse (DocumentID env), uuid_Parse (EventID env) with
  | None, _ => Some (document_id_not_uuid env)
  | _, None => Some (event_id_not_uuid env)
  | Some _, Some _ => None
  end.

(** The row parameters of the event, when it is acceptable. *)
Definition routed_row (documentID sourceID : UUID) (payload : string) : CreateOutboxEventParams :=
  routed_params (opts s) env traceID documentID (routed_id sourceID) payload.

Inductive outcome (w : world (store R)) : result unit -> world (store R) -> Prop :=
  | refused e : refusal = Some e -> outcome w (Err e) w
  | failed e w' : refusal = None -> later w w' -> w_data w' = w_data w -> outcome w (Err e) w'
  | duplicate t w' : refusal = None -> rdb_up s = true -> later w w' -> w_clock w <= t ->
      0 < rd_exists t (dedupe_key env) (st_redis (w_data w)) -> w_data w' = w_data w ->
      outcome w (Ok tt) w'
  | inserted documentID sourceID payload r t n d' w' :
      refusal = None -> rdb_up s = true -> later w w' ->
      uuid_Parse (DocumentID env) = Some documentID -> uuid_Parse (EventID env) = Some sourceID ->
      Marshal (routed_envelope env (routed_id sourceID)) = Ok payload ->
      CreateOutboxEvent (routed_row documentID sourceID payload) t (st_db (w_data w)) = (Ok n, d') ->
      st_db (w_data w') = d' ->
      (st_redis (w_data w') = st_redis (w_data w) \/
       r = Ok tt /\ exists t', w_clock w <= t' <= w_clock w' /\
         st_redis (w_data w') =
           snd (rd_setnx t' (dedupe_key env) "1" (DedupeTTL (opts s)) (st_redis (w_data w)))) ->
      outcome w r w'.

Lemma on_redis_run {A} (f : Z -> R -> result A * R) w :
  exists t r', w_clock w <= t /\ later w (snd (on_redis (remote f) w)) /\
    t <= w_clock (snd (on_redis (remote f) w)) /\
    w_data (snd (on_redis (remote f) w)) = MkStore r' (st_db (w_data w)) /\
    (r' = st_redis (w_data w) \/ r' = snd (f t (st_redis (w_data w)))) /\
    forall a, fst (on_redis (remote f) w) = Ok a ->
      fst (f t (st_redis (w_data w))) = Ok a /\ r' = snd (f t (st_redis (w_data w))).
Proof.
  destruct (zoom_remote_inv st_redis (fun r s => MkStore r (st_db s)) f w)
    as (t & x & Ht & Hc & Hd & Hx & Hok); [by intros []|].
  unfold on_redis. exists t, x. unfold later. rewrite Hc, Hd. split_and!; auto; lia.
Qed.

Lemma on_db_run arg (w : world (store R)) :
  let run := on_db (ExecTx (insert_routed arg)) w in
  later w (snd run) /\
  ((exists e, fst run = Err e /\ w_data (snd run) = w_data w) \/
   exists t n d', CreateOutboxEvent arg t (st_db (w_data w)) = (Ok n, d') /\
     w_data (snd run) = MkStore (st_redis (w_data w)) d').
Proof.
  cbn zeta. unfold on_db. rewrite (run_zoom st_db _). set (w0 := part st_db w).
  pose proof (ExecTx_insert arg w0) as Htx.
  pose proof (later_ExecTx _ (later_insert arg) w0) as Hl.
  destruct (ExecTx _ w0) as [r w1]. cbn [fst snd] in *.
  split; [exact Hl|].
  destruct Htx as [e w' Hd|r t n w' _ Hcr]; [left | right].
  - exists e. split; [done|]. cbn. rewrite Hd. subst w0. cbn. by destruct (w_data w).
  - eauto 6.
Qed.

Lemma Handle_outcome w : outcome w (fst (Handle s env traceID w)) (snd (Handle s env traceID w)).
Proof.
  unfold Handle. destruct (negb (KnownCaller _ _)) eqn:Hk.
  { apply refused. unfold refusal. by rewrite Hk. }
  destruct (uuid_Parse (DocumentID env)) as [documentID|] eqn:Hdoc.
  2: { apply refused. unfold refusal. by rewrite Hk, Hdoc. }
  destruct (uuid_Parse (EventID env)) as [sourceID|] eqn:Hev.
  2: { apply refused. unfold refusal. by rewrite Hk, Hdoc, Hev. }
  assert (refusal = None) as Href by (unfold refusal; by rewrite Hk, Hdoc, Hev).
  destruct (rdb_up s) eqn:Hup; cbn [negb]; [|by apply failed; [| reflexivity |]].
  rewrite bind_try. unfold Exists.
  destruct (on_redis_run (fun t r => (Ok (rd_exists t (dedupe_key env) r), r)) w)
    as (t & r' & Ht & Hl & _ & Hd & Hr & Hok).
  destruct (on_redis _ w) as [found w1]. cbn [fst snd] in *.
  assert (w_data w1 = w_data w) as Hd1.
  { rewrite Hd. destruct Hr as [-> | ->]; by destruct (w_data w). }
  destruct found as [n|err]; [|cbn [fst snd throw run]; by apply failed].
  destruct (Hok n eq_refl) as [[= <-] _].
  destruct (0 <? _) eqn:Hn; [apply Z.ltb_lt in Hn; cbn [fst snd ret run]; by apply (duplicate _ t)|].
  destruct (Marshal _) as [payload|err] eqn:Hm; [|cbn [fst snd throw run]; by apply failed].
  rewrite bind_try.
  destruct (on_db_run (routed_row documentID sourceID payload) w1) as [Hl2 Hdb].
  unfold routed_row in Hl2, Hdb.
  destruct (on_db _ w1) as [done_ w2]. cbn [fst snd] in *.
  assert (later w w2) as Hl12 by (etransitivity; [exact Hl | exact Hl2]).
  destruct Hdb as [(e & -> & Hd2)|(t2 & n2 & d2 & Hcr & Hd2)].
  { cbn [fst snd throw run]. apply failed; [done..|]. by rewrite Hd2. }
  rewrite Hd1 in Hcr, Hd2. destruct done_ as [[]|err].
  2: { cbn [fst snd throw run]. eapply inserted; eauto; rewrite Hd2; [done | by left]. }
  rewrite bind_try. unfold SetNX.
  destruct (on_redis_run (fun t r => let (b, r') := rd_setnx t (dedupe_key env) "1"
    (DedupeTTL (opts s)) r in (Ok b, r')) w2) as (t3 & r3 & Ht3 & Hl3 & Ht3' & Hd3 & Hr3 & _).
  destruct (on_redis _ w2) as [marked w3]. cbn [fst snd ret run] in *.
  rewrite Hd2 in Hd3, Hr3. cbn [st_redis st_db] in *.
  eapply inserted; eauto; rewrite ?Hd3; [by etransitivity | done | cbn].
  destruct Hr3 as [-> | ->]; [by left | right].
  split; [done|]. exists t3. split; [unfold later in *; lia|].
  by destruct (rd_setnx t3 _ _ _ _).
Qed.
End outcomes.

(** ** Which errors a routing ends with *)

Section errors.
Context {R : Type} `{RedisLib R, UuidLib, PgLib, FmtOther}.
Variable (P : error -> Prop).
Hypothesis (P_wrap : forall f a e, P e -> P (Errorf f a [e])).

Lemma raises_ExecTx {A} (fn : Querier -> M db A) : raises P (fn New) -> raises P (ExecTx fn).
Proof.
  intros Hfn w Hw. rewrite run_ExecTx. unfold begin_tx, body_and_commit.
  pose proof (raises_remote P (fun (_ : Z) (d : db) => (@Ok unit tt, d)) ltac:(done) w Hw) as Hb.
  destruct (run (remote _) w) as [[a|e] w1]; cbn [fst snd] in *.
  2: { split; [apply Hb|]. intros ? [= <-]. apply P_wrap. naive_solver. }
  specialize (Hfn w1 (proj1 Hb)). destruct (run (fn New) w1) as [[x|e] w2]; cbn [fst snd w_sched] in *.
  - refine (raises_remote P (fun (_ : Z) (_ : db) => (@Ok unit tt, w_data w2)) ltac:(done)
      (World (w_data w1) (w_clock w2) (w_sched w2)) _). apply Hfn.
  - split; [apply Hfn|]. intros ? [= <-]. naive_solver.
Qed.

Lemma raises_Handle s env traceID :
  refusal s env = None ->
  (rdb_up s = false -> P (errors_New "dedupe redis unavailable")) ->
  (forall sid e, Marshal (routed_envelope env (routed_id sid)) = Err e -> P e) ->
  (forall docID sid payload t d e, Marshal (routed_envelope env (routed_id sid)) = Ok payload ->
     uuid_Parse (DocumentID env) = Some docID -> uuid_Parse (EventID env) = Some sid ->
     fst (CreateOutboxEvent (routed_row s env traceID docID sid payload) t d) = Err e -> P e) ->
  @raises P (store R) _ (Handle s env traceID).
Proof.
  unfold refusal, Handle. destruct (negb (KnownCaller _ _)); [done|].
  destruct (uuid_Parse (DocumentID env)) as [docID|] eqn:Hdoc; [|done].
  destruct (uuid_Parse (EventID env)) as [sid|] eqn:Hev; [|done].
  intros _ Hup Hmar Hcr. destruct (rdb_up s); cbn [negb]; [|by apply raises_throw, Hup].
  apply raises_try.
  - apply raises_zoom; [apply _|]. apply raises_remote. done.
  - intros n. destruct (0 <? n); [apply raises_ret|].
    destruct (Marshal _) as [payload|e] eqn:Hm; [|by eapply raises_throw, P_wrap, Hmar].
    apply raises_try.
    + apply raises_zoom; [apply _|]. apply raises_ExecTx, raises_bind; [|intros; apply raises_ret].
      apply raises_remote. intros t d e. by eapply Hcr.
    + intros _. apply raises_try; [|intros; apply raises_ret..].
      apply raises_zoom; [apply _|]. apply raises_remote. intros t r e. by destruct (rd_setnx _ _ _ _ _).
    + intros e He. by apply raises_throw, P_wrap.
  - intros e He. by apply raises_throw, P_wrap.
Qed.
End errors.

(** ** Theorems *)

(** Counting the keys of a map by a list that covers them. *)
Lemma size_le_list {A} (l : list UUID) (m : gmap UUID A) n :
  (forall k, is_Some (m !! k) -> k ∈ l) -> (length l <= n)%nat -> (size m <= n)%nat.
Proof.
  intros Hl Hn. etransitivity; [|exact Hn].
  rewrite <- length_map_to_list, <- (length_fmap fst).
  apply submseteq_length, NoDup_submseteq; [apply NoDup_fst_map_to_list|].
  intros k Hk. apply list_elem_of_fmap in Hk as ([k' x] & -> & Hin).
  apply elem_of_map_to_list in Hin. apply Hl. cbn. eauto.
Qed.

Section properties.
Context {R : Type} `{RedisLaws R, UuidLib, PgLib, FmtOther}.

(** The durability of the dedupe marks: a live mark, now or later, names a
    source event whose routed row is in the table. *)
Definition marked_durable (w : world (store R)) : Prop :=
  forall k t, w_clock w <= t -> rd_get t (dedupeKeyPrefix ++ k)%string (st_redis (w_data w)) <> None ->
  exists sid, uuid_Parse k = Some sid /\ is_Some (db_rows (st_db (w_data w)) !! routed_id sid).

Lemma outcome_durable s env traceID w r w' :
  marked_durable w -> outcome s env traceID w r w' -> marked_durable w'.
Proof.
  intros Hw Ho k t Ht. destruct Ho as [e|e w' _ Hl Hd|t0 w' _ _ Hl _ _ Hd|
      docID sid payload r t0 n d' w' _ _ Hl _ Hev _ Hcr Hdb Hredis].
  - by apply Hw.
  - rewrite Hd. apply Hw. unfold later in *. lia.
  - rewrite Hd. apply Hw. unfold later in *. lia.
  - destruct (insert_now _ _ _ _ _ Hcr) as (Hin & Hkeep & _). rewrite Hdb.
    assert (forall sid', is_Some (db_rows (st_db (w_data w)) !! sid') -> is_Some (db_rows d' !! sid'))
      as Hsub by (intros sid' [e He]; eauto).
    unfold later in Hl.
    assert (rd_get t (dedupeKeyPrefix ++ k)%string (st_redis (w_data w)) <> None ->
      exists sid0, uuid_Parse k = Some sid0 /\ is_Some (db_rows d' !! routed_id sid0)) as Hold.
    { intros Hg. destruct (Hw k t ltac:(lia) Hg) as (sid' & Hp & Hs). eauto. }
    destruct Hredis as [-> | (_ & t1 & Ht1 & ->)]; [done|].
    destruct (decide (k = EventID env)) as [->|Hne]; [eauto|].
    rewrite setnx_other; [done | lia |].
    unfold dedupe_key. intros Heq. apply Hne. by apply str_app_inj_l in Heq.
Qed.

(** What a run does to the table. *)
Definition routed_from (s : routerService) (env : Envelope) (traceID : string)
    (id : UUID) (e : OutboxEvent) : Prop :=
  exists docID sid payload stored t,
    refusal s env = None /\ uuid_Parse (DocumentID env) = Some docID /\
    uuid_Parse (EventID env) = Some sid /\ id = routed_id sid /\
    Marshal (routed_envelope env id) = Ok payload /\ pg_jsonb payload = Some stored /\
    e = MkOutboxEvent id "document" docID "document.routed" 1
          (RoutedTopic (RoutedTopicTemplate (opts s)) (CallerID env)) stored t None
          (text_if traceID) 0 None None None None.

Lemma outcome_rows s env traceID w r w' :
  outcome s env traceID w r w' ->
  (forall id e, db_rows (st_db (w_data w)) !! id = Some e ->
     db_rows (st_db (w_data w')) !! id = Some e) /\
  (forall id e, db_rows (st_db (w_data w')) !! id = Some e ->
     db_rows (st_db (w_data w)) !! id = Some e \/ routed_from s env traceID id e).
Proof.
  intros Ho. destruct Ho as [e|e w' _ _ Hd|t w' _ _ _ _ _ Hd|
      docID sid payload r t n d' w' Href _ _ Hdoc Hev Hm Hcr Hdb _]; rewrite ?Hd; auto.
  destruct (insert_now _ _ _ _ _ Hcr) as (_ & Hkeep & Hnew). rewrite Hdb. split; [done|].
  intros id e He. destruct (Hnew id e He) as [|(-> & stored & Hj & ->)]; [auto|right].
  exists docID, sid, payload, stored, t. by split_and!.
Qed.

(** C4: [Handle] refines its outcome specification: whatever fails on the way,
    a run either refuses the event with nothing touched, or fails with the
    stores as they were, or finds a live dedupe mark, or inserts exactly the
    event's row, and only then, and only if it succeeds, sets the mark. *)
Theorem Handle_refines s env traceID w :
  outcome s env traceID w (fst (Handle s env traceID w)) (snd (Handle s env traceID w)).
Proof. apply Handle_outcome. Qed.

(** At-least-once routing: when [Handle] reports success, so that the offset may
    be committed, the routed row of the event is in the table, however Redis and
    PostgreSQL failed on the way. *)
Lemma Handle_durable s env traceID w :
  marked_durable w -> fst (Handle s env traceID w) = Ok tt ->
  exists sid, uuid_Parse (EventID env) = Some sid /\
    is_Some (db_rows (st_db (w_data (snd (Handle s env traceID w)))) !! routed_id sid).
Proof.
  intros Hw Hr. pose proof (Handle_outcome s env traceID w) as Ho. rewrite Hr in Ho.
  remember (Ok tt : result unit) as r eqn:Her. clear Hr.
  destruct Ho as [e|e w' _ _ _|t w' _ _ _ Ht Hex Hd|
    docID sid payload r t n d' w' _ _ _ _ Hev _ Hcr Hdb _]; try done.
  - rewrite Hd. rewrite exists_get in Hex. apply (Hw (EventID env) t Ht).
    unfold dedupe_key in Hex. by destruct (rd_get _ _ _).
  - exists sid. split; [done|]. destruct (insert_now _ _ _ _ _ Hcr) as (Hin & _). by rewrite Hdb.
Qed.

(** C5: the Redis mark is written only after the row is durable: the invariant
    that every live mark has its row survives every run, failed ones
    included. *)
Theorem Handle_marks_after_row s env traceID w :
  marked_durable w -> marked_durable (snd (Handle s env traceID w)).
Proof. intros Hw. eapply outcome_durable, Handle_outcome. done. Qed.

(** A late duplicate adds nothing, whatever Redis holds by then: as long as the
    source event's row is in the table, a redelivery leaves the table as it is,
    its mark lost, expired or never written. *)
Theorem late_duplicate_adds_nothing s env traceID w sid e :
  uuid_Parse (EventID env) = Some sid -> db_rows (st_db (w_data w)) !! routed_id sid = Some e ->
  db_rows (st_db (w_data (snd (Handle s env traceID w)))) = db_rows (st_db (w_data w)).
Proof.
  intros Hsid He. destruct (outcome_rows _ _ _ _ _ _ (Handle_outcome s env traceID w)) as [Hk Hn].
  apply map_eq. intros id. apply option_eq. intros e'. split; [|apply Hk].
  intros He'. destruct (Hn id e' He') as [|(docID & sid' & _ & _ & _ & _ & _ & Hsid' & -> & _)]; [done|].
  assert (sid' = sid) as -> by congruence. pose proof (Hk _ _ He). congruence.
Qed.

(** A list of deliveries, one after the other; failed ones are redelivered
    later in the list. *)
Fixpoint deliver (s : routerService) (ds : list (Envelope * string)) (w : world (store R))
    : world (store R) :=
  match ds with
  | [] => w
  | (env, traceID) :: ds' => deliver s ds' (snd (Handle s env traceID w))
  end.

(** C9: at most one row per source event: over any sequence of deliveries and
    redeliveries, with any faults, marks lost or expired in between included,
    rows are only added, never altered; each added row is the routed row of a
    delivered event; and there are at most as many new rows as distinct source
    event ids.  The row's primary key sees to that, and not the mark. *)
Theorem deliver_one_row_per_event s ds w :
  let rows := db_rows (st_db (w_data w)) in
  let rows' := db_rows (st_db (w_data (deliver s ds w))) in
  let sids := list_to_set (omap (fun d => uuid_Parse (EventID (fst d))) ds) : gset UUID in
  rows ⊆ rows' /\
  (forall id e, rows' !! id = Some e -> rows !! id = None ->
     exists env traceID, (env, traceID) ∈ ds /\ routed_from s env traceID id e) /\
  (size (rows' ∖ rows) <= size sids)%nat.
Proof.
  cbn zeta.
  assert (forall w, (forall id e, db_rows (st_db (w_data w)) !! id = Some e ->
       db_rows (st_db (w_data (deliver s ds w))) !! id = Some e) /\
    (forall id e, db_rows (st_db (w_data (deliver s ds w))) !! id = Some e ->
       db_rows (st_db (w_data w)) !! id = Some e \/
       exists env traceID, (env, traceID) ∈ ds /\ routed_from s env traceID id e)) as Hds.
  { induction ds as [|[env traceID] ds IH]; intros w0; cbn [deliver]; [auto|].
    destruct (outcome_rows _ _ _ _ _ _ (Handle_outcome s env traceID w0)) as [Hk Hn].
    destruct (IH (snd (Handle s env traceID w0))) as [IHk IHn]. split; [auto|].
    intros id e He. destruct (IHn id e He) as [He1|(env' & tr' & Hin & Hf)].
    - destruct (Hn id e He1) as [|Hf]; [auto|right]. exists env, traceID. split; [left|done].
    - right. exists env', tr'. split; [by right|done]. }
  destruct (Hds w) as [Hkeep Hnew]. split_and!.
  - by apply map_subseteq_spec.
  - intros id e He Hno. destruct (Hnew id e He) as [He0|]; [congruence|done].
  - set (sids := (list_to_set _ : gset UUID)).
    apply (size_le_list (routed_id <$> elements sids)); [|by rewrite length_fmap].
    intros id [e [He Hno]%lookup_difference_Some].
    destruct (Hnew id e He) as [He0|(env & tr & Hin & docID & sid & _ & _ & _ & _ & _ & Hp & -> & _)];
      [congruence|].
    apply list_elem_of_fmap_2, elem_of_elements, elem_of_list_to_set, list_elem_of_omap.
    by exists (env, tr).
Qed.

Lemma refusal_spec s env :
  refusal s env = None <->
  KnownCaller (opts s) (CallerID env) = true /\
  is_Some (uuid_Parse (DocumentID env)) /\ is_Some (uuid_Parse (EventID env)).
Proof.
  unfold refusal. destruct (KnownCaller _ _); cbn; [|naive_solver].
  destruct (uuid_Parse (DocumentID env)), (uuid_Parse (EventID env)); split; try done;
    [eauto | |]; by intros (_ & [] & []).
Qed.

Definition not_permanent (e : error) : Prop := as_permanent e = None.

Lemma not_permanent_wrap f a e : not_permanent e -> not_permanent (Errorf f a [e]).
Proof. unfold not_permanent, as_permanent. intros He. cbn. by rewrite He. Qed.

(** A refused event touches nothing, and its error is permanent. *)
Lemma Handle_refused s env traceID e w :
  refusal s env = Some e -> Handle s env traceID w = (Err e, w) /\ exists p, as_permanent e = Some p.
Proof.
  unfold refusal, Handle.
  destruct (negb _), (uuid_Parse (DocumentID env)), (uuid_Parse (EventID env)); intros [= <-];
    (split; [done | by eexists]).
Qed.

Lemma refusal_not_canceled s env e : refusal s env = Some e -> is_canceled e = false.
Proof. unfold refusal. destruct (negb _), (uuid_Parse (DocumentID env)), (uuid_Parse (EventID env)); by intros [= <-]. Qed.

(** The other events never end in a permanent error. *)
Lemma Handle_not_permanent s env traceID e w :
  refusal s env = None -> Forall (fault_ok not_permanent) (w_sched w) ->
  fst (Handle s env traceID w) = Err e -> not_permanent e.
Proof.
  intros Href Hw.
  pose proof (raises_Handle not_permanent not_permanent_wrap s env traceID Href ltac:(done)) as Hraises.
  destruct Hraises with w as [_ Herr]; [| |done|by apply Herr].
  - intros sid e'. unfold Marshal. case_match; [done|]. by intros [= <-].
  - intros docID sid payload t d e' _ _ _. unfold CreateOutboxEvent.
    repeat case_match; cbn; try done; by intros [= <-].
Qed.

(** C20: the errors that dead-letter a record are exactly the contract violations
    the router can see, an unregistered caller or an id that is no UUID, and
    they are found before Redis or PostgreSQL is touched: everything else is
    left for redelivery. *)
Theorem Handle_permanent_iff s env traceID w :
  Forall (fault_ok not_permanent) (w_sched w) ->
  ((exists e p, fst (Handle s env traceID w) = Err e /\ as_permanent e = Some p) <->
   KnownCaller (opts s) (CallerID env) = false \/
   uuid_Parse (DocumentID env) = None \/ uuid_Parse (EventID env) = None) /\
  (refusal s env <> None -> snd (Handle s env traceID w) = w).
Proof.
  intros Hw. destruct (refusal s env) as [e|] eqn:Href.
  - destruct (Handle_refused s env traceID e w Href) as [-> [p Hp]].
    split; [split; [intros _ | eauto]|done].
    destruct (KnownCaller _ _) eqn:Hkc; [right|by left].
    revert Href. unfold refusal. rewrite Hkc. cbn. repeat case_match; auto; done.
  - split; [|done]. split; [|intros Hno; exfalso].
    + intros (e & p & He & Hp). apply (Handle_not_permanent _ _ _ _ _ Href Hw) in He.
      unfold not_permanent in He. congruence.
    + apply refusal_spec in Href as (Hk & [? Hd] & [? Hv]). destruct Hno as [|[|]]; congruence.
Qed.

(** C21: the routed payload carries the event through: it encodes, and what it
    decodes to has the new event id, the document.routed type and the
    gateway as its producer, every other string field as it was, and data
    and error as compact JSON of what they were. *)
Theorem routed_payload_spec `{!UuidLaws} value env sid :
  json_Unmarshal value = Some env -> uuid_Parse (EventID env) = Some sid ->
  exists text out,
    Marshal (routed_envelope env (routed_id sid)) = Ok text /\ Unmarshal text = Ok out /\
    EventID out = uuid_String (routed_id sid) /\ EventType out = "document.routed" /\
    Producer out = "ocr-gateway" /\
    (SchemaVersion out, OccurredAt out, DocumentID out, ExternalRef out, CallerID out,
      IdempotencyKey out)
    = (SchemaVersion env, OccurredAt env, DocumentID env, ExternalRef env, CallerID env,
       IdempotencyKey env) /\
    Data out = appendCompact (default "null" (Data env)) /\
    Error out = appendCompact (default "null" (Error env)).
Proof.
  intros Henv Hsid.
  assert (decoded_ok (routed_envelope env (routed_id sid))) as Hok.
  { eapply decoded_rewritten; [done|done|done|]. apply uuid_String_valid, uuid_NewSHA1_length. }
  destruct (Marshal_decoded _ Hok) as (text & d & er & Hm & Hd & He & Hu).
  exists text, (with_raw (routed_envelope env (routed_id sid)) d er).
  destruct env. cbn in *. by rewrite Hd, He.
Qed.

(** The values of an event the table takes. *)
Record storable (s : routerService) (env : Envelope) (traceID : string) : Prop := {
  st_types : pg_text AggregateType = true /\ pg_text EventTypeDocumentRouted = true;
  st_topic : pg_varchar 255 (RoutedTopic (RoutedTopicTemplate (opts s)) (CallerID env)) = true;
  st_trace : opt_text (text_if traceID) = true;
  st_payload sid text : uuid_Parse (EventID env) = Some sid ->
    Marshal (routed_envelope env (routed_id sid)) = Ok text -> is_Some (pg_jsonb text);
}.

(** Where nothing fails, the router does not fail an acceptable event whose
    values the table takes. *)
Lemma Handle_never_fails `{!UuidLaws} s value env traceID :
  json_Unmarshal value = Some env -> rdb_up s = true -> refusal s env = None -> storable s env traceID ->
  raises (fun _ => False) (Handle s env traceID).
Proof.
  intros Henv Hup Href [[Ht1 Ht2] Ht3 Ht4 Hj].
  assert (forall sid0, decoded_ok (routed_envelope env (routed_id sid0))) as Hok.
  { intros sid0. eapply decoded_rewritten; [done|done|done|].
    apply uuid_String_valid, uuid_NewSHA1_length. }
  apply raises_Handle; [done | done | congruence | |].
  - intros sid0 e0 Hm. destruct (Marshal_decoded _ (Hok sid0)) as (? & ? & ? & Hm' & _). congruence.
  - intros docID sid payload t d e0 Hm _ Hev.
    unfold CreateOutboxEvent, routed_row, routed_params. cbn [p_AggregateType p_EventType p_Topic
      p_TraceID p_Payload p_ID]. rewrite Ht1, Ht2, Ht3, Ht4. cbn [negb andb].
    destruct (Hj sid _ Hev Hm) as [j ->]. by case_match.
Qed.
End properties.

(** ** Concrete runs *)

#[local] Existing Instance demo_uuid.
#[local] Existing Instance demo_pg.
#[local] Existing Instance demo_fmt_other.

Definition demo_router : routerService :=
  MkRouter true (MkOptions (24 * Hour) "ocr.document.routed.%s.v1" (String.eqb "expense")).

(** The commit succeeds and the mark is lost. *)
Definition demo_world : world (store keyspace) :=
  World (MkStore ∅ (MkDb ∅ ∅)) 1000
    [Tick 5 NoFault; Tick 3 NoFault; Tick 2 NoFault; Tick 2 NoFault; Tick 4 (FailBefore (External "i/o timeout"))].

(** The commit goes through and its acknowledgement is lost. *)
Definition demo_world_lost : world (store keyspace) :=
  World (MkStore ∅ (MkDb ∅ ∅)) 1000
    [Tick 5 NoFault; Tick 3 NoFault; Tick 2 NoFault; Tick 2 (FailAfter (External "conn closed"))].

Definition demo_sid : UUID := default "" (uuid_Parse (EventID demo_env)).
Definition demo_docID : UUID := default "" (uuid_Parse (DocumentID demo_env)).

Lemma demo_marked sch : marked_durable (World (MkStore (∅ : keyspace) (MkDb ∅ ∅)) 1000 sch).
Proof. intros k t _ Hg. cbn in Hg. unfold ks_get in Hg. by rewrite lookup_empty in Hg. Qed.

Lemma demo_durable :
  exists sid, uuid_Parse (EventID demo_env) = Some sid /\
    is_Some (db_rows (st_db (w_data (snd (Handle demo_router demo_env "trace" demo_world)))) !! routed_id sid).
Proof.
  apply (Handle_durable demo_router demo_env "trace" demo_world).
  - apply demo_marked.
  - vm_compute. reflexivity.
Qed.

Lemma Handle_marks_after_row_witness :
  marked_durable (snd (Handle demo_router demo_env "trace" demo_world_lost)).
Proof. apply Handle_marks_after_row, demo_marked. Defined.

Lemma Handle_permanent_iff_witness :
  (exists e p, fst (Handle demo_router (set_CallerID demo_env "nobody") "" demo_world) = Err e /\
     as_permanent e = Some p) /\
  snd (Handle demo_router (set_CallerID demo_env "nobody") "" demo_world) = demo_world.
Proof.
  destruct (Handle_permanent_iff demo_router (set_CallerID demo_env "nobody") "" demo_world) as [Hiff Hw].
  - repeat constructor.
  - split; [apply Hiff; left; vm_compute; reflexivity | apply Hw; vm_compute; discriminate].
Defined.

Lemma demo_sid_parse : uuid_Parse (EventID demo_env) = Some demo_sid.
Proof. vm_compute. reflexivity. Qed.

Lemma demo_docID_parse : uuid_Parse (DocumentID demo_env) = Some demo_docID.
Proof. vm_compute. reflexivity. Qed.

Lemma routed_payload_spec_witness :
  exists text out,
    Marshal (routed_envelope demo_env (routed_id demo_sid)) = Ok text /\ Unmarshal text = Ok out /\
    Producer out = "ocr-gateway" /\ Data out = Some (jtext "{'total':12.5}").
Proof.
  destruct (routed_payload_spec demo_value demo_env demo_sid demo_decodes demo_sid_parse)
    as (text & out & Hm & Hu & _ & _ & Hp & _ & Hd & _).
  exists text, out. split; [exact Hm|]. split; [exact Hu|]. split; [exact Hp|].
  rewrite Hd. vm_compute. reflexivity.
Defined.

Definition demo_payload : string :=
  match Marshal (routed_envelope demo_env (routed_id demo_sid)) with Ok t => t | Err _ => EmptyString end.

Lemma demo_payload_taken text :
  Marshal (routed_envelope demo_env (routed_id demo_sid)) = Ok text -> is_Some (@pg_jsonb demo_pg text).
Proof.
  assert (Marshal (routed_envelope demo_env (routed_id demo_sid)) = Ok demo_payload) as ->
    by (vm_compute; reflexivity).
  intros Ht. assert (text = demo_payload) as -> by congruence.
  assert (pg_jsonb demo_payload = Some demo_payload) as -> by (vm_compute; reflexivity). eauto.
Qed.

Lemma demo_storable : storable demo_router demo_env "".
Proof.
  split; [by vm_compute | vm_compute; reflexivity | vm_compute; reflexivity |].
  intros sid text Hsid. rewrite demo_sid_parse in Hsid. injection Hsid as <-. apply demo_payload_taken.
Qed.
