(* ===== verification/MigrationsFacts.v ===== *)
(** * Theorems on the schema

    The statements keep every row within the schema, from the table the
    migrations create on; an insertion is the one SQL defines, defaults
    included; [uuidv7] makes version 7 identifiers in the order of time; and the
    migrations undo each other. *)
From S2P Require Import Prelude Utf8 Json GoTime Uuid Repository RepositoryFacts Redis Constant Envelope EnvelopeFacts Router RouterFacts Migrations.
#[local] Open Scope Z_scope.

(** ** uuidv7 *)

Lemma be_bytes_length n z : String.length (be_bytes n z) = n.
Proof. induction n as [|n IH]; cbn; congruence. Qed.

Lemma set_byte_length s i v : String.length (set_byte s i v) = String.length s.
Proof. revert i. induction s as [|c s IH]; intros [|i]; cbn; auto. Qed.

Lemma set_byte_app p s i v :
  set_byte (p ++ s) (String.length p + i) v = (p ++ set_byte s i v)%string.
Proof. induction p as [|c p IH]; cbn; [done | by rewrite IH]. Qed.

Lemma get_byte_app p s i : get_byte (p ++ s) (String.length p + i) = get_byte s i.
Proof. unfold get_byte. induction p as [|c p IH]; cbn; done. Qed.

Lemma get_set_byte s i v : (i < String.length s)%nat -> 0 <= v < 256 -> get_byte (set_byte s i v) i = v.
Proof.
  intros Hi Hv. unfold get_byte. revert i Hi. induction s as [|c s IH]; intros [|i] Hi; cbn in *; try lia.
  - by apply byte_val_of.
  - apply IH. lia.
Qed.

Lemma get_set_byte_ne s i j v : i <> j -> get_byte (set_byte s i v) j = get_byte s j.
Proof.
  unfold get_byte. revert i j. induction s as [|c s IH]; intros [|i] [|j] Hij; cbn; try done. apply IH. congruence.
Qed.

(** The number of a string is that of its parts. *)
Lemma be_number_acc acc s : be_number acc s = acc * 256 ^ Z.of_nat (String.length s) + be_number 0 s.
Proof.
  revert acc. induction s as [|c s IH]; intros acc; cbn [be_number String.length]; [lia|].
  rewrite IH, (IH (0 * 256 + byte_val c)), Nat2Z.inj_succ, Z.pow_succ_r by lia. lia.
Qed.

Lemma be_number_app acc p s : be_number acc (p ++ s) = be_number (be_number acc p) s.
Proof. revert acc. induction p as [|c p IH]; intros acc; cbn; [done | apply IH]. Qed.

Lemma be_number_range s : 0 <= be_number 0 s < 256 ^ Z.of_nat (String.length s).
Proof.
  induction s as [|c s IH]; cbn [be_number String.length]; [lia|].
  rewrite be_number_acc, Nat2Z.inj_succ, Z.pow_succ_r by lia. pose proof (byte_val_range c). nia.
Qed.

Lemma be_bytes_number n z : 0 <= z < 256 ^ Z.of_nat n -> be_number 0 (be_bytes n z) = z.
Proof.
  enough (forall acc, be_number acc (be_bytes n z) = acc * 256 ^ Z.of_nat n + z mod 256 ^ Z.of_nat n) as Hn
    by (intros Hz; rewrite Hn, Z.mod_small by done; lia).
  induction n as [|n IH]; intros acc; cbn [be_bytes be_number]; [rewrite Z.mod_1_r; lia|].
  rewrite IH. assert (byte_val (byte_of (Z.shiftr z (8 * Z.of_nat n))) = z / 256 ^ Z.of_nat n mod 256) as ->.
  { unfold byte_of. rewrite <- (byte_val_of ((z / 256 ^ Z.of_nat n) mod 256)) by (apply Z.mod_pos_bound; lia).
    unfold byte_of. rewrite Z.mod_mod by lia. rewrite Z.shiftr_div_pow2, Z.pow_mul_r by lia. done. }
  rewrite Nat2Z.inj_succ, Z.pow_succ_r by lia.
  rewrite (Z.mul_comm 256), Z.rem_mul_r by (try apply Z.pow_nonzero; lia). lia.
Qed.

(** The tag takes the high bits, the byte keeps the low ones. *)
Lemma tag_byte_sum s i bits k : 0 <= k -> tag_byte s i bits k = bits * 2 ^ k + get_byte s i mod 2 ^ k.
Proof.
  intros Hk. unfold tag_byte. rewrite Z.land_ones, <- Z.shiftl_mul_pow2 by done.
  rewrite <- Z.add_lor_land. enough (Z.land (Z.shiftl bits k) (get_byte s i mod 2 ^ k) = 0) as -> by lia.
  apply Z.bits_inj'. intros n Hn. rewrite Z.land_spec, Z.bits_0. destruct (Z.ltb_spec n k).
  - by rewrite Z.shiftl_spec_low.
  - by rewrite Z.mod_pow2_bits_high, andb_false_r by lia.
Qed.

Lemma tag_byte_range s i bits k : 0 <= k <= 8 -> 0 <= bits < 2 ^ (8 - k) -> 0 <= tag_byte s i bits k < 256.
Proof.
  intros Hk Hb. rewrite tag_byte_sum by lia.
  pose proof (Z.mod_pos_bound (get_byte s i) (2 ^ k) ltac:(apply Z.pow_pos_nonneg; lia)).
  assert (2 ^ (8 - k) * 2 ^ k = 256) by (rewrite <- Z.pow_add_r by lia; by replace (8 - k + k) with 8 by lia). nia.
Qed.

Lemma substring_length s n : (n <= String.length s)%nat -> String.length (String.substring 0 n s) = n.
Proof. revert n. induction s as [|c s IH]; intros [|n] Hn; cbn in *; try lia. by rewrite IH by lia. Qed.

Lemma substring_tail_length s m n : (m + n <= String.length s)%nat -> String.length (String.substring m n s) = n.
Proof.
  revert m. induction s as [|c s IH]; intros [|m] Hn; cbn in Hn; [by apply substring_length|lia|by apply substring_length|].
  cbn. apply IH. lia.
Qed.

(** The first six bytes are the time. *)
Lemma uuidv7_parts us random : String.length random = 16%nat ->
  exists tail, uuidv7 us random = (be_bytes 6 (epoch_ms us) ++ tail)%string /\ String.length tail = 10%nat /\
    get_byte tail 0 / 16 = 7 /\ get_byte tail 2 / 64 = 2.
Proof.
  intros Hr. unfold uuidv7. set (p := be_bytes 6 (epoch_ms us)). set (r := String.substring 6 10 random).
  assert (String.length r = 10%nat) as Hlen by (apply substring_tail_length; by rewrite Hr).
  pose proof (set_byte_app p) as Hset. pose proof (get_byte_app p) as Hget.
  assert (String.length p = 6%nat) as Hp by apply be_bytes_length. rewrite Hp in Hset, Hget.
  pose proof (tag_byte_range (p ++ r) 6 7 4 ltac:(lia) ltac:(lia)) as Hv.
  set (v := tag_byte _ 6 7 4) in *. specialize (Hset r 0%nat v) as Hset0. cbn [Nat.add] in Hset0. rewrite Hset0.
  pose proof (tag_byte_range (p ++ set_byte r 0 v) 8 2 6 ltac:(lia) ltac:(lia)) as Hx.
  set (x := tag_byte _ 8 2 6) in *. exists (set_byte (set_byte r 0 v) 2 x).
  split; [exact (Hset (set_byte r 0 v) 2%nat x)|]. rewrite !set_byte_length. split; [done|]. split.
  - rewrite get_set_byte_ne, get_set_byte by (done || lia). unfold v. rewrite tag_byte_sum by done. dlia.
  - rewrite get_set_byte by (rewrite ?set_byte_length; lia). unfold x. rewrite tag_byte_sum by done. dlia.
Qed.

(** [uuidv7] makes identifiers of version 7, of the RFC's variant, that sort by
    the millisecond they were made in. *)
Theorem uuidv7_ordered us us' random random' :
  String.length random = 16%nat -> String.length random' = 16%nat ->
  0 <= epoch_ms us -> epoch_ms us < epoch_ms us' -> epoch_ms us' < 2 ^ 48 ->
  String.length (uuidv7 us random) = 16%nat /\
  get_byte (uuidv7 us random) 6 / 16 = 7 /\ get_byte (uuidv7 us random) 8 / 64 = 2 /\
  uuid_number (uuidv7 us random) < uuid_number (uuidv7 us' random').
Proof.
  intros Hr Hr' H0 Hlt H48.
  destruct (uuidv7_parts us random Hr) as (t & -> & Ht & Hv & Hx).
  destruct (uuidv7_parts us' random' Hr') as (t' & -> & Ht' & _ & _).
  pose proof (get_byte_app (be_bytes 6 (epoch_ms us)) t) as Hget. rewrite be_bytes_length in Hget.
  split; [by rewrite str_length_app, be_bytes_length, Ht|].
  split; [by rewrite (Hget 0%nat : get_byte _ 6 = _)|]. split; [by rewrite (Hget 2%nat : get_byte _ 8 = _)|].
  change (2 ^ 48) with (256 ^ Z.of_nat 6) in H48.
  unfold uuid_number. rewrite !be_number_app, !be_bytes_number by lia.
  rewrite (be_number_acc (epoch_ms us)), (be_number_acc (epoch_ms us')), Ht, Ht'.
  pose proof (be_number_range t) as Hn. pose proof (be_number_range t') as Hn'. rewrite Ht in Hn. rewrite Ht' in Hn'. nia.
Qed.

(** ** The schema *)

Section schema.
Context `{PgLib}.

(** The arguments Go's types allow: sixteen bytes to a UUID, and INTEGERs of
    thirty-two bits. *)
Definition typed (s : statement) : Prop :=
  match s with
  | SCreate arg =>
      String.length (p_ID arg) = 16%nat /\ String.length (p_AggregateID arg) = 16%nat /\
      min_int32 <= p_EventVersion arg <= max_int32
  | _ => True
  end.

(** What the schema asks of a row, column by column. *)
Lemma fits_spec e :
  fits e <->
  (String.length (ID e) = 16%nat /\ String.length (AggregateID e) = 16%nat) /\
  (pg_text (Repository.AggregateType e) = true /\ pg_text (Repository.EventType e) = true /\
   pg_varchar 255 (Topic e) = true) /\
  min_int32 <= Repository.EventVersion e <= max_int32 /\ min_int32 <= AttemptCount e <= max_int32 /\
  (exists document, pg_jsonb document = Some (Payload e)) /\
  opt_text (TraceID e) = true /\ opt_text (LockedBy e) = true /\ opt_text (LastError e) = true.
Proof.
  unfold fits, outbox_events, row_values. rewrite !Forall2_cons_iff.
  assert (forall n (o : option string), admits (MkColumn n SqlText false None) (VText <$> o) <-> opt_text o = true)
    as Htext by (by intros n [s|]).
  assert (forall n (o : option Z), admits (MkColumn n SqlTimestamptz false None) (VTimestamptz <$> o) <-> True)
    as Htime by (by intros n [t|]).
  assert (Forall2 admits [] [] <-> True) as Hnil by (by split; [|constructor]).
  rewrite !Htext, !Htime, Hnil. cbn. tauto.
Qed.

(** A row of a statement on a row. *)
Lemma row_step_fits now e s o :
  row_wf e -> fits e -> row_step now e s o ->
  (forall limit by_, s = SClaim limit by_ -> opt_text by_ = true) ->
  (forall arg, s = SMarkFailed arg -> opt_text (f_LastError arg) = true) ->
  forall e', o = Some e' -> fits e'.
Proof.
  intros [_ Ha] He Hs Hclaim Hfail e' Ho. destruct Hs as [s|limit by_ _|_|arg _ _ Hm|_|t _ _]; injection Ho as <- || done;
    try exact He; rewrite fits_spec in *; [specialize (Hclaim _ _ eq_refl) | | specialize (Hfail _ eq_refl) |];
    destruct e; cbn in *; unfold min_int32, max_int32 in *; intuition lia.
Qed.

Lemma exec_unless s now d :
  (forall limit by_, s = SClaim limit by_ -> opt_text by_ = true) /\
  (forall arg, s = SMarkFailed arg -> opt_text (f_LastError arg) = true) \/ exec s now d = d.
Proof.
  destruct s as [arg|limit by_|id|arg|id|]; cbn [exec]; try (left; split; by intros).
  - destruct (opt_text by_) eqn:Hby; [left; split; [by intros ? ? [= <- <-] | by intros] | right].
    unfold ClaimPendingOutboxEvents. rewrite Hby. by destruct (limit <? 0).
  - destruct (opt_text (f_LastError arg)) eqn:Herr; [left; split; [by intros | by intros ? [= <-]] | right].
    unfold MarkOutboxEventFailed. by rewrite Herr.
Qed.

Lemma created_fits arg payload now d :
  typed (SCreate arg) -> db_rows d !! p_ID arg = None ->
  db_rows (exec (SCreate arg) now d) !! p_ID arg = Some (new_row arg payload now) ->
  pg_jsonb (p_Payload arg) = Some payload -> fits (new_row arg payload now).
Proof.
  intros (Hid & Hagg & Hver) Hnone Hrow Hj. apply fits_spec. cbn [exec] in Hrow. unfold CreateOutboxEvent in Hrow.
  destruct (negb _) eqn:Htext; [cbn in Hrow; congruence|].
  apply negb_false_iff, andb_true_iff in Htext as [[[? ?]%andb_true_iff ?]%andb_true_iff ?].
  unfold min_int32, max_int32 in *. cbn. split_and!; try done; try lia. by exists (p_Payload arg).
Qed.

Lemma exec_conforms s now d : typed s -> conforms d -> conforms (exec s now d).
Proof.
  intros Ht [Hwf Hfits]. split; [by apply exec_wf|]. intros id e' He'.
  destruct (exec_unless s now d) as [[Hclaim Hfail]|Hsame]; [|rewrite Hsame in He'; by apply (Hfits id)].
  destruct (db_rows d !! id) as [e|] eqn:He.
  - pose proof (exec_row s now d id e Hwf He) as Hs. destruct (Hwf _ _ He) as [_ Hrow].
    by eapply row_step_fits; [exact Hrow | exact (Hfits _ _ He) | exact Hs | ..].
  - destruct (exec_new _ _ _ _ _ He He') as (arg & payload & -> & <- & Hj & ->). by eapply created_fits.
Qed.

Lemma replay_conforms h d : Forall (fun sn => typed (fst sn)) h -> conforms d -> conforms (replay h d).
Proof.
  intros Hh Hd. induction h as [|[s now] h IH] using rev_ind; [done|].
  apply Forall_app in Hh as [Hh Hs]. apply list.Forall_cons in Hs as [Hs _].
  rewrite replay_snoc. by apply exec_conforms, IH.
Qed.

(** The INSERT of [CreateOutboxEvent] is the one SQL defines: the columns it
    names, and the migration's defaults in the others. *)
Theorem insert_is_new_row arg payload now generated :
  insert_values (create_columns arg payload) now generated = row_values (new_row arg payload now).
Proof. reflexivity. Qed.
End schema.

(** ** The router and the schema *)

Section router.
Context {R : Type} `{RedisLib R, UuidLaws, PgLib, FmtOther}.
Implicit Types (w : world (store R)).

#[local] Abbreviation table w := (st_db (w_data w)).

(** The row of an event is typed. *)
Lemma routed_typed s env traceID docID sid payload :
  uuid_Parse (DocumentID env) = Some docID ->
  typed (SCreate (routed_row s env traceID docID sid payload)).
Proof.
  intros Hdoc. split_and!; [apply uuid_NewSHA1_length | exact (uuid_Parse_length _ _ Hdoc) | done..].
Qed.

Lemma Handle_conforms s env traceID w :
  conforms (table w) -> conforms (table (snd (Handle s env traceID w))).
Proof.
  intros Hw. destruct (Handle_outcome s env traceID w) as [e _|e w' _ _ Hd|t w' _ _ _ _ _ Hd|
    docID sid payload r t n d' w' _ _ _ Hdoc _ _ Hcr Hd _]; [done | by rewrite Hd..|].
  rewrite Hd. change d' with (snd (Ok n, d')). rewrite <- Hcr.
  apply (exec_conforms (SCreate (routed_row s env traceID docID sid payload)) t); [by apply routed_typed | exact Hw].
Qed.

Lemma deliver_conforms s ds w : conforms (table w) -> conforms (table (deliver s ds w)).
Proof.
  revert w. induction ds as [|[env traceID] ds IH]; intros w Hw; [done|]. by apply IH, Handle_conforms.
Qed.
End router.

(** ** The migrations *)

(** From nothing, the migrations succeed on every version of the server, define
    [uuidv7] where the server has none, and create an empty table. *)
Lemma migrate_fresh version : exists c,
  migrate_up (FS version) (MkCatalog None None) = Ok c /\ cat_table c = Some (MkDb ∅ ∅) /\
  cat_uuidv7 c = if 180000 <=? version then None else Some uuidv7.
Proof.
  unfold FS, migrate_up, extensions, create_outbox_events. cbn [m_Up cat_table cat_uuidv7].
  by destruct (180000 <=? version); eexists.
Qed.

(** And what is taken down again leaves nothing. *)
Theorem migrations_undo version c :
  migrate_up (FS version) (MkCatalog None None) = Ok c -> migrate_down (FS version) c = Ok (MkCatalog None None).
Proof.
  destruct (migrate_fresh version) as (c' & -> & _ & Hf). intros [= <-].
  unfold FS, migrate_down, extensions, create_outbox_events. cbn [m_Down cat_table cat_uuidv7]. rewrite Hf.
  destruct (Z.leb_spec 180000 version), (Z.ltb_spec version 180000); (done || lia).
Qed.

Lemma empty_conforms `{PgLib} : conforms (MkDb ∅ ∅).
Proof. split; [apply empty_wf|]. intros id e He. cbn in He. by rewrite lookup_empty in He. Qed.

(** C25: the table is of the schema, from the migrations on: whatever statements
    run against it with arguments of Go's types, and whatever events are then
    delivered to the router, however its calls fail, every row is stored under its
    primary key and holds in every column a value of the column's type within
    its bounds, NULL only where the migration allows it; a published row holds
    no lock and no error. *)
Theorem schema_invariant {R} `{RedisLib R, UuidLaws, PgLib, FmtOther} version c h s ds (w : world (store R)) :
  migrate_up (FS version) (MkCatalog None None) = Ok c -> Forall (fun sn => typed (fst sn)) h ->
  exists d, cat_table c = Some d /\
    (st_db (w_data w) = replay h d -> conforms (st_db (w_data (deliver s ds w)))).
Proof.
  destruct (migrate_fresh version) as (c' & -> & Hd & _). intros [= <-] Hh. exists (MkDb ∅ ∅).
  split; [done|]. intros Hw. apply deliver_conforms. rewrite Hw. apply replay_conforms, empty_conforms. exact Hh.
Qed.

(** ** Concrete runs *)

#[local] Existing Instance demo_uuid.
#[local] Existing Instance demo_pg.
#[local] Existing Instance demo_fmt_other.

Definition demo_random : UUID := "0123456789abcdef".

(** 2024-02-03 04:05:06.789. *)
Example demo_uuidv7 :
  uuid_String (uuidv7 1706933106789000 demo_random) = "018d6d24-3865-7637-b839-616263646566".
Proof. vm_compute. reflexivity. Qed.

Definition demo_history : history :=
  [(SCreate (demo_create "aaaaaaaaaaaaaaa1"), 10); (SClaim 10 (Some "outbox-worker-1"), 20);
   (SMarkFailed (MkFailedParams "aaaaaaaaaaaaaaa1" (Some 30) (Some "refused")), 25)].

(** An event delivered to the table of the history, on a server of version 17:
    both rows are of the schema. *)
Lemma schema_invariant_witness :
  exists d, size (db_rows d) = 2%nat /\ conforms d.
Proof.
  destruct (schema_invariant (R := keyspace) 170004 (MkCatalog (Some uuidv7) (Some (MkDb ∅ ∅))) demo_history demo_router
    [(demo_env, "")] (World (MkStore ∅ (replay demo_history (MkDb ∅ ∅))) 1000 [])) as (d & Hd & Hall).
  - reflexivity.
  - repeat constructor; cbn; unfold min_int32, max_int32; lia.
  - injection Hd as <-. eexists. split; [|apply Hall; reflexivity]. vm_compute. reflexivity.
Defined.
