(* ===== verification/Kafka.v ===== *)
(** * Kafka as the gateway uses it

    The broker and the platform's producer are not part of the repository.
    [KafkaLib] is the producer over an abstract cluster, with the log of the
    records the cluster holds; [KafkaLaws] says that an acknowledged publish
    appended its record and that a failed one appended it or did not. *)
From S2P Require Import Prelude.

Record RecordHeader := MkHeader { h_Key : string; h_Value : string }.

(** [kafka.Record], as produced and as consumed. *)
Record KRecord := MkRecord {
  r_Topic : string;
  r_Key : string;
  r_Value : string;
  r_Headers : list RecordHeader;
}.

#[export] Instance RecordHeader_eq_dec : EqDecision RecordHeader.
Proof. solve_decision. Defined.
#[export] Instance KRecord_eq_dec : EqDecision KRecord.
Proof. solve_decision. Defined.

Class KafkaLib (K : Type) := {
  kf_log : K -> list KRecord;
  kf_publish : KRecord -> Z -> K -> result unit * K;
}.

Class KafkaLaws (K : Type) `{KafkaLib K} := {
  publish_acked r t k :
    fst (kf_publish r t k) = Ok tt -> kf_log (snd (kf_publish r t k)) = kf_log k ++ [r];
  publish_log r t k :
    kf_log (snd (kf_publish r t k)) = kf_log k \/ kf_log (snd (kf_publish r t k)) = kf_log k ++ [r];
}.

(** [recordHeader]'s search: the first header of that name. *)
Fixpoint first_header (hs : list RecordHeader) (name : string) : option string :=
  match hs with
  | [] => None
  | h :: hs' => if String.eqb (h_Key h) name then Some (h_Value h) else first_header hs' name
  end.

(** A concrete cluster: the log itself. *)
#[export] Instance log_kafka : KafkaLib (list KRecord) := {
  kf_log := fun k => k;
  kf_publish := fun r _ k => (Ok tt, k ++ [r]);
}.

#[export] Instance log_kafka_laws : KafkaLaws (list KRecord).
Proof. split; cbn; auto. Qed.
