(* ===== verification/Outbox.v ===== *)
(** * The outbox publisher: [internal/service/outbox]

    [PublishPending] claims a batch and hands each event to [publishEvent],
    which publishes it and records the outcome in its row. *)
From S2P Require Import Prelude Utf8 Json GoTime Uuid Repository Kafka Constant Envelope.

Definition defaultBatchSize : Z := 100.
Definition defaultRetryDelay : Z := 5 * Second.

(** What the publisher works on. *)
Record pubstore (K : Type) := MkPub { ps_db : db; ps_kafka : K }.
Arguments MkPub {K} _ _.
Arguments ps_db {K} _.
Arguments ps_kafka {K} _.

#[export] Instance ps_db_lens {K} : Lens ps_db (fun d (s : pubstore K) => MkPub d (ps_kafka s)).
Proof. solve_lens. Qed.
#[export] Instance ps_kafka_lens {K} : Lens ps_kafka (fun (k : K) s => MkPub (ps_db s) k).
Proof. solve_lens. Qed.

Definition in_db {K A} : M db A -> M (pubstore K) A :=
  zoom ps_db (fun d s => MkPub d (ps_kafka s)).
Definition in_kafka {K A} : M K A -> M (pubstore K) A :=
  zoom ps_kafka (fun k s => MkPub (ps_db s) k).

(** [time.Duration(min(event.AttemptCount+1, 6)) * defaultRetryDelay]: an
    [int32] sum and an [int64] product. *)
Definition backoff (attemptCount : Z) : Z :=
  int64 (Z.min (int32 (attemptCount + 1)) 6 * defaultRetryDelay).

Section outbox.
Context {K : Type} `{KafkaLib K, UuidLib, PgLib, ErrorText}.
(** the headers the tracing propagator injects while an event is published *)
Variable injected : UUID -> list RecordHeader.

(** The message key: the caller's external_ref, read from the payload. *)
Definition message_key (event : OutboxEvent) : string :=
  match Unmarshal (Payload event) with
  | Ok env => if nonempty (ExternalRef env) then ExternalRef env
              else uuid_String (AggregateID event)
  | Err _ => uuid_String (AggregateID event)
  end.

Definition event_headers (event : OutboxEvent) : list RecordHeader :=
  injected (ID event) ++
  [MkHeader HeaderEventID (uuid_String (ID event));
   MkHeader HeaderEventType (Repository.EventType event);
   MkHeader HeaderEventVersion (format_int (Repository.EventVersion event));
   MkHeader HeaderSource SourceService;
   MkHeader HeaderAggType (Repository.AggregateType event);
   MkHeader HeaderAggID (uuid_String (AggregateID event))] ++
  match TraceID event with Some t => [MkHeader HeaderTraceID t] | None => [] end.

Definition event_record (event : OutboxEvent) : KRecord :=
  MkRecord (Topic event) (message_key event) (Payload event) (event_headers event).

Definition publishEvent (event : OutboxEvent) : M (pubstore K) unit :=
  let! published := try (in_kafka (remote (kf_publish (event_record event)))) in
  match published with
  | Ok _ =>
      let! marked := try (in_db (q_MarkOutboxEventPublished (repo_Queries NewStore) (ID event))) in
      match marked with
      | Err err => throw (Errorf "mark outbox published: %w" [] [err])
      | Ok _ => ret tt
      end
  | Err err =>
      let! t := now in
      do! try (in_db (q_MarkOutboxEventFailed (repo_Queries NewStore)
            (MkFailedParams (ID event) (Some (t + backoff (AttemptCount event)))
               (Some (error_text err))))) in
      throw (Errorf "publish outbox event: %w" [] [err])
  end.

(** The loop over the claimed events; the outcome of each is discarded. *)
Fixpoint publish_all (events : list OutboxEvent) : M (pubstore K) unit :=
  match events with
  | [] => ret tt
  | event :: events' =>
      do! try (publishEvent event) in
      publish_all events'
  end.

Definition claim_limit (batchSize : Z) : Z :=
  int32 (if batchSize <=? 0 then defaultBatchSize else batchSize).

Definition PublishPending (workerID : string) (batchSize : Z) : M (pubstore K) unit :=
  let! events := try (in_db (q_ClaimPendingOutboxEvents (repo_Queries NewStore) (claim_limit batchSize) (Some workerID))) in
  match events with
  | Err err => throw (Errorf "claim pending outbox events: %w" [] [err])
  | Ok events => publish_all events
  end.

(** [OutboxService], and its implementation over the store and the producer. *)
Record OutboxService := MkOutboxService { svc_PublishPending : string -> Z -> M (pubstore K) unit }.
Definition NewOutboxService : OutboxService := MkOutboxService PublishPending.
End outbox.
