(* ===== verification/OutboxFacts.v ===== *)
(** * Theorems on the outbox publisher

    A row is marked published only after the cluster acknowledged its record,
    the records of a batch leave in claim order, no row is lost or altered, a
    batch without faults publishes everything it claimed, and the retry delay
    stays between five and thirty seconds. *)
From S2P Require Import Prelude Utf8 Json GoTime Uuid Repository RepositoryFacts Kafka Constant Envelope EnvelopeFacts Outbox.

(** The part of an event its record is made of. *)
Section records.
Context `{UuidLib}.
Variable injected : UUID -> list RecordHeader.

Lemma event_record_fixed e e' :
  fixed_part e = fixed_part e' -> event_record injected e = event_record injected e'.
Proof.
  unfold fixed_part. intros [= H1 H2 H3 H4 H5 H6 H7 H8 H9].
  unfold event_record, event_headers, message_key. by rewrite H1, H2, H3, H4, H5, H6, H7, H9.
Qed.
End records.

Section facts.
Context {K : Type} `{KafkaLaws K, UuidLib, PgLib, ErrorText}.
Variable injected : UUID -> list RecordHeader.

#[local] Abbreviation record_of := (event_record injected).

(** ** The outcomes of [publishEvent] *)

Inductive attempt (event : OutboxEvent) (w : world (pubstore K))
    : result unit -> world (pubstore K) -> Prop :=
  | acked r w' :
      kf_log (ps_kafka (w_data w')) = kf_log (ps_kafka (w_data w)) ++ [record_of event] ->
      (r <> Ok tt /\ ps_db (w_data w') = ps_db (w_data w) \/
       exists t, w_clock w <= t <= w_clock w' /\
         ps_db (w_data w') = exec (SMarkPublished (ID event)) t (ps_db (w_data w))) ->
      attempt event w r w'
  | unacked err t t' w' :
      kf_log (ps_kafka (w_data w')) = kf_log (ps_kafka (w_data w)) \/
      kf_log (ps_kafka (w_data w')) = kf_log (ps_kafka (w_data w)) ++ [record_of event] ->
      w_clock w <= t <= t' /\ t' <= w_clock w' ->
      (ps_db (w_data w') = ps_db (w_data w) \/
       ps_db (w_data w') =
         exec (SMarkFailed (MkFailedParams (ID event) (Some (t + backoff (AttemptCount event)))
                              (Some (error_text err)))) t' (ps_db (w_data w))) ->
      attempt event w (Err (Errorf "publish outbox event: %w" [] [err])) w'.

Lemma publishEvent_attempt event w :
  attempt event w (fst (publishEvent injected event w)) (snd (publishEvent injected event w)).
Proof.
  unfold publishEvent. rewrite bind_try.
  destruct (zoom_remote_inv ps_kafka (fun k s => MkPub (ps_db s) k)
    (kf_publish (record_of event)) w) as (t & k & Ht & Hc & Hd & Hk & Hok); [by intros []|].
  unfold in_kafka. destruct (zoom _ _ _ w) as [published w1]. cbn [fst snd] in *.
  destruct published as [[]|err].
  - destruct (Hok tt eq_refl) as [Hacked Hk1]. rewrite bind_try.
    destruct (zoom_remote_inv ps_db (fun d s => MkPub d (ps_kafka s))
      (MarkOutboxEventPublished (ID event)) w1) as (t1 & d & Ht1 & Hc1 & Hd1 & Hx & Hok1); [by intros []|].
    unfold in_db. destruct (zoom _ _ _ w1) as [marked w2]. cbn [fst snd] in *.
    rewrite Hd in Hd1, Hx, Hok1. cbn [ps_db ps_kafka] in *.
    destruct marked as [[]|e]; cbn [fst snd ret throw run]; apply acked; rewrite Hd1; cbn [ps_db ps_kafka].
    + subst k. by apply publish_acked.
    + right. exists t1. split; [lia|]. by destruct (Hok1 tt eq_refl) as [_ ->].
    + subst k. by apply publish_acked.
    + destruct Hx as [-> | ->]; [by left | right]. exists t1. split; [lia|done].
  - rewrite !bind_now, !bind_try, Hc.
    destruct (zoom_remote_inv ps_db (fun d s => MkPub d (ps_kafka s))
      (MarkOutboxEventFailed (MkFailedParams (ID event) (Some (t + backoff (AttemptCount event)))
        (Some (error_text err)))) w1) as (t1 & d & Ht1 & Hc1 & Hd1 & Hx & _); [by intros []|].
    unfold in_db. destruct (zoom _ _ _ w1) as [marked w2]. cbn [fst snd throw run] in *.
    rewrite Hd in Hd1, Hx. cbn [ps_db ps_kafka] in *.
    apply (unacked _ _ _ t t1); rewrite ?Hd1; cbn [ps_db ps_kafka].
    + destruct Hk as [-> | ->]; [by left | apply publish_log].
    + lia.
    + destruct Hx as [-> | ->]; [by left | by right].
Qed.

(** ** A batch *)

(** What publishing did: the records it added are in the order of [es], and
    every row is still there, marked published only if its record is. *)
Definition drained (es : list OutboxEvent) (s s' : pubstore K) : Prop :=
  exists recs,
    kf_log (ps_kafka s') = kf_log (ps_kafka s) ++ recs /\
    recs `sublist_of` (record_of <$> es) /\
    (forall id e, db_rows (ps_db s) !! id = Some e -> exists e',
       db_rows (ps_db s') !! id = Some e' /\ same_event e e' /\
       (PublishedAt e' <> None -> PublishedAt e <> None \/ record_of e' ∈ recs)) /\
    (forall id e', db_rows (ps_db s') !! id = Some e' -> is_Some (db_rows (ps_db s) !! id)).

Lemma same_event_refl e : same_event e e.
Proof. by split_and!. Qed.

Lemma drained_nil s s' : s' = s -> drained [] s s'.
Proof.
  intros ->. exists []. rewrite app_nil_r. split_and!; try done.
  intros id e He. exists e. split_and!; auto using same_event_refl.
Qed.

Lemma drained_trans es1 es2 s1 s2 s3 :
  drained es1 s1 s2 -> drained es2 s2 s3 -> drained (es1 ++ es2) s1 s3.
Proof.
  intros (r1 & Hl1 & Hs1 & Hk1 & Hn1) (r2 & Hl2 & Hs2 & Hk2 & Hn2).
  exists (r1 ++ r2). split_and!.
  - by rewrite Hl2, Hl1, app_assoc.
  - rewrite fmap_app. by apply sublist_app.
  - intros id e He. destruct (Hk1 id e He) as (e' & He' & Hse & Hp).
    destruct (Hk2 id e' He') as (e2 & He2 & Hse2 & Hp2). exists e2.
    split_and!; [done | by eapply same_event_trans |].
    intros Hpub. destruct (Hp2 Hpub) as [Hpub'|Hin]; [|set_solver].
    destruct (Hp Hpub') as [|Hin]; [auto|right].
    destruct Hse2 as (_ & _ & Hfr). rewrite (Hfr Hpub'). set_solver.
  - intros id e' He'. destruct (Hn2 id e' He') as [e2 He2]. eauto.
Qed.

(** One statement of the publisher about one row. *)
Lemma drained_exec es recs s s' st t id0 :
  table_wf (ps_db s) ->
  (st = SMarkPublished id0 /\
     (forall e, db_rows (ps_db s) !! id0 = Some e -> record_of e ∈ recs) \/
   exists arg, st = SMarkFailed arg) ->
  kf_log (ps_kafka s') = kf_log (ps_kafka s) ++ recs ->
  recs `sublist_of` (record_of <$> es) ->
  ps_db s' = exec st t (ps_db s) -> drained es s s'.
Proof.
  intros Hwf Hst Hlog Hsub Hdb. exists recs. split_and!; [done|done| |].
  - intros id e He. rewrite Hdb. pose proof (exec_row st t _ _ _ Hwf He) as Hs.
    destruct (Hwf _ _ He) as [Hid Hrow]. apply row_step_some in Hs; [|done].
    destruct (db_rows (exec st t (ps_db s)) !! id) as [e'|].
    2: { exfalso. destruct Hs as [-> _]. destruct Hst as [[? _]|[? ?]]; done. }
    destruct Hs as (_ & _ & Hf & Ha & Hfr & Hp). exists e'. split_and!; [done | by split_and! |].
    intros Hpub. destruct (PublishedAt e') as [t'|] eqn:Ht; [|done].
    destruct (Hp t' eq_refl) as [Hold|[Hm ->]]; [left; congruence | right].
    destruct Hst as [[-> Hin]|[arg ->]]; [|done]. injection Hm as ->.
    rewrite (event_record_fixed injected e' e Hf). apply Hin. congruence.
  - intros id e' He'. rewrite Hdb in He'.
    destruct (db_rows (ps_db s) !! id) as [e|] eqn:He; [eauto|].
    destruct (exec_new _ _ _ _ _ He He') as (arg & payload & -> & _).
    destruct Hst as [[? _]|[? ?]]; done.
Qed.

(** The rows of a batch are in the table, their event part as claimed. *)
Definition in_table (es : list OutboxEvent) (d : db) : Prop :=
  table_wf d /\ forall e, e ∈ es -> exists e0,
    db_rows d !! ID e = Some e0 /\ fixed_part e0 = fixed_part e.

Lemma attempt_drained es event w r w' :
  in_table (event :: es) (ps_db (w_data w)) -> attempt event w r w' ->
  drained [event] (w_data w) (w_data w') /\ in_table es (ps_db (w_data w')).
Proof.
  intros [Hwf Hin] Hat.
  assert (drained [event] (w_data w) (w_data w')) as Hd.
  { destruct Hat as [r w' Hlog Hdb|err t t' w' Hlog _ Hdb].
    - assert ([record_of event] `sublist_of` (record_of <$> [event])) as Hsub by done.
      destruct Hdb as [[_ Hdb]|(t & _ & Hdb)].
      + exists [record_of event]. rewrite Hdb. split_and!; auto; eauto.
        intros id e He. exists e. split_and!; auto using same_event_refl.
      + apply (drained_exec _ [record_of event] _ _ (SMarkPublished (ID event)) t (ID event)); try done.
        left. split; [done|]. intros e He.
        destruct (Hin event) as (e0 & He0 & Hf); [left|].
        rewrite (event_record_fixed injected e event); [left|congruence].
    - assert (exists recs, kf_log (ps_kafka (w_data w')) = kf_log (ps_kafka (w_data w)) ++ recs /\
        recs `sublist_of` (record_of <$> [event])) as (recs & Hl & Hsub).
      { destruct Hlog as [-> | ->]; [exists []|exists [record_of event]]; rewrite ?app_nil_r; split; try done.
        apply sublist_nil_l. }
      destruct Hdb as [Hdb|Hdb].
      + exists recs. rewrite Hdb. split_and!; auto; eauto.
        intros id e He. exists e. split_and!; auto using same_event_refl.
      + eapply (drained_exec _ recs _ _ _ t' (ID event)); try done. right. eauto. }
  split; [done|]. split.
  - destruct Hat as [r w' _ [[_ ->]|(t & _ & ->)]|err t t' w' _ _ [-> | ->]]; auto using exec_wf.
  - intros e He. destruct (Hin e) as (e0 & He0 & Hf); [by right|].
    destruct Hd as (recs & _ & _ & Hk & _). destruct (Hk _ _ He0) as (e' & He' & (Hf' & _) & _).
    exists e'. split; [done | congruence].
Qed.

Lemma publish_all_drained es w :
  in_table es (ps_db (w_data w)) -> drained es (w_data w) (w_data (snd (publish_all injected es w))).
Proof.
  revert w. induction es as [|event es IH]; intros w Hin; cbn [publish_all].
  { by apply drained_nil. }
  rewrite bind_try. destruct (attempt_drained es event w _ _ Hin (publishEvent_attempt event w)) as [Hd Hin'].
  eapply (drained_trans [event] es); [exact Hd | by apply IH].
Qed.

(** ** The claim of a batch *)

Lemma claim_drained `{!PgLaws} limit by_ t s es d' :
  table_wf (ps_db s) -> ClaimPendingOutboxEvents limit by_ t (ps_db s) = (Ok es, d') ->
  drained [] s (MkPub d' (ps_kafka s)) /\ in_table es d'.
Proof.
  intros Hwf Hclaim. destruct (claim_inv _ _ _ _ _ _ Hclaim) as (_ & Hperm & _ & Hrows).
  assert (d' = exec (SClaim limit by_) t (ps_db s)) as Hd by (cbn; by rewrite Hclaim).
  split; [|split].
  - exists []. cbn [ps_db ps_kafka]. rewrite app_nil_r. split_and!; [done..| |].
    + intros id e He. rewrite Hd. pose proof (exec_row (SClaim limit by_) t _ _ _ Hwf He) as Hs.
      destruct (Hwf _ _ He) as [_ Hrow]. apply row_step_some in Hs; [|done].
      destruct (db_rows (exec _ t (ps_db s)) !! id) as [e'|]; [|by destruct Hs].
      destruct Hs as (_ & _ & Hf & Ha & Hfr & Hp). exists e'. split_and!; [done|by split_and!|].
      intros Hpub. destruct (PublishedAt e') as [t'|]; [|done].
      destruct (Hp t' eq_refl) as [Ho|[? _]]; [left; congruence | done].
    + intros id e'. rewrite Hrows. case_bool_decide; [|eauto]. by destruct (db_rows (ps_db s) !! id).
  - rewrite Hd. by apply exec_wf.
  - intros e He. rewrite Hperm in He. apply list_elem_of_fmap in He as (e0 & -> & He).
    pose proof (pending_candidates _ _ _ _ He) as Hc.
    apply elem_of_candidates in Hc as ([id Hid] & _ & _). destruct (Hwf _ _ Hid) as [<- _].
    exists (set_lock e0 (Some t) by_). rewrite set_lock_ID, Hrows, Hid.
    rewrite bool_decide_true by by apply list_elem_of_fmap_2. done.
Qed.

(** The run of [PublishPending]: a claim at some time, then its batch, from
    the claimed world; or nothing was answered, and the claim may still have
    happened. *)
Lemma PublishPending_run `{!PgLaws} workerID batchSize w :
  table_wf (ps_db (w_data w)) ->
  let run := PublishPending injected workerID batchSize w in
  exists t answer d1 w1,
    w_clock w <= t /\
    ClaimPendingOutboxEvents (claim_limit batchSize) (Some workerID) t (ps_db (w_data w)) = (answer, d1) /\
    ps_kafka (w_data w1) = ps_kafka (w_data w) /\
    match answer with
    | Ok es => ps_db (w_data w1) = d1 /\ run = publish_all injected es w1 \/
               is_ok (fst run) = false /\
               (w_data (snd run) = w_data w \/ w_data (snd run) = MkPub d1 (ps_kafka (w_data w)))
    | Err _ => is_ok (fst run) = false /\ w_data (snd run) = w_data w
    end.
Proof.
  intros Hwf. cbn zeta. unfold PublishPending. rewrite bind_try.
  destruct (zoom_remote_inv ps_db (fun d s => MkPub d (ps_kafka s))
    (ClaimPendingOutboxEvents (claim_limit batchSize) (Some workerID)) w)
    as (t & d & Ht & _ & Hd & Hx & Hok); [by intros []|].
  unfold in_db. destruct (zoom _ _ _ w) as [events w1]. cbn [fst snd] in *.
  destruct (ClaimPendingOutboxEvents _ _ t (ps_db (w_data w))) as [answer d1] eqn:Hclaim.
  exists t, answer, d1, w1. split_and!; [done | done | by rewrite Hd |].
  destruct events as [es|err].
  - destruct (Hok es eq_refl) as [Ha Hx1]. cbn [fst snd] in Ha, Hx1. subst answer d.
    left. by rewrite Hd.
  - cbn [fst snd throw is_ok run] in *. rewrite Hd. destruct answer as [es|e].
    + right. split; [done|]. destruct Hx as [-> | ->]; [left; by destruct (w_data w) | by right].
    + split; [done|]. assert (d1 = ps_db (w_data w)) as ->.
      { unfold ClaimPendingOutboxEvents in Hclaim. repeat case_match; by simplify_eq. }
      destruct Hx as [-> | ->]; by destruct (w_data w).
Qed.

Lemma publish_all_wf es w :
  in_table es (ps_db (w_data w)) -> table_wf (ps_db (w_data (snd (publish_all injected es w)))).
Proof.
  revert w. induction es as [|event es IH]; intros w Hin; cbn [publish_all]; [apply Hin|].
  rewrite bind_try. apply IH. by eapply attempt_drained, publishEvent_attempt.
Qed.

(** A tick drains the batch it claimed, if it claimed one. *)
Lemma PublishPending_drained `{!PgLaws} workerID batchSize w :
  table_wf (ps_db (w_data w)) ->
  let s' := w_data (snd (PublishPending injected workerID batchSize w)) in
  exists es, drained es (w_data w) s' /\ table_wf (ps_db s') /\
    (es = [] \/ exists t d, w_clock w <= t /\
       ClaimPendingOutboxEvents (claim_limit batchSize) (Some workerID) t (ps_db (w_data w)) = (Ok es, d)).
Proof.
  intros Hwf. cbn zeta.
  destruct (PublishPending_run workerID batchSize w Hwf) as (t & answer & d1 & w1 & Ht & Hclaim & Hk & Hrun).
  destruct answer as [es|e].
  2: { exists []. destruct Hrun as [_ ->]. split_and!; [by apply drained_nil | done | by left]. }
  destruct (claim_drained _ _ _ _ _ _ Hwf Hclaim) as [Hcd Hin].
  destruct Hrun as [[Hd1 ->]|[_ [Hs|Hs]]].
  - exists es. split_and!; [| |right; eauto].
    + apply (drained_trans [] es _ (w_data w1)).
      * assert (w_data w1 = MkPub d1 (ps_kafka (w_data w))) as ->
          by (destruct (w_data w1); cbn in *; congruence). done.
      * apply publish_all_drained. by rewrite Hd1.
    + apply publish_all_wf. by rewrite Hd1.
  - exists []. rewrite Hs. split_and!; [by apply drained_nil | done | by left].
  - exists []. rewrite Hs. split_and!; [done | apply Hin | by left].
Qed.

(** C14: no event is lost and none is marked published that is not on the topic:
    a tick of the worker, whatever fails, appends to Kafka only records of
    rows it claimed, at most [batchSize] of them and in claim order, keeps
    every row with its event part, and marks a row published only if its
    record was appended. *)
Theorem PublishPending_safe `{!PgLaws} workerID batchSize w :
  table_wf (ps_db (w_data w)) -> 0 < batchSize <= max_int32 ->
  let s := w_data w in
  let s' := w_data (snd (PublishPending injected workerID batchSize w)) in
  exists es recs,
    (es = [] \/ exists t d, w_clock w <= t /\
       ClaimPendingOutboxEvents batchSize (Some workerID) t (ps_db s) = (Ok es, d)) /\
    kf_log (ps_kafka s') = kf_log (ps_kafka s) ++ recs /\
    recs `sublist_of` (record_of <$> es) /\
    Z.of_nat (length recs) <= batchSize /\
    (forall id e, db_rows (ps_db s) !! id = Some e -> exists e',
       db_rows (ps_db s') !! id = Some e' /\ same_event e e' /\
       (PublishedAt e' <> None -> PublishedAt e <> None \/ record_of e' ∈ recs)).
Proof.
  intros Hwf Hb. cbn zeta.
  destruct (PublishPending_drained workerID batchSize w Hwf) as (es & (recs & Hlog & Hsub & Hkeep & _) & _ & Hes).
  assert (claim_limit batchSize = batchSize) as Hlim.
  { unfold claim_limit, max_int32 in *. rewrite (proj2 (Z.leb_gt _ _)) by lia. apply int32_id. lia. }
  rewrite Hlim in Hes. exists es, recs. split_and!; [done|done|done| |done].
  apply sublist_length in Hsub. rewrite length_fmap in Hsub.
  destruct Hes as [->|(t & d & _ & Hclaim)]; [cbn in Hsub; lia|].
  destruct (claim_inv _ _ _ _ _ _ Hclaim) as (_ & Hperm & _ & _).
  rewrite Hperm, length_map in Hsub. unfold pending_events in Hsub. rewrite length_take in Hsub. lia.
Qed.

(** ** Without faults *)

#[local] Abbreviation no_fault := (Forall (fault_ok (fun _ => False))).

Hypothesis kf_up : forall r t k, fst (kf_publish r t k) = Ok tt.

Lemma publishEvent_ok event : @raises (fun _ => False) (pubstore K) _ (publishEvent injected event).
Proof.
  unfold publishEvent. apply raises_try.
  - apply raises_zoom; [apply _|]. apply raises_remote. intros t k e. by rewrite kf_up.
  - intros _. apply raises_try; [|intros; apply raises_ret|done].
    apply raises_zoom; [apply _|]. apply raises_remote. done.
  - done.
Qed.

(** A published event is published for good. *)
Definition is_published (d : db) (id : UUID) : Prop :=
  exists e, db_rows d !! id = Some e /\ PublishedAt e <> None.

Lemma drained_published es s s' id :
  drained es s s' -> is_published (ps_db s) id -> is_published (ps_db s') id.
Proof.
  intros (recs & _ & _ & Hk & _) (e & He & Hp). destruct (Hk id e He) as (e' & He' & (_ & _ & Hfr) & _).
  exists e'. split; [done|]. by rewrite (Hfr Hp).
Qed.

Lemma publish_all_publishes es w :
  in_table es (ps_db (w_data w)) -> no_fault (w_sched w) ->
  forall e, e ∈ es -> is_published (ps_db (w_data (snd (publish_all injected es w)))) (ID e).
Proof.
  revert w. induction es as [|event es IH]; intros w Hin Hf e He; [by apply elem_of_nil in He|].
  cbn [publish_all]. rewrite bind_try.
  pose proof (publishEvent_attempt event w) as Hat.
  destruct (attempt_drained es event w _ _ Hin Hat) as [_ Hin'].
  destruct (publishEvent_ok event w Hf) as [Hf' Herr].
  apply elem_of_cons in He as [->|He]; [|by apply IH].
  eapply drained_published; [by apply publish_all_drained|].
  destruct (publishEvent injected event w) as [r w']. cbn [fst snd] in *.
  destruct Hat as [r w' _ Hdb|err t t' w' _ _ _]; [|destruct (Herr _ eq_refl)].
  destruct r as [[]|err]; [|destruct (Herr _ eq_refl)].
  destruct Hdb as [[Hr _]|(t & _ & ->)]; [done|].
  destruct Hin as [Hwf Hin]. destruct (Hin event) as (e0 & He0 & _); [left|].
  unfold is_published. cbn [exec MarkOutboxEventPublished snd].
  rewrite update_unpublished_lookup, bool_decide_true, He0 by done. cbn.
  destruct (unpublished e0) eqn:Hu; eexists; (split; [done|]); [by destruct e0|].
  intros Hn. apply unpublished_spec in Hn. congruence.
Qed.

(** The loop discards the outcomes of the events. *)
Lemma publish_all_ok es w : fst (publish_all injected es w) = Ok tt.
Proof.
  revert w. induction es as [|event es IH]; intros w; cbn [publish_all]; [done|].
  rewrite bind_try. apply IH.
Qed.

(** Progress: when nothing fails, a tick publishes every row of its claim. *)
Theorem PublishPending_publishes `{!PgLaws} workerID batchSize w t rest es d :
  table_wf (ps_db (w_data w)) -> w_sched w = Tick t NoFault :: rest -> no_fault rest ->
  ClaimPendingOutboxEvents (claim_limit batchSize) (Some workerID) (w_clock w + Z.of_N t)
    (ps_db (w_data w)) = (Ok es, d) ->
  forall e, e ∈ es ->
  is_published (ps_db (w_data (snd (PublishPending injected workerID batchSize w)))) (ID e) /\
  fst (PublishPending injected workerID batchSize w) = Ok tt.
Proof.
  intros Hwf Hsch Hrest Hclaim e He. unfold PublishPending. cbn [repo_Queries NewStore New q_ClaimPendingOutboxEvents]. rewrite bind_try.
  unfold in_db. rewrite (run_zoom ps_db _), run_remote. unfold call, part. cbn [w_sched]. rewrite Hsch. cbn [next_tick t_delay t_fault w_sched w_clock w_data].
  rewrite Hclaim. cbn [fst snd].
  destruct (claim_drained _ _ _ (w_data w) _ _ Hwf Hclaim) as [_ Hin].
  split; [by apply publish_all_publishes|].
  apply publish_all_ok.
Qed.
End facts.

(** The retry delay is five seconds times the attempt number, capped at
    thirty, with no overflow of the 32-bit counter or the 64-bit duration. *)
Theorem backoff_bounds a :
  0 <= a < max_int32 ->
  backoff a = 5 * Second * Z.min (a + 1) 6 /\ 5 * Second <= backoff a <= 30 * Second.
Proof.
  intros Ha. unfold backoff, defaultRetryDelay, Second, max_int32 in *.
  rewrite int32_id by lia. rewrite int64_id by lia. lia.
Qed.

Lemma backoff_bounds_witness : backoff 3 = 20 * Second.
Proof.
  destruct (backoff_bounds 3) as [H _]; [unfold max_int32; lia|].
  rewrite H. reflexivity.
Defined.

(** ** Concrete runs *)

#[local] Existing Instance demo_uuid.
#[local] Existing Instance demo_pg.
#[local] Instance demo_error_text : ErrorText := fun _ => "error".

Definition demo_pub (sch : list tick) : world (pubstore (list KRecord)) :=
  World (MkPub demo_db []) 40 sch.

(** The second event's publish fails. *)
Definition demo_faulty : list tick :=
  [Tick 1 NoFault; Tick 2 NoFault; Tick 1 NoFault; Tick 30 (FailBefore (External "timeout"))].

Lemma PublishPending_safe_witness :
  let s' := w_data (snd (PublishPending (fun _ => []) "w" 2 (demo_pub demo_faulty))) in
  length (kf_log (ps_kafka s')) = 1%nat /\
  exists e', db_rows (ps_db s') !! "aaaaaaaaaaaaaaa2" = Some e' /\ fixed_part e' =
    fixed_part (new_row (demo_create "aaaaaaaaaaaaaaa2") "{}" 20).
Proof.
  split; [vm_compute; reflexivity|].
  destruct (PublishPending_safe (fun _ => []) "w" 2 (demo_pub demo_faulty)) as
    (es & recs & _ & _ & _ & _ & Hk).
  - exact demo_db_wf.
  - unfold max_int32. lia.
  - destruct (Hk "aaaaaaaaaaaaaaa2" (new_row (demo_create "aaaaaaaaaaaaaaa2") "{}" 20))
      as (e' & He' & (Hf & _) & _); [vm_compute; reflexivity|].
    exists e'. split; [exact He' | exact Hf].
Defined.

Lemma log_up r t (k : list KRecord) : fst (kf_publish r t k) = Ok tt.
Proof. reflexivity. Qed.

Lemma PublishPending_publishes_witness :
  is_published (ps_db (w_data (snd (PublishPending (fun _ => []) "w" 2 (demo_pub [Tick 0 NoFault])))))
    "aaaaaaaaaaaaaaa1".
Proof.
  apply (PublishPending_publishes (K := list KRecord) (fun _ => []) log_up "w" 2 (demo_pub [Tick 0 NoFault])
    0%N [] demo_claimed demo_db2) with (e := set_lock demo_row (Some 40) (Some "w")).
  - exact demo_db_wf.
  - reflexivity.
  - constructor.
  - vm_compute. reflexivity.
  - vm_compute. left.
Defined.
