(* ===== verification/ConfigFacts.v ===== *)
(** * Theorems on the configuration

    [validate] accepts exactly the configurations that meet its specification,
    [parseCallers] keeps the entries in order, API-key digests are accepted in
    either case, and a real environment wins over [.env] over the defaults. *)
From S2P Require Import Prelude Utf8 Json GoTime Constant Config.

(** ** Specification of a valid configuration *)

Record caller_ok (c : CallerConfig) : Prop := {
  co_name : callerNamePattern (Name c) = true;
  co_hash : apiKeyHashPattern (APIKeyHash c) = true;
  co_requests : 0 < Requests (RateLimit c);
  co_window : 0 < Window (RateLimit c);
  co_doc_types : DocTypes c <> ∅;
  co_entries : forall d s, DocTypes c !! d = Some s -> d <> "" /\ s <> "";
}.

Record gateway_ok (g : GatewayConfig) : Prop := {
  go_ttl : 24 * Hour <= DedupeTTL g;
  go_template : count_percent_s (RoutedTopicTemplate g) = 1%nat;
  go_some : Callers g <> [];
  go_callers : Forall caller_ok (Callers g);
  go_names : NoDup (map Name (Callers g));
}.

Record valid_config {P} `{PlatformLib P} (c : Config P) : Prop := {
  vc_service : ValidateService (rest c) = None;
  vc_port : 1 <= Port (Server c) <= 65535;
  vc_pprof : pprof_Enabled (Pprof c) = true ->
    1 <= pprof_Port (Pprof c) <= 65535 /\ pprof_Port (Pprof c) <> Port (Server c);
  vc_timeouts : 0 < ReadTimeout (Server c) /\ 0 < WriteTimeout (Server c) /\
    0 < IdleTimeout (Server c) /\ 0 < ShutdownTimeout (Server c);
  vc_drain : 0 <= DrainDelay (Server c);
  vc_postgres : ValidatePostgres (rest c) = None;
  vc_redis : (Mode (Redis c) = "optional" \/ Mode (Redis c) = "required") /\
    Addr (Redis c) <> "" /\ 0 <= DB (Redis c);
  vc_kafka : ValidateKafka (rest c) (Kafka c) = None;
  vc_producer : 0 <= RecordRetries (Producer (Kafka c)) /\
    0 < RecordDeliveryTimeout (Producer (Kafka c));
  vc_otel : ValidateOTel (rest c) = None;
  vc_log : ValidateLog (rest c) = None;
  vc_grpc_client : ValidateGRPCClient (rest c) = None;
  vc_target : is_blank (GRPCTarget (Ocr c)) = false;
  vc_grpc : ValidateGRPC (rest c) (GRPC_ServerPort c) = None;
  vc_grpc_port : GRPC_ServerPort c <> Port (Server c);
  vc_gateway : gateway_ok (Gateway c);
}.

(** ** [validate] section by section *)

Lemma fail_if_nil b e : fail_if b e = [] <-> b = false.
Proof. by destruct b. Qed.

Lemma opt_list_nil {A} (o : option A) : opt_list o = [] <-> o = None.
Proof. by destruct o. Qed.

Lemma flat_map_nil {A B} (f : A -> list B) l : flat_map f l = [] <-> Forall (fun a => f a = []) l.
Proof.
  induction l as [|a l IH]; cbn; [done|]. by rewrite app_nil_iff, IH, list.Forall_cons.
Qed.

Lemma port_ok_spec p : negb (port_ok p) = false <-> 1 <= p <= 65535.
Proof. unfold port_ok. rewrite negb_false_iff, andb_true_iff, !Z.leb_le. done. Qed.

Lemma nonempty_false s : negb (nonempty s) = false <-> s <> "".
Proof. rewrite negb_false_iff. apply nonempty_spec. Qed.

#[local] Hint Rewrite @app_nil_iff fail_if_nil @opt_list_nil port_ok_spec Z.leb_gt Z.ltb_ge
  Z.eqb_neq nonempty_false : cfg.

Lemma server_errors_nil s : server_errors s = [] <-> 1 <= Port s <= 65535.
Proof. unfold server_errors. by autorewrite with cfg. Qed.

Lemma pprof_errors_nil p s :
  pprof_errors p s = [] <->
  (pprof_Enabled p = true -> 1 <= pprof_Port p <= 65535 /\ pprof_Port p <> Port s).
Proof. unfold pprof_errors. destruct (pprof_Enabled p); autorewrite with cfg; naive_solver. Qed.

Lemma timeout_errors_nil s :
  timeout_errors s = [] <->
  (0 < ReadTimeout s /\ 0 < WriteTimeout s /\ 0 < IdleTimeout s /\ 0 < ShutdownTimeout s) /\
  0 <= DrainDelay s.
Proof.
  unfold timeout_errors. cbn [flat_map]. autorewrite with cfg. intuition.
Qed.

Lemma redis_errors_nil r :
  redis_errors r = [] <->
  (Mode r = "optional" \/ Mode r = "required") /\ Addr r <> "" /\ 0 <= DB r.
Proof.
  unfold redis_errors, RedisModeDisabled, RedisModeOptional, RedisModeRequired.
  destruct (String.eqb_spec (Mode r) "disabled") as [->|Hd]; [by split; [|intros [[|] _]]|].
  destruct (String.eqb_spec (Mode r) "optional") as [->|Ho]; cbn [orb].
  { autorewrite with cfg. naive_solver. }
  destruct (String.eqb_spec (Mode r) "required") as [->|Hr].
  { autorewrite with cfg. naive_solver. }
  split; [done | intros [[|] _]; done].
Qed.

Lemma producer_errors_nil p :
  producer_errors p = [] <-> 0 <= RecordRetries p /\ 0 < RecordDeliveryTimeout p.
Proof. unfold producer_errors. by autorewrite with cfg. Qed.

Lemma caller_errors_nil seen c :
  callerNamePattern (Name c) = true ->
  caller_errors seen c = [] <-> caller_ok c /\ Name c ∉ seen.
Proof.
  intros Hname. unfold caller_errors. autorewrite with cfg.
  rewrite !bool_decide_eq_false, negb_false_iff, flat_map_nil.
  assert (Forall (fun a => (let '(docType, schemaID) := a in
      fail_if (negb (nonempty docType) || negb (nonempty schemaID))
        (Errorf "caller %q: doc_types entries must be non-empty (got %q -> %q)"
           [Name c; docType; schemaID] [])) = []) (map_to_list (DocTypes c)) <->
    forall d s, DocTypes c !! d = Some s -> d <> "" /\ s <> "") as ->.
  { rewrite Forall_forall. split.
    - intros Hf d s Hd. apply elem_of_map_to_list, list_elem_of_In in Hd. specialize (Hf _ Hd). cbn in Hf.
      apply fail_if_nil, orb_false_iff in Hf. by rewrite !nonempty_false in Hf.
    - intros Hf [d s] Hd. apply list_elem_of_In, elem_of_map_to_list in Hd.
      apply fail_if_nil, orb_false_iff. rewrite !nonempty_false. by apply Hf. }
  split; [intros (?&?&?&?&?&?) | intros [[] ?]]; split_and!; auto. by split.
Qed.

Lemma callers_errors_nil seen cs :
  callers_errors seen cs = [] <->
  Forall caller_ok cs /\ NoDup (map Name cs) /\ forall c, c ∈ cs -> Name c ∉ seen.
Proof.
  revert seen. induction cs as [|c cs IH]; intros seen; cbn [callers_errors map].
  { split; [|done]. intros _. split_and!; [done | apply NoDup_nil_2 | by intros c ?%elem_of_nil]. }
  destruct (callerNamePattern (Name c)) eqn:Hn; cbn [negb].
  - rewrite app_nil_iff, caller_errors_nil, IH, list.Forall_cons, list.NoDup_cons by done.
    assert ((forall c', c' ∈ cs -> Name c' ∉ ({[Name c]} ∪ seen : gset string)) <->
      Name c ∉ map Name cs /\ forall c', c' ∈ cs -> Name c' ∉ seen) as ->.
    { split.
      - intros Hc. split; [|set_solver]. intros (c' & Heq & Hin)%list_elem_of_fmap.
        apply (Hc c' Hin). set_solver.
      - intros [Hc Hs] c' Hin. specialize (Hs c' Hin).
        assert (Name c' <> Name c); [|set_solver].
        intros Heq. apply Hc. rewrite <- Heq. by apply list_elem_of_fmap_2. }
    set_solver.
  - split; [done|]. intros (Hok & _). apply list.Forall_cons in Hok as [[Hn' _ _ _ _ _] _]. congruence.
Qed.

Lemma gateway_errors_nil g : gateway_errors g = [] <-> gateway_ok g.
Proof.
  unfold gateway_errors. autorewrite with cfg. rewrite callers_errors_nil, Nat.eqb_neq.
  assert ((if negb (nonempty (RoutedTopicTemplate g))
      then [errors_New "gateway.routed_topic_template must not be empty"]
      else fail_if (negb (count_percent_s (RoutedTopicTemplate g) =? 1)%nat)
             (Errorf "gateway.routed_topic_template must contain exactly one %%s, got %q"
                [RoutedTopicTemplate g] [])) = [] <-> count_percent_s (RoutedTopicTemplate g) = 1%nat) as ->.
  { destruct (RoutedTopicTemplate g) as [|ch t]; cbn [nonempty String.eqb negb]; [done|].
    by rewrite fail_if_nil, negb_false_iff, Nat.eqb_eq. }
  split.
  - intros (? & ? & ? & ? & ? & _). split; auto. by destruct (Callers g).
  - intros []. split_and!; auto; [by destruct (Callers g)|]. set_solver.
Qed.

(** ** Digests in either case *)

Section hashes.
Context `{UnicodeLaws}.

Definition hex_byte (c : ascii) : bool := is_hex_rune (byte_val c).
(** A hexadecimal digit of either case. *)
Definition hex_any (c : ascii) : bool := hex_byte c || in_range 65 70 (byte_val c).

Lemma decode_high c s : 128 <= byte_val c -> 128 <= fst (decode_rune (String c s)).
Proof.
  intros Hc. cbn [decode_rune]. rewrite (proj2 (Z.ltb_ge _ _)) by lia.
  destruct (rune_tail (byte_val c)) as [n|] eqn:Hn; [|done].
  destruct s as [|c1 s2]; [done|].
  destruct (negb _) eqn:Hacc; [done|]. apply negb_false_iff in Hacc.
  unfold in_range, accept_lo in Hacc. apply andb_true_iff in Hacc as [Hacc _].
  apply Z.leb_le in Hacc. unfold rune_tail, in_range in Hn.
  pose proof (byte_val_range c1) as Hb1.
  repeat case_match; simplify_eq; cbn -[Z.mul Z.sub Z.add]; unfold RuneError; try lia;
    unfold in_range in *; repeat match goal with
    | Hx : (_ && _)%bool = true |- _ => apply andb_true_iff in Hx as [? ?]
    | Hx : (_ <=? _) = true |- _ => apply Z.leb_le in Hx
    | Hx : (_ =? _) = true |- _ => apply Z.eqb_eq in Hx
    | Hx : (_ =? _) = false |- _ => apply Z.eqb_neq in Hx
    end; try lia.
Qed.

Lemma encode_not_hex r : is_hex_rune r = false -> str_forallb hex_byte (encode_rune r) = false.
Proof.
  intros Hr. unfold encode_rune.
  assert (forall z t, 192 <= z < 256 -> str_forallb hex_byte (String (byte_of z) t) = false) as Hhigh.
  { intros z t Hz. cbn. unfold hex_byte, is_hex_rune, in_range.
    rewrite byte_val_of, (proj2 (Z.leb_gt z 57)), (proj2 (Z.leb_gt z 102)) by lia.
    by rewrite !andb_false_r. }
  destruct (in_range 0 127 r) eqn:H1.
  { unfold in_range in H1. apply andb_true_iff in H1 as [?%Z.leb_le ?%Z.leb_le].
    cbn. unfold hex_byte. rewrite byte_val_of by lia. by rewrite Hr. }
  destruct (in_range 0 2047 r) eqn:H2.
  { unfold in_range in H2. apply andb_true_iff in H2 as [?%Z.leb_le ?%Z.leb_le]. apply Hhigh. dlia. }
  destruct (_ || _) eqn:H3; [by vm_compute|].
  unfold in_range in H3. apply orb_false_iff in H3 as [[?%Z.ltb_ge ?%Z.ltb_ge]%orb_false_iff _].
  destruct (r <=? 65535) eqn:Hbmp; apply Hhigh; [apply Z.leb_le in Hbmp | apply Z.leb_gt in Hbmp]; dlia.
Qed.

Lemma lower_hex c : byte_val c < 128 -> hex_byte (lower_ascii c) = hex_any c.
Proof.
  intros Hc. unfold lower_ascii, hex_any, hex_byte, is_hex_rune. pose proof (byte_val_range c).
  destruct (in_range 65 90 (byte_val c)) eqn:Hr.
  - unfold in_range in *. apply andb_true_iff in Hr as [?%Z.leb_le ?%Z.leb_le].
    rewrite byte_val_of by lia. apply eq_true_iff_eq.
    rewrite !orb_true_iff, !andb_true_iff, !Z.leb_le. lia.
  - unfold in_range in *. apply andb_false_iff in Hr. rewrite !Z.leb_gt in Hr. apply eq_true_iff_eq.
    rewrite !orb_true_iff, !andb_true_iff, !Z.leb_le. lia.
Qed.

Lemma to_lower_hex s : str_forallb hex_byte (ToLower s) = str_forallb hex_any s.
Proof.
  unfold ToLower. induction s as [|c s IH]; [done|]. cbn [to_lower_from].
  destruct (Z.ltb_spec (byte_val c) 128) as [Hc|Hc].
  - cbn [str_forallb]. by rewrite lower_hex, IH.
  - pose proof (decode_high c s Hc) as Hd. destruct (decode_rune _) as [r n]. cbn in Hd.
    rewrite str_forallb_app, encode_not_hex by by apply unicode_lower_not_hex.
    cbn. unfold hex_any, hex_byte, is_hex_rune, in_range.
    rewrite (proj2 (Z.leb_gt (byte_val c) 57)), (proj2 (Z.leb_gt (byte_val c) 102)),
      (proj2 (Z.leb_gt (byte_val c) 70)) by lia. by rewrite !andb_false_r.
Qed.

Lemma to_lower_length s :
  str_forallb hex_any s = true -> String.length (ToLower s) = String.length s.
Proof.
  unfold ToLower. induction s as [|c s IH]; [done|]. cbn [str_forallb to_lower_from].
  intros [Hc Hs]%andb_true_iff.
  rewrite (proj2 (Z.ltb_lt (byte_val c) 128)); [cbn; by rewrite IH|].
  unfold hex_any, hex_byte, is_hex_rune, in_range in Hc.
  rewrite !orb_true_iff, !andb_true_iff, !Z.leb_le in Hc. lia.
Qed.

(** An API-key digest is accepted exactly when it is sixty-four hexadecimal
    digits, in either case: [parseCallers] lower-cases it and [validate]
    matches the result, and no other text lower-cases into a digest. *)
Theorem api_key_hash_any_case s :
  apiKeyHashPattern (ToLower s) = true <->
  String.length s = 64%nat /\ str_forallb hex_any s = true.
Proof.
  unfold apiKeyHashPattern. rewrite andb_true_iff, Nat.eqb_eq.
  change (str_forallb (fun c => is_hex_rune (byte_val c))) with (str_forallb hex_byte).
  rewrite to_lower_hex. split.
  - intros [Hl Hs]. by rewrite <- to_lower_length.
  - intros [Hl Hs]. by rewrite to_lower_length.
Qed.
End hashes.

(** ** Theorems *)

Lemma validate_iff {P} `{PlatformLib P} (c : Config P) : validate c = None <-> valid_config c.
Proof.
  unfold validate. assert (forall es, errors_Join es = None <-> es = []) as -> by by intros [].
  unfold config_errors.
  rewrite !app_nil_iff, !opt_list_nil, !fail_if_nil, server_errors_nil, pprof_errors_nil,
    timeout_errors_nil, redis_errors_nil, producer_errors_nil, gateway_errors_nil, Z.eqb_neq.
  split.
  - intros (?&?&?&[]&?&?&?&?&?&?&?&?&?&?&?). by split.
  - intros []. tauto.
Qed.

(** C36: [validate] accepts exactly the configurations that meet the
    specification, section by section: no rule is skipped for the rules before
    it, no valid setting is rejected, and caller names are distinct. *)
Theorem validate_spec {P} `{PlatformLib P} (c : Config P) : validate c = None <-> valid_config c.
Proof. apply validate_iff. Qed.

(** What an entry of the registry's JSON becomes. *)
Definition entry_of `{UnicodeLib} (rc : rawCaller) (c : CallerConfig) : Prop :=
  Name c = rc_Name rc /\ APIKeyHash c = ToLower (rc_APIKeyHash rc) /\ DocTypes c = rc_DocTypes rc /\
  match rc_RateLimit rc with
  | None => RateLimit c = no_rate_limit
  | Some rl => Requests (RateLimit c) = rl_Requests rl /\
               ParseDuration (rl_Window rl) = Some (Window (RateLimit c))
  end.

Lemma build_caller_spec `{UnicodeLib} rc c : build_caller rc = Ok c <-> entry_of rc c.
Proof.
  unfold build_caller, entry_of. destruct c as [n h [q w] d]. cbn.
  destruct (rc_RateLimit rc) as [rl|]; [destruct (ParseDuration _)|];
    (split; [intros [= <- <- <- <- <-]; by split_and! | intros (? & ? & ? & Hl)]);
    unfold no_rate_limit in *; destruct Hl; simplify_eq/=; congruence.
Qed.

Lemma build_callers_spec `{UnicodeLib} raws cs :
  build_callers raws = Ok cs <-> Forall2 entry_of raws cs.
Proof.
  revert cs. induction raws as [|rc raws IH]; intros cs; cbn [build_callers].
  { split; [by intros [= <-] | by inversion 1]. }
  split.
  - destruct (build_caller rc) as [c|] eqn:Hc; [|done].
    destruct (build_callers raws) as [cs'|]; [|done]. intros [= <-].
    constructor; [by apply build_caller_spec | by apply IH].
  - inversion 1 as [|? c ? cs' Hc Hcs]; subst.
    apply build_caller_spec in Hc as ->. by apply IH in Hcs as ->.
Qed.

(** C37: [parseCallers] succeeds exactly on blank text, as no caller, and on a JSON
    list whose windows all parse; then it keeps the entries in order, names,
    budgets and doc types as written and digests lower-cased. *)
Theorem parseCallers_spec `{UnicodeLib} raw cs :
  parseCallers raw = Ok cs <->
  (is_blank raw = true /\ cs = []) \/
  (is_blank raw = false /\ exists raws, unmarshal_callers raw = Some raws /\ Forall2 entry_of raws cs).
Proof.
  unfold parseCallers. destruct (is_blank raw).
  { split; [intros [= <-]; auto | by intros [[_ ->]|[]]]. }
  destruct (unmarshal_callers raw) as [raws|]; [|split; [done | by intros [[]|(_ & ? & ? & _)]]].
  rewrite build_callers_spec. split; [eauto 6 | by intros [[]|(_ & raws' & [= <-] & ?)]].
Qed.

Lemma Load_Ok {P} `{PlatformLib P, ViperLib P, UnicodeLib} cfg :
  Load = Ok cfg ->
  valid_config cfg /\
  exists dotEnv, ParseDotEnv ".env" = Ok dotEnv /\
    parseCallers (v_GetString (layer_dotenv dotEnv setDefaults) "gateway.callers")
    = Ok (Callers (Gateway cfg)).
Proof.
  unfold Load. destruct (ParseDotEnv _) as [dotEnv|] eqn:Hd; [|done].
  destruct (v_Unmarshal _) as [cfg0|]; [|done].
  destruct (parseCallers _) as [callers|] eqn:Hc; [|done].
  destruct (validate _) eqn:Hv; [done|]. intros [= <-].
  split.
  - by apply validate_iff.
  - exists dotEnv. by rewrite Hc.
Qed.

(** C38: a process only starts on a configuration that is valid and whose callers
    are those of GATEWAY_CALLERS. *)
Theorem Load_valid {P} `{PlatformLib P, ViperLib P, UnicodeLib} cfg :
  Load = Ok cfg ->
  valid_config cfg /\
  exists dotEnv, ParseDotEnv ".env" = Ok dotEnv /\
    parseCallers (v_GetString (layer_dotenv dotEnv setDefaults) "gateway.callers")
    = Ok (Callers (Gateway cfg)).
Proof. apply Load_Ok. Qed.

(** With a template that has text around one [%s], distinct callers are routed
    to distinct topics. *)
Theorem routed_topics_distinct `{FmtOther} g pre post c1 c2 :
  gateway_ok g -> RoutedTopicTemplate g = simple_template pre post ->
  plain pre = true -> plain post = true ->
  c1 ∈ Callers g -> c2 ∈ Callers g -> c1 <> c2 ->
  RoutedTopic (RoutedTopicTemplate g) (Name c1) <> RoutedTopic (RoutedTopicTemplate g) (Name c2).
Proof.
  intros [_ _ _ _ Hnd] -> Hpre Hpost H1 H2 Hne. rewrite !RoutedTopic_simple by done.
  intros Heq%str_app_inj_l%str_app_inj_r. by apply Hne, (NoDup_map_eq Name (Callers g)).
Qed.

(** The template check counts the two bytes [%s] and not directives: it accepts
    a template whose only directive is an escaped percent sign, and the topic
    of every caller is then not a name the template spells. *)
Theorem escaped_template_accepted `{FmtOther} :
  exists template,
    count_percent_s template = 1%nat /\
    forall caller, RoutedTopic template caller = ("ocr.%s.v1%!(EXTRA string=" ++ caller ++ ")")%string.
Proof. exists "ocr.%%s.v1". split; [reflexivity|]. intros caller. reflexivity. Qed.

(** ** Concrete runs *)

Definition demo_unicode : UnicodeLib := fun r => r.
Lemma demo_unicode_laws : @UnicodeLaws demo_unicode.
Proof.
  intros r Hr. unfold unicode_lower, demo_unicode, is_hex_rune, in_range.
  rewrite (proj2 (Z.leb_gt r 57)), (proj2 (Z.leb_gt r 102)) by lia. by rewrite !andb_false_r.
Qed.

Lemma api_key_hash_any_case_witness :
  apiKeyHashPattern (@ToLower demo_unicode
    "9F86D081884C7D659A2FEAA0C55AD015A3BF4F1B2B0B822CD15D6C15B0F00A08") = true.
Proof.
  apply (@api_key_hash_any_case demo_unicode demo_unicode_laws). split; reflexivity.
Defined.

Definition demo_hash : string :=
  "9f86d081884c7d659a2feaa0c55ad015a3bf4f1b2b0b822cd15d6c15b0f00a08".

Definition demo_registry : string := jtext
  "[{'name':'expense','api_key_hash':'9F86D081884C7D659A2FEAA0C55AD015A3BF4F1B2B0B822CD15D6C15B0F00A08','rate_limit':{'requests':60,'window':'1m'},'doc_types':{'receipt':'receipt@1'}}]".

Definition demo_caller : CallerConfig :=
  MkCaller "expense" demo_hash (MkRateLimit 60 Minute) {["receipt" := "receipt@1"]}.

Example parse_demo_registry : @parseCallers demo_unicode demo_registry = Ok [demo_caller].
Proof. vm_compute. reflexivity. Qed.

Definition demo_config : Config unit :=
  MkConfig tt
    (MkServer 8083 (10 * Second) (30 * Second) (60 * Second) (20 * Second) (5 * Second))
    (MkPprof false 6063) (MkRedis "required" "localhost:6379" 0)
    (MkKafka ["localhost:9092"] (MkProducer 5 (30 * Second)) (MkConsumer "" [] ""))
    9093 (MkOcrClient "localhost:9094")
    (MkGateway (24 * Hour) "ocr.document.routed.%s.v1" [demo_caller]).

Definition demo_platform : PlatformLib unit := {|
  ValidateService := fun _ => None; ValidatePostgres := fun _ => None;
  ValidateKafka := fun _ _ => None; ValidateOTel := fun _ => None; ValidateLog := fun _ => None;
  ValidateGRPCClient := fun _ => None; ValidateGRPC := fun _ _ => None;
|}.

Definition demo_viper : ViperLib unit := {|
  EnvKey := fun k => k;
  ParseDotEnv := fun _ => Ok {["gateway.callers" := demo_registry]};
  InstanceID := "i-1"; NormalizeKafkaBrokers := fun l => l; NormalizeKafkaTopics := fun l => l;
  v_Unmarshal := fun _ => Some demo_config;
  v_GetString := fun l key =>
    match List.find (fun kv => String.eqb (fst kv) key) l with
    | Some (_, VString s) => s
    | _ => EmptyString
    end;
  with_instance := fun _ p => p;
|}.

Lemma demo_load : @Load unit demo_platform demo_viper demo_unicode = Ok demo_config.
Proof. vm_compute. reflexivity. Qed.

Lemma Load_valid_witness : @valid_config unit demo_platform demo_config.
Proof. exact (proj1 (@Load_valid unit demo_platform demo_viper demo_unicode demo_config demo_load)). Defined.

Definition demo_caller2 : CallerConfig :=
  MkCaller "payroll" "79345f2cfc3293537f0d277da3908fa4bb831eceaad61e9566e2ddf9e3d55a78"
    (MkRateLimit 100 Second) {["invoice" := "invoice@1"]}.

Definition demo_gateway : GatewayConfig :=
  MkGateway (24 * Hour) "ocr.document.routed.%s.v1" [demo_caller; demo_caller2].

Lemma demo_gateway_ok : gateway_ok demo_gateway.
Proof. apply gateway_errors_nil. vm_compute. reflexivity. Qed.

Lemma routed_topics_distinct_witness :
  @RoutedTopic demo_fmt_other "ocr.document.routed.%s.v1" "expense" <>
  @RoutedTopic demo_fmt_other "ocr.document.routed.%s.v1" "payroll".
Proof.
  apply (@routed_topics_distinct demo_fmt_other demo_gateway "ocr.document.routed." ".v1"
    demo_caller demo_caller2 demo_gateway_ok); try reflexivity; [left | right; left | discriminate].
Defined.
