(* ===== verification/Auth.v ===== *)
(** * The Kontrak A gate: [internal/server/auth.go] and [metrics.go]

    The caller registry, the per-caller rate limiter, the two gate checks of
    [authenticate], and the interceptor [UnaryAuth] around a handler, with the
    request counter. *)
From S2P Require Import Prelude Utf8 GoTime Sha256 Redis Constant Config.

(** [gateway.Caller]. *)
Record Caller := MkRegistered { c_Name : string; c_DocTypes : gmap string string }.
Definition no_caller : Caller := MkRegistered "" ∅.

(** What the gateway puts in and takes from a request's [context.Context]: the
    incoming metadata, which gRPC sets, and the authenticated caller. *)
Record Context := MkContext {
  ctx_Incoming : option (gmap string (list string));
  ctx_Caller : option Caller;
}.

(** The context gRPC hands the interceptor. *)
Definition incoming (md : option (gmap string (list string))) : Context := MkContext md None.

Definition FromIncomingContext (ctx : Context) : option (gmap string (list string)) := ctx_Incoming ctx.
Definition WithCaller (ctx : Context) (caller : Caller) : Context := MkContext (ctx_Incoming ctx) (Some caller).
Definition CallerFromContext (ctx : Context) : option Caller := ctx_Caller ctx.

Definition apiKeyHeader : string := "x-api-key".
Definition retryAfterHeader : string := "retry-after".

(** gRPC codes, and the method the limiter guards. *)
Definition code_OK : Z := 0.
Definition code_InvalidArgument : Z := 3.
Definition code_DeadlineExceeded : Z := 4.
Definition code_NotFound : Z := 5.
Definition code_AlreadyExists : Z := 6.
Definition code_PermissionDenied : Z := 7.
Definition code_ResourceExhausted : Z := 8.
Definition code_Unimplemented : Z := 12.
Definition code_Internal : Z := 13.
Definition code_Unavailable : Z := 14.
Definition code_Unauthenticated : Z := 16.
Definition code_Unknown : Z := 2.

Definition SubmitDocument_FullMethodName : string := "/ocr.gateway.v1.DocumentGateway/SubmitDocument".
Definition GetDocument_FullMethodName : string := "/ocr.gateway.v1.DocumentGateway/GetDocument".

(** ** The registry *)

Record CallerRegistry := MkRegistry { byKeyHash : gmap string Caller }.

Definition caller_of (c : CallerConfig) : Caller := MkRegistered (Name c) (DocTypes c).

Definition NewCallerRegistry (callers : list CallerConfig) : CallerRegistry :=
  MkRegistry (foldl (fun m c => <[APIKeyHash c := caller_of c]> m) ∅ callers).

Definition HashAPIKey (apiKey : string) : string := sha256_hex apiKey.

Definition Lookup (r : CallerRegistry) (apiKey : string) : option Caller :=
  byKeyHash r !! HashAPIKey apiKey.

Definition KnownCaller (r : CallerRegistry) (callerID : string) : bool :=
  existsb (fun kv => String.eqb (c_Name (snd kv)) callerID) (map_to_list (byKeyHash r)).

(** The limits by caller name ([NewGRPC]). *)
Definition caller_limits (callers : list CallerConfig) : gmap string CallerConfig :=
  foldl (fun m c => <[Name c := c]> m) ∅ callers.

(** ** The rate limiter *)

(** The window a time falls in; Go's division truncates.  The window is
    positive ([validate]): a zero divisor would panic. *)
Definition window_start (window t : Z) : Z := Z.quot t window.

Definition rate_key (name : string) (windowStart : Z) : string :=
  ("ocr:ratelimit:" ++ name ++ ":" ++ format_int windowStart)%string.

Section limiter.
Context {R : Type} `{RedisLib R}.

Definition Incr (key : string) : M R Z := remote (fun t r => rd_incr t key r).
Definition Expire (key : string) (ttl : Z) : M R bool :=
  remote (fun t r => let (b, r') := rd_expire t key ttl r in (Ok b, r')).

(** [Allow]: the wait to suggest and whether the caller may submit now;
    [rdb_up] is [l.rdb != nil]. *)
Definition Allow (rdb_up : bool) (caller : Caller) (limit : CallerConfig) : M R (Z * bool) :=
  if negb rdb_up then ret (0, true)
  else
    let window := Window (RateLimit limit) in
    let! t := now in
    let windowStart := window_start window t in
    let key := rate_key (c_Name caller) windowStart in
    let! counted := try (Incr key) in
    match counted with
    | Err _ => ret (0, true)
    | Ok n =>
        do! (if n =? 1 then do! try (Expire key (int64 (2 * window))) in ret tt else ret tt) in
        if Requests (RateLimit limit) <? n then
          let! t' := now in
          let elapsed := int64 (t' - int64 (windowStart * window)) in
          ret (int64 (window - elapsed), false)
        else ret (0, true)
    end.
End limiter.

(** ** The gate *)

(** What a request sees and changes: the engine is [E]; the counter is the list
    of the attributes of its increments, the header the response metadata. *)
Record edge (R E : Type) := MkEdge {
  e_redis : R;
  e_engine : E;
  e_requests : list (string * option string);
  e_header : list (string * string);
}.
Arguments MkEdge {R E} _ _ _ _.
Arguments e_redis {R E} _.
Arguments e_engine {R E} _.
Arguments e_requests {R E} _.
Arguments e_header {R E} _.

#[export] Instance cache_lens {R E} :
  Lens e_redis (fun (r : R) (s : edge R E) => MkEdge r (e_engine s) (e_requests s) (e_header s)).
Proof. solve_lens. Qed.
#[export] Instance engine_lens {R E} :
  Lens e_engine (fun (e : E) (s : edge R E) => MkEdge (e_redis s) e (e_requests s) (e_header s)).
Proof. solve_lens. Qed.

Definition on_cache {R E A} : M R A -> M (edge R E) A :=
  zoom e_redis (fun r s => MkEdge r (e_engine s) (e_requests s) (e_header s)).
Definition on_engine {R E A} : M E A -> M (edge R E) A :=
  zoom e_engine (fun e s => MkEdge (e_redis s) e (e_requests s) (e_header s)).

Definition SetHeader {R E} (k v : string) : M (edge R E) unit :=
  modify (fun s => MkEdge (e_redis s) (e_engine s) (e_requests s) (e_header s ++ [(k, v)])).

(** The names of the gRPC codes. *)
Class GrpcLib := code_String : Z -> string.

(** [statusCode]: [status.Code] of an error without a status is Unknown. *)
Definition statusCode `{GrpcLib} (err : option error) : string :=
  match err with
  | None => code_String code_OK
  | Some e => match as_status e with
              | Some (code, _) => code_String code
              | None => code_String code_Unknown
              end
  end.

(** [Metrics.Requests]; [enabled] is a non-nil instrument. *)
Definition count_request {R E} `{GrpcLib} (enabled : bool) (caller : string) (err : option error)
    : M (edge R E) unit :=
  if enabled then
    modify (fun s => MkEdge (e_redis s) (e_engine s)
      (e_requests s ++ [(statusCode err, if nonempty caller then Some caller else None)]) (e_header s))
  else ret tt.

Record RateLimiter := MkLimiter { limiter_rdb_up : bool }.

Definition retry_seconds (retryAfter : Z) : Z := Z.max 1 (seconds_ceil retryAfter).

Section gate.
Context {R E : Type} `{RedisLib R, GrpcLib}.

(** [authenticate]: the caller, or the terminal status of the request. *)
Definition authenticate (ctx : Context) (method : string) (reg : CallerRegistry)
    (limits : gmap string CallerConfig) (limiter : RateLimiter) : M (edge R E) Caller :=
  match FromIncomingContext ctx with
  | None => throw (Status code_Unauthenticated "missing metadata" [])
  | Some md =>
      match default [] (md !! apiKeyHeader) with
      | [] => throw (Status code_Unauthenticated "missing x-api-key" [])
      | key :: _ =>
          if String.eqb key "" then throw (Status code_Unauthenticated "missing x-api-key" [])
          else match Lookup reg key with
          | None => throw (Status code_Unauthenticated "unknown api key" [])
          | Some caller =>
              match limits !! c_Name caller with
              | None => throw (Status code_Internal "caller rate limit not configured" [])
              | Some limit =>
                  if String.eqb method SubmitDocument_FullMethodName then
                    let! '(retryAfter, allowed) := on_cache (Allow (limiter_rdb_up limiter) caller limit) in
                    if allowed : bool then ret caller
                    else
                      do! SetHeader retryAfterHeader (format_int (retry_seconds retryAfter)) in
                      throw (Status code_ResourceExhausted "rate limit exceeded for caller %q"
                               [c_Name caller])
                  else ret caller
              end
          end
      end
  end.

(** [UnaryAuth]: the handler runs with the caller in its context. *)
Definition UnaryAuth {A} (reg : CallerRegistry) (limits : gmap string CallerConfig)
    (limiter : RateLimiter) (metrics : bool) (ctx : Context) (method : string)
    (handler : Context -> M (edge R E) A) : M (edge R E) A :=
  let! gate := try (authenticate ctx method reg limits limiter) in
  match gate with
  | Err err =>
      do! count_request metrics "" (Some err) in
      throw err
  | Ok caller =>
      let! outcome := try (handler (WithCaller ctx caller)) in
      do! count_request metrics (c_Name caller)
            (match outcome with Ok _ => None | Err e => Some e end) in
      of_result outcome
  end.
End gate.
