(* ===== verification/AuthFacts.v ===== *)
(** * Theorems on the Kontrak A gate

    What the registry resolves, which requests pass the gate and that the
    others touch nothing, that the limiter fails open, and the bound it
    enforces: never more than the caller's budget in one window. *)
From S2P Require Import Prelude Utf8 GoTime Sha256 Redis Constant Config ConfigFacts Auth.

(** ** The registry *)

#[local] Abbreviation registry_map cs := (byKeyHash (NewCallerRegistry cs)).

Lemma registry_snoc cs c :
  registry_map (cs ++ [c]) = <[APIKeyHash c := caller_of c]> (registry_map cs).
Proof. unfold NewCallerRegistry. cbn [byKeyHash]. by rewrite foldl_snoc. Qed.

Lemma registry_Some cs h caller :
  registry_map cs !! h = Some caller -> exists c, c ∈ cs /\ APIKeyHash c = h /\ caller = caller_of c.
Proof.
  induction cs as [|c cs IH] using rev_ind; [done|].
  rewrite registry_snoc, lookup_insert. case_decide as Hh.
  - intros [= <-]. exists c. split_and!; [|done|done]. set_solver.
  - intros Hl. destruct (IH Hl) as (c' & Hin & ?). exists c'. split; [|done]. set_solver.
Qed.

Lemma registry_is_Some cs c : c ∈ cs -> is_Some (registry_map cs !! APIKeyHash c).
Proof.
  induction cs as [|c' cs IH] using rev_ind; [by intros ?%elem_of_nil|].
  rewrite registry_snoc, lookup_insert. intros [Hin|Hin]%elem_of_app.
  - case_decide; [done | by apply IH].
  - apply list_elem_of_singleton in Hin as ->. by rewrite decide_True.
Qed.

Lemma Lookup_Some cs key caller :
  Lookup (NewCallerRegistry cs) key = Some caller ->
  exists c, c ∈ cs /\ APIKeyHash c = HashAPIKey key /\ caller = caller_of c.
Proof. apply registry_Some. Qed.

Lemma Lookup_None cs key :
  Lookup (NewCallerRegistry cs) key = None <-> forall c, c ∈ cs -> APIKeyHash c <> HashAPIKey key.
Proof.
  split.
  - intros Hn c Hc Heq. destruct (registry_is_Some cs c Hc) as [x Hx]. rewrite Heq in Hx.
    unfold Lookup in Hn. congruence.
  - intros Hno. destruct (Lookup _ key) as [x|] eqn:Hl; [|done].
    apply Lookup_Some in Hl as (c & Hc & Hk & _). by destruct (Hno c Hc).
Qed.

Lemma Lookup_registered cs key c :
  NoDup (map APIKeyHash cs) -> c ∈ cs -> APIKeyHash c = HashAPIKey key ->
  Lookup (NewCallerRegistry cs) key = Some (caller_of c).
Proof.
  intros Hnd Hc Hk. destruct (Lookup _ key) as [x|] eqn:Hl.
  - apply Lookup_Some in Hl as (c' & Hc' & Hk' & ->). do 2 f_equal.
    apply (NoDup_map_eq APIKeyHash cs); congruence.
  - by destruct (proj1 (Lookup_None cs key) Hl c Hc).
Qed.

Lemma KnownCaller_spec r id :
  KnownCaller r id = true <-> exists h caller, byKeyHash r !! h = Some caller /\ c_Name caller = id.
Proof.
  unfold KnownCaller. rewrite existsb_exists. split.
  - intros ([h c] & Hin & Heq%String.eqb_eq). apply list_elem_of_In, elem_of_map_to_list in Hin. eauto.
  - intros (h & c & Hh & Heq). exists (h, c).
    split; [by apply list_elem_of_In, elem_of_map_to_list | by apply String.eqb_eq].
Qed.

(** C39: the registry built from callers with distinct digests resolves a presented
    key to exactly the caller configured with the key's digest, and knows
    exactly the configured names. *)
Theorem registry_correct cs :
  NoDup (map APIKeyHash cs) ->
  (forall key caller, Lookup (NewCallerRegistry cs) key = Some caller <->
     exists c, c ∈ cs /\ APIKeyHash c = HashAPIKey key /\ caller = caller_of c) /\
  (forall id, KnownCaller (NewCallerRegistry cs) id = true <-> id ∈ map Name cs).
Proof.
  intros Hnd. split.
  - intros key caller. split; [apply Lookup_Some|]. intros (c & Hc & Hk & ->).
    by apply Lookup_registered.
  - intros id. rewrite KnownCaller_spec. split.
    + intros (h & caller & (c & Hc & _ & ->)%registry_Some & <-). by apply (list_elem_of_fmap_2 Name).
    + intros (c & -> & Hc)%list_elem_of_fmap. destruct (registry_is_Some cs c Hc) as [x Hx].
      exists (APIKeyHash c), x. split; [done|].
      destruct (registry_Some _ _ _ Hx) as (c' & Hc' & Hh & ->).
      by rewrite (NoDup_map_eq APIKeyHash cs c' c).
Qed.

(** ** The bound of the rate limiter *)

(** The caller part of a key ends at the colon. *)
Definition colon : ascii := ":"%char.
Definition no_colon (s : string) : bool := str_forallb (fun c => negb (Ascii.eqb c colon)) s.

Lemma no_colon_split s1 s2 t1 t2 :
  no_colon s1 = true -> no_colon s2 = true ->
  (s1 ++ String colon t1)%string = (s2 ++ String colon t2)%string -> s1 = s2 /\ t1 = t2.
Proof.
  revert s2. induction s1 as [|c s1 IH]; intros [|c2 s2]; cbn -[colon].
  - by intros _ _ [= ->].
  - intros _ H [= <- _]. by rewrite Ascii.eqb_refl in H.
  - intros H _ [= -> _]. by rewrite Ascii.eqb_refl in H.
  - intros [_ H1]%andb_true_iff [_ H2]%andb_true_iff [= -> Heq].
    by destruct (IH s2 H1 H2 Heq) as [-> ->].
Qed.

Lemma rate_key_inj n1 ws1 n2 ws2 :
  no_colon n1 = true -> no_colon n2 = true ->
  rate_key n1 ws1 = rate_key n2 ws2 -> n1 = n2 /\ ws1 = ws2.
Proof.
  intros H1 H2 Heq%(str_app_inj_l "ocr:ratelimit:").
  destruct (no_colon_split n1 n2 (format_int ws1) (format_int ws2) H1 H2 Heq) as [-> Hf].
  split; [done | by apply (inj format_int)].
Qed.

Lemma pattern_no_colon s : callerNamePattern s = true -> no_colon s = true.
Proof.
  assert (forall c, name_char c = true -> negb (Ascii.eqb c colon) = true) as Hc.
  { intros c Hc. apply negb_true_iff, Ascii.eqb_neq. intros ->. by vm_compute in Hc. }
  destruct s as [|c s]; [done|]. cbn [callerNamePattern no_colon str_forallb].
  intros [Hs Hr]%andb_true_iff. apply andb_true_iff. split.
  - apply Hc. unfold name_char. by rewrite Hs.
  - induction s as [|c' s IH]; [done|]. cbn in Hr |- *. apply andb_true_iff in Hr as [Hc' Hr].
    by rewrite Hc, IH.
Qed.

Lemma window_start_iff W t ws : 0 < W -> 0 <= t -> window_start W t = ws <-> ws * W <= t < ws * W + W.
Proof.
  intros HW Ht. unfold window_start. rewrite Z.quot_div_nonneg by lia.
  pose proof (Z.div_mod t W ltac:(lia)). pose proof (Z.mod_pos_bound t W HW). split; [intros <-; lia|].
  intros Hws. symmetry. apply Z.div_unique with (t - ws * W); lia.
Qed.

Section bound.
Context {R : Type} `{RedisLaws R}.
Variable limit_of : string -> CallerConfig.

(** A schedule whose calls go through, each within [D]. *)
Definition prompt (D : Z) (t : tick) : Prop := t_fault t = NoFault /\ Z.of_N (t_delay t) <= D.

Lemma remote_prompt {S A} D (f : Z -> S -> result A * S) w :
  0 <= D -> Forall (prompt D) (w_sched w) ->
  exists t sch, w_clock w <= t <= w_clock w + D /\ Forall (prompt D) sch /\
    remote f w = (fst (f t (w_data w)), World (snd (f t (w_data w))) t sch).
Proof.
  intros HD Hs. rewrite run_remote. unfold call. destruct (w_sched w) as [|[n flt] sch]; cbn.
  - exists (w_clock w), []. rewrite Z.add_0_r. split_and!; [lia|lia|done|]. by destruct (f _ _).
  - apply list.Forall_cons in Hs as [[Hf Hn] Hs]. cbn in Hf, Hn. subst flt.
    exists (w_clock w + Z.of_N n), sch. split_and!; [lia|lia|done|]. by destruct (f _ _).
Qed.

Lemma Allow_prompt D name limit w :
  0 <= D -> Forall (prompt D) (w_sched w) ->
  let key := rate_key name (window_start (Window (RateLimit limit)) (w_clock w)) in
  exists t1 t2 sch wait,
    w_clock w <= t1 <= w_clock w + D /\ t1 <= t2 /\ Forall (prompt D) sch /\
    Allow true (MkRegistered name ∅) limit w =
    match rd_incr t1 key (w_data w) with
    | (Err _, r1) => (Ok (0, true), World r1 t2 sch)
    | (Ok n, r1) =>
        (Ok (if Requests (RateLimit limit) <? n then (wait, false) else (0, true)),
         World (if n =? 1 then snd (rd_expire t2 key (int64 (2 * Window (RateLimit limit))) r1) else r1)
           t2 sch)
    end.
Proof.
  intros HD Hs. cbn zeta. unfold Allow. cbn [negb]. rewrite bind_now, bind_try.
  set (key := rate_key _ _). unfold Incr.
  destruct (remote_prompt D (fun t r => rd_incr t key r) w HD Hs) as (t1 & s1 & Ht1 & Hs1 & ->).
  cbn [fst snd]. destruct (rd_incr t1 key (w_data w)) as [[n|e] r1] eqn:Hi; cbn [fst snd].
  2: { exists t1, t1, s1, 0. rewrite Hi. split_and!; try done; lia. }
  destruct (n =? 1) eqn:Hn.
  - rewrite run_bind, bind_try. unfold Expire.
    destruct (remote_prompt D (fun t r => let (b, r') := rd_expire t key
      (int64 (2 * Window (RateLimit limit))) r in (@Ok bool b, r')) (World r1 t1 s1) HD Hs1)
      as (t2 & s2 & Ht2 & Hs2 & ->). cbn [fst snd ret w_data w_clock run] in *.
    destruct (rd_expire t2 key _ r1) as [b r2] eqn:He.
    destruct (Requests (RateLimit limit) <? n) eqn:Hq.
    + eexists t1, t2, s2, _. rewrite Hi, Hn, Hq, He. split_and!; try done; lia.
    + exists t1, t2, s2, 0. rewrite Hi, Hn, Hq, He. split_and!; try done; lia.
  - rewrite run_bind. cbn [ret run]. destruct (Requests (RateLimit limit) <? n) eqn:Hq.
    + eexists t1, t1, s1, _. rewrite Hi, Hn, Hq. split_and!; try done; lia.
    + exists t1, t1, s1, 0. rewrite Hi, Hn, Hq. split_and!; try done; lia.
Qed.

(** Requests of any callers, one after the other, each after some idle time;
    of each are recorded its caller, its window and the decision. *)
Definition idle (n : N) : M R unit :=
  atomic (fun w => (Ok tt, World (w_data w) (w_clock w + Z.of_N n) (w_sched w))).

Fixpoint serve (reqs : list (N * string)) : M R (list (string * Z * bool)) :=
  match reqs with
  | [] => ret []
  | (n, name) :: reqs' =>
      do! idle n in
      let! t := now in
      let! '(_, allowed) := Allow true (MkRegistered name ∅) (limit_of name) in
      let! served := serve reqs' in
      ret ((name, window_start (Window (RateLimit (limit_of name))) t, allowed) :: served)
  end.

Variables (name : string) (ws D : Z).
Let W := Window (RateLimit (limit_of name)).
Let budget := Requests (RateLimit (limit_of name)).
Let key := rate_key name ws.
Hypothesis HW : 0 < W < 4611686018427387904.
Hypothesis HD : 0 <= D /\ W + D <= whole_seconds (2 * W).
Hypothesis Hname : no_colon name = true.

(** The counter of the window after [n] requests, until the window is over. *)
Definition counted (n : Z) (w : world R) : Prop :=
  (n = 0 /\ forall t, w_clock w <= t -> rd_get t key (w_data w) = None) \/
  (1 <= n /\ forall t, w_clock w <= t < ws * W + W + D ->
     rd_get t key (w_data w) = Some (counter_text n)).

Lemma in_window t : 0 <= t -> window_start W t = ws -> ws * W <= t < ws * W + W.
Proof. intros Ht. apply window_start_iff; [lia | done]. Qed.

(** A request of the window counts one. *)
Lemma counted_step n w t1 t2 sch :
  counted n w -> 0 <= w_clock w -> n < 9223372036854775807 ->
  window_start W (w_clock w) = ws -> w_clock w <= t1 <= w_clock w + D -> t1 <= t2 ->
  exists r1, rd_incr t1 key (w_data w) = (Ok (n + 1), r1) /\
    counted (n + 1) (World (if n + 1 =? 1 then snd (rd_expire t2 key (int64 (2 * W)) r1) else r1) t2 sch).
Proof.
  intros Hc Hclk Hn Hws Ht1 Ht2. apply in_window in Hws; [|done].
  destruct Hc as [[-> Hnone]|[Hn1 Hsome]].
  - destruct (incr_absent t1 key (w_data w) ltac:(apply Hnone; lia)) as [Hi Hg].
    destruct (rd_incr t1 key (w_data w)) as [c r1]. cbn [fst snd] in *. subst c.
    exists r1. split; [done|]. right. split; [lia|]. cbn [w_clock w_data Z.add Z.eqb Pos.eqb].
    intros t Ht. rewrite int64_id by lia. apply expire_keeps; [lia | lia |]. apply Hg. lia.
  - pose proof (Hsome t1 ltac:(lia)) as Hl.
    destruct (incr_live t1 key (w_data w) n Hl ltac:(lia)) as (Hi & _ & Hlive).
    pose proof (incr_live_value t1 key (w_data w) n) as Hval.
    destruct (rd_incr t1 key (w_data w)) as [c r1]. cbn [fst snd] in *. subst c.
    exists r1. split; [done|]. right. split; [lia|].
    rewrite (proj2 (Z.eqb_neq (n + 1) 1)) by lia. cbn [w_clock w_data]. intros t Ht.
    destruct (rd_get t key r1) as [x|] eqn:Hx.
    + f_equal. by eapply (Hval t x); [done|lia|lia|].
    + apply Hlive in Hx; [|lia]. rewrite Hsome in Hx; [done|lia].
Qed.

(** Other requests and waiting do not. *)
Lemma counted_later n w r sch t :
  counted n w -> w_clock w <= t ->
  (forall t', t <= t' -> rd_get t' key r = rd_get t' key (w_data w)) -> counted n (World r t sch).
Proof.
  intros [[-> Hc]|[Hn Hc]] Ht Hr; [left | right]; split; try done; cbn; intros t' Ht';
    rewrite Hr by lia; apply Hc; lia.
Qed.

(** The requests of the window in a record, and those of them let through. *)
Definition of_window (x : string * Z * bool) : bool :=
  String.eqb (fst (fst x)) name && (snd (fst x) =? ws).
Definition requested (l : list (string * Z * bool)) : Z := Z.of_nat (length (List.filter of_window l)).
Definition let_through (l : list (string * Z * bool)) : Z :=
  Z.of_nat (length (List.filter (fun x => of_window x && snd x) l)).

Lemma requested_cons x l : requested (x :: l) = (if of_window x then 1 else 0) + requested l.
Proof. unfold requested. cbn [List.filter]. destruct (of_window x); cbn [length]; lia. Qed.

Lemma let_through_cons x l :
  let_through (x :: l) = (if of_window x && snd x then 1 else 0) + let_through l.
Proof. unfold let_through. cbn [List.filter]. destruct (of_window x && snd x); cbn [length]; lia. Qed.

Lemma of_window_spec who ws' a : of_window (who, ws', a) = true <-> who = name /\ ws' = ws.
Proof. unfold of_window. cbn [fst snd]. by rewrite andb_true_iff, String.eqb_eq, Z.eqb_eq. Qed.

(** The rest of a run, after a request decided [a] in the world [w2]. *)
Lemma serve_step reqs w2 who ws' a n n2 :
  (exists served w', serve reqs w2 = (Ok served, w') /\
     let_through served = Z.max 0 (Z.min (requested served) (budget - n2))) ->
  0 <= n -> (if of_window (who, ws', a) then n2 = n + 1 /\ a = negb (budget <? n + 1) else n2 = n) ->
  exists served w',
    run (let! served := serve reqs in ret ((who, ws', a) :: served)) w2 = (Ok served, w') /\
    let_through served = Z.max 0 (Z.min (requested served) (budget - n)).
Proof.
  intros (served & w' & Hserve & Hcount) Hn Hw. rewrite run_bind, Hserve. cbn [ret run].
  eexists _, _. split; [reflexivity|]. rewrite let_through_cons, requested_cons.
  assert (0 <= requested served) by (unfold requested; lia).
  destruct (of_window (who, ws', a)) eqn:How; cbn [snd andb]; [|lia].
  destruct Hw as [-> ->]. destruct (Z.ltb_spec budget (n + 1)); cbn [negb]; lia.
Qed.

Lemma serve_counted reqs w n :
  Forall (prompt D) (w_sched w) -> 0 <= w_clock w -> counted n w -> 0 <= n ->
  n + Z.of_nat (length reqs) < 9223372036854775807 ->
  Forall (fun r => no_colon (snd r) = true) reqs ->
  exists served w', serve reqs w = (Ok served, w') /\
    let_through served = Z.max 0 (Z.min (requested served) (budget - n)).
Proof.
  revert w n. induction reqs as [|[d who] reqs IH]; intros w n Hs Hclk Hc Hn Hlen Hnames; cbn [serve].
  { exists [], w. split; [done|]. unfold let_through, requested. cbn. lia. }
  apply list.Forall_cons in Hnames as [Hwho Hnames]. cbn [snd length] in Hwho, Hlen.
  unfold idle. rewrite run_bind, run_atomic, bind_now. cbn [w_clock].
  set (w0 := World (w_data w) (w_clock w + Z.of_N d) (w_sched w)).
  assert (counted n w0) as Hc0 by (apply (counted_later n w); [done|cbn; lia|done]).
  assert (0 <= w_clock w0) as Hclk0 by (cbn; lia).
  destruct (Allow_prompt D who (limit_of who) w0 (proj1 HD) Hs)
    as (t1 & t2 & sch & wait & Ht1 & Ht2 & Hsch & Hrun).
  rewrite run_bind. fold w0. rewrite Hrun. clear Hrun.
  change (w_clock w + Z.of_N d) with (w_clock w0).
  set (ws' := window_start (Window (RateLimit (limit_of who))) (w_clock w0)) in *.
  destruct (decide (who = name /\ ws' = ws)) as [[-> Hws]|Hother].
  - destruct (counted_step n w0 t1 t2 sch Hc0 Hclk0 ltac:(lia) Hws Ht1 Ht2) as (r1 & Hi & Hc1).
    rewrite Hws. fold key. rewrite Hi. fold W. fold budget.
    destruct (budget <? n + 1) eqn:Hq; (apply (serve_step _ _ _ _ _ n (n + 1));
      [|done|rewrite (proj2 (of_window_spec _ _ _)) by done; by rewrite Hq]);
      (apply IH; [done|cbn in *; lia|done|lia|lia|done]).
  - assert (forall a, of_window (who, ws', a) = false) as How.
    { intros a. apply not_true_iff_false. rewrite of_window_spec. done. }
    assert (rate_key who ws' <> key) as Hkey.
    { intros Heq. apply Hother. by apply rate_key_inj. }
    destruct (rd_incr t1 (rate_key who ws') (w_data w0)) as [[m|e] r1] eqn:Hi.
    + set (r2 := if m =? 1 then _ else r1).
      assert (counted n (World r2 t2 sch)) as Hc2.
      { apply (counted_later n w0); [done|lia|]. intros t Ht. unfold r2.
        pose proof (incr_other t1 (rate_key who ws') (w_data w0) t key ltac:(lia) ltac:(congruence)) as Ho.
        rewrite Hi in Ho. cbn [snd] in Ho. destruct (m =? 1); [|done].
        rewrite expire_other by congruence || lia. done. }
      destruct (Requests (RateLimit (limit_of who)) <? m);
        (apply (serve_step _ _ _ _ _ n n); [|done|by rewrite How]);
        (apply IH; [done|cbn in *; lia|done|lia|lia|done]).
    + apply (serve_step _ _ _ _ _ n n); [|done|by rewrite How].
      apply IH; [done|cbn in *; lia| |lia|lia|done].
      apply (counted_later n w0); [done|lia|]. intros t Ht.
      pose proof (incr_other t1 (rate_key who ws') (w_data w0) t key ltac:(lia) ltac:(congruence)) as Ho.
      by rewrite Hi in Ho.
Qed.

(** C11: the limiter lets exactly the budget through: among any interleaving of
    any callers' requests, a caller whose window has not been counted before
    gets its first [Requests] requests of the window through and no more,
    whatever the others do, as long as Redis answers and each call takes no
    longer than the counter's time to live covers. *)
Theorem rate_limit_exact reqs w :
  Forall (prompt D) (w_sched w) -> 0 <= w_clock w -> 0 <= budget ->
  (forall t, w_clock w <= t -> rd_get t key (w_data w) = None) ->
  Z.of_nat (length reqs) < 9223372036854775807 ->
  Forall (fun r => no_colon (snd r) = true) reqs ->
  exists served w', serve reqs w = (Ok served, w') /\
    let_through served = Z.min (requested served) budget.
Proof.
  intros Hs Hclk Hb Hfresh Hlen Hnames.
  destruct (serve_counted reqs w 0) as (served & w' & Hserve & Hc); try done; [by left|].
  exists served, w'. split; [done|]. rewrite Hc. assert (0 <= requested served) by (unfold requested; lia). lia.
Qed.
End bound.

(** ** The gate *)

Section gate.
Context {R E : Type} `{RedisLib R, GrpcLib}.
Variables (reg : CallerRegistry) (limits : gmap string CallerConfig) (limiter : RateLimiter).

(** The key a request presents. *)
Definition presented (md : option (gmap string (list string))) : option string :=
  match md with
  | Some md => match default [] (md !! apiKeyHeader) with
               | key :: _ => if String.eqb key "" then None else Some key
               | [] => None
               end
  | None => None
  end.

Lemma authenticate_unknown ctx method w :
  (forall key, presented (ctx_Incoming ctx) = Some key -> Lookup reg key = None) ->
  exists msg, @authenticate R E _ ctx method reg limits limiter w
              = (Err (Status code_Unauthenticated msg []), w).
Proof.
  unfold authenticate, presented, FromIncomingContext. intros Hno. destruct (ctx_Incoming ctx) as [md|]; [|by eexists].
  destruct (default [] _) as [|key ks]; [by eexists|].
  destruct (String.eqb key ""); [by eexists|].
  rewrite (Hno key eq_refl). by eexists.
Qed.

Lemma authenticate_Ok ctx method w caller w' :
  @authenticate R E _ ctx method reg limits limiter w = (Ok caller, w') ->
  exists key, presented (ctx_Incoming ctx) = Some key /\ Lookup reg key = Some caller /\
    is_Some (limits !! c_Name caller).
Proof.
  unfold authenticate, presented, FromIncomingContext. destruct (ctx_Incoming ctx) as [md|]; [|done].
  destruct (default [] _) as [|key ks]; [done|].
  destruct (String.eqb key ""); [done|]. destruct (Lookup reg key) as [c|] eqn:Hl; [|done].
  destruct (limits !! c_Name c) as [limit|] eqn:Hlim; [|done].
  intros Hrun. assert (c = caller) as ->; [|by eauto].
  destruct (String.eqb method _); [|by injection Hrun].
  revert Hrun. rewrite run_bind. destruct (run (on_cache _) w) as [[[x b]|e] w1]; [|done].
  destruct b; [by intros [= ->]|done].
Qed.

Lemma authenticate_engine ctx method w :
  e_engine (w_data (snd (@authenticate R E _ ctx method reg limits limiter w))) = e_engine (w_data w) /\
  e_requests (w_data (snd (@authenticate R E _ ctx method reg limits limiter w))) = e_requests (w_data w).
Proof.
  unfold authenticate. destruct (FromIncomingContext ctx) as [md|]; [|done].
  destruct (default [] _) as [|key ks]; [done|].
  destruct (String.eqb key ""); [done|]. destruct (Lookup reg key) as [c|]; [|done].
  destruct (limits !! c_Name c) as [limit|]; [|done].
  destruct (String.eqb method _); [|done].
  rewrite run_bind. unfold on_cache. rewrite (run_zoom e_redis _).
  destruct (run (Allow _ _ _) _) as [[[x b]|e] w1]; [|done]. by destruct b.
Qed.

(** C28: a request without a registered key touches nothing: it ends with
    UNAUTHENTICATED, the handler does not run, no Redis or engine call is
    made, and it is counted under no caller name. *)
Theorem UnaryAuth_unauthenticated {A} metrics ctx method (handler : Context -> M (edge R E) A) w :
  (forall key, presented (ctx_Incoming ctx) = Some key -> Lookup reg key = None) ->
  exists msg,
    UnaryAuth reg limits limiter metrics ctx method handler w =
    (Err (Status code_Unauthenticated msg []),
     World (MkEdge (e_redis (w_data w)) (e_engine (w_data w))
              (e_requests (w_data w) ++ (if metrics : bool then [(code_String code_Unauthenticated, None)] else []))
              (e_header (w_data w)))
       (w_clock w) (w_sched w)).
Proof.
  intros Hno. destruct (authenticate_unknown ctx method w Hno) as [msg Hauth].
  exists msg. unfold UnaryAuth. rewrite bind_try, Hauth. cbn [fst snd].
  unfold count_request. destruct metrics; [done|]. cbn.
  rewrite app_nil_r. by destruct w as [[]].
Qed.

(** What a run that was answered, or that changed the engine, went through. *)
Lemma UnaryAuth_gate {A} metrics ctx method (handler : Context -> M (edge R E) A) w :
  let run := UnaryAuth reg limits limiter metrics ctx method handler w in
  is_ok (fst run) = true \/ e_engine (w_data (snd run)) <> e_engine (w_data w) ->
  exists key caller w1,
    presented (ctx_Incoming ctx) = Some key /\ Lookup reg key = Some caller /\ is_Some (limits !! c_Name caller) /\
    e_engine (w_data w1) = e_engine (w_data w) /\
    fst run = fst (handler (WithCaller ctx caller) w1) /\
    e_engine (w_data (snd run)) = e_engine (w_data (snd (handler (WithCaller ctx caller) w1))).
Proof.
  cbn zeta. unfold UnaryAuth. rewrite !bind_try.
  pose proof (authenticate_engine ctx method w) as [Heng _].
  pose proof (authenticate_Ok ctx method w) as Hok.
  destruct (authenticate _ _ _ _ _ w) as [[caller|e] w1]; cbn [fst snd] in *.
  - intros _. destruct (Hok caller w1 eq_refl) as (key & Hp & Hl & Hlim).
    exists key, caller, w1. rewrite !bind_try. split_and!; try done.
    + destruct (handler (WithCaller ctx caller) w1) as [[a|e] w2]; unfold count_request; by destruct metrics.
    + destruct (handler (WithCaller ctx caller) w1) as [[a|e] w2]; unfold count_request; by destruct metrics.
  - intros Hrun. exfalso. revert Hrun. unfold count_request.
    destruct metrics; cbn; intros [?|Hne]; done.
Qed.

(** C29: the handler only ever runs for the caller the presented key belongs to:
    if a request changed the engine or was answered, its key is registered,
    the caller has a budget, and the answer and the engine are those the
    handler gave for that caller. *)
Theorem UnaryAuth_authenticated {A} metrics ctx method (handler : Context -> M (edge R E) A) w :
  let run := UnaryAuth reg limits limiter metrics ctx method handler w in
  is_ok (fst run) = true \/ e_engine (w_data (snd run)) <> e_engine (w_data w) ->
  exists key caller w1,
    presented (ctx_Incoming ctx) = Some key /\ Lookup reg key = Some caller /\ is_Some (limits !! c_Name caller) /\
    e_engine (w_data w1) = e_engine (w_data w) /\
    fst run = fst (handler (WithCaller ctx caller) w1) /\
    e_engine (w_data (snd run)) = e_engine (w_data (snd (handler (WithCaller ctx caller) w1))).
Proof. apply UnaryAuth_gate. Qed.

(** The limiter fails open: when Redis is absent or the counter cannot be
    read, the request is allowed and no wait is suggested. *)
Theorem Allow_fails_open rdb_up caller limit (w : world R) n e sch :
  rdb_up = false \/ w_sched w = Tick n (FailBefore e) :: sch \/ w_sched w = Tick n (FailAfter e) :: sch ->
  fst (Allow rdb_up caller limit w) = Ok (0, true).
Proof.
  unfold Allow. intros [-> | Hs]; [done|]. destruct rdb_up; [|done]. cbn [negb].
  rewrite bind_now, bind_try. unfold Incr. rewrite run_remote. unfold call.
  destruct Hs as [-> | ->]; cbn; [done|]. by destruct (rd_incr _ _ _).
Qed.
End gate.

(** The configuration check does not ask for distinct digests: two callers with
    one digest pass it, and the registry then knows only the later one, so
    that every event of the earlier is refused as from an unknown caller. *)
Theorem duplicate_digest_hides_caller :
  exists c1 c2 : CallerConfig,
    callers_errors ∅ [c1; c2] = [] /\
    KnownCaller (NewCallerRegistry [c1; c2]) (Name c1) = false /\
    KnownCaller (NewCallerRegistry [c1; c2]) (Name c2) = true.
Proof.
  exists demo_caller, (MkCaller "payroll" demo_hash (MkRateLimit 100 Second) {["invoice" := "invoice@1"]}).
  split_and!; vm_compute; reflexivity.
Qed.

(** ** Concrete runs *)

#[local] Instance demo_grpc : GrpcLib := format_int.

Definition demo_registry_callers : list CallerConfig := [demo_caller; demo_caller2].

Lemma demo_digests_distinct : NoDup (map APIKeyHash demo_registry_callers).
Proof. apply (bool_decide_unpack _). vm_compute. exact I. Qed.

Lemma registry_correct_witness :
  KnownCaller (NewCallerRegistry demo_registry_callers) "payroll" = true.
Proof.
  destruct (registry_correct demo_registry_callers demo_digests_distinct) as [_ Hk].
  apply Hk. right. left.
Defined.

(** Three requests against a budget of two, then one of the next window. *)
Definition demo_limit (_ : string) : CallerConfig := MkCaller "expense" demo_hash (MkRateLimit 2 Minute) ∅.
Definition demo_reqs : list (N * string) :=
  [(0, "expense"); (5, "payroll"); (5, "expense"); (5, "expense"); (60000000000, "expense")]%N.

Lemma rate_limit_exact_witness :
  exists served w',
    serve demo_limit demo_reqs (World (∅ : keyspace) 7 []) = (Ok served, w') /\
    let_through "expense" 0 served = Z.min (requested "expense" 0 served) 2.
Proof.
  apply (rate_limit_exact demo_limit "expense" 0 1000000000).
  - cbn. unfold Minute, Second. lia.
  - split; [lia | vm_compute; discriminate].
  - reflexivity.
  - constructor.
  - cbn. lia.
  - cbn. lia.
  - intros t _. reflexivity.
  - cbn. lia.
  - repeat constructor.
Defined.

Example demo_served :
  match fst (serve demo_limit demo_reqs (World (∅ : keyspace) 7 [])) with
  | Ok l => map snd l
  | Err _ => []
  end = [true; true; true; false; true].
Proof. vm_compute. reflexivity. Qed.

Definition demo_edge : world (edge keyspace Z) := World (MkEdge ∅ 0 [] []) 7 [].
Definition demo_handler (ctx : Context) : M (edge keyspace Z) string :=
  do! on_engine (modify (Z.add 1)) in ret (default "" (c_Name <$> CallerFromContext ctx)).
Definition demo_md (key : string) : option (gmap string (list string)) := Some {[apiKeyHeader := [key]]}.

Lemma UnaryAuth_unauthenticated_witness :
  exists msg,
    fst (UnaryAuth (NewCallerRegistry demo_registry_callers) (caller_limits demo_registry_callers)
           (MkLimiter true) true (incoming (demo_md "wrong")) SubmitDocument_FullMethodName demo_handler demo_edge)
    = Err (Status code_Unauthenticated msg []).
Proof.
  destruct (UnaryAuth_unauthenticated (NewCallerRegistry demo_registry_callers)
    (caller_limits demo_registry_callers) (MkLimiter true) true (incoming (demo_md "wrong"))
    SubmitDocument_FullMethodName demo_handler demo_edge) as [msg Hrun].
  - intros key Hk. assert (key = "wrong") as -> by (vm_compute in Hk; congruence).
    vm_compute. reflexivity.
  - exists msg. exact (f_equal fst Hrun).
Defined.

(** The digest of [demo_caller] is that of the key "test". *)
Lemma UnaryAuth_authenticated_witness :
  exists key caller,
    presented (demo_md "test") = Some key /\
    Lookup (NewCallerRegistry demo_registry_callers) key = Some caller.
Proof.
  destruct (UnaryAuth_authenticated (NewCallerRegistry demo_registry_callers)
    (caller_limits demo_registry_callers) (MkLimiter true) true (incoming (demo_md "test"))
    SubmitDocument_FullMethodName demo_handler demo_edge) as (key & caller & w1 & Hp & Hl & _).
  - left. vm_compute. reflexivity.
  - exists key, caller. split; [exact Hp | exact Hl].
Defined.

Lemma Allow_fails_open_witness :
  fst (Allow true (caller_of demo_caller) demo_caller
         (World (∅ : keyspace) 7 [Tick 3 (FailBefore (External "timeout"))])) = Ok (0, true).
Proof. apply (Allow_fails_open true _ _ _ 3 (External "timeout") []). right. left. reflexivity. Defined.
