(* ===== verification/Proto.v ===== *)
(** * The messages of Kontrak A: [contract/ocr/gateway/v1]

    The structs of the generated messages, whose pointer fields may be nil and
    whose getters are nil-safe, and the generated server handlers.  The
    messages of Kontrak B are the platform's: a class of their getters. *)
From S2P Require Import Prelude Constant.
From Stdlib Require Import SpecFloat.

(** A [float64]; nothing computes with it here. *)
Definition float64 : Type := spec_float.
Definition float64_zero : float64 := S754_zero false.

(** A nil-safe getter: the field, or the zero value of a nil message. *)
Definition get {M A : Type} (zero : A) (field : M -> A) (x : option M) : A :=
  match x with Some m => field m | None => zero end.

(** Enums are 32-bit integers. *)
Definition DOCUMENT_STATUS_UNSPECIFIED : Z := 0.
Definition DOCUMENT_STATUS_QUEUED : Z := 1.
Definition DOCUMENT_STATUS_PROCESSING : Z := 2.
Definition DOCUMENT_STATUS_COMPLETED : Z := 3.
Definition DOCUMENT_STATUS_NEEDS_REVIEW : Z := 4.
Definition DOCUMENT_STATUS_FAILED : Z := 5.

Module Gatewaypb.

Record FileSource := MkFileSource {
  Bucket : string;
  StoragePath : string;
  SizeBytes : Z;
  DeclaredMime : string;
}.
Definition GetBucket := get "" Bucket.
Definition GetStoragePath := get "" StoragePath.
Definition GetSizeBytes := get 0 SizeBytes.
Definition GetDeclaredMime := get "" DeclaredMime.

Record SubmitDocumentRequest := MkSubmitRequest {
  IdempotencyKey : string;
  ExternalRef : string;
  DocType : string;
  Source : option FileSource;
}.
Definition GetIdempotencyKey := get "" IdempotencyKey.
Definition GetExternalRef := get "" ExternalRef.
Definition GetDocType := get "" DocType.
Definition GetSource := get None Source.

Record SubmitDocumentResponse := MkSubmitResponse { sub_DocumentId : string; sub_Status : Z }.

Record GetDocumentRequest := MkGetRequest { req_DocumentId : string }.
Definition GetDocumentId := get "" req_DocumentId.

Record BoundingBox := MkBox { X1 : Z; Y1 : Z; X2 : Z; Y2 : Z }.

Record ExtractedField := MkField {
  Name : string;
  Value : string;
  Amount : Z;
  Currency : string;
  Confidence : float64;
  f_Status : Z;
  Bbox : option BoundingBox;
  Page : Z;
}.

Record Issue := MkIssue { i_Code : string; i_Field : string; i_Detail : string }.

Record DocumentResult := MkResult {
  SchemaVersion : string;
  AvgConfidence : float64;
  Fields : list ExtractedField;
  Issues : list Issue;
}.

Record Error := MkError { e_Code : string; e_Message : string }.

Record GetDocumentResponse := MkGetResponse {
  DocumentId : string;
  Status : Z;
  Result : option DocumentResult;
  Err : option Error;
}.

End Gatewaypb.

(** ** The messages of Kontrak B

    What the gateway reads of the platform's messages: their getters.  A value
    of a message type is a pointer the getter is called on. *)
Class OcrPb := {
  O_SubmitResponse : Type;
  o_sub_DocumentId : O_SubmitResponse -> string;
  o_sub_Status : O_SubmitResponse -> Z;
  O_Response : Type;
  o_DocumentId : O_Response -> string;
  o_Status : O_Response -> Z;
  O_Result : Type;
  o_Result : O_Response -> option O_Result;
  O_Error : Type;
  o_Error : O_Response -> option O_Error;
  o_SchemaVersion : O_Result -> string;
  o_AvgConfidence : O_Result -> float64;
  O_Field : Type;
  o_Fields : O_Result -> list O_Field;
  o_Name : O_Field -> string;
  o_Value : O_Field -> string;
  o_Amount : O_Field -> Z;
  o_Currency : O_Field -> string;
  o_Confidence : O_Field -> float64;
  o_f_Status : O_Field -> Z;
  O_Box : Type;
  o_Bbox : O_Field -> option O_Box;
  o_Page : O_Field -> Z;
  o_X1 : O_Box -> Z;
  o_Y1 : O_Box -> Z;
  o_X2 : O_Box -> Z;
  o_Y2 : O_Box -> Z;
  O_Issue : Type;
  o_Issues : O_Result -> list O_Issue;
  o_i_Code : O_Issue -> string;
  o_i_Field : O_Issue -> string;
  o_i_Detail : O_Issue -> string;
  o_e_Code : O_Error -> string;
  o_e_Message : O_Error -> string;
}.

(** The shape the two contracts share: Kontrak A's own messages. *)
Definition same_shape : OcrPb := {|
  O_SubmitResponse := Gatewaypb.SubmitDocumentResponse;
  o_sub_DocumentId := Gatewaypb.sub_DocumentId; o_sub_Status := Gatewaypb.sub_Status;
  O_Response := Gatewaypb.GetDocumentResponse;
  o_DocumentId := Gatewaypb.DocumentId; o_Status := Gatewaypb.Status;
  O_Result := Gatewaypb.DocumentResult; o_Result := Gatewaypb.Result;
  O_Error := Gatewaypb.Error; o_Error := Gatewaypb.Err;
  o_SchemaVersion := Gatewaypb.SchemaVersion; o_AvgConfidence := Gatewaypb.AvgConfidence;
  O_Field := Gatewaypb.ExtractedField; o_Fields := Gatewaypb.Fields;
  o_Name := Gatewaypb.Name; o_Value := Gatewaypb.Value; o_Amount := Gatewaypb.Amount;
  o_Currency := Gatewaypb.Currency; o_Confidence := Gatewaypb.Confidence;
  o_f_Status := Gatewaypb.f_Status; O_Box := Gatewaypb.BoundingBox; o_Bbox := Gatewaypb.Bbox;
  o_Page := Gatewaypb.Page; o_X1 := Gatewaypb.X1; o_Y1 := Gatewaypb.Y1; o_X2 := Gatewaypb.X2;
  o_Y2 := Gatewaypb.Y2; O_Issue := Gatewaypb.Issue; o_Issues := Gatewaypb.Issues;
  o_i_Code := Gatewaypb.i_Code; o_i_Field := Gatewaypb.i_Field; o_i_Detail := Gatewaypb.i_Detail;
  o_e_Code := Gatewaypb.e_Code; o_e_Message := Gatewaypb.e_Message;
|}.
