(* ===== verification/Gateway.v ===== *)
(** * Submitting and polling documents: [internal/service/gateway],
    [internal/contract] and [internal/handler/grpc]

    The gateway service, the adapter to the engine, and the gRPC handler that
    maps requests to it and its errors to statuses. *)
From S2P Require Import Prelude Utf8 Redis Constant Config Auth Proto.

(** ** Errors of the gateway *)

Definition ErrUnknownDocType : error := Platform "DOC_TYPE_UNKNOWN" 400 "unknown doc_type for this caller".
Definition ErrMissingField : error := Platform "MISSING_FIELD" 400 "required field missing".

(** ** Inputs and outputs *)

Record FileSource := MkSource {
  Bucket : string;
  StoragePath : string;
  SizeBytes : Z;
  DeclaredMime : string;
}.

Record SubmitInput := MkSubmit {
  IdempotencyKey : string;
  ExternalRef : string;
  DocType : string;
  Source : FileSource;
}.

Record SubmitOutput := MkSubmitted { out_DocumentID : string; out_Status : Z }.

Record GetInput := MkGet { in_DocumentID : string }.
Record GetOutput `{OcrPb} := MkGot { out_Response : option O_Response }.
Arguments MkGot {_} _.
Arguments out_Response {_} _.

(** [contract.SubmitInput], and the request it becomes on the wire. *)
Record EngineSubmit := MkEngineSubmit {
  en_IdempotencyKey : string;
  en_ExternalRef : string;
  en_SchemaID : string;
  en_CallerID : string;
  en_Bucket : string;
  en_StoragePath : string;
  en_SizeBytes : Z;
  en_DeclaredMime : string;
}.

(** The engine: its answer to a request at a time, [None] being a nil
    response. *)
Class OcrEngine (E : Type) `{OcrPb} := {
  eng_Submit : EngineSubmit -> Z -> E -> result (option O_SubmitResponse) * E;
  eng_Get : string -> Z -> E -> result (option O_Response) * E;
}.

(** [contract.Client]: the engine as the gateway sees it. *)
Record Client (E : Type) `{OcrPb} := MkOcrClient {
  ocr_SubmitDocument : EngineSubmit -> M E (option O_SubmitResponse);
  ocr_GetDocument : string -> M E (option O_Response);
}.
Arguments MkOcrClient {E _} _ _.
Arguments ocr_SubmitDocument {E _} _ _.
Arguments ocr_GetDocument {E _} _ _.

(** [grpcOcrClient]: one call, its error returned as it is. *)
Section client.
Context {E : Type} `{OcrEngine E}.

Definition grpc_SubmitDocument (req : EngineSubmit) : M E (option O_SubmitResponse) := remote (eng_Submit req).
Definition grpc_GetDocument (documentID : string) : M E (option O_Response) := remote (eng_Get documentID).

Definition NewGRPCOcrClient : Client E := MkOcrClient grpc_SubmitDocument grpc_GetDocument.
End client.

(** [gateway.Service]. *)
Record Service (E : Type) `{OcrPb} := MkService {
  svc_Submit : Context -> SubmitInput -> M E SubmitOutput;
  svc_Get : Context -> GetInput -> M E GetOutput;
}.
Arguments MkService {E _} _ _.
Arguments svc_Submit {E _} _ _ _.
Arguments svc_Get {E _} _ _ _.

Section service.
Context {E : Type} `{OcrPb}.

Record gatewayService := MkGatewayService { ocr : Client E }.

(** What the engine is asked for a submit. *)
Definition engine_request (caller : Caller) (schemaID : string) (input : SubmitInput) : EngineSubmit :=
  MkEngineSubmit (IdempotencyKey input) (ExternalRef input) schemaID (c_Name caller)
    (Bucket (Source input)) (StoragePath (Source input)) (SizeBytes (Source input))
    (DeclaredMime (Source input)).

(** [gatewayService.Submit]. *)
Definition Submit (s : gatewayService) (ctx : Context) (input : SubmitInput) : M E SubmitOutput :=
  match CallerFromContext ctx with
  | None => throw (errors_New "no authenticated caller in context")
  | Some caller =>
      if negb (nonempty (IdempotencyKey input)) || negb (nonempty (ExternalRef input))
         || negb (nonempty (Bucket (Source input))) || negb (nonempty (StoragePath (Source input)))
      then throw ErrMissingField
      else match c_DocTypes caller !! DocType input with
      | None => throw ErrUnknownDocType
      | Some schemaID =>
          let! resp := ocr_SubmitDocument (ocr s) (engine_request caller schemaID input) in
          ret (MkSubmitted (get "" o_sub_DocumentId resp) (get 0 o_sub_Status resp))
      end
  end.

(** [gatewayService.Get]. *)
Definition Get (s : gatewayService) (ctx : Context) (input : GetInput) : M E GetOutput :=
  if is_blank (in_DocumentID input) then throw ErrMissingField
  else
    let! resp := ocr_GetDocument (ocr s) (in_DocumentID input) in
    ret (MkGot resp).

Definition NewService (ocr : Client E) : Service E :=
  let s := MkGatewayService ocr in MkService (Submit s) (Get s).

(** ** The gRPC handler *)

Definition convertSubmitStatus (s : Z) : Z := int32 s.

Definition convert_field (f : O_Field) : Gatewaypb.ExtractedField :=
  Gatewaypb.MkField (o_Name f) (o_Value f) (o_Amount f) (o_Currency f) (o_Confidence f)
    (int32 (o_f_Status f))
    ((fun b => Gatewaypb.MkBox (o_X1 b) (o_Y1 b) (o_X2 b) (o_Y2 b)) <$> o_Bbox f)
    (o_Page f).

Definition convert_result (r : O_Result) : Gatewaypb.DocumentResult :=
  Gatewaypb.MkResult (o_SchemaVersion r) (o_AvgConfidence r) (map convert_field (o_Fields r))
    (map (fun i => Gatewaypb.MkIssue (o_i_Code i) (o_i_Field i) (o_i_Detail i)) (o_Issues r)).

Definition convertGetDocumentResponse (x : option O_Response) : option Gatewaypb.GetDocumentResponse :=
  match x with
  | None => None
  | Some x =>
      Some (Gatewaypb.MkGetResponse (o_DocumentId x) (convertSubmitStatus (o_Status x))
              (convert_result <$> o_Result x)
              ((fun e => Gatewaypb.MkError (o_e_Code e) (o_e_Message e)) <$> o_Error x))
  end.

Definition fromHTTPStatus (httpStatus : Z) : Z :=
  match httpStatus with
  | 400 => code_InvalidArgument
  | 401 => code_Unauthenticated
  | 403 => code_PermissionDenied
  | 404 => code_NotFound
  | 409 => code_AlreadyExists
  | 408 => code_DeadlineExceeded
  | 429 => code_ResourceExhausted
  | 501 => code_Unimplemented
  | 503 => code_Unavailable
  | 504 => code_DeadlineExceeded
  | _ => code_Unknown
  end.

Definition toStatus (err : error) : error :=
  match as_platform err with
  | None => err
  | Some (_, status, message) => Status (fromHTTPStatus status) message []
  end.

(** The service input of a wire request. *)
Definition submit_input (req : option Gatewaypb.SubmitDocumentRequest) : SubmitInput :=
  let src := Gatewaypb.GetSource req in
  MkSubmit (Gatewaypb.GetIdempotencyKey req) (Gatewaypb.GetExternalRef req) (Gatewaypb.GetDocType req)
    (MkSource (Gatewaypb.GetBucket src) (Gatewaypb.GetStoragePath src) (Gatewaypb.GetSizeBytes src)
       (Gatewaypb.GetDeclaredMime src)).

Record GatewayServer := MkGatewayServer { svc : Service E }.
Definition NewGatewayServer (svc : Service E) : GatewayServer := MkGatewayServer svc.

(** [GatewayServer.SubmitDocument]. *)
Definition SubmitDocument (s : GatewayServer) (ctx : Context) (req : option Gatewaypb.SubmitDocumentRequest)
    : M E Gatewaypb.SubmitDocumentResponse :=
  match Gatewaypb.GetSource req with
  | None => throw (Status code_InvalidArgument "source is required" [])
  | Some _ =>
      let! out := try (svc_Submit (svc s) ctx (submit_input req)) in
      match out with
      | Err err => throw (toStatus err)
      | Ok out => ret (Gatewaypb.MkSubmitResponse (out_DocumentID out) (convertSubmitStatus (out_Status out)))
      end
  end.

(** [GatewayServer.GetDocument]. *)
Definition GetDocument (s : GatewayServer) (ctx : Context) (req : option Gatewaypb.GetDocumentRequest)
    : M E (option Gatewaypb.GetDocumentResponse) :=
  let! out := try (svc_Get (svc s) ctx (MkGet (Gatewaypb.GetDocumentId req))) in
  match out with
  | Err err => throw (toStatus err)
  | Ok out => ret (convertGetDocumentResponse (out_Response out))
  end.
End service.
Arguments gatewayService E {_}.
Arguments GatewayServer E {_}.

(** ** The RPCs behind the gate *)

Section rpc.
Context {R E : Type} `{RedisLib R, GrpcLib, OcrEngine E}.
Variables (callers : list CallerConfig) (limiter : RateLimiter) (metrics : bool).

(** The engine's client, the service on it ([buildDeps]) and the server on that. *)
Definition buildDeps (ocrClient : Client E) : Service E := NewService ocrClient.
Definition gateway_server : GatewayServer E := NewGatewayServer (buildDeps NewGRPCOcrClient).

(** The generated handlers with the interceptor [NewGRPC] installs. *)
Definition rpc_SubmitDocument (md : option (gmap string (list string)))
    (req : Gatewaypb.SubmitDocumentRequest) : M (edge R E) Gatewaypb.SubmitDocumentResponse :=
  UnaryAuth (NewCallerRegistry callers) (caller_limits callers) limiter metrics (incoming md)
    SubmitDocument_FullMethodName
    (fun ctx => on_engine (SubmitDocument gateway_server ctx (Some req))).

Definition rpc_GetDocument (md : option (gmap string (list string)))
    (req : Gatewaypb.GetDocumentRequest) : M (edge R E) (option Gatewaypb.GetDocumentResponse) :=
  UnaryAuth (NewCallerRegistry callers) (caller_limits callers) limiter metrics (incoming md)
    GetDocument_FullMethodName
    (fun ctx => on_engine (GetDocument gateway_server ctx (Some req))).
End rpc.
