(* ===== verification/GatewayFacts.v ===== *)
(** * Theorems on submitting and polling documents

    What the gateway answers itself and what it forwards; that what it forwards
    carries the verified caller and nothing is changed on the way back; and the
    two RPCs end to end, behind the gate. *)
From S2P Require Import Prelude Utf8 GoTime Sha256 Redis Constant Config ConfigFacts Auth AuthFacts Proto Gateway.

(** ** Submitting *)

(** The handler on the service, over any client of the engine. *)
Section submit.
Context {E : Type} `{OcrPb}.
Variable client : Client E.

#[local] Abbreviation server := (NewGatewayServer (NewService client)).

(** A wire request that names everything the engine needs, for a document type
    configured for the caller. *)
Record acceptable (caller : Caller) (req : Gatewaypb.SubmitDocumentRequest)
    (src : Gatewaypb.FileSource) (schema : string) : Prop := {
  ac_source : Gatewaypb.Source req = Some src;
  ac_key : Gatewaypb.IdempotencyKey req <> "";
  ac_ref : Gatewaypb.ExternalRef req <> "";
  ac_bucket : Gatewaypb.Bucket src <> "";
  ac_path : Gatewaypb.StoragePath src <> "";
  ac_type : c_DocTypes caller !! Gatewaypb.DocType req = Some schema;
}.

(** What the engine receives for it: the fields as they came, the schema of the
    document type, and the caller's verified name. *)
Definition forwarded (caller : Caller) (req : Gatewaypb.SubmitDocumentRequest)
    (src : Gatewaypb.FileSource) (schema : string) : EngineSubmit :=
  MkEngineSubmit (Gatewaypb.IdempotencyKey req) (Gatewaypb.ExternalRef req) schema (c_Name caller)
    (Gatewaypb.Bucket src) (Gatewaypb.StoragePath src) (Gatewaypb.SizeBytes src)
    (Gatewaypb.DeclaredMime src).

Lemma missing_field_iff (input : SubmitInput) :
  negb (nonempty (IdempotencyKey input)) || negb (nonempty (ExternalRef input))
    || negb (nonempty (Bucket (Source input))) || negb (nonempty (StoragePath (Source input))) = false <->
  IdempotencyKey input <> "" /\ ExternalRef input <> "" /\
  Bucket (Source input) <> "" /\ StoragePath (Source input) <> "".
Proof. rewrite !orb_false_iff, !nonempty_false. tauto. Qed.

(** The two cases of a submit. *)
Lemma SubmitDocument_cases ctx caller req (w : world E) :
  CallerFromContext ctx = Some caller ->
  (exists src schema, acceptable caller req src schema /\
     SubmitDocument server ctx (Some req) w =
     match ocr_SubmitDocument client (forwarded caller req src schema) w with
     | (Ok resp, w') => (Ok (Gatewaypb.MkSubmitResponse (get "" o_sub_DocumentId resp)
                               (int32 (get 0 o_sub_Status resp))), w')
     | (Err e, w') => (Err (toStatus e), w')
     end) \/
  ((forall src schema, ~ acceptable caller req src schema) /\
   exists msg, msg ∈ ["source is required"; "required field missing"; "unknown doc_type for this caller"] /\
     SubmitDocument server ctx (Some req) w = (Err (Status code_InvalidArgument msg []), w)).
Proof.
  intros Hcaller. unfold SubmitDocument. destruct (Gatewaypb.GetSource (Some req)) as [src|] eqn:Hsrc.
  2:{ right. split; [|by eexists; split; [left|]].
      intros src schema [Hs _ _ _ _ _]. cbn in Hsrc. congruence. }
  rewrite bind_try. cbn [svc svc_Submit NewGatewayServer NewService]. unfold Submit. rewrite Hcaller.
  destruct (negb (nonempty (IdempotencyKey (submit_input (Some req)))) || _ || _ || _) eqn:Hmiss.
  { right. split; [|eexists; split; [right; left | reflexivity]].
    intros src' schema [Hs ? ? ? ? _]. cbn in Hsrc. rewrite Hsrc in Hs. injection Hs as <-.
    enough (false = true) by done. rewrite <- Hmiss. symmetry. apply missing_field_iff.
    unfold submit_input. cbn. by rewrite Hsrc. }
  apply missing_field_iff in Hmiss as (Hk & Hr & Hb & Hp).
  destruct (c_DocTypes caller !! DocType (submit_input (Some req))) as [schema|] eqn:Hdt.
  - left. exists src, schema. unfold submit_input in Hb, Hp. cbn in Hb, Hp, Hsrc. rewrite Hsrc in Hb, Hp.
    split; [by constructor|]. rewrite !run_bind.
    assert (engine_request caller schema (submit_input (Some req)) = forwarded caller req src schema) as ->.
    { unfold engine_request, submit_input, forwarded. cbn. by rewrite Hsrc. }
    cbn [ocr]. by destruct (run (ocr_SubmitDocument client _) w) as [[resp|e] w'].
  - right. split; [|eexists; split; [right; right; left | reflexivity]].
    intros src' schema [_ _ _ _ _ Ht]. cbn in Hdt. congruence.
Qed.

Lemma acceptable_unique caller req src schema src' schema' :
  acceptable caller req src schema -> acceptable caller req src' schema' -> src' = src /\ schema' = schema.
Proof. intros [] []. split; congruence. Qed.

(** C30: a submit is either forwarded or answered at the door.  An acceptable
    request makes exactly one engine call, with its fields as they came, the
    schema mapped from the caller's document type and the caller's verified
    name, and the engine's answer, or its error with its meaning, is the
    answer.  Any other request ends INVALID_ARGUMENT and nothing is called; and
    nothing is called for a request without a caller in its context. *)
Theorem SubmitDocument_spec ctx req (w : world E) :
  (forall caller, CallerFromContext ctx = Some caller ->
     (forall src schema, acceptable caller req src schema ->
        SubmitDocument server ctx (Some req) w =
        match ocr_SubmitDocument client (forwarded caller req src schema) w with
        | (Ok resp, w') => (Ok (Gatewaypb.MkSubmitResponse (get "" o_sub_DocumentId resp)
                                  (int32 (get 0 o_sub_Status resp))), w')
        | (Err e, w') => (Err (toStatus e), w')
        end) /\
     ((forall src schema, ~ acceptable caller req src schema) ->
        exists msg, SubmitDocument server ctx (Some req) w = (Err (Status code_InvalidArgument msg []), w))) /\
  (CallerFromContext ctx = None -> exists e, SubmitDocument server ctx (Some req) w = (Err e, w)).
Proof.
  split.
  - intros caller Hcaller. destruct (SubmitDocument_cases ctx caller req w Hcaller)
      as [(src & schema & Hac & Hrun) | (Hno & msg & _ & Hrun)].
    + split; [|by intros Hno; destruct (Hno src schema)].
      intros src' schema' Hac'. by destruct (acceptable_unique _ _ _ _ _ _ Hac Hac') as [-> ->].
    + split; [|by eexists]. intros src schema Hac. by destruct (Hno src schema).
  - intros Hno. unfold SubmitDocument. destruct (Gatewaypb.GetSource _); [|by eexists].
    rewrite bind_try. cbn [svc svc_Submit NewGatewayServer NewService]. unfold Submit. rewrite Hno. by eexists.
Qed.
End submit.

(** ** Errors *)

(** An error that carries no platform error, as every status the engine
    returns, passes [toStatus] as it is; a platform error, however deeply it is
    wrapped, becomes the gRPC status of its HTTP status with its message. *)
Theorem toStatus_spec e :
  (as_platform e = None -> toStatus e = e) /\
  (forall code http msg, as_platform e = Some (code, http, msg) ->
     as_status (toStatus e) = Some (fromHTTPStatus http, (msg, []))) /\
  (forall http, fromHTTPStatus http <> code_OK) /\
  toStatus ErrMissingField = Status code_InvalidArgument "required field missing" [] /\
  toStatus ErrUnknownDocType = Status code_InvalidArgument "unknown doc_type for this caller" [].
Proof.
  split_and!; try done.
  - unfold toStatus. by intros ->.
  - unfold toStatus. by intros code http msg ->.
  - intros http. unfold fromHTTPStatus. repeat case_match; done.
Qed.

(** ** Polling *)

Section convert.
Context `{OcrPb}.

(** The answer of one contract read with the getters of the other. *)
Definition same_box (b : O_Box) (b' : Gatewaypb.BoundingBox) : Prop :=
  Gatewaypb.X1 b' = o_X1 b /\ Gatewaypb.Y1 b' = o_Y1 b /\
  Gatewaypb.X2 b' = o_X2 b /\ Gatewaypb.Y2 b' = o_Y2 b.

Definition same_field (f : O_Field) (f' : Gatewaypb.ExtractedField) : Prop :=
  Gatewaypb.Name f' = o_Name f /\ Gatewaypb.Value f' = o_Value f /\
  Gatewaypb.Amount f' = o_Amount f /\ Gatewaypb.Currency f' = o_Currency f /\
  Gatewaypb.Confidence f' = o_Confidence f /\ Gatewaypb.f_Status f' = o_f_Status f /\
  option_Forall2 same_box (o_Bbox f) (Gatewaypb.Bbox f') /\ Gatewaypb.Page f' = o_Page f.

Definition same_issue (i : O_Issue) (i' : Gatewaypb.Issue) : Prop :=
  Gatewaypb.i_Code i' = o_i_Code i /\ Gatewaypb.i_Field i' = o_i_Field i /\
  Gatewaypb.i_Detail i' = o_i_Detail i.

Definition same_result (r : O_Result) (r' : Gatewaypb.DocumentResult) : Prop :=
  Gatewaypb.SchemaVersion r' = o_SchemaVersion r /\ Gatewaypb.AvgConfidence r' = o_AvgConfidence r /\
  Forall2 same_field (o_Fields r) (Gatewaypb.Fields r') /\
  Forall2 same_issue (o_Issues r) (Gatewaypb.Issues r').

Definition same_error (e : O_Error) (e' : Gatewaypb.Error) : Prop :=
  Gatewaypb.e_Code e' = o_e_Code e /\ Gatewaypb.e_Message e' = o_e_Message e.

Definition same_answer (x : O_Response) (x' : Gatewaypb.GetDocumentResponse) : Prop :=
  Gatewaypb.DocumentId x' = o_DocumentId x /\ Gatewaypb.Status x' = o_Status x /\
  option_Forall2 same_result (o_Result x) (Gatewaypb.Result x') /\
  option_Forall2 same_error (o_Error x) (Gatewaypb.Err x').

(** The enums of an answer are 32-bit integers, as their Go types are. *)
Definition is_int32 (z : Z) : Prop := -2147483648 <= z < 2147483648.
Definition enums_in_range (x : O_Response) : Prop :=
  is_int32 (o_Status x) /\
  forall r, o_Result x = Some r -> Forall (fun f => is_int32 (o_f_Status f)) (o_Fields r).

Lemma option_Forall2_fmap {A B} (R : A -> B -> Prop) (f : A -> B) o :
  (forall a, o = Some a -> R a (f a)) -> option_Forall2 R o (f <$> o).
Proof. destruct o; intros Hf; constructor. by apply Hf. Qed.

Lemma Forall2_map_r {A B} (R : A -> B -> Prop) (f : A -> B) l :
  Forall (fun a => R a (f a)) l -> Forall2 R l (map f l).
Proof. induction 1; cbn; by constructor. Qed.

Lemma convert_field_same f : is_int32 (o_f_Status f) -> same_field f (convert_field f).
Proof.
  intros Hs. unfold same_field, convert_field; cbn. split_and!; try done.
  - by apply int32_id.
  - by apply option_Forall2_fmap.
Qed.

Lemma convert_result_same r :
  Forall (fun f => is_int32 (o_f_Status f)) (o_Fields r) -> same_result r (convert_result r).
Proof.
  intros Hf. unfold same_result, convert_result; cbn. split_and!; try done.
  - apply Forall2_map_r. eapply list.Forall_impl; [exact Hf|]. apply convert_field_same.
  - apply Forall2_map_r, list.Forall_forall. done.
Qed.

Lemma convert_same x :
  enums_in_range x ->
  exists x', convertGetDocumentResponse (Some x) = Some x' /\ same_answer x x'.
Proof.
  intros [Hs Hr]. eexists. split; [reflexivity|]. unfold same_answer; cbn. split_and!; try done.
  - by apply int32_id.
  - apply option_Forall2_fmap. intros r Hres. by apply convert_result_same, Hr.
  - by apply option_Forall2_fmap.
Qed.
End convert.

Section get.
Context {E : Type} `{OcrPb}.
Variable client : Client E.

#[local] Abbreviation server := (NewGatewayServer (NewService client)).

(** C31: a poll is forwarded untouched: a blank id is answered at the door and
    nothing is called; otherwise the one engine call names the id as it came,
    its error keeps its meaning, and the answer is the engine's answer field
    for field, when the engine answers with 32-bit enums. *)
Theorem GetDocument_transparent ctx id (w : world E) :
  (forall x, fst (ocr_GetDocument client id w) = Ok (Some x) -> enums_in_range x) ->
  let run := GetDocument server ctx (Some (Gatewaypb.MkGetRequest id)) w in
  let call := ocr_GetDocument client id w in
  (is_blank id = true -> run = (Err (Status code_InvalidArgument "required field missing" []), w)) /\
  (is_blank id = false -> snd run = snd call /\
     match fst call, fst run with
     | Ok (Some x), Ok (Some x') => same_answer x x'
     | Ok None, Ok None => True
     | Err e, Err e' => e' = toStatus e
     | _, _ => False
     end).
Proof.
  intros Hrange. cbn zeta. unfold GetDocument. rewrite bind_try.
  change (Gatewaypb.GetDocumentId (Some (Gatewaypb.MkGetRequest id))) with id.
  cbn [svc svc_Get NewGatewayServer NewService]. unfold Get. cbn [in_DocumentID ocr].
  destruct (is_blank id); (split; [intros Hb | intros Hb]); try done. rewrite run_bind.
  destruct (run (ocr_GetDocument client id) w) as [[[x|]|e] w']; cbn [fst snd ret run out_Response]; [|by split|by split].
  destruct (convert_same x (Hrange x eq_refl)) as (x' & -> & Hsame). by split.
Qed.
End get.

(** ** End to end *)

Section rpc.
Context {R E : Type} `{RedisLib R, GrpcLib, OcrEngine E}.
Variables (callers : list CallerConfig) (limiter : RateLimiter) (metrics : bool).

Lemma on_engine_submit ctx caller req (w : world (edge R E)) :
  CallerFromContext ctx = Some caller ->
  let call := on_engine (SubmitDocument gateway_server ctx (Some req)) w in
  e_engine (w_data (snd call)) <> e_engine (w_data w) \/ is_ok (fst call) = true ->
  exists src schema t, acceptable caller req src schema /\
    e_engine (w_data (snd call)) = snd (eng_Submit (forwarded caller req src schema) t (e_engine (w_data w))) /\
    forall resp, fst call = Ok resp ->
      exists x, fst (eng_Submit (forwarded caller req src schema) t (e_engine (w_data w))) = Ok x /\
        resp = Gatewaypb.MkSubmitResponse (get "" o_sub_DocumentId x) (int32 (get 0 o_sub_Status x)).
Proof.
  intros Hcaller. cbn zeta. unfold on_engine. rewrite (run_zoom e_engine _).
  destruct (SubmitDocument_cases NewGRPCOcrClient ctx caller req (part e_engine w) Hcaller)
    as [(src & schema & Hac & Heq) | (_ & msg & _ & Heq)]; unfold gateway_server, buildDeps; rewrite Heq;
    [|by cbn; intros [?|?]]. clear Heq. cbn [ocr_SubmitDocument NewGRPCOcrClient]. unfold grpc_SubmitDocument.
  intros Hrun. exists src, schema.
  destruct (remote_inv (eng_Submit (forwarded caller req src schema))
              (part e_engine w)) as (t & sch & flt & _ & Hrem).
  rewrite Hrem in *. cbn [w_data part] in *. exists t. split; [done|].
  destruct flt; cbn [fst snd w_data e_engine whole] in *.
  - destruct (eng_Submit _ t _) as [[x|e] s]; cbn in *; split; try done.
    intros resp [= <-]. by exists x.
  - by destruct Hrun.
  - by split.
Qed.

(** C10: whatever reaches the engine carries a verified identity: when a submit
    RPC changed the engine or was answered, its key belongs to a configured
    caller, the engine took exactly one submit, with that caller's name, the
    schema configured for the requested type and the request's own fields, and
    an answer of the RPC is the engine's answer to it. *)
Theorem rpc_SubmitDocument_verified md req w :
  let run := rpc_SubmitDocument callers limiter metrics md req w in
  is_ok (fst run) = true \/ e_engine (w_data (snd run)) <> e_engine (w_data w) ->
  exists key c src schema t,
    presented md = Some key /\ c ∈ callers /\ APIKeyHash c = HashAPIKey key /\
    acceptable (caller_of c) req src schema /\
    let taken := eng_Submit (forwarded (caller_of c) req src schema) t (e_engine (w_data w)) in
    e_engine (w_data (snd run)) = snd taken /\
    forall resp, fst run = Ok resp ->
      exists x, fst taken = Ok x /\
        resp = Gatewaypb.MkSubmitResponse (get "" o_sub_DocumentId x) (int32 (get 0 o_sub_Status x)).
Proof.
  cbn zeta. intros Hrun. unfold rpc_SubmitDocument in *.
  destruct (UnaryAuth_gate _ _ _ metrics (incoming md) SubmitDocument_FullMethodName _ w Hrun)
    as (key & caller & w1 & Hp & Hl & _ & He1 & Hfst & Hsnd).
  apply Lookup_Some in Hl as (c & Hc & Hk & ->).
  rewrite Hfst, Hsnd in *. rewrite <- He1 in *.
  destruct (on_engine_submit (WithCaller (incoming md) (caller_of c)) (caller_of c) req w1 eq_refl)
    as (src & schema & t & Hac & Heng & Hok); [tauto|].
  exists key, c, src, schema, t. by split_and!.
Qed.
End rpc.

(** ** Concrete runs *)

#[local] Existing Instance same_shape.

(** An engine that keeps the submits it took and answers polls of one. *)
Definition demo_answer : Gatewaypb.GetDocumentResponse :=
  Gatewaypb.MkGetResponse "doc-1" DOCUMENT_STATUS_COMPLETED
    (Some (Gatewaypb.MkResult "invoice@1" float64_zero
       [Gatewaypb.MkField "total" "12.50" 1250 "EUR" float64_zero 1 (Some (Gatewaypb.MkBox 1 2 3 4)) 1]
       [Gatewaypb.MkIssue "LOW" "total" "blurred"])) None.

#[local] Instance demo_engine : OcrEngine (list EngineSubmit) := {|
  eng_Submit req _ log :=
    (Ok (Some (Gatewaypb.MkSubmitResponse "doc-1" DOCUMENT_STATUS_QUEUED)), log ++ [req]);
  eng_Get id _ log :=
    (if String.eqb id "doc-1" then Ok (Some demo_answer) else Err (Status code_NotFound "document" []), log);
|}.

#[local] Instance demo_codes : GrpcLib := format_int.

Definition demo_request (doctype : string) : Gatewaypb.SubmitDocumentRequest :=
  Gatewaypb.MkSubmitRequest "key-1" "ref-1" doctype
    (Some (Gatewaypb.MkFileSource "bucket" "a/b.pdf" 1024 "application/pdf")).

Definition demo_gateway : world (edge keyspace (list EngineSubmit)) := World (MkEdge ∅ [] [] []) 7 [].

Lemma rpc_SubmitDocument_verified_witness :
  exists key c, c ∈ [demo_caller] /\ presented (demo_md "test") = Some key /\
    APIKeyHash c = HashAPIKey key.
Proof.
  destruct (rpc_SubmitDocument_verified [demo_caller] (MkLimiter true) true (demo_md "test")
              (demo_request "receipt") demo_gateway) as (key & c & src & schema & t & Hp & Hc & Hk & _).
  - left. vm_compute. reflexivity.
  - exists key, c. split; [exact Hc | split; [exact Hp | exact Hk]].
Defined.

Example rpc_submit_runs :
  let run := rpc_SubmitDocument [demo_caller] (MkLimiter true) true (demo_md "test")
               (demo_request "receipt") demo_gateway in
  fst run = Ok (Gatewaypb.MkSubmitResponse "doc-1" 1) /\
  map (fun r => (en_CallerID r, en_SchemaID r)) (e_engine (w_data (snd run)))
    = [(Name demo_caller, default "" (DocTypes demo_caller !! "receipt"))].
Proof. vm_compute. split; reflexivity. Qed.

Example rpc_submit_refuses :
  let run := rpc_SubmitDocument [demo_caller] (MkLimiter true) true (demo_md "test")
               (demo_request "passport") demo_gateway in
  fst run = Err (Status code_InvalidArgument "unknown doc_type for this caller" []) /\
  e_engine (w_data (snd run)) = [].
Proof. vm_compute. split; reflexivity. Qed.

Definition demo_handler_server : GatewayServer (list EngineSubmit) := NewGatewayServer (NewService NewGRPCOcrClient).

Lemma GetDocument_transparent_witness :
  fst (GetDocument demo_handler_server (incoming None) (Some (Gatewaypb.MkGetRequest "doc-2")) (World [] 7 []))
  = Err (Status code_NotFound "document" []).
Proof.
  pose proof (GetDocument_transparent NewGRPCOcrClient (incoming None) "doc-2" (World ([] : list EngineSubmit) 7 [])) as Hget.
  cbn zeta in Hget. destruct Hget as [_ Hget].
  - intros x Hx. discriminate Hx.
  - destruct (Hget eq_refl) as [_ Hans]. revert Hans.
    change (fst (ocr_GetDocument NewGRPCOcrClient "doc-2" (World ([] : list EngineSubmit) 7 [])))
      with (@Err (option O_Response) (Status code_NotFound "document" [])). cbv iota.
    unfold demo_handler_server. destruct (fst (GetDocument _ _ _ _)) as [x|e]; [intros [] | intros ->; reflexivity].
Defined.

Example demo_poll :
  fst (GetDocument demo_handler_server (incoming None) (Some (Gatewaypb.MkGetRequest "doc-1")) (World [] 7 []))
  = Ok (Some demo_answer).
Proof. vm_compute. reflexivity. Qed.
