(* ===== verification/App.v ===== *)
(** * What the binaries share at boot: [internal/app]

    The connections they open and how each one that fails is treated. *)
From S2P Require Import Prelude Config.

(** Where the binary comes from: stamped at link time, or a local build. *)
Record provenance := MkProvenance { version : string; commit : string; buildDate : string }.
Definition unstamped : provenance := MkProvenance "dev" "none" "unknown".

(** [buildInfo]: the log group a binary starts with. *)
Definition buildInfo (b : provenance) : list (string * string) :=
  [("version", version b); ("commit", commit b); ("date", buildDate b)].

(** A connection being opened: it takes time and may fail. *)
Definition dial {S : Type} : M S unit := remote (fun _ s => (Ok tt, s)).

(** A step of the boot whose error is wrapped in [context]. *)
Definition boot_step {S A : Type} (context : string) (m : M S A) : M S A :=
  let! outcome := try m in
  match outcome with
  | Ok a => ret a
  | Err err => throw (Errorf context [] [err])
  end.

(** [setupRedis]: whether there is a client. *)
Definition setupRedis {S P : Type} (cfg : Config P) : M S bool :=
  let! connected := try dial in
  match connected with
  | Err err =>
      if String.eqb (Mode (Redis cfg)) RedisModeRequired
      then throw (Errorf "connect redis (required): %w" [] [err])
      else ret false
  | Ok _ => ret true
  end.

(** [cfg.Postgres.Migrate], in the platform's section. *)
Class PostgresSettings (P : Type) := Migrate : P -> bool.

(** [postgres.NewPool]; and [postgres.Migrate], which is taken to leave the tables
    as they are: the migrations have been applied. *)
Definition new_pool {S : Type} : M S unit := boot_step "connect postgres: %w" dial.
Definition migrate {S P : Type} `{PostgresSettings P} (cfg : Config P) : M S unit :=
  if Migrate (rest cfg) then boot_step "run migrations: %w" dial else ret tt.
Definition open_postgres {S P : Type} `{PostgresSettings P} (cfg : Config P) : M S unit :=
  do! new_pool in
  migrate cfg.

Definition shutdownCause (signalled : bool) : string :=
  if signalled then "signal" else "listener failure".

(** A context cancelled at a time, if ever: [ctx.Err() != nil] at time [t]. *)
Definition done_at (ctx : option Z) (t : Z) : bool :=
  match ctx with Some c => c <=? t | None => false end.

(** Blocking until a time. *)
Definition sleep_until {S} (t : Z) : M S unit :=
  atomic (fun w => (Ok tt, World (w_data w) (Z.max (w_clock w) t) (w_sched w))).
