(* ===== verification/AppFacts.v ===== *)
(** * Lemmas on the boot of the binaries *)
From S2P Require Import Prelude Config App.

(** ** Runs that leave the data alone *)

Definition idle {S} (w w' : world S) : Prop := w_data w' = w_data w /\ later w w'.

#[export] Instance idle_preorder {S} : PreOrder (@idle S).
Proof.
  split; [intros w; by split|]. intros w1 w2 w3 [H1 L1] [H2 L2].
  split; [congruence | by etransitivity].
Qed.

Lemma idle_dial {S} : within idle (@dial S).
Proof. unfold dial. by apply within_remote. Qed.

Lemma idle_boot_step {S A} what (m : M S A) : within idle m -> within idle (boot_step what m).
Proof.
  intros Hm. unfold boot_step. apply within_bind; [by apply _| |].
  - by apply within_try.
  - intros [a|e]; [apply within_ret | apply within_throw]; apply _.
Qed.

Lemma idle_setupRedis {S P} (cfg : Config P) : within idle (@setupRedis S P cfg).
Proof.
  unfold setupRedis. apply within_bind; [by apply _| |].
  - apply within_try, idle_dial.
  - intros [a|e]; [apply within_ret; apply _|].
    case_match; [apply within_throw | apply within_ret]; apply _.
Qed.

Lemma idle_new_pool {S} : within idle (@new_pool S).
Proof. apply idle_boot_step, idle_dial. Qed.

Lemma idle_migrate {S P} `{PostgresSettings P} (cfg : Config P) : within idle (@migrate S P _ cfg).
Proof. unfold migrate. case_match; [apply idle_boot_step, idle_dial | apply within_ret; apply _]. Qed.

Lemma idle_open_postgres {S P} `{PostgresSettings P} (cfg : Config P) : within idle (@open_postgres S P _ cfg).
Proof. apply within_bind; [by apply _ | apply idle_new_pool | intros _; apply idle_migrate]. Qed.

(** ** Boots where nothing fails *)

Lemma boot_step_ok {S A} what (m : M S A) : raises (fun _ => False) m -> raises (fun _ => False) (boot_step what m).
Proof. intros Hm. unfold boot_step. apply raises_try; [done | intros; apply raises_ret | done]. Qed.

Lemma dial_ok {S} : raises (fun _ => False) (@dial S).
Proof. by apply raises_remote. Qed.

Lemma open_postgres_ok {S P} `{PostgresSettings P} (cfg : Config P) : raises (fun _ => False) (@open_postgres S P _ cfg).
Proof.
  unfold open_postgres, migrate. apply raises_bind; [apply boot_step_ok, dial_ok|]. intros _.
  case_match; [apply boot_step_ok, dial_ok | apply raises_ret].
Qed.

Lemma setupRedis_ok {S P} (cfg : Config P) w :
  Forall (fault_ok (fun _ => False)) (w_sched w) ->
  fst (@setupRedis S P cfg w) = Ok true /\ Forall (fault_ok (fun _ => False)) (w_sched (snd (@setupRedis S P cfg w))).
Proof.
  intros Hw. unfold setupRedis. rewrite bind_try. destruct (dial_ok w Hw) as [Hw1 Herr].
  destruct (run dial w) as [[[]|e] w1]; cbn [fst snd] in *; [done | by destruct (Herr e eq_refl)].
Qed.
