(* ===== verification/Concurrent.v ===== *)
(** * Programs that share their stores

    The binaries run at the same time, on the same Redis, PostgreSQL and Kafka,
    and each can be killed and started again at any moment.  A program being a
    tree of atomic steps, a system is a list of them, each with a state of its
    own, interleaved one step at a time over a shared state ([step]).

    [safe] is a program logic for such systems, by rely and guarantee: a
    [Protocol] says what a process may do to the shared state ([guar]) and what
    it must expect of the others ([rely]), what always holds of the shared state
    ([inv]) and of the process's own ([own]); a program is [safe] when each of
    its steps, taken at any time and after anything the others may have done,
    keeps the protocol.  The state the protocol speaks of may hold more than the
    programs see: each step may change that part as the proof likes ([ghost]).
    Programs that are [safe] keep their protocols together ([system_sound]). *)
From S2P Require Import Prelude.

(** ** The system *)

(** A step that never does anything but wait and look. *)
Definition waits {S X} (f : world S -> X * world S) : Prop := forall w, w_data (snd (f w)) = w_data w.

Section interleaving.
Context {Sh P : Type}.

Abbreviation program := (M (Sh * P) unit) (only parsing).

(** The processes, each with its own state and what is left of its program, at
    a time. *)
Record system := System {
  c_clock : Z;
  c_shared : Sh;
  c_procs : list (P * program);
}.

Section steps.
(** what a process may be started as, and what the calls may meet *)
Variables (boots : program -> Prop) (tick_ok : tick -> Prop).

(** Time passes; a process takes the next step of its program, at a time not
    before the last, its remote call taking any time and meeting any fault; a
    process that only waits leaves time to the others; a process dies, at any
    point, and starts again, its own state being as it left it. *)
Inductive step : system -> system -> Prop :=
  | time_passes t t' sh ps : t <= t' -> step (System t sh ps) (System t' sh ps)
  | process_runs t t0 sh ps i p X f (k : X -> program) sch :
      ps !! i = Some (p, Step f k) -> t <= t0 -> Forall tick_ok sch ->
      let run := f (World (sh, p) t0 sch) in
      step (System t sh ps)
        (System (w_clock (snd run)) (fst (w_data (snd run)))
           (<[i := (snd (w_data (snd run)), k (fst run))]> ps))
  | process_waits t t0 sh ps i p X f (k : X -> program) sch :
      ps !! i = Some (p, Step f k) -> waits f -> t <= t0 -> Forall tick_ok sch ->
      step (System t sh ps) (System t0 sh (<[i := (p, k (fst (f (World (sh, p) t0 sch))))]> ps))
  | process_restarts t sh ps i p m m' :
      ps !! i = Some (p, m) -> boots m' -> step (System t sh ps) (System t sh (<[i := (p, m')]> ps)).
End steps.

Lemma prog_step_mono boots (ok ok' : tick -> Prop) c c' :
  (forall tk, ok tk -> ok' tk) -> step boots ok c c' -> step boots ok' c c'.
Proof. intros Hok []; econstructor; try done; by eapply list.Forall_impl. Qed.

(** A run by a scheduler: which process goes next, when, and what it meets. *)
Fixpoint scheduled (l : list (nat * Z * tick)) (c : system) : system :=
  match l with
  | [] => c
  | (i, d, tk) :: l' =>
      match c_procs c !! i with
      | Some (p, Step f k) =>
          let run := f (World (c_shared c, p) (c_clock c + Z.max 0 d) [tk]) in
          scheduled l' (System (w_clock (snd run)) (fst (w_data (snd run)))
            (<[i := (snd (w_data (snd run)), k (fst run))]> (c_procs c)))
      | _ => scheduled l' c
      end
  end.

Lemma scheduled_steps boots (tick_ok : tick -> Prop) l c :
  Forall (fun x => tick_ok (snd x)) l -> rtc (step boots tick_ok) c (scheduled l c).
Proof.
  intros Hl. revert c. induction Hl as [|[[i d] tk] l Htk Hl IH]; intros [t sh ps];
    cbn [scheduled c_procs c_shared c_clock]; [reflexivity|].
  destruct (ps !! i) as [[p [r|X f k]]|] eqn:Hi; [apply IH| |apply IH].
  eapply rtc_l; [|apply IH]. eapply process_runs; [done | lia | by repeat constructor].
Qed.
(** A process left alone, from any time on, runs its program to the end. *)
Lemma run_alone boots i p (m : program) t sch t0 sh ps :
  ps !! i = Some (p, m) -> t0 <= t ->
  let run := run m (World (sh, p) t sch) in
  rtc (step boots (fun _ => True)) (System t0 sh ps)
    (System (w_clock (snd run)) (fst (w_data (snd run)))
       (<[i := (snd (w_data (snd run)), Done (fst run))]> ps)).
Proof.
  revert p t sch t0 sh ps. induction m as [r|X f k IH]; intros p t sch t0 sh ps Hp Ht; cbn zeta; cbn [run].
  - cbn [fst snd w_data w_clock]. rewrite list_insert_id by done. by apply rtc_once, time_passes.
  - pose proof (process_runs boots (fun _ => True) t0 t sh ps i p X f k sch Hp Ht (Forall_true _ _ (fun _ => I))) as Hs.
    cbn zeta in Hs. destruct (f (World (sh, p) t sch)) as [x [[sh' p'] t' sch']]. cbn [fst snd w_data w_clock] in Hs.
    eapply rtc_l; [exact Hs|].
    specialize (IH x p' t' sch' t' sh' (<[i := (p', k x)]> ps)). cbn zeta in IH. rewrite list_insert_insert_eq in IH.
    apply IH; [|done]. apply list_lookup_insert_eq. by eapply lookup_lt_Some.
Qed.
End interleaving.
Arguments system : clear implicits.

(** ** The logic *)

Class Protocol (Sh P : Type) := {
  rely : relation Sh;
  guar : relation Sh;
  ghost : relation Sh;
  inv : Z -> Sh -> Prop;
  own : Sh -> P -> Prop;
  meets : tick -> Prop;
  rely_preorder :: PreOrder rely;
  ghost_refl sh : ghost sh sh;
  guar_refl sh : guar sh sh;
  inv_later t t' sh : t <= t' -> inv t sh -> inv t' sh;
  own_stable sh sh' p : rely sh sh' -> own sh p -> own sh' p;
}.

Section logic.
Context {Sh P : Type} `{!Protocol Sh P}.
#[local] Abbreviation state := (Sh * P)%type.

(** [m], which works on the part of the state that [get] and [put] show, is safe
    from [s], and ends with [Q].  A step that only waits
    may count as taken before it did. *)
Fixpoint safe {S A} (get : state -> S) (put : S -> state -> state) (m : M S A)
    (Q : result A -> state -> Prop) (s : state) : Prop :=
  forall sh, rely (fst s) sh -> own sh (snd s) ->
  match m with
  | Done r => Q r (sh, snd s)
  | Step f k =>
      forall t sch, Forall meets sch -> inv t sh ->
      let run := f (World (get (sh, snd s)) t sch) in
      let s' := put (w_data (snd run)) (sh, snd s) in
      exists sh', ghost (fst s') sh' /\
      t <= w_clock (snd run) /\ inv (w_clock (snd run)) sh' /\
      (waits f -> inv t sh') /\ guar sh sh' /\ own sh' (snd s') /\ safe get put (k (fst run)) Q (sh', snd s')
  end.

(** What the others do does not hurt. *)
Definition stable {A} (Q : result A -> state -> Prop) : Prop :=
  forall r s sh, rely (fst s) sh -> Q r s -> Q r (sh, snd s).

Section rules.
Context {S : Type} (get : state -> S) (put : S -> state -> state).

Lemma safe_env {A} (m : M S A) Q s sh : rely (fst s) sh -> safe get put m Q s -> safe get put m Q (sh, snd s).
Proof.
  intros Hg. destruct m; cbn [safe fst snd]; intros Hm sh' Hg' Ho; by (apply Hm; [etransitivity|]).
Qed.

Lemma safe_stable {A B} (k : result A -> M S B) Q : stable (fun r s => safe get put (k r) Q s).
Proof. intros r s sh Hg Hs. by apply safe_env. Qed.

Lemma safe_stable_bind {A B} (k : A -> M S B) Q : stable Q ->
  stable (fun r s => match r with Ok a => safe get put (k a) Q s | Err e => Q (Err e) s end).
Proof. intros HQ [a|e] s sh Hg Hs; [by apply safe_env | by apply HQ]. Qed.

(** The step of a proof about a step. *)
Ltac safe_step Hm sh Hg Ho t sch Hsch Hi :=
  intros t sch Hsch Hi; destruct (Hm sh Hg Ho t sch Hsch Hi) as (sh' & ? & ? & ? & ? & ? & ? & ?);
  exists sh'; split_and!; auto.

Lemma safe_conseq {A} (m : M S A) (Q Q' : result A -> state -> Prop) s :
  (forall r s', own (fst s') (snd s') -> Q r s' -> Q' r s') -> safe get put m Q s -> safe get put m Q' s.
Proof.
  intros HQ. revert s. induction m as [r|X f k IH]; intros s; cbn [safe]; intros Hm sh Hg Ho.
  - by apply HQ, Hm.
  - safe_step Hm sh Hg Ho t sch Hsch Hi.
Qed.

(** Where a program ends, all that was done by it and by the others is. *)
Lemma safe_along {A} (m : M S A) Q s (along : relation Sh) `{!PreOrder along} :
  (forall sh sh', guar sh sh' -> along sh sh') -> (forall sh sh', rely sh sh' -> along sh sh') ->
  safe get put m Q s -> safe get put m (fun r s' => along (fst s) (fst s') /\ Q r s') s.
Proof.
  intros Hguar Hrely. enough (forall s0 : state, along (fst s0) (fst s) -> safe get put m Q s ->
    safe get put m (fun r s' => along (fst s0) (fst s') /\ Q r s') s) as Hm by (by apply Hm).
  intros s0. revert s. induction m as [r|X f k IH]; intros s Hs; cbn [safe]; intros Hm sh Hg Ho;
    pose proof (transitivity Hs (Hrely _ _ Hg)) as Hs'.
  - split; [exact Hs' | by apply Hm].
  - safe_step Hm sh Hg Ho t sch Hsch Hi. apply IH; [|done]. etransitivity; [exact Hs' | by apply Hguar].
Qed.

Lemma safe_done {A} (r : result A) Q s :
  (forall sh, rely (fst s) sh -> own sh (snd s) -> Q r (sh, snd s)) -> safe get put (Done r) Q s.
Proof. intros HQ sh. apply HQ. Qed.

Lemma safe_bind {A B} (m : M S A) (k : A -> M S B) Q s :
  safe get put m (fun r s' => match r with Ok a => safe get put (k a) Q s' | Err e => Q (Err e) s' end) s ->
  safe get put (bind m k) Q s.
Proof.
  revert s. induction m as [[a|e]|X f k' IH]; intros s; cbn [safe bind]; intros Hm.
  - destruct (k a) eqn:Hk; cbn [safe]; intros sh Hg Ho; exact (Hm sh Hg Ho sh (reflexivity _) Ho).
  - exact Hm.
  - intros sh Hg Ho. safe_step Hm sh Hg Ho t sch Hsch Hi.
Qed.

Lemma safe_try {A} (m : M S A) Q s :
  safe get put m (fun r s' => Q (Ok r) s') s -> safe get put (try m) Q s.
Proof.
  revert s. induction m as [r|X f k IH]; intros s; cbn [safe try]; intros Hm; [exact Hm|].
  intros sh Hg Ho. safe_step Hm sh Hg Ho t sch Hsch Hi.
Qed.

Lemma safe_bind_try {A B} (m : M S A) (k : result A -> M S B) Q s :
  safe get put m (fun r s' => safe get put (k r) Q s') s -> safe get put (bind (try m) k) Q s.
Proof. intros Hm. by apply safe_bind, safe_try. Qed.

Lemma safe_atomic {A} (f : world S -> result A * world S) Q s :
  stable Q ->
  (forall sh t sch, rely (fst s) sh -> own sh (snd s) -> Forall meets sch -> inv t sh ->
     let run := f (World (get (sh, snd s)) t sch) in
     let s' := put (w_data (snd run)) (sh, snd s) in
     exists sh', ghost (fst s') sh' /\
     t <= w_clock (snd run) /\ inv (w_clock (snd run)) sh' /\
     (waits f -> inv t sh') /\ guar sh sh' /\ own sh' (snd s') /\ Q (fst run) (sh', snd s')) ->
  safe get put (atomic f) Q s.
Proof.
  intros HQ Hf sh Hg Ho t sch Hsch Hi. destruct (Hf sh t sch Hg Ho Hsch Hi) as (sh' & ? & ? & ? & ? & ? & ? & ?).
  exists sh'. split_and!; try done. intros sh2 Hg' _. by apply (HQ _ (sh', _)).
Qed.

(** A call that waits leaves what it works on alone. *)
Lemma call_waits {A} (f : Z -> S -> result A * S) : waits (call f) -> forall t x, snd (f t x) = x.
Proof.
  intros Hw t x. specialize (Hw (World x t [])). unfold call in Hw. cbn in Hw. rewrite Z.add_0_r in Hw.
  by destruct (f t x).
Qed.

(** A remote call: it may fail, before its effect or after. *)
Lemma safe_remote {A} (f : Z -> S -> result A * S) Q s :
  (forall s, put (get s) s = s) -> stable Q ->
  (forall sh t, rely (fst s) sh -> own sh (snd s) -> inv t sh ->
     let run := f t (get (sh, snd s)) in
     let s' := put (snd run) (sh, snd s) in
     inv t (fst s') /\ guar sh (fst s') /\ own (fst s') (snd s') /\
     Q (fst run) s' /\ forall e, Q (Err e) (sh, snd s) /\ Q (Err e) s') ->
  safe get put (remote f) Q s.
Proof.
  intros Hput HQ Hf. apply safe_atomic; [done|]. intros sh t sch Hg Ho _ Hi. cbn zeta.
  unfold atomic, remote. pose proof (call_waits f) as Hpure. unfold call in *. cbn [w_sched w_clock w_data].
  destruct (next_tick sch) as [[n flt] sch']. cbn [t_delay t_fault].
  assert (t <= t + Z.of_N n) as Ht by lia. pose proof (inv_later _ _ _ Ht Hi) as Hi'.
  destruct (Hf sh _ Hg Ho Hi') as (Hi2 & Hg2 & Ho2 & Hq & He).
  assert (forall f' : world S -> result A * world S, (waits f' -> forall t x, snd (f t x) = x) ->
    waits f' -> inv t (fst (put (snd (f (t + Z.of_N n) (get (sh, snd s)))) (sh, snd s)))) as Hsame
    by (intros f' Hp Hw; rewrite (Hp Hw), Hput; exact Hi).
  specialize (Hsame _ Hpure). clear Hpure.
  set (run := f (t + Z.of_N n) (get (sh, snd s))) in *. clearbody run. destruct run as [r x].
  destruct flt; cbn [fst snd w_data w_clock] in *; [| rewrite Hput |].
  - exists (fst (put x (sh, snd s))). rewrite <- surjective_pairing. split_and!; auto using ghost_refl.
  - exists sh. split_and!; auto using ghost_refl, guar_refl. apply He.
  - exists (fst (put x (sh, snd s))). rewrite <- surjective_pairing. split_and!; auto using ghost_refl. apply He.
Qed.

(** Whether the calls of the protocol may fail. *)
Definition may_fail : Prop := exists tk, meets tk /\ t_fault tk <> NoFault.

(** A call, with what the proof makes of what only it sees; where calls may
    fail, it may have taken effect or not. *)
Lemma safe_call {A} (f : Z -> S -> result A * S) Q s :
  (forall s, put (get s) s = s) -> stable Q ->
  (forall sh t0 t, rely (fst s) sh -> own sh (snd s) -> inv t0 sh -> t0 <= t ->
     let run := f t (get (sh, snd s)) in
     let s' := put (snd run) (sh, snd s) in
     exists sh', ghost (fst s') sh' /\ inv t sh' /\ ((forall t x, snd (f t x) = x) -> inv t0 sh') /\
     guar sh sh' /\ own sh' (snd s') /\ Q (fst run) (sh', snd s') /\
     (may_fail -> forall e, Q (Err e) (sh, snd s) /\ Q (Err e) (sh', snd s'))) ->
  safe get put (remote f) Q s.
Proof.
  intros Hput HQ Hf. apply safe_atomic; [done|]. intros sh t sch Hg Ho Hsch Hi. cbn zeta.
  assert (exists t' sch' flt, t <= t' /\ (flt = NoFault \/ may_fail) /\
    call f (World (get (sh, snd s)) t sch) =
    call f (World (get (sh, snd s)) t' (Tick 0 flt :: sch'))) as (t' & sch' & flt & Ht & Hflt & ->).
  { destruct Hsch as [|[n flt] sch' Htk _].
    - exists t, [], NoFault. split; [lia|]. by split; [left|].
    - exists (t + Z.of_N n), sch', flt. split; [lia|]. split.
      + destruct flt; [by left | right..]; by eexists.
      + unfold call. cbn. by rewrite Z.add_0_r. }
  destruct (Hf sh t t' Hg Ho Hi Ht) as (sh' & ? & ? & Hw & ? & ? & Hq & He).
  pose proof (call_waits f) as Hpure. unfold call in *. cbn [w_sched w_clock w_data next_tick t_delay t_fault] in *.
  cbn [Z.of_N] in *. rewrite Z.add_0_r in *. set (run := f t' _) in *. clearbody run. destruct run as [r x].
  cbn [fst snd] in *. destruct flt; cbn [fst snd w_data w_clock].
  - exists sh'. split_and!; auto.
  - rewrite Hput. exists sh. split_and!; auto using ghost_refl, guar_refl; [by eapply inv_later|].
    destruct Hflt as [|Hflt]; [done|]. by apply He.
  - exists sh'. split_and!; auto. destruct Hflt as [|Hflt]; [done|]. by apply He.
Qed.

Lemma safe_now Q s :
  (forall s, put (get s) s = s) -> stable Q ->
  (forall sh t, rely (fst s) sh -> own sh (snd s) -> inv t sh ->
     exists sh', ghost sh sh' /\ inv t sh' /\ guar sh sh' /\ own sh' (snd s) /\ Q (Ok t) (sh', snd s)) ->
  safe get put now Q s.
Proof.
  intros Hput HQ Hf. apply safe_atomic; [done|]. intros sh t sch Hg Ho _ Hi. cbn [fst snd w_data w_clock].
  destruct (Hf sh t Hg Ho Hi) as (sh' & ? & ? & ? & ? & ?). rewrite Hput. exists sh'. by split_and!.
Qed.

(** An assignment to what is the process's own. *)
Lemma safe_modify (f : S -> S) Q s :
  stable Q -> (forall sh, fst (put (f (get (sh, snd s))) (sh, snd s)) = sh) ->
  (forall sh t, rely (fst s) sh -> own sh (snd s) -> inv t sh ->
     let s' := put (f (get (sh, snd s))) (sh, snd s) in own sh (snd s') /\ Q (Ok tt) s') ->
  safe get put (modify f) Q s.
Proof.
  intros HQ Hput Hf. apply safe_atomic; [done|]. intros sh t sch Hg Ho _ Hi. cbn [fst snd w_data w_clock].
  destruct (Hf sh t Hg Ho Hi) as [? Hq]. specialize (Hput sh).
  set (s' := put _ (sh, snd s)) in *. clearbody s'. destruct s' as [sh' p]. cbn [fst snd] in *. subst sh'.
  exists sh. split_and!; try done; [apply ghost_refl | apply guar_refl].
Qed.

(** A step that changes nothing. *)
Lemma safe_still {A} (f : world S -> result A * world S) Q s :
  (forall s, put (get s) s = s) -> stable Q ->
  (forall w, w_data (snd (f w)) = w_data w /\ w_clock w <= w_clock (snd (f w))) ->
  (forall r, Q r s) -> safe get put (atomic f) Q s.
Proof.
  intros Hput HQ Hf Hq. apply safe_atomic; [done|]. intros sh t sch Hg Ho _ Hi. cbn zeta.
  destruct (Hf (World (get (sh, snd s)) t sch)) as [-> Ht]. cbn [w_data] in *. rewrite Hput. exists sh.
  split_and!; [apply ghost_refl | done | by eapply inv_later | done | apply guar_refl | done |]. apply (HQ _ s); [done | apply Hq].
Qed.
End rules.

(** A program on a part of what its caller sees. *)
Lemma safe_zoom {S T A} get put (g : S -> T) (p : T -> S -> S) `{!Lens g p} (m : M T A) Q s :
  safe (fun s => g (get s)) (fun x s => put (p x (get s)) s) m Q s ->
  safe get put (zoom g p m) Q s.
Proof.
  revert s. induction m as [r|X f k IH]; intros s; cbn [safe zoom]; intros Hm; [exact Hm|].
  intros sh Hg Ho t sch Hsch Hi. destruct (Hm sh Hg Ho t sch Hsch Hi) as (sh' & ? & ? & ? & Hsame & ? & ? & ?).
  unfold part, whole in *. cbn [w_data w_clock w_sched] in *.
  destruct (f _) as [x w']. cbn [fst snd w_data w_clock] in *. exists sh'. split_and!; auto.
  intros Hw. apply Hsame. intros [x0 t0 sch0].
  specialize (Hw (World (p x0 (get (sh, snd s))) t0 sch0)). cbn [w_data w_clock w_sched] in Hw. rewrite get_put in Hw.
  destruct (f (World x0 t0 sch0)) as [y w2]. cbn [fst snd w_data] in *.
  by rewrite <- (get_put (get := g) (w_data w2) (p x0 (get (sh, snd s)))), Hw, get_put.
Qed.

(** What shows the same part is the same. *)
Lemma safe_ext {S A} (get get' : state -> S) put put' (m : M S A) Q s :
  (forall s, get s = get' s) -> (forall x s, put x s = put' x s) -> safe get put m Q s -> safe get' put' m Q s.
Proof.
  intros Hget Hput. revert s. induction m as [r|X f k IH]; intros s; cbn [safe]; intros Hm sh Hg Ho; [by apply Hm|].
  intros t sch Hsch Hi. rewrite <- Hget. cbn zeta. rewrite <- Hput.
  destruct (Hm sh Hg Ho t sch Hsch Hi) as (sh' & ? & ? & ? & ? & ? & ? & ?). exists sh'. split_and!; auto.
Qed.

(** Programs that only wait and look at the clock. *)
Fixpoint quiet {S A} (m : M S A) : Prop :=
  match m with
  | Done _ => True
  | Step f k =>
      (forall w, w_data (snd (f w)) = w_data w /\ w_clock w <= w_clock (snd (f w))) /\ forall x, quiet (k x)
  end.

Lemma quiet_bind {S A B} (m : M S A) (k : A -> M S B) : quiet m -> (forall a, quiet (k a)) -> quiet (bind m k).
Proof. intros Hm Hk. induction m as [[a|e]|X f k' IH]; cbn in *; [apply Hk | done |]. split; [apply Hm|]. intros x. by apply IH, Hm. Qed.

Lemma quiet_try {S A} (m : M S A) : quiet m -> quiet (try m).
Proof. intros Hm. induction m as [r|X f k IH]; cbn in *; [done|]. split; [apply Hm|]. intros x. by apply IH, Hm. Qed.

Lemma safe_quiet {S A} get put (m : M S A) Q s :
  (forall s, put (get s) s = s) -> quiet m -> stable Q -> (forall r, Q r s) -> safe get put m Q s.
Proof.
  intros Hput Hm HQ. revert s. induction m as [r|X f k IH]; intros s Hq; cbn [safe] in *; intros sh Hg Ho.
  - by apply HQ.
  - intros t sch _ Hi. cbn zeta. destruct (proj1 Hm (World (get (sh, snd s)) t sch)) as [-> Ht]. cbn [w_data] in *.
    rewrite Hput. exists sh.
    split_and!; [apply ghost_refl | done | by eapply inv_later | done | apply guar_refl | done |].
    apply IH; [apply Hm|]. intros r. apply (HQ r s); [done | apply Hq].
Qed.

End logic.
#[global] Opaque safe.

(** On to the part of the data a program works on. *)
Ltac zoom_in := apply safe_zoom; [apply _|].

(** ** Systems of safe programs *)

(** The protocols of the processes of a system, by their numbers: one invariant,
    and each process's promise within what the others expect.  [erase] forgets
    what only the proof sees. *)
Class Protocols (Sh0 Sh P : Type) := {
  erase : Sh -> Sh0;
  update : Sh0 -> Sh -> Sh;
  protocol : nat -> Protocol Sh P;
  invariant : Z -> Sh -> Prop;
  allowed : tick -> Prop;
  erase_update a sh : erase (update a sh) = a;
  erase_ghost i sh sh' : @ghost _ _ (protocol i) sh sh' -> erase sh' = erase sh;
  same_invariant i t sh : @inv _ _ (protocol i) t sh <-> invariant t sh;
  same_allowed i tk : allowed tk -> @meets _ _ (protocol i) tk;
  guar_rely i j sh sh' : i <> j -> @guar _ _ (protocol i) sh sh' -> @rely _ _ (protocol j) sh sh';
}.

Section sound.
Context {Sh0 Sh P : Type} `{!Protocols Sh0 Sh P}.
Variable boots : M (Sh0 * P) unit -> Prop.

Definition seen (s : Sh * P) : Sh0 * P := (erase (fst s), snd s).
Definition with_seen (x : Sh0 * P) (s : Sh * P) : Sh * P := (update (fst x) (fst s), snd x).

(** Process [i] is safe with what is left of its program. *)
Definition keeps (i : nat) (m : M (Sh0 * P) unit) (s : Sh * P) : Prop :=
  @safe _ _ (protocol i) _ _ seen with_seen m (fun _ _ => True) s.

Definition good (sh : Sh) (c : system Sh0 P) : Prop :=
  erase sh = c_shared c /\ invariant (c_clock c) sh /\
  forall i p m, c_procs c !! i = Some (p, m) -> @own _ _ (protocol i) sh p /\ keeps i m (sh, p).

Hypothesis boots_safe : forall i m s, boots m -> keeps i m s.

(** What the others' steps leave of a process. *)
Lemma good_others (ps : list (P * M (Sh0 * P) unit)) sh sh' i x :
  @guar _ _ (protocol i) sh sh' ->
  (forall j p m, ps !! j = Some (p, m) -> @own _ _ (protocol j) sh p /\ keeps j m (sh, p)) ->
  @own _ _ (protocol i) sh' (fst x) /\ keeps i (snd x) (sh', fst x) ->
  forall j p m, (<[i := x]> ps) !! j = Some (p, m) -> @own _ _ (protocol j) sh' p /\ keeps j m (sh', p).
Proof.
  intros Hg Hps Hx j p m. rewrite list_lookup_insert_Some. intros [(-> & -> & _)|[Hne Hj]]; [exact Hx|].
  destruct (Hps j p m Hj) as [Ho Hm]. apply (guar_rely i j) in Hg; [|done].
  split; [exact (own_stable _ _ _ Hg Ho)|]. exact (safe_env _ _ _ _ (sh, p) sh' Hg Hm).
Qed.

Lemma invariant_later t t' sh : t <= t' -> invariant t sh -> invariant t' sh.
Proof. intros Ht Hi. apply (same_invariant 0), (inv_later t); [done|]. by apply (same_invariant 0). Qed.

(** One step of one process. *)
Lemma keeps_step i X (f : world (Sh0 * P) -> X * world (Sh0 * P)) k sh p t sch :
  @own _ _ (protocol i) sh p -> keeps i (Step f k) (sh, p) -> invariant t sh -> Forall allowed sch ->
  let run := f (World (erase sh, p) t sch) in
  exists sh', erase sh' = fst (w_data (snd run)) /\ invariant (w_clock (snd run)) sh' /\
    (waits f -> invariant t sh') /\ @guar _ _ (protocol i) sh sh' /\
    @own _ _ (protocol i) sh' (snd (w_data (snd run))) /\ keeps i (k (fst run)) (sh', snd (w_data (snd run))).
Proof.
  intros Ho Hm Hi Hsch. cbn zeta.
  destruct (Hm sh (reflexivity _) Ho t sch) as (sh' & Hgh & _ & Hi' & Hsame & Hg & Ho' & Hm').
  { eapply list.Forall_impl; [exact Hsch | by apply same_allowed]. }
  { by apply same_invariant. }
  exists sh'. split; [apply erase_ghost in Hgh; rewrite Hgh; apply erase_update|].
  split; [by apply (same_invariant i)|]. split; [|done]. intros Hd. apply (same_invariant i). by apply Hsame.
Qed.

Lemma step_good sh c c' :
  step boots allowed c c' -> good sh c -> exists sh', good sh' c' /\ (sh' = sh \/ exists i, @guar _ _ (protocol i) sh sh').
Proof.
  intros Hs (He & Hi & Hps). destruct Hs as [t t' sh0 ps Ht|t t0 sh0 ps i p X f k sch Hp Ht Hsch run|
    t t0 sh0 ps i p X f k sch Hp Hw Ht Hsch|t sh0 ps i p m m' Hp Hb]; unfold good; cbn [c_clock c_shared c_procs] in *.
  - exists sh. split; [|by left]. split; [done|]. split; [by eapply invariant_later | done].
  - destruct (Hps _ _ _ Hp) as [Ho Hm].
    destruct (keeps_step i X f k sh p t0 sch Ho Hm) as (sh' & He' & Hi' & _ & Hg & Ho' & Hm');
      [by eapply invariant_later | done |]. rewrite He in *.
    exists sh'. split; [|right; by exists i]. split; [exact He'|]. split; [exact Hi'|].
    apply (good_others ps sh); [exact Hg | exact Hps | by split].
  - destruct (Hps _ _ _ Hp) as [Ho Hm].
    destruct (keeps_step i X f k sh p t0 sch Ho Hm) as (sh' & He' & _ & Hi' & Hg & Ho' & Hm');
      [by eapply invariant_later | done |]. rewrite He in *. rewrite (Hw (World (sh0, p) t0 sch)) in He', Ho', Hm'.
    exists sh'. split; [|right; by exists i]. split; [exact He'|]. split; [by apply Hi'|].
    apply (good_others ps sh); [exact Hg | exact Hps | by split].
  - destruct (Hps _ _ _ Hp) as [Ho _]. exists sh. split; [|by left]. split; [done|]. split; [done|].
    apply (good_others ps sh); [apply guar_refl | done |]. split; [done | by apply boots_safe].
Qed.

(** Safe programs keep their protocols together, however they interleave. *)
Lemma system_sound sh c c' (R : relation Sh) `{!PreOrder R} :
  (forall i sh sh', @guar _ _ (protocol i) sh sh' -> R sh sh') ->
  rtc (step boots allowed) c c' -> good sh c -> exists sh', good sh' c' /\ R sh sh'.
Proof.
  intros HR Hs. revert sh. induction Hs as [c|c1 c2 c3 Hs _ IH]; intros sh Hc; [by exists sh|].
  destruct (step_good _ _ _ Hs Hc) as (sh2 & Hc2 & Hg). destruct (IH sh2 Hc2) as (sh3 & Hc3 & Hg').
  exists sh3. split; [done|]. destruct Hg as [-> | [i Hg]]; [done|]. etransitivity; [by eapply HR | done].
Qed.
End sound.
