(* ===== verification/Consumer.v ===== *)
(** * The document.processed consumer: [internal/app/consumer.go]

    The poll loop, the handling of one record and its dead-lettering, over a
    consumer group that is a parameter: [GroupLib] is the platform's Kafka
    consumer and dead-letter publisher, [GroupLaws] what the loop relies on. *)
From S2P Require Import Prelude Utf8 Json GoTime Uuid Repository Redis Kafka Constant Envelope Router Config Auth App.

(** ** Records and the consumer group *)

(** A record at its place in a partition. *)
Record Source := MkSource { s_Record : KRecord; s_Partition : Z; s_Offset : Z }.
Definition s_Topic (x : Source) : string := r_Topic (s_Record x).

(** A delivered [kafka.Record]: with the context it carries, if any, a context
    being the time it is cancelled at, if ever. *)
Record Delivery := MkDelivery { d_Source : Source; d_Context : option (option Z) }.

Record DLQMetadata := MkDLQ {
  SourceTopic : string;
  SourcePartition : Z;
  SourceOffset : Z;
  Attempt : Z;
  ErrorType : string;
  ErrorCode : string;
}.

(** The group's view of the cluster: the records of the topics, and for each
    partition the offset the group committed, the offset its client marked
    through [CommitRecords], and the offset it reads next. *)
Class GroupLib (K : Type) := {
  gr_records : K -> list Source;
  gr_committed : K -> string -> Z -> Z;
  gr_marked : K -> string -> Z -> Z;
  gr_position : K -> string -> Z -> Z;
  gr_dlq : K -> list (Source * DLQMetadata);
  gr_join : Z -> K -> result unit * K;
  gr_poll : Z -> K -> result (list Delivery) * K;
  gr_commit : Delivery -> Z -> K -> result unit * K;
  gr_flush : Z -> K -> result unit * K;
  gr_deadletter : Delivery -> DLQMetadata -> Z -> K -> result unit * K;
}.

(** [r] precedes the offset a partition map gives its partition. *)
Definition below (offsets : string -> Z -> Z) (r : Source) : Prop :=
  s_Offset r < offsets (s_Topic r) (s_Partition r).

(** [ds] delivers the records of each partition in offset order. *)
Fixpoint in_order (ds : list Delivery) : Prop :=
  match ds with
  | [] => True
  | d :: ds' =>
      Forall (fun d' => s_Topic (d_Source d') = s_Topic (d_Source d) ->
        s_Partition (d_Source d') = s_Partition (d_Source d) ->
        s_Offset (d_Source d) < s_Offset (d_Source d')) ds' /\ in_order ds'
  end.

(** One partition's offset moved to just after [r] or not at all. *)
Definition advanced (o o' : string -> Z -> Z) (r : Source) : Prop :=
  (forall t p, (t, p) <> (s_Topic r, s_Partition r) -> o' t p = o t p) /\
  (o' (s_Topic r) (s_Partition r) = o (s_Topic r) (s_Partition r) \/
   o' (s_Topic r) (s_Partition r) = s_Offset r + 1).

(** The same offsets, and a dead-letter topic that only grows. *)
Record same_offsets {K} `{GroupLib K} (k k' : K) : Prop := {
  so_records : gr_records k' = gr_records k;
  so_committed : gr_committed k' = gr_committed k;
  so_marked : gr_marked k' = gr_marked k;
  so_position : gr_position k' = gr_position k;
}.

Class GroupLaws (K : Type) `{GroupLib K} := {
  (** a member starts at the committed offsets *)
  join_committed t k : gr_committed (snd (gr_join t k)) = gr_committed k;
  join_dlq t k : gr_dlq (snd (gr_join t k)) = gr_dlq k;
  join_starts t k r :
    r ∈ gr_records (snd (gr_join t k)) ->
    below (gr_position (snd (gr_join t k))) r \/ below (gr_marked (snd (gr_join t k))) r \/
      below (gr_committed k) r ->
    r ∈ gr_records k /\ below (gr_committed k) r;
  (** what a poll moves past it delivers, in order *)
  poll_delivers t k ds r :
    fst (gr_poll t k) = Ok ds -> r ∈ gr_records (snd (gr_poll t k)) ->
    below (gr_position (snd (gr_poll t k))) r ->
    (r ∈ gr_records k /\ below (gr_position k) r) \/ r ∈ map d_Source ds;
  poll_ordered t k ds :
    fst (gr_poll t k) = Ok ds ->
    in_order ds /\ Forall (fun d => below (gr_position (snd (gr_poll t k))) (d_Source d)) ds;
  (** and what it delivers is on the topics *)
  poll_real t k ds d :
    fst (gr_poll t k) = Ok ds -> d ∈ ds -> d_Source d ∈ gr_records (snd (gr_poll t k));
  poll_offsets t k :
    gr_committed (snd (gr_poll t k)) = gr_committed k /\
    gr_marked (snd (gr_poll t k)) = gr_marked k;
  (** new records are appended: none appears below an offset in use *)
  poll_appends t k r :
    r ∈ gr_records (snd (gr_poll t k)) ->
    below (gr_committed k) r \/ below (gr_marked k) r \/ below (gr_position k) r ->
    r ∈ gr_records k;
  poll_dlq t k : gr_dlq (snd (gr_poll t k)) = gr_dlq k;
  (** committing a record commits its partition up to it *)
  commit_records d t k :
    gr_records (snd (gr_commit d t k)) = gr_records k /\
    gr_position (snd (gr_commit d t k)) = gr_position k /\
    gr_dlq (snd (gr_commit d t k)) = gr_dlq k;
  commit_advances d t k :
    advanced (gr_committed k) (gr_committed (snd (gr_commit d t k))) (d_Source d) /\
    advanced (gr_marked k) (gr_marked (snd (gr_commit d t k))) (d_Source d);
  commit_acked d t k :
    fst (gr_commit d t k) = Ok tt -> below (gr_committed (snd (gr_commit d t k))) (d_Source d);
  (** a flush commits processed offsets only: those marked *)
  flush_records t k :
    gr_records (snd (gr_flush t k)) = gr_records k /\
    gr_marked (snd (gr_flush t k)) = gr_marked k /\
    gr_dlq (snd (gr_flush t k)) = gr_dlq k;
  flush_committed t k topic p :
    gr_committed (snd (gr_flush t k)) topic p = gr_committed k topic p \/
    gr_committed (snd (gr_flush t k)) topic p = gr_marked k topic p;
  (** an acknowledged dead letter is in the topic *)
  deadletter_offsets d m t k : same_offsets k (snd (gr_deadletter d m t k));
  deadletter_acked d m t k :
    fst (gr_deadletter d m t k) = Ok tt -> (d_Source d, m) ∈ gr_dlq (snd (gr_deadletter d m t k));
  deadletter_only d m t k x :
    x ∈ gr_dlq (snd (gr_deadletter d m t k)) <->
    x ∈ gr_dlq k \/ x = (d_Source d, m) /\ x ∈ gr_dlq (snd (gr_deadletter d m t k));
}.

(** ** The consumer's stores *)

Record site (K R : Type) := MkSite { si_store : store R; si_group : K }.
Arguments MkSite {K R} _ _.
Arguments si_store {K R} _.
Arguments si_group {K R} _.

#[export] Instance store_lens {K R} : Lens si_store (fun s (x : site K R) => MkSite s (si_group x)).
Proof. solve_lens. Qed.
#[export] Instance group_lens {K R} : Lens si_group (fun (k : K) (x : site K R) => MkSite (si_store x) k).
Proof. solve_lens. Qed.

Definition in_store {K R A} : M (store R) A -> M (site K R) A :=
  zoom si_store (fun s x => MkSite s (si_group x)).
Definition in_group {K R A} : M K A -> M (site K R) A :=
  zoom si_group (fun k x => MkSite (si_store x) k).

(** ** Handling one record *)

(** [recordHeader]: the first value of the named header, or the empty string. *)
Definition recordHeader (d : Delivery) (name : string) : string :=
  default "" (first_header (r_Headers (s_Record (d_Source d))) name).

Definition dlq_metadata (d : Delivery) : DLQMetadata :=
  MkDLQ (s_Topic (d_Source d)) (s_Partition (d_Source d)) (s_Offset (d_Source d)) 1
    "ocr_router_error" "OCR_ROUTER_ERROR".

Definition earlier (c c' : option Z) : option Z :=
  match c, c' with
  | Some a, Some b => Some (Z.min a b)
  | Some a, None => Some a
  | None, _ => c'
  end.

Section consumer.
Context {K R : Type} `{GroupLib K, RedisLib R, UuidLib, PgLib, FmtOther}.
(** the time the process is told to stop, if ever, and how long the goroutine
    that forwards the signal to a record's own context takes *)
Variables (ctx : option Z) (lag : Delivery -> N).
Variable routerSvc : routerService.

(** The context a record is processed in. *)
Definition processCtx (d : Delivery) : option Z :=
  match d_Context d with
  | None => ctx
  | Some own => earlier own ((fun c => c + Z.of_N (lag d)) <$> ctx)
  end.

(** [deadLetter]; the cause is only logged. *)
Definition deadLetter (d : Delivery) : M (site K R) unit :=
  in_group (remote (gr_deadletter d (dlq_metadata d))).

(** [handleProcessedRecord]. *)
Definition handleProcessedRecord (d : Delivery) : M (site K R) unit :=
  match Parse (r_Value (s_Record (d_Source d))) with
  | Err _ => deadLetter d
  | Ok env =>
      let hdrEventID := recordHeader d HeaderEventID in
      if nonempty hdrEventID && negb (String.eqb hdrEventID (EventID env)) then deadLetter d
      else
        let traceID := recordHeader d HeaderTraceID in
        let! handled := try (in_store (Handle routerSvc env traceID)) in
        match handled with
        | Ok _ => ret tt
        | Err err =>
            let! t := now in
            if is_canceled err || done_at (processCtx d) t then throw err
            else match as_permanent err with
            | Some _ => deadLetter d
            | None => throw err
            end
        end
  end.

(** ** The loop *)

(** [commitPending]: on a fresh context, its error only logged. *)
Definition commitPending : M (site K R) unit :=
  do! try (in_group (remote gr_flush)) in ret tt.

(** The loop over one poll's records. *)
Fixpoint process_records (records : list Delivery) : M (site K R) unit :=
  match records with
  | [] => ret tt
  | d :: records' =>
      let! handled := try (handleProcessedRecord d) in
      match handled with
      | Err err =>
          do! commitPending in
          throw (Errorf "route document.processed record: %w" [] [err])
      | Ok _ =>
          let! committed := try (in_group (remote (gr_commit d))) in
          match committed with
          | Err err =>
              do! commitPending in
              throw (Errorf "commit %s offset: %w" [TopicDocumentProcessed] [err])
          | Ok _ => process_records records'
          end
      end
  end.

(** The endless loop, for [polls] polls: [true] when it returned nil, [false]
    when it is still running. *)
Fixpoint consume (polls : nat) : M (site K R) bool :=
  match polls with
  | O => ret false
  | S polls' =>
      let! polled := try (in_group (remote gr_poll)) in
      match polled with
      | Err err =>
          let! t := now in
          if done_at ctx t then do! commitPending in ret true
          else throw (Errorf "poll %s: %w" [TopicDocumentProcessed] [err])
      | Ok records =>
          do! process_records records in
          consume polls'
      end
  end.
End consumer.

(** ** The binary *)

(** The router [RunConsumer] builds. *)
Definition consumer_router {P} (cfg : Config P) : routerService :=
  NewService true (MkOptions (Config.DedupeTTL (Gateway cfg)) (Config.RoutedTopicTemplate (Gateway cfg))
    (KnownCaller (NewCallerRegistry (Callers (Gateway cfg))))).

Definition RunConsumer {K R P : Type} `{GroupLib K, RedisLib R, UuidLib, PgLib, FmtOther, PostgresSettings P}
    (ctx : option Z) (lag : Delivery -> N) (cfg : Config P) (polls : nat) : M (site K R) bool :=
  if String.eqb (Group (Consumer (Kafka cfg))) ""
  then throw (errors_New "consumer requires KAFKA_CONSUMER_GROUP and KAFKA_CONSUMER_TOPICS to be set")
  else
    let! rdb := setupRedis cfg in
    if negb rdb
    then throw (errors_New "consumer requires a reachable redis (dedupe); set redis.mode=required or fix the connection")
    else
      do! open_postgres cfg in
      do! boot_step "connect kafka: %w" (in_group (remote gr_join)) in
      consume ctx lag (consumer_router cfg) polls.

(** ** A concrete group *)

(** The single member of a group on the one partition of the source topic:
    the records, the offsets the group committed, the client marked and reads
    next, and the dead letters. *)
Record cluster := MkCluster {
  cl_records : list KRecord;
  cl_committed : Z;
  cl_marked : Z;
  cl_position : Z;
  cl_dlq : list (Source * DLQMetadata);
}.

Definition on_topic (r : KRecord) : KRecord :=
  MkRecord TopicDocumentProcessed (r_Key r) (r_Value r) (r_Headers r).

Fixpoint numbered (from : Z) (l : list KRecord) : list Source :=
  match l with
  | [] => []
  | r :: l' => MkSource (on_topic r) 0 from :: numbered (from + 1) l'
  end.

Definition cl_sources (c : cluster) : list Source := numbered 0 (cl_records c).

(** The offset of the one partition. *)
Definition cl_offset (o : Z) (topic : string) (p : Z) : Z :=
  if String.eqb topic TopicDocumentProcessed && (p =? 0) then o else 0.

Definition cl_unread (c : cluster) : list Source :=
  filter (fun x => cl_position c <= s_Offset x) (cl_sources c).

Definition cl_own (x : Source) : bool := String.eqb (s_Topic x) TopicDocumentProcessed && (s_Partition x =? 0).

(** [flush_read] is the flush that commits whatever the client has read,
    instead of what it marked. *)
Definition cluster_group (flush_read : bool) : GroupLib cluster := {|
  gr_records := cl_sources;
  gr_committed c := cl_offset (cl_committed c);
  gr_marked c := cl_offset (cl_marked c);
  gr_position c := cl_offset (cl_position c);
  gr_dlq := cl_dlq;
  gr_join _ c := (Ok tt, MkCluster (cl_records c) (cl_committed c) (cl_committed c) (cl_committed c) (cl_dlq c));
  gr_poll _ c :=
    (Ok (map (fun x => MkDelivery x None) (cl_unread c)),
     MkCluster (cl_records c) (cl_committed c) (cl_marked c)
       (Z.max (cl_position c) (Z.of_nat (length (cl_records c)))) (cl_dlq c));
  gr_commit d _ c :=
    if cl_own (d_Source d)
    then (Ok tt, MkCluster (cl_records c) (s_Offset (d_Source d) + 1) (s_Offset (d_Source d) + 1)
                   (cl_position c) (cl_dlq c))
    else (Err (External "unknown partition"), c);
  gr_flush _ c :=
    (Ok tt, MkCluster (cl_records c) (if flush_read then cl_position c else cl_marked c) (cl_marked c)
              (cl_position c) (cl_dlq c));
  gr_deadletter d m _ c :=
    (Ok tt, MkCluster (cl_records c) (cl_committed c) (cl_marked c) (cl_position c)
              (cl_dlq c ++ [(d_Source d, m)]));
|}.
