(* ===== verification/ConsumerFacts.v ===== *)
(** * Theorems on the consumer

    No record is lost: whatever fails, and however often the process is
    restarted, every record below a committed offset has its routed row in the
    outbox table or is in the dead-letter topic; and exactly the records that
    can never be routed are dead-lettered. *)
From S2P Require Import Prelude Utf8 Json GoTime Uuid Repository RepositoryFacts Redis Kafka Constant Envelope EnvelopeFacts Router RouterFacts Config Auth App AppFacts Consumer.

(** ** Offsets

    What the calls on the group do to a property of all the records below its
    offsets. *)

Section offsets.
Context {K : Type} `{GroupLaws K}.
Implicit Types (S : Source -> Prop) (k : K).

(** Everything below a committed offset, or below one marked for commit, is
    [S]; everything the client is past is, or is in the batch at hand. *)
Definition committed_are S k : Prop :=
  forall r, r ∈ gr_records k -> below (gr_committed k) r -> S r.
Definition marked_are S k : Prop :=
  forall r, r ∈ gr_records k -> below (gr_committed k) r \/ below (gr_marked k) r -> S r.
Definition read_are S (pending : list Delivery) k : Prop :=
  forall r, r ∈ gr_records k -> below (gr_position k) r -> S r \/ r ∈ map d_Source pending.

Lemma marked_committed S k : marked_are S k -> committed_are S k.
Proof. intros Hm r Hin Hb. auto. Qed.

Lemma committed_mono S S' k : (forall r, S r -> S' r) -> committed_are S k -> committed_are S' k.
Proof. intros HS Hc r Hin Hb. auto. Qed.

Lemma marked_mono S S' k k' :
  same_offsets k k' -> (forall r, S r -> S' r) -> marked_are S k -> marked_are S' k'.
Proof. intros [Hr Hc Hm _] HS Hk r. rewrite Hr, Hc, Hm. auto. Qed.

Lemma read_mono S S' ds k k' :
  same_offsets k k' -> (forall r, S r -> S' r) -> read_are S ds k -> read_are S' ds k'.
Proof.
  intros [Hr _ _ Hp] HS Hk r. rewrite Hr, Hp. intros Hin Hb. destruct (Hk r Hin Hb); auto.
Qed.

Lemma same_offsets_refl k : same_offsets k k.
Proof. by split. Qed.

(** Moving a partition's offset to just after [d], whose predecessors are [S]. *)
Lemma advanced_below S d ds k o o' r :
  read_are S (d :: ds) k -> S (d_Source d) -> in_order (d :: ds) -> below (gr_position k) (d_Source d) ->
  advanced o o' (d_Source d) -> r ∈ gr_records k -> (below o r -> S r) -> below o' r -> S r.
Proof.
  intros Hr Hd [Hord _] Hpd [Hother Hhere] Hin Hold Hb. unfold below in *.
  destruct (decide ((s_Topic r, s_Partition r) = (s_Topic (d_Source d), s_Partition (d_Source d))))
    as [[= Ht Hp]|Hne]; [|rewrite (Hother _ _ Hne) in Hb; auto].
  rewrite Ht, Hp in *. destruct Hhere as [Hh|Hh]; rewrite Hh in Hb; [auto|].
  destruct (Hr r Hin) as [|Hpend]; [unfold below; rewrite Ht, Hp; lia|done|].
  cbn in Hpend. apply elem_of_cons in Hpend as [->|Hpend]; [done|].
  apply list_elem_of_fmap in Hpend as (d' & -> & Hin').
  apply (list.Forall_forall _ _) with (x := d') in Hord; [|done]. specialize (Hord Ht Hp). lia.
Qed.

Lemma commit_are S d ds k k' :
  k' = k \/ (exists t, k' = snd (gr_commit d t k)) ->
  marked_are S k -> read_are S (d :: ds) k -> S (d_Source d) -> in_order (d :: ds) ->
  Forall (fun d => below (gr_position k) (d_Source d)) (d :: ds) ->
  gr_dlq k' = gr_dlq k /\ marked_are S k' /\ read_are S ds k' /\
  Forall (fun d => below (gr_position k') (d_Source d)) ds.
Proof.
  intros Hk Hm Hr Hd Hord Hpos. apply list.Forall_cons in Hpos as [Hpd Hpos].
  assert (gr_records k' = gr_records k /\ gr_position k' = gr_position k /\ gr_dlq k' = gr_dlq k /\
   advanced (gr_committed k) (gr_committed k') (d_Source d) /\
   advanced (gr_marked k) (gr_marked k') (d_Source d)) as (Er & Ep & Ed & Hac & Ham).
  { destruct Hk as [-> | [t ->]]; [repeat split; auto|].
    destruct (commit_records d t k) as (? & ? & ?), (commit_advances d t k). auto. }
  split; [done|]. split; [|split; [|by rewrite Ep]].
  - intros r. rewrite Er. intros Hin [Hb|Hb]; revert Hb; eapply advanced_below; eauto.
  - intros r. rewrite Er, Ep. intros Hin Hb. destruct (Hr r Hin Hb) as [|Hpend]; [by left|].
    cbn in Hpend. apply elem_of_cons in Hpend as [->|Hpend]; [by left | by right].
Qed.

Lemma flush_are S k k' :
  k' = k \/ (exists t, k' = snd (gr_flush t k)) -> marked_are S k ->
  gr_dlq k' = gr_dlq k /\ marked_are S k'.
Proof.
  intros [-> | [t ->]] Hm; [done|]. destruct (flush_records t k) as (Er & Em & Ed). split; [done|].
  intros r. rewrite Er, Em. intros Hin Hb. apply (Hm r Hin). destruct Hb as [Hb|Hb]; [|by right].
  unfold below in *. destruct (flush_committed t k (s_Topic r) (s_Partition r)) as [Hc|Hc]; rewrite Hc in Hb; auto.
Qed.

Lemma poll_are S k k' :
  k' = k \/ (exists t, k' = snd (gr_poll t k)) -> marked_are S k ->
  gr_dlq k' = gr_dlq k /\ marked_are S k'.
Proof.
  intros [-> | [t ->]] Hm; [done|]. destruct (poll_offsets t k) as [Ec Em]. split; [apply poll_dlq|].
  intros r Hin. rewrite Ec, Em. intros Hb. apply Hm; [|done]. apply (poll_appends t); tauto.
Qed.

Lemma polled_are S t k ds :
  read_are S [] k -> fst (gr_poll t k) = Ok ds ->
  read_are S ds (snd (gr_poll t k)) /\ in_order ds /\
  Forall (fun d => below (gr_position (snd (gr_poll t k))) (d_Source d)) ds.
Proof.
  intros Hr Hds. split; [|by apply poll_ordered]. intros r Hin Hb.
  destruct (poll_delivers t _ _ r Hds Hin Hb) as [[Hin0 Hb0]|]; [|by right].
  destruct (Hr r Hin0 Hb0) as [|[]%elem_of_nil]. by left.
Qed.

(** A member starts at the committed offsets. *)
Lemma join_are S k k' :
  k' = k \/ (exists t, k' = snd (gr_join t k)) -> committed_are S k ->
  gr_dlq k' = gr_dlq k /\ committed_are S k'.
Proof.
  intros [-> | [t ->]] Hc; [done|]. split; [apply join_dlq|]. intros r Hin. rewrite join_committed. intros Hb.
  destruct (join_starts t k r Hin) as [Hin0 Hb0]; [by right; right|]. by apply Hc.
Qed.

Lemma joined_are S t k :
  committed_are S k -> marked_are S (snd (gr_join t k)) /\ read_are S [] (snd (gr_join t k)).
Proof.
  intros Hc. assert (forall r, r ∈ gr_records (snd (gr_join t k)) ->
    below (gr_position (snd (gr_join t k))) r \/ below (gr_marked (snd (gr_join t k))) r \/
      below (gr_committed k) r -> S r) as Hstart.
  { intros r Hin Hb. destruct (join_starts t k r Hin Hb) as [Hin0 Hb0]. by apply Hc. }
  split; intros r Hin; [rewrite join_committed; intros Hb | intros Hb; left]; apply Hstart; tauto.
Qed.
End offsets.

(** ** What it means not to lose a record *)

Section safety.
Context {K R : Type} `{GroupLaws K, RedisLaws R, UuidLib, PgLib, FmtOther}.
Implicit Types (w : world (site K R)) (r : Source).

#[local] Abbreviation group w := (si_group (w_data w)).
#[local] Abbreviation rows w := (db_rows (st_db (si_store (w_data w)))).

(** The part of the world the router sees. *)
Definition store_world w : world (store R) := World (si_store (w_data w)) (w_clock w) (w_sched w).

Definition dead_lettered r w : Prop := exists m, (r, m) ∈ gr_dlq (group w).
Definition routed r w : Prop :=
  exists env sid, Parse (r_Value (s_Record r)) = Ok env /\ uuid_Parse (EventID env) = Some sid /\
    is_Some (rows w !! routed_id sid).
Definition settled r w : Prop := routed r w \/ dead_lettered r w.

Lemma not_settled r w : rows w = ∅ -> gr_dlq (group w) = [] -> ~ settled r w.
Proof.
  intros Hr Hd [(env & sid & _ & _ & [e He])|[m Hm]].
  - by rewrite Hr, lookup_empty in He.
  - rewrite Hd in Hm. by apply elem_of_nil in Hm.
Qed.

(** Rows and dead letters only come. *)
Record grows w w' : Prop := {
  gw_rows id : is_Some (rows w !! id) -> is_Some (rows w' !! id);
  gw_dlq x : x ∈ gr_dlq (group w) -> x ∈ gr_dlq (group w');
}.

#[export] Instance grows_preorder : PreOrder grows.
Proof. split; [by intros w; split|]. intros w1 w2 w3 [? ?] [? ?]. split; auto. Qed.

Lemma settled_grows r w w' : grows w w' -> settled r w -> settled r w'.
Proof.
  intros [Hrows Hdlq] [(env & sid & Hp & Hs & Hr)|[m Hm]]; [left | right; exists m; auto].
  exists env, sid. auto.
Qed.

Definition durable w : Prop := marked_durable (store_world w).

(** Everything below a committed or marked offset is settled. *)
Definition committed_settled w : Prop := committed_are (fun r => settled r w) (group w).
Definition marked_settled w : Prop := marked_are (fun r => settled r w) (group w).
(** Everything the client is past is settled or in the batch at hand. *)
Definition read_settled (pending : list Delivery) w : Prop := read_are (fun r => settled r w) pending (group w).

Lemma durable_idle w w' :
  si_store (w_data w') = si_store (w_data w) -> later w w' -> durable w -> durable w'.
Proof.
  intros Hs Hl Hd k t Ht. unfold store_world in *. cbn in *. rewrite Hs.
  apply (Hd k t). unfold later in Hl. cbn. lia.
Qed.

(** A step that keeps the offsets keeps what is known of them. *)
Lemma marked_settled_step w w' :
  same_offsets (group w) (group w') -> grows w w' -> marked_settled w -> marked_settled w'.
Proof. intros Ho Hg. eapply marked_mono; [done|]. intros r. by apply settled_grows. Qed.

Lemma read_settled_step ds w w' :
  same_offsets (group w) (group w') -> grows w w' -> read_settled ds w -> read_settled ds w'.
Proof. intros Ho Hg. eapply read_mono; [done|]. intros r. by apply settled_grows. Qed.

(** ** The calls on the group *)

(** A call on the group leaves the stores alone, and the group as it was or as
    the call makes it. *)
Lemma on_group {A} (f : Z -> K -> result A * K) w :
  let run := in_group (remote f) w in
  si_store (w_data (snd run)) = si_store (w_data w) /\ later w (snd run) /\
  exists t, (group (snd run) = group w \/ group (snd run) = snd (f t (group w))) /\
    forall a, fst run = Ok a -> fst (f t (group w)) = Ok a /\ group (snd run) = snd (f t (group w)).
Proof.
  cbn zeta. destruct (zoom_remote_inv si_group (fun k (x : site K R) => MkSite (si_store x) k) f w)
    as (t & k & Ht & Hc & Hd & Hk & Hok); [by intros []|].
  unfold in_group. destruct (run (zoom _ _ (remote f)) w) as [res w']. cbn [fst snd] in *.
  unfold later. rewrite Hc, Hd. cbn. split_and!; [done|lia|]. by exists t.
Qed.

Lemma deadLetter_run d w :
  durable w ->
  let run := @deadLetter K R _ d w in
  si_store (w_data (snd run)) = si_store (w_data w) /\
  durable (snd run) /\ grows w (snd run) /\ same_offsets (group w) (group (snd run)) /\
  (fst run = Ok tt -> dead_lettered (d_Source d) (snd run)).
Proof.
  intros Hd. cbn zeta. unfold deadLetter.
  destruct (on_group (gr_deadletter d (dlq_metadata d)) w) as (Hs & Hl & t & Hk & Hok).
  destruct (in_group _ w) as [res w']. cbn [fst snd] in *.
  split_and!; [done | by eapply durable_idle | | |].
  - split; [by rewrite Hs|]. intros x Hx. destruct Hk as [Hk|Hk]; rewrite Hk; [done|].
    apply deadletter_only. by left.
  - destruct Hk as [Hk|Hk]; rewrite Hk; [apply same_offsets_refl | apply deadletter_offsets].
  - intros ->. destruct (Hok tt eq_refl) as [Ha Hg]. unfold dead_lettered. rewrite Hg. exists (dlq_metadata d). by apply deadletter_acked.
Qed.

(** What a routing does, in the consumer's stores. *)
Lemma routing_run s env traceID w :
  durable w ->
  let run := @in_store K R _ (Handle s env traceID) w in
  durable (snd run) /\ grows w (snd run) /\ later w (snd run) /\ group (snd run) = group w /\
  fst run = fst (Handle s env traceID (store_world w)) /\
  store_world (snd run) = snd (Handle s env traceID (store_world w)).
Proof.
  intros Hd. cbn zeta.
  pose proof (Handle_outcome s env traceID (store_world w)) as Ho.
  pose proof (outcome_durable s env traceID _ _ _ Hd Ho) as Hd'.
  pose proof (outcome_rows s env traceID _ _ _ Ho) as [Hrows _].
  assert (later (store_world w) (snd (Handle s env traceID (store_world w)))) as Hl.
  { by destruct Ho. }
  unfold in_store. rewrite (run_zoom si_store _). change (part si_store w) with (store_world w).
  destruct (run (Handle s env traceID) (store_world w)) as [res w1]. cbn [fst snd] in *.
  assert (store_world (whole (fun s (x : site K R) => MkSite s (si_group x)) (w_data w) w1) = w1) as Hsw
    by (by destruct w1).
  split; [unfold durable; by rewrite Hsw|].
  split; [split; [|done]; cbn; intros id [e He]; eauto|].
  split; [exact Hl|]. by split_and!.
Qed.

Section record.
Variables (ctx : option Z) (lag : Delivery -> N) (routerSvc : routerService).

#[local] Abbreviation handle := (handleProcessedRecord (K := K) (R := R) ctx lag routerSvc).

(** The records that can never be routed: no envelope of the contract, a header
    that names another event, or an envelope the router refuses. *)
Inductive poison (d : Delivery) : Prop :=
  | bad_envelope e : Parse (r_Value (s_Record (d_Source d))) = Err e -> poison d
  | header_mismatch env :
      Parse (r_Value (s_Record (d_Source d))) = Ok env ->
      recordHeader d HeaderEventID <> "" -> recordHeader d HeaderEventID <> EventID env -> poison d
  | router_refuses env :
      Parse (r_Value (s_Record (d_Source d))) = Ok env -> refusal routerSvc env <> None -> poison d.

(** The three ways a record is handled. *)
Variant handling (d : Delivery) w : result unit * world (site K R) -> Prop :=
  | dead_letter_first : poison d -> handling d w (deadLetter d w)
  | dead_letter_refused env e p :
      Parse (r_Value (s_Record (d_Source d))) = Ok env ->
      let routing := in_store (Handle routerSvc env (recordHeader d HeaderTraceID)) w in
      fst routing = Err e -> as_permanent e = Some p -> handling d w (deadLetter d (snd routing))
  | left_to_router env res :
      Parse (r_Value (s_Record (d_Source d))) = Ok env ->
      recordHeader d HeaderEventID = "" \/ recordHeader d HeaderEventID = EventID env ->
      let routing := in_store (Handle routerSvc env (recordHeader d HeaderTraceID)) w in
      fst routing = res ->
      (forall e p, res = Err e -> as_permanent e = Some p ->
         is_canceled e = true \/ done_at (processCtx ctx lag d) (w_clock (snd routing)) = true) ->
      handling d w (res, snd routing).

Lemma handle_cases d w : handling d w (handle d w).
Proof.
  unfold handleProcessedRecord.
  destruct (Parse _) as [env|e] eqn:Hp; [|by eapply dead_letter_first, bad_envelope].
  destruct (nonempty _ && _) eqn:Hh.
  { apply andb_true_iff in Hh as [Hn Hne]. apply nonempty_spec in Hn.
    apply negb_true_iff, String.eqb_neq in Hne. by eapply dead_letter_first, header_mismatch. }
  assert (recordHeader d HeaderEventID = "" \/ recordHeader d HeaderEventID = EventID env) as Hhdr.
  { apply andb_false_iff in Hh as [Hn|Hne%negb_false_iff%String.eqb_eq]; [left|by right].
    by destruct (recordHeader d HeaderEventID). }
  rewrite bind_try.
  pose proof (dead_letter_refused d w env) as Hrefused.
  pose proof (left_to_router d w env) as Hleft. cbn zeta in Hrefused, Hleft.
  destruct (in_store _ w) as [[[]|e] w1]; cbn [fst snd] in *.
  { apply Hleft; done. }
  rewrite bind_now. destruct (is_canceled e || _) eqn:Hc.
  { apply Hleft; [done..|]. intros e' p [= <-] _. by apply orb_true_iff in Hc. }
  destruct (as_permanent e) as [p|] eqn:Hperm; [by eapply Hrefused|].
  apply Hleft; [done..|]. intros ? ? [= <-]. congruence.
Qed.

(** An acknowledged routing left the record's row. *)
Lemma routing_routed env d w :
  durable w -> Parse (r_Value (s_Record (d_Source d))) = Ok env ->
  let run := @in_store K R _ (Handle routerSvc env (recordHeader d HeaderTraceID)) w in
  fst run = Ok tt -> routed (d_Source d) (snd run).
Proof.
  intros Hd Hp. cbn zeta.
  destruct (routing_run routerSvc env (recordHeader d HeaderTraceID) w Hd)
    as (_ & _ & _ & _ & Hfst & Hsw). intros Hr. rewrite Hfst in Hr.
  destruct (Handle_durable routerSvc env (recordHeader d HeaderTraceID) (store_world w) Hd Hr)
    as (sid & Hsid & Hrow).
  rewrite <- Hsw in Hrow. exists env, sid. by split_and!.
Qed.

Lemma handle_settles d w :
  durable w ->
  let run := handle d w in
  durable (snd run) /\ grows w (snd run) /\ same_offsets (group w) (group (snd run)) /\
  (fst run = Ok tt -> settled (d_Source d) (snd run)).
Proof.
  intros Hd. cbn zeta. destruct (handle_cases d w) as [_|env e p Hp routing _ _|env res Hp _ routing Hr _].
  - destruct (deadLetter_run d w Hd) as (_ & ? & ? & ? & Hok).
    repeat (split; [done|]). intros Hr. right. by apply Hok.
  - destruct (routing_run routerSvc env (recordHeader d HeaderTraceID) w Hd) as (Hd1 & Hg1 & _ & Hgr & _).
    fold routing in Hd1, Hg1, Hgr.
    destruct (deadLetter_run d (snd routing) Hd1) as (_ & ? & ? & Hso & Hok). rewrite Hgr in Hso.
    split; [done|]. split; [by etransitivity|]. split; [done|]. intros Hr. right. by apply Hok.
  - destruct (routing_run routerSvc env (recordHeader d HeaderTraceID) w Hd)
      as (Hd1 & Hg1 & _ & Hgr & Hfst & Hsw).
    fold routing in Hd1, Hg1, Hgr, Hfst, Hsw. cbn [fst snd]. rewrite Hgr.
    split; [done|]. split; [done|]. split; [by split|]. intros ->. left.
    by eapply routing_routed.
Qed.

(** Handling a record moves no offset, whatever the stores hold. *)
Lemma handle_offsets d w : same_offsets (group w) (group (snd (handle d w))).
Proof.
  assert (forall w0, same_offsets (group w0) (group (snd (@deadLetter K R _ d w0)))) as Hdl.
  { intros w0. destruct (on_group (gr_deadletter d (dlq_metadata d)) w0) as (_ & _ & t & [Hk|Hk] & _);
      unfold deadLetter; rewrite Hk; [apply same_offsets_refl | apply deadletter_offsets]. }
  assert (forall env w0, group (snd (@in_store K R _ (Handle routerSvc env (recordHeader d HeaderTraceID)) w0)) = group w0)
    as Hroute by (intros env w0; unfold in_store; by rewrite (run_zoom si_store _)).
  destruct (handle_cases d w) as [_|env e p _ routing _ _|env res _ _ routing _ _];
    [done | by rewrite <- (Hroute env w) | unfold routing; cbn [snd]; rewrite Hroute; apply same_offsets_refl].
Qed.

Lemma dead_letter_store d w : si_store (w_data (snd (@deadLetter K R _ d w))) = si_store (w_data w).
Proof. apply on_group. Qed.

(** Handling a poison record changes no store, and dead-letters it. *)
Lemma handle_poison d w :
  durable w -> Forall (fault_ok not_permanent) (w_sched w) -> poison d ->
  let run := handle d w in
  si_store (w_data (snd run)) = si_store (w_data w) /\ (fst run = Ok tt -> dead_lettered (d_Source d) (snd run)).
Proof.
  intros Hd Hw Hpoison. cbn zeta. destruct (handle_cases d w) as [_|env e p Hp routing Hr Hperm|
    env res Hp Hhdr routing Hr Hcancel].
  - split; [apply dead_letter_store | by apply deadLetter_run].
  - destruct (routing_run routerSvc env (recordHeader d HeaderTraceID) w Hd) as (Hd1 & _ & _ & _ & Hfst & Hsw).
    fold routing in Hd1, Hfst, Hsw. rewrite Hr in Hfst. symmetry in Hfst.
    split; [rewrite dead_letter_store | by apply deadLetter_run].
    destruct (refusal routerSvc env) as [e'|] eqn:Href.
    + destruct (Handle_refused routerSvc env (recordHeader d HeaderTraceID) e' (store_world w) Href) as [Hrun _].
      rewrite Hrun in Hsw. exact (f_equal w_data Hsw).
    + pose proof (Handle_not_permanent routerSvc env _ e (store_world w) Href Hw Hfst) as Hnp.
      unfold not_permanent in Hnp. congruence.
  - destruct (routing_run routerSvc env (recordHeader d HeaderTraceID) w Hd) as (_ & _ & _ & _ & Hfst & Hsw).
    fold routing in Hfst, Hsw. cbn [fst snd]. destruct (refusal routerSvc env) as [e'|] eqn:Href.
    + destruct (Handle_refused routerSvc env (recordHeader d HeaderTraceID) e' (store_world w) Href) as [Hrun _].
      rewrite Hrun in Hsw, Hfst. split; [exact (f_equal w_data Hsw)|].
      intros ->. cbn in Hfst. congruence.
    + exfalso. destruct Hpoison as [e' He|env' He Hn1 Hn2|env' He Hn1]; [congruence|..];
        assert (env' = env) as -> by congruence; destruct Hhdr; congruence.
Qed.

(** Handling any other record leaves the group alone, and routes it. *)
Lemma handle_other d w :
  durable w -> Forall (fault_ok not_permanent) (w_sched w) -> ~ poison d ->
  let run := handle d w in
  group (snd run) = group w /\ (fst run = Ok tt -> routed (d_Source d) (snd run)).
Proof.
  intros Hd Hw Hno. cbn zeta. destruct (handle_cases d w) as [Hpoison|env e p Hp routing Hr Hperm|
    env res Hp _ routing Hr _]; [done|..];
    destruct (routing_run routerSvc env (recordHeader d HeaderTraceID) w Hd) as (_ & _ & _ & Hgr & Hfst & _);
    fold routing in Hgr, Hfst.
  - exfalso. rewrite Hr in Hfst. symmetry in Hfst. destruct (refusal routerSvc env) eqn:Href.
    + apply Hno. eapply router_refuses; [done | by rewrite Href].
    + pose proof (Handle_not_permanent routerSvc env _ e (store_world w) Href Hw Hfst) as Hnp.
      unfold not_permanent in Hnp. congruence.
  - split; [done|]. cbn [fst snd]. intros ->. by eapply routing_routed.
Qed.

(** C7: exactly the poison records are dead-lettered: handling one changes no
    store and, when it is acknowledged, leaves it in the dead-letter topic;
    handling any other record leaves the topic and the group as they are,
    whatever fails and whenever the process is stopped, and when it is
    acknowledged the record's row is in the table. *)
Theorem dead_letters_exactly_poison d w :
  durable w -> Forall (fault_ok not_permanent) (w_sched w) ->
  let run := handle d w in
  (poison d -> si_store (w_data (snd run)) = si_store (w_data w) /\
     (fst run = Ok tt -> dead_lettered (d_Source d) (snd run))) /\
  (~ poison d -> group (snd run) = group w /\ (fst run = Ok tt -> routed (d_Source d) (snd run))).
Proof. intros Hd Hw. split; [by apply handle_poison | by apply handle_other]. Qed.

(** ** The loop *)

(** A call on the group that leaves the dead letters alone. *)
Lemma grows_idle w w' :
  si_store (w_data w') = si_store (w_data w) -> gr_dlq (group w') = gr_dlq (group w) -> grows w w'.
Proof. intros Hs Hd. split; [by rewrite Hs | by rewrite Hd]. Qed.

(** Committing a settled record keeps everything below the offsets settled, and
    takes it off the batch. *)
Lemma commit_run d ds w :
  durable w -> marked_settled w -> read_settled (d :: ds) w -> settled (d_Source d) w ->
  in_order (d :: ds) -> Forall (fun d => below (gr_position (group w)) (d_Source d)) (d :: ds) ->
  let run := @in_group K R _ (remote (gr_commit d)) w in
  durable (snd run) /\ marked_settled (snd run) /\ read_settled ds (snd run) /\
  Forall (fun d => below (gr_position (group (snd run))) (d_Source d)) ds.
Proof.
  intros Hd Hm Hr Hset Hord Hpos. cbn zeta.
  destruct (on_group (gr_commit d) w) as (Hs & Hl & t & Hk & _).
  destruct (in_group _ w) as [res w']. cbn [fst snd] in *.
  destruct (commit_are _ d ds (group w) (group w') ltac:(naive_solver) Hm Hr Hset Hord Hpos) as (Ed & Hm' & Hr' & Hp').
  pose proof (grows_idle w w' Hs Ed) as Hg.
  split_and!; [by eapply durable_idle | | |done].
  - eapply marked_mono; [apply same_offsets_refl | | exact Hm']. intros r. by apply settled_grows.
  - eapply read_mono; [apply same_offsets_refl | | exact Hr']. intros r. by apply settled_grows.
Qed.

Lemma commitPending_run w :
  durable w -> marked_settled w ->
  durable (snd (@commitPending K R _ w)) /\ marked_settled (snd (@commitPending K R _ w)).
Proof.
  intros Hd Hm. unfold commitPending. rewrite bind_try. cbn [ret run snd].
  destruct (on_group (fun t k => gr_flush t k) w) as (Hs & Hl & t & Hk & _).
  destruct (in_group _ w) as [res w']. cbn [fst snd] in *.
  destruct (flush_are _ (group w) (group w') ltac:(naive_solver) Hm) as (Ed & Hm').
  pose proof (grows_idle w w' Hs Ed) as Hg. split; [by eapply durable_idle|].
  eapply marked_mono; [apply same_offsets_refl | | exact Hm']. intros r. by apply settled_grows.
Qed.

Lemma process_records_run ds w :
  durable w -> marked_settled w -> read_settled ds w -> in_order ds ->
  Forall (fun d => below (gr_position (group w)) (d_Source d)) ds ->
  let run := process_records (K := K) (R := R) ctx lag routerSvc ds w in
  durable (snd run) /\ marked_settled (snd run) /\ (fst run = Ok tt -> read_settled [] (snd run)).
Proof.
  revert w. induction ds as [|d ds IH]; intros w Hd Hm Hr Hord Hpos; cbn zeta; cbn [process_records].
  { by split_and!. }
  rewrite bind_try. destruct (handle_settles d w Hd) as (Hd1 & Hg1 & Hso & Hok).
  pose proof (marked_settled_step _ _ Hso Hg1 Hm) as Hm1.
  pose proof (read_settled_step _ _ _ Hso Hg1 Hr) as Hr1.
  rewrite <- (so_position _ _ Hso) in Hpos.
  destruct (handle d w) as [[[]|e] w1]; cbn [fst snd] in *.
  - specialize (Hok eq_refl). rewrite bind_try.
    destruct (commit_run d ds w1 Hd1 Hm1 Hr1 Hok Hord Hpos) as (Hd2 & Hm2 & Hr2 & Hpos2).
    destruct (in_group _ w1) as [[[]|e] w2]; cbn [fst snd] in *.
    + apply IH; [done..|by destruct Hord|done].
    + destruct (commitPending_run w2 Hd2 Hm2) as [Hd3 Hm3]. rewrite run_bind.
      destruct (commitPending w2) as [[[]|e'] w3]; cbn [fst snd throw run] in *; by split_and!.
  - destruct (commitPending_run w1 Hd1 Hm1) as [Hd2 Hm2]. rewrite run_bind.
    destruct (commitPending w1) as [[[]|e'] w2]; cbn [fst snd throw run] in *; by split_and!.
Qed.

Lemma poll_run w :
  durable w -> marked_settled w -> read_settled [] w ->
  let run := @in_group K R _ (remote gr_poll) w in
  durable (snd run) /\ marked_settled (snd run) /\
  forall ds, fst run = Ok ds -> read_settled ds (snd run) /\ in_order ds /\
    Forall (fun d => below (gr_position (group (snd run))) (d_Source d)) ds.
Proof.
  intros Hd Hm Hr. cbn zeta.
  destruct (on_group (fun t k => gr_poll t k) w) as (Hs & Hl & t & Hk & Hok).
  destruct (in_group _ w) as [res w']. cbn [fst snd] in *.
  destruct (poll_are _ (group w) (group w') ltac:(naive_solver) Hm) as (Ed & Hm').
  pose proof (grows_idle w w' Hs Ed) as Hg.
  split_and!; [by eapply durable_idle | |].
  - eapply marked_mono; [apply same_offsets_refl | | exact Hm']. intros r. by apply settled_grows.
  - intros ds Hds. destruct (Hok ds Hds) as [Hds' Hk'].
    destruct (polled_are _ t (group w) ds Hr Hds') as (Hr' & Hord & Hpos).
    rewrite <- Hk' in Hr', Hpos. split_and!; [|done..].
    eapply read_mono; [apply same_offsets_refl | | exact Hr']. intros r. by apply settled_grows.
Qed.

Lemma consume_run polls w :
  durable w -> marked_settled w -> read_settled [] w ->
  let run := consume (K := K) (R := R) ctx lag routerSvc polls w in
  durable (snd run) /\ marked_settled (snd run).
Proof.
  revert w. induction polls as [|n IH]; intros w Hd Hm Hr; cbn zeta; cbn [consume]; [done|].
  rewrite bind_try. destruct (poll_run w Hd Hm Hr) as (Hd1 & Hm1 & Hok).
  destruct (in_group _ w) as [[ds|e] w1]; cbn [fst snd] in *.
  - destruct (Hok ds eq_refl) as (Hr1 & Hord & Hpos).
    destruct (process_records_run ds w1 Hd1 Hm1 Hr1 Hord Hpos) as (Hd2 & Hm2 & Hr2).
    rewrite run_bind. destruct (run (process_records _ _ _ ds) w1) as [[[]|e] w2]; cbn [fst snd] in *; [|by split].
    apply IH; [done|done|by apply Hr2].
  - rewrite !bind_now. destruct (done_at ctx (w_clock w1)); [rewrite !run_bind|by split].
    destruct (commitPending_run w1 Hd1 Hm1) as [Hd2 Hm2].
    by destruct (commitPending w1) as [[[]|e'] w2].
Qed.
End record.

(** ** The binary, and its restarts *)

Definition steady w : Prop := durable w /\ committed_settled w.

Lemma idle_keeps w w' : idle w w' -> steady w -> steady w'.
Proof.
  intros [He Hl] [Hd Hc]. split; [eapply durable_idle; [by rewrite He|done|done]|].
  intros r. rewrite He. intros Hin Hb. apply (settled_grows r w w'); [|by apply Hc]. split; by rewrite He.
Qed.

(** Joining the group. *)
Lemma join_run w :
  durable w -> committed_settled w ->
  let run := @in_group K R _ (remote gr_join) w in
  durable (snd run) /\ committed_settled (snd run) /\
  (fst run = Ok tt -> marked_settled (snd run) /\ read_settled [] (snd run)).
Proof.
  intros Hd Hc. cbn zeta.
  destruct (on_group (fun t k => gr_join t k) w) as (Hs & Hl & t & Hk & Hok).
  destruct (in_group _ w) as [res w']. cbn [fst snd] in *.
  destruct (join_are _ (group w) (group w') ltac:(naive_solver) Hc) as (Ed & Hc').
  pose proof (grows_idle w w' Hs Ed) as Hg.
  assert (forall r, settled r w -> settled r w') as Hmono by (intros r; by apply settled_grows).
  split_and!; [by eapply durable_idle | exact (committed_mono _ _ _ Hmono Hc')|].
  intros Hr. destruct (Hok tt Hr) as [_ Hk']. destruct (joined_are _ t (group w) Hc) as [Hm' Hr'].
  rewrite <- Hk' in Hm', Hr'.
  split; [eapply marked_mono | eapply read_mono]; first [apply same_offsets_refl | exact Hmono | done].
Qed.

Lemma RunConsumer_keeps `{PostgresSettings P} ctx lag (cfg : Config P) polls w :
  steady w -> steady (snd (RunConsumer (K := K) (R := R) ctx lag cfg polls w)).
Proof.
  intros Hw. unfold RunConsumer. destruct (String.eqb _ ""); [done|].
  rewrite run_bind. pose proof (idle_setupRedis cfg w) as Hi1.
  destruct (setupRedis cfg w) as [[up|e] w1]; cbn [fst snd] in *;
    pose proof (idle_keeps _ _ Hi1 Hw) as Hw1; [|done].
  destruct up; cbn [negb]; [|done].
  rewrite run_bind. pose proof (idle_open_postgres cfg w1) as Hi2.
  destruct (open_postgres cfg w1) as [[[]|e] w2]; cbn [fst snd] in *;
    destruct (idle_keeps _ _ Hi2 Hw1) as [Hd2 Hc2]; [|done].
  rewrite run_bind. unfold boot_step at 1. rewrite bind_try.
  destruct (join_run w2 Hd2 Hc2) as (Hd3 & Hc3 & Hok).
  destruct (in_group _ w2) as [[[]|e] w3]; cbn [fst snd ret throw run] in *; [|done].
  destruct (Hok eq_refl) as [Hm Hr].
  destruct (consume_run ctx lag (consumer_router cfg) polls w3 Hd3 Hm Hr) as [Hd4 Hm4].
  split; [done|]. intros r Hin Hb. apply Hm4; auto.
Qed.

(** One life of the process: when it is told to stop, how its goroutines are
    scheduled, how many polls it makes, what its remote calls meet, and how
    long it is down afterwards.  A crash is a schedule whose calls all fail
    from some point on. *)
Record life (P : Type) := MkLife {
  l_ctx : option Z;
  l_lag : Delivery -> N;
  l_cfg : Config P;
  l_polls : nat;
  l_sched : list tick;
  l_down : N;
}.

Fixpoint restart {P} `{PostgresSettings P} (lives : list (life P)) w : world (site K R) :=
  match lives with
  | [] => w
  | l :: lives' =>
      let w' := snd (RunConsumer (l_ctx _ l) (l_lag _ l) (l_cfg _ l) (l_polls _ l)
                       (World (w_data w) (w_clock w) (l_sched _ l))) in
      restart lives' (World (w_data w') (w_clock w' + Z.of_N (l_down _ l)) [])
  end.

(** C6: no event is lost: over any number of lives of the consumer, each
    stopped, failing or crashing anywhere, every record below a committed
    offset has its routed row in the outbox table or is in the dead-letter
    topic, provided this held when the first life began and the group commits
    no offset the loop did not hand it. *)
Theorem consumer_loses_nothing `{PostgresSettings P} (lives : list (life P)) w :
  durable w -> committed_settled w -> committed_settled (restart lives w).
Proof.
  revert w. induction lives as [|l lives IH]; intros w Hd Hc; cbn [restart]; [done|].
  destruct (RunConsumer_keeps (l_ctx _ l) (l_lag _ l) (l_cfg _ l) (l_polls _ l)
    (World (w_data w) (w_clock w) (l_sched _ l)) (conj Hd Hc)) as [Hd1 Hc1].
  apply IH; [|exact Hc1]. eapply durable_idle; [| |exact Hd1]; [done | unfold later; cbn; lia].
Qed.

(** C40: an event the table cannot hold is never dead-lettered: when PostgreSQL
    refuses the routed payload, as it refuses any JSON text with an escaped
    NUL, every delivery of the record fails, with nothing stored and nothing
    dead-lettered, so that the record keeps its partition from advancing for
    ever. *)
Theorem unstorable_event_stalls ctx lag s d env sid text w :
  durable w -> Forall (fault_ok not_permanent) (w_sched w) ->
  Parse (r_Value (s_Record (d_Source d))) = Ok env ->
  recordHeader d HeaderEventID = "" \/ recordHeader d HeaderEventID = EventID env ->
  refusal s env = None -> uuid_Parse (EventID env) = Some sid ->
  Marshal (routed_envelope env (routed_id sid)) = Ok text -> pg_jsonb text = None ->
  (forall t, w_clock w <= t -> rd_get t (dedupe_key env) (st_redis (si_store (w_data w))) = None) ->
  exists e, fst (handleProcessedRecord (K := K) ctx lag s d w) = Err e /\
    w_data (snd (handleProcessedRecord (K := K) ctx lag s d w)) = w_data w.
Proof.
  intros Hd Hw Hp Hhdr Href Hsid Hm Hj Hmark.
  pose proof (Handle_outcome s env (recordHeader d HeaderTraceID) (store_world w)) as Ho.
  destruct (routing_run s env (recordHeader d HeaderTraceID) w Hd) as (_ & _ & _ & Hgr & Hfst & Hsw).
  assert (exists e, fst (Handle s env (recordHeader d HeaderTraceID) (store_world w)) = Err e /\
    w_data (snd (Handle s env (recordHeader d HeaderTraceID) (store_world w))) = si_store (w_data w))
    as (e & Herr & Hdata).
  { destruct Ho as [e He|e w' _ _ Hd'|t w' _ _ _ Ht Hex _|
      docID sid' payload res t n d' w' _ _ _ _ Hs' Hm' Hcr _ _]; [congruence|by exists e|exfalso..].
    - rewrite exists_get in Hex. change (w_data (store_world w)) with (si_store (w_data w)) in Hex.
      rewrite (Hmark t) in Hex; [done|exact Ht].
    - assert (sid' = sid) as -> by congruence. assert (payload = text) as -> by congruence.
      unfold CreateOutboxEvent in Hcr. cbn [routed_row routed_params p_Payload] in Hcr.
      rewrite Hj in Hcr. by destruct (negb _). }
  pose proof (Handle_not_permanent s env _ e (store_world w) Href Hw Herr) as Hnp.
  destruct (handle_cases ctx lag s d w) as [Hpoison|env' e' p Hp' routing Hr Hperm|
    env' res Hp' _ routing Hr _].
  - exfalso. destruct Hpoison as [e' He|env' He Hn1 Hn2|env' He Hn1]; [congruence|..];
      assert (env' = env) as -> by congruence; destruct Hhdr; congruence.
  - assert (env' = env) as -> by congruence. fold routing in Hfst. unfold not_permanent in Hnp. congruence.
  - assert (env' = env) as -> by congruence. fold routing in Hfst, Hsw, Hgr.
    exists e. cbn [fst snd]. split; [congruence|].
    assert (si_store (w_data (snd routing)) = si_store (w_data w)) as Hst.
    { rewrite <- Hdata, <- Hsw. reflexivity. }
    destruct (w_data (snd routing)) as [st gr], (w_data w) as [st' gr']. cbn in *. congruence.
Qed.
End safety.

(** ** The concrete group keeps the laws *)

Lemma numbered_In x l from :
  x ∈ numbered from l -> from <= s_Offset x < from + Z.of_nat (length l) /\ cl_own x = true.
Proof.
  revert from. induction l as [|r l IH]; intros from; cbn [numbered]; [by intros ?%elem_of_nil|].
  intros [->|Hin]%elem_of_cons.
  - cbn. split; [lia|done].
  - destruct (IH _ Hin) as [Ho Hown]. split; [cbn [length]; lia | done].
Qed.

Lemma cl_own_offset x o : cl_own x = true -> cl_offset o (s_Topic x) (s_Partition x) = o.
Proof. unfold cl_own, cl_offset. by intros ->. Qed.

Lemma numbered_in_order l from P `{!forall x, Decision (P x)} :
  in_order (map (fun x => MkDelivery x None) (filter P (numbered from l))).
Proof.
  revert from. induction l as [|r l IH]; intros from; cbn [numbered filter]; [done|].
  rewrite filter_cons. case_decide; [|apply IH].
  cbn [map in_order d_Source]. split; [|apply IH].
  apply list.Forall_forall. intros d' Hin _ _. apply list_elem_of_fmap in Hin as (x & -> & Hx).
  apply list_elem_of_filter in Hx as [_ Hx]. apply numbered_In in Hx as [Ho _]. cbn. lia.
Qed.

Lemma cl_unread_In x c : x ∈ cl_unread c <-> cl_position c <= s_Offset x /\ x ∈ cl_sources c.
Proof. unfold cl_unread. by rewrite list_elem_of_filter. Qed.

Lemma advanced_cl o o' x :
  o' = o \/ cl_own x = true /\ o' = s_Offset x + 1 -> advanced (cl_offset o) (cl_offset o') x.
Proof.
  intros [->|[Hx ->]]; [split; auto|]. split.
  - intros t p Hne. unfold cl_own, cl_offset in *.
    apply andb_true_iff in Hx as [Ht%String.eqb_eq Hp%Z.eqb_eq].
    destruct (String.eqb_spec t TopicDocumentProcessed), (Z.eqb_spec p 0); cbn; try done. congruence.
  - right. by apply cl_own_offset.
Qed.

Lemma cluster_laws : @GroupLaws cluster (cluster_group false).
Proof.
  split.
  1-3: cbn; try done.
  - intros _ c r Hr Hb. split; [done|]. tauto.
  - cbn. intros _ c ds r [= <-] Hr Hb. unfold below in *.
    destruct (numbered_In _ _ _ Hr) as [Ho Hown]. rewrite !cl_own_offset in * by done.
    destruct (decide (s_Offset r < cl_position c)); [by left|right].
    rewrite map_map, map_id. apply cl_unread_In. split; [lia | done].
  - cbn. intros _ c ds [= <-]. split; [apply numbered_in_order|].
    apply list.Forall_forall. intros d Hin. apply list_elem_of_fmap in Hin as (x & -> & Hx).
    apply cl_unread_In in Hx as [_ Hx]. destruct (numbered_In _ _ _ Hx) as [Ho Hown].
    unfold below. cbn. rewrite cl_own_offset by done. lia.
  - cbn. intros _ c ds d [= <-] (x & -> & Hx)%list_elem_of_fmap. by apply cl_unread_In in Hx as [_ Hx].
  - done.
  - done.
  - done.
  - cbn. intros d _ c. by destruct (cl_own _).
  - cbn. intros d _ c. destruct (cl_own (d_Source d)) eqn:Hown; cbn; split; apply advanced_cl; auto.
  - cbn. intros d _ c. destruct (cl_own (d_Source d)) eqn:Hown; cbn; [|done]. intros _.
    unfold below. rewrite cl_own_offset by done. lia.
  - done.
  - cbn. intros _ c topic p. by right.
  - done.
  - cbn. intros d m _ c _. apply elem_of_app. right. by left.
  - cbn. intros d m _ c x. rewrite elem_of_app, list_elem_of_singleton. tauto.
Qed.

(** ** Concrete runs *)

#[local] Existing Instance demo_uuid.
#[local] Existing Instance demo_pg.
#[local] Existing Instance demo_fmt_other.
#[local] Instance demo_settings : PostgresSettings unit := fun _ => false.

Definition demo_consumer_config : Config unit :=
  MkConfig tt
    (MkServer 8083 0 0 0 0 0) (MkPprof false 6063) (MkRedis "required" "localhost:6379" 0)
    (MkKafka ["localhost:9092"] (MkProducer 5 0)
       (MkConsumer "ocr-gateway" [TopicDocumentProcessed] TopicDocumentProcessedDLQ))
    9093 (MkOcrClient "localhost:9094")
    (MkGateway (24 * Hour) "ocr.document.routed.%s.v1" [MkCaller "expense" "" (MkRateLimit 1 1) ∅]).

(** The source topic holds one good event and one that is no JSON. *)
Definition demo_cluster : cluster :=
  MkCluster [MkRecord "" "" demo_value []; MkRecord "" "" "not json" []] 0 0 0 [].
Definition demo_site : world (site cluster keyspace) :=
  World (MkSite (MkStore ∅ (MkDb ∅ ∅)) demo_cluster) 1000 [].

Lemma nothing_committed flush (w : world (site cluster keyspace)) :
  cl_committed (si_group (w_data w)) = 0 ->
  @committed_settled cluster keyspace (cluster_group flush) _ w.
Proof.
  intros Hz r Hr Hb. destruct (numbered_In _ _ 0 Hr) as [Ho Hown].
  unfold below in Hb. cbn [gr_committed cluster_group] in Hb.
  rewrite cl_own_offset, Hz in Hb by done. lia.
Qed.

Lemma demo_site_durable : durable demo_site.
Proof. exact (demo_marked []). Qed.

(** A life in which Redis fails at the first record. *)
Definition failing_life : life unit :=
  MkLife unit None (fun _ => 0%N) demo_consumer_config 3
    [Tick 1 NoFault; Tick 1 NoFault; Tick 1 NoFault; Tick 1 NoFault; Tick 1 (FailBefore (External "i/o timeout"))] 5.

(** One in which nothing fails. *)
Definition healthy_life : life unit :=
  MkLife unit None (fun _ => 0%N) demo_consumer_config 3 [] 5.

Lemma consumer_loses_nothing_witness :
  @committed_settled cluster keyspace (cluster_group false) _
    (@restart cluster keyspace (cluster_group false) _ _ _ _ unit _ [failing_life; healthy_life] demo_site).
Proof.
  refine (@consumer_loses_nothing cluster keyspace (cluster_group false) cluster_laws
            _ _ _ _ _ unit _ [failing_life; healthy_life] demo_site _ _).
  - exact demo_site_durable.
  - exact (nothing_committed false demo_site eq_refl).
Defined.

Example demo_consumed :
  let w := @restart cluster keyspace (cluster_group false) _ _ _ _ unit _ [failing_life; healthy_life] demo_site in
  cl_committed (si_group (w_data w)) = 2 /\ size (db_rows (st_db (si_store (w_data w)))) = 1%nat /\
  map (fun x => s_Offset (fst x)) (cl_dlq (si_group (w_data w))) = [1].
Proof. vm_compute. split_and!; reflexivity. Qed.

(** The loop relies on what a flush commits.  [RunConsumer] calls
    [commitPending] after a record failed; were [CommitUncommitted] to commit
    the offsets the client has read, and not only those handed to it, one
    failed Redis call would lose the record: its offset is committed, no row
    is stored and nothing is dead-lettered. *)
Theorem flush_of_read_offsets_loses_events :
  exists w : world (site cluster keyspace),
    durable w /\ @committed_settled cluster keyspace (cluster_group true) _ w /\
    ~ @committed_settled cluster keyspace (cluster_group true) _
        (@restart cluster keyspace (cluster_group true) _ _ _ _ unit _ [failing_life] w).
Proof.
  exists demo_site. split; [exact demo_site_durable|]. split; [exact (nothing_committed true demo_site eq_refl)|].
  intros Hs. refine (@not_settled cluster keyspace (cluster_group true) _
    (MkSource (on_topic (MkRecord "" "" demo_value [])) 0 0) _ _ _ (Hs _ _ _)).
  - vm_compute. reflexivity.
  - vm_compute. reflexivity.
  - vm_compute. left.
  - vm_compute. reflexivity.
Qed.

#[local] Instance demo_group : GroupLib cluster := cluster_group false.
#[local] Instance demo_group_laws : GroupLaws cluster := cluster_laws.

(** A record whose header names another event. *)
Definition demo_delivery : Delivery :=
  MkDelivery (MkSource (on_topic (MkRecord "" "" demo_value [MkHeader HeaderEventID "other"])) 0 0) None.

Lemma demo_parses : Parse demo_value = Ok demo_env.
Proof. vm_compute. reflexivity. Qed.

Lemma dead_letters_exactly_poison_witness :
  dead_lettered (d_Source demo_delivery)
    (snd (handleProcessedRecord (K := cluster) None (fun _ => 0%N) demo_router demo_delivery demo_site)).
Proof.
  destruct (dead_letters_exactly_poison (K := cluster) None (fun _ => 0%N) demo_router demo_delivery
              demo_site demo_site_durable) as [Hpoison _].
  - constructor.
  - apply Hpoison; [|vm_compute; reflexivity]. apply (header_mismatch _ _ demo_env).
    + exact demo_parses.
    + vm_compute. discriminate.
    + vm_compute. discriminate.
Defined.

(** A record that meets the contract and whose data holds an escaped NUL. *)
Definition nul_value : string := jtext
  "{'schema_version':'1.0','event_id':'018f1f88-2f00-7000-8000-000000000001','event_type':'document.processed','occurred_at':'2026-07-15T10:00:00Z','document_id':'018f1f88-2f00-7000-8000-000000000002','external_ref':'r','caller_id':'expense','idempotency_key':'k-1','producer':'ocr-engine','data':{'note':'\u0000'},'error':null}".
Definition nul_env : Envelope :=
  match json_Unmarshal nul_value with Some env => env | None => zero_envelope end.
Definition nul_text : string :=
  match Marshal (routed_envelope nul_env (routed_id demo_sid)) with Ok t => t | Err _ => EmptyString end.
Definition nul_delivery : Delivery :=
  MkDelivery (MkSource (on_topic (MkRecord "" "" nul_value [])) 0 0) None.

(** A PostgreSQL that refuses the escape in JSONB. *)
Definition strict_pg : PgLib := {|
  pg_text := demo_pg_text;
  pg_jsonb := fun s => match String.index 0 "\u0000" s with Some _ => None | None => Some s end;
  pg_returning := fun es => es;
|}.

Lemma nul_parses : Parse nul_value = Ok nul_env.
Proof. vm_compute. reflexivity. Qed.

Lemma nul_marshals : Marshal (routed_envelope nul_env (routed_id demo_sid)) = Ok nul_text.
Proof. vm_compute. reflexivity. Qed.

Lemma unstorable_event_stalls_witness :
  exists e, fst (@handleProcessedRecord cluster keyspace _ _ _ strict_pg _ None (fun _ => 0%N) demo_router
    nul_delivery demo_site) = Err e.
Proof.
  destruct (@unstorable_event_stalls cluster keyspace _ _ _ _ strict_pg _ None (fun _ => 0%N) demo_router
    nul_delivery nul_env demo_sid nul_text demo_site) as (e & He & _).
  - exact demo_site_durable.
  - constructor.
  - exact nul_parses.
  - left. reflexivity.
  - vm_compute. reflexivity.
  - vm_compute. reflexivity.
  - exact nul_marshals.
  - vm_compute. reflexivity.
  - intros t _. vm_compute. reflexivity.
  - exists e. exact He.
Defined.
