(* ===== verification/ConsumerProgress.v ===== *)
(** * The consumer's progress

    Where nothing fails, one poll takes the group past everything it delivered,
    each record to where it belongs. *)
From S2P Require Import Prelude Utf8 Json GoTime Uuid Repository RepositoryFacts Redis Kafka Constant Envelope EnvelopeFacts Router RouterFacts Config Auth App AppFacts Consumer ConsumerFacts.

Section progress.
Context {K R : Type} `{GroupLaws K, RedisLaws R, UuidLaws, PgLib, FmtOther}.
Variables (ctx : option Z) (lag : Delivery -> N) (s : routerService).
Implicit Types (w : world (site K R)) (r : Source) (d : Delivery).

#[local] Abbreviation group w := (si_group (w_data w)).
#[local] Abbreviation healthy w := (Forall (fault_ok (fun _ => False)) (w_sched w)).
#[local] Abbreviation handle := (handleProcessedRecord (K := K) (R := R) ctx lag s).
#[local] Abbreviation process := (process_records (K := K) (R := R) ctx lag s).

(** Kafka takes what is sent to it on behalf of [d]. *)
Definition acknowledged d : Prop :=
  (forall t k, fst (gr_commit (K := K) d t k) = Ok tt) /\
  (forall m t k, fst (gr_deadletter (K := K) d m t k) = Ok tt).

(** A record that can be handled to the end. *)
Definition handleable d : Prop :=
  poison s d \/ exists env, Parse (r_Value (s_Record (d_Source d))) = Ok env /\
    storable s env (recordHeader d HeaderTraceID).

(** Poison is dead-lettered, anything else is routed. *)
Definition disposed d w : Prop :=
  (poison s d -> dead_lettered (d_Source d) w) /\ (~ poison s d -> routed (d_Source d) w).

Lemma disposed_grows d w w' : grows w w' -> disposed d w -> disposed d w'.
Proof.
  intros [Hrows Hdlq] [Hd Hr]. split.
  - intros Hp. destruct (Hd Hp) as [m Hm]. exists m. by apply Hdlq.
  - intros Hp. destruct (Hr Hp) as (env & sid & ? & ? & ?). exists env, sid. auto.
Qed.

Hypothesis connected : rdb_up s = true.

Lemma handle_never_fails d :
  acknowledged d -> handleable d -> (forall t, done_at (processCtx ctx lag d) t = false) ->
  raises (fun _ => False) (handle d).
Proof.
  intros [_ Hack] Hh Hrun.
  assert (raises (fun _ => False) (@deadLetter K R _ d)) as Hdl.
  { apply raises_zoom; [apply _|]. apply raises_remote. intros t k e. by rewrite Hack. }
  unfold handleProcessedRecord. destruct (Parse _) as [env|e] eqn:Hp; [|exact Hdl].
  destruct (nonempty _ && _) eqn:Hhdr; [exact Hdl|].
  destruct (refusal s env) as [e|] eqn:Href.
  - intros w Hw. rewrite bind_try. unfold in_store. rewrite (run_zoom si_store _).
    destruct (Handle_refused s env (recordHeader d HeaderTraceID) e (part si_store w) Href) as [Hrun' [p Hperm]].
    rewrite Hrun'. cbn [fst snd]. rewrite bind_now, Hrun, orb_false_r, Hperm.
    replace (whole _ (w_data w) (part si_store w)) with w by (by destruct w as [[]]).
    rewrite (refusal_not_canceled s env e Href). by apply Hdl.
  - destruct Hh as [Hpoison|(env' & Henv & Hst)].
    + exfalso. apply andb_false_iff in Hhdr. rewrite negb_false_iff, String.eqb_eq in Hhdr.
      destruct Hpoison as [e He|env' He Hn1 Hn2|env' He Hn1]; [congruence|..]; assert (env' = env) as -> by congruence;
        [|congruence]. apply nonempty_spec in Hn1. destruct Hhdr; congruence.
    + assert (env' = env) as -> by congruence. apply Parse_decodes in Hp as Hdec.
      apply raises_try; [|intros []; apply raises_ret | done].
      apply raises_zoom; [apply _|]. by eapply Handle_never_fails.
Qed.

(** Every record of a batch is handled and committed, and what was before stays
    committed. *)
Lemma process_never_fails ds :
  (forall d, d ∈ ds -> acknowledged d /\ handleable d /\ forall t, done_at (processCtx ctx lag d) t = false) ->
  raises (fun _ => False) (process ds).
Proof.
  induction ds as [|d ds IH]; intros Hds; cbn [process_records]; [apply raises_ret|].
  destruct (Hds d ltac:(left)) as (Hack & Hh & Hrun).
  apply raises_try; [by apply handle_never_fails | intros _ | done].
  apply raises_try; [|intros _; apply IH; intros d' Hd'; apply Hds; by right | done].
  apply raises_zoom; [apply _|]. apply raises_remote. intros t k e. by rewrite (proj1 Hack).
Qed.

(** The records of [ds] come after [r] in its partition. *)
Definition precedes r ds : Prop :=
  Forall (fun d => s_Topic (d_Source d) = s_Topic r -> s_Partition (d_Source d) = s_Partition r ->
    s_Offset r < s_Offset (d_Source d)) ds.

Lemma commit_keeps d t k r :
  below (gr_committed k) r -> precedes r [d] -> below (gr_committed (snd (gr_commit d t k))) r.
Proof.
  intros Hb Hd. apply list.Forall_cons in Hd as [Hd _]. destruct (commit_advances d t k) as [[Hother Hsame] _].
  unfold below in *. destruct (decide ((s_Topic r, s_Partition r) = (s_Topic (d_Source d), s_Partition (d_Source d))))
    as [[= Ht Hp]|Hne]; [|by rewrite Hother].
  rewrite Ht, Hp in *. specialize (Hd eq_refl eq_refl). destruct Hsame as [-> | ->]; lia.
Qed.

Lemma commit_acknowledged d w :
  acknowledged d -> healthy w ->
  let run := @in_group K R _ (remote (gr_commit d)) w in
  fst run = Ok tt /\ healthy (snd run) /\ si_store (w_data (snd run)) = si_store (w_data w) /\ later w (snd run) /\
  exists t, group (snd run) = snd (gr_commit d t (group w)).
Proof.
  intros [Hack _] Hw. cbn zeta. destruct (on_group (gr_commit d) w) as (Hs & Hl & t & _ & Hok).
  assert (raises (fun _ => False) (@in_group K R _ (remote (gr_commit d)))) as Hr.
  { apply raises_zoom; [apply _|]. apply raises_remote. intros t' k e. by rewrite Hack. }
  destruct (Hr w Hw) as [Hw' He]. destruct (run (in_group _) w) as [[[]|e] w']; cbn [fst snd] in *;
    [|by destruct (He e eq_refl)]. split_and!; try done. exists t. apply (Hok tt eq_refl).
Qed.

(** The batch is handled and committed to the end. *)
Lemma process_commits ds w :
  (forall d, d ∈ ds -> acknowledged d /\ handleable d /\ forall t, done_at (processCtx ctx lag d) t = false) ->
  healthy w -> in_order ds ->
  let run := process ds w in
  fst run = Ok tt /\ healthy (snd run) /\ gr_records (group (snd run)) = gr_records (group w) /\
  (forall r, below (gr_committed (group w)) r -> precedes r ds -> below (gr_committed (group (snd run))) r) /\
  forall d, d ∈ ds -> below (gr_committed (group (snd run))) (d_Source d).
Proof.
  revert w. induction ds as [|d ds IH]; intros w Hds Hw Hord; cbn zeta; cbn [process_records].
  { split_and!; [done..|by intros d ?%elem_of_nil]. }
  destruct (Hds d ltac:(left)) as (Hack & Hh & Hrun). destruct Hord as [Hfirst Hord].
  rewrite bind_try. destruct (handle_never_fails d Hack Hh Hrun w Hw) as [Hw1 Herr].
  pose proof (handle_offsets ctx lag s d w) as Hso.
  destruct (run (handle d) w) as [[[]|e] w1]; cbn [fst snd] in *; [|by destruct (Herr e eq_refl)].
  rewrite bind_try. destruct (commit_acknowledged d w1 Hack Hw1) as (Hok & Hw2 & _ & _ & t & Hk2).
  destruct (run (in_group _) w1) as [res w2]; cbn [fst snd] in *. subst res.
  destruct (IH w2) as (Hok & Hw3 & Hrec & Hkeep & Hall); [intros d' Hd'; apply Hds; by right | done..|].
  split_and!; [done..| | |].
  - destruct (commit_records d t (group w1)) as [Hr _]. by rewrite Hrec, Hk2, Hr, (so_records _ _ Hso).
  - intros r Hb Hr. apply list.Forall_cons in Hr as [Hr1 Hr]. apply Hkeep; [|done].
    rewrite Hk2. apply commit_keeps; [by rewrite (so_committed _ _ Hso) | by repeat constructor].
  - intros d' [->|Hd']%elem_of_cons; [|by apply Hall].
    apply Hkeep; [rewrite Hk2; apply commit_acked, Hack|]. done.
Qed.

(** And each of its records is put where it belongs. *)
Lemma process_disposes ds w :
  (forall d, d ∈ ds -> acknowledged d /\ handleable d /\ forall t, done_at (processCtx ctx lag d) t = false) ->
  durable w -> healthy w ->
  let run := process ds w in
  grows w (snd run) /\ forall d, d ∈ ds -> disposed d (snd run).
Proof.
  revert w. induction ds as [|d ds IH]; intros w Hds Hd Hw; cbn zeta; cbn [process_records].
  { split; [reflexivity | by intros d ?%elem_of_nil]. }
  destruct (Hds d ltac:(left)) as (Hack & Hh & Hrun).
  rewrite bind_try. destruct (handle_never_fails d Hack Hh Hrun w Hw) as [Hw1 Herr].
  destruct (handle_settles ctx lag s d w Hd) as (Hd1 & Hg1 & _ & _).
  assert (Forall (fault_ok not_permanent) (w_sched w)) as Hnp
    by (eapply list.Forall_impl; [exact Hw|]; intros x; unfold fault_ok; by case_match).
  pose proof (handle_poison ctx lag s d w Hd Hnp) as Hpoison.
  pose proof (handle_other ctx lag s d w Hd Hnp) as Hroute.
  destruct (run (handle d) w) as [[[]|e] w1]; cbn [fst snd] in *; [|by destruct (Herr e eq_refl)].
  assert (disposed d w1) as Hdis by (split; intros Hp; [by apply Hpoison | by apply Hroute]).
  rewrite bind_try. destruct (commit_acknowledged d w1 Hack Hw1) as (Hok & Hw2 & Hs2 & Hl2 & t & Hk2).
  destruct (run (in_group _) w1) as [res w2]; cbn [fst snd] in *. subst res.
  assert (grows w1 w2) as Hg2 by (apply grows_idle; [done|]; rewrite Hk2; apply commit_records).
  destruct (IH w2) as (Hg & Hall); [intros d' Hd'; apply Hds; by right | by eapply durable_idle | done |].
  split; [by etransitivity; [exact Hg1 | etransitivity]|].
  intros d' [->|Hd']%elem_of_cons; [|by apply Hall].
  apply (disposed_grows _ w2); [done|]. by apply (disposed_grows _ w1).
Qed.

(** A call leaves the rest of the schedule. *)
Lemma healthy_call {A} (f : Z -> K -> result A * K) w : healthy w -> healthy (snd (@in_group K R _ (remote f) w)).
Proof.
  unfold in_group. rewrite (run_zoom si_group _), run_remote. unfold call, part. cbn [w_sched snd].
  intros Hw. destruct Hw as [|[n flt] sch Hx Hw]; cbn; [by destruct (f _ _)|].
  destruct flt; [|done..]. by destruct (f _ _).
Qed.

(** A poll makes progress: where no call fails and Kafka takes what it is sent, a poll's
    records are all handled, committed and put where they belong, and the
    consumer goes on: a record that can never be routed is in the dead-letter
    topic, and the row of any other is in the outbox. *)
Lemma consumer_progresses ds w :
  durable w -> healthy w -> fst (@in_group K R _ (remote gr_poll) w) = Ok ds ->
  (forall d, d ∈ ds -> acknowledged d /\ handleable d /\ forall t, done_at (processCtx ctx lag d) t = false) ->
  let run := consume (K := K) (R := R) ctx lag s 1 w in
  fst run = Ok false /\
  forall d, d ∈ ds -> below (gr_committed (group (snd run))) (d_Source d) /\
    (poison s d -> dead_lettered (d_Source d) (snd run)) /\ (~ poison s d -> routed (d_Source d) (snd run)).
Proof.
  intros Hd Hw Hpoll Hds. cbn zeta. cbn [consume]. rewrite bind_try.
  pose proof (healthy_call gr_poll w Hw) as Hw1.
  destruct (on_group (fun t k => gr_poll t k) w) as (Hs & Hl & t & _ & Hok).
  destruct (in_group _ w) as [res w1]; cbn [fst snd] in *. subst res.
  destruct (Hok ds eq_refl) as [Hds' _]. apply poll_ordered in Hds' as [Hord _].
  destruct (process_commits ds w1 Hds Hw1 Hord) as (Hrun & _ & _ & _ & Hall).
  destruct (process_disposes ds w1 Hds) as [_ Hdis]; [by eapply durable_idle | done |].
  rewrite run_bind. destruct (run (process ds) w1) as [res w2]; cbn [fst snd] in *. subst res.
  split; [done|]. intros d Hin. split; [by apply Hall | by apply Hdis].
Qed.
End progress.

(** ** A concrete run *)

#[local] Existing Instance demo_uuid.
#[local] Existing Instance demo_pg.
#[local] Existing Instance demo_fmt_other.
#[local] Instance demo_progress_group : GroupLib cluster := cluster_group false.
#[local] Instance demo_progress_laws : GroupLaws cluster := cluster_laws.

Definition demo_batch : list Delivery := map (fun x => MkDelivery x None) (cl_sources demo_cluster).

(** The group is past both records, and the one that is no JSON is dead-lettered. *)
Lemma demo_consumer_progresses :
  let w := snd (consume (K := cluster) None (fun _ => 0%N) demo_router 1 demo_site) in
  Forall (fun d => below (gr_committed (si_group (w_data w))) (d_Source d)) demo_batch /\
  exists d, d ∈ demo_batch /\ dead_lettered (d_Source d) w.
Proof.
  set (d0 := MkDelivery (MkSource (on_topic (MkRecord "" "" "not json" [])) 0 1) None).
  assert (poison demo_router d0) as Hbad by (eapply bad_envelope; vm_compute; reflexivity).
  destruct (consumer_progresses (K := cluster) None (fun _ => 0%N) demo_router eq_refl demo_batch demo_site
    demo_site_durable) as [_ Hall].
  - constructor.
  - vm_compute. reflexivity.
  - intros d [->|[->|Hd]%elem_of_cons]%elem_of_cons; [..|by apply elem_of_nil in Hd].
    + split; [split; [intros t k | intros m t k]; vm_compute; reflexivity|]. split; [|done].
      right. exists demo_env. split; [exact demo_parses | exact demo_storable].
    + split; [split; [intros t k | intros m t k]; vm_compute; reflexivity|]. split; [by left | done].
  - split.
    + apply list.Forall_forall. intros d Hd. by apply Hall.
    + exists d0. assert (d0 ∈ demo_batch) as Hin by (right; left). split; [exact Hin|]. by apply (Hall d0 Hin).
Qed.
