(* ===== verification/Health.v ===== *)
(** * The probes: [internal/handler/respond.go], [internal/handler/health],
    [internal/server/health.go]

    The JSON answers, the liveness and readiness handlers with the drain flag,
    the probe server that routes to them, and the dependencies the grpc binary
    probes. *)
From S2P Require Import Prelude Utf8 Json GoTime App.
From stdpp Require Import sorting.
#[local] Open Scope Z_scope.

(** ** Answers *)

Record Response := MkResponse { rs_Status : Z; rs_ContentType : string; rs_Body : string }.

Definition StatusOK : Z := 200.
Definition StatusInternalServerError : Z := 500.
Definition StatusServiceUnavailable : Z := 503.

(** [json.Marshal] of maps: the members in the order of their names. *)
Definition by_name (a b : string * string) : Prop := String.leb (fst a) (fst b) = true.
#[export] Instance by_name_dec a b : Decision (by_name a b).
Proof. unfold by_name. apply _. Defined.

(** A map whose values are already encoded. *)
Definition marshal_object (m : gmap string string) : string :=
  object_text (map (fun kv => (quote_from true 0 (fst kv), snd kv)) (merge_sort by_name (map_to_list m))).

(** A [map[string]string]. *)
Definition marshal_strings (m : gmap string string) : string := marshal_object (appendString <$> m).

(** [WriteJSON]: [v] is what [json.Marshal] makes of the value.  The bytes are
    there before anything is written. *)
Definition WriteJSON (status : Z) (v : result string) : Response :=
  match v with
  | Err _ => MkResponse StatusInternalServerError "text/plain; charset=utf-8"
               ("internal error" ++ str1 (byte_of 10))
  | Ok buf => MkResponse status "application/json" buf
  end.

Definition WriteError (status : Z) (code message : string) : Response :=
  WriteJSON status
    (Ok (marshal_object {["error" := marshal_strings (<["code" := code]> {["message" := message]})]})).

(** ** The handlers *)

(** The drain flag next to what the dependencies are. *)
Record probed (D : Type) := MkProbed { pb_draining : bool; pb_deps : D }.
Arguments MkProbed {D} _ _.
Arguments pb_draining {D} _.
Arguments pb_deps {D} _.

Section probes.
Context {D : Type} `{ErrorText}.

(** A dependency's ping, under a context with a deadline, which is its to
    respect. *)
Definition Pinger : Type := Z -> M D unit.

#[export] Instance deps_lens : Lens pb_deps (fun (d : D) s => MkProbed (pb_draining s) d).
Proof. solve_lens. Qed.

Definition on_deps {A} : M D A -> M (probed D) A :=
  zoom pb_deps (fun d s => MkProbed (pb_draining s) d).

(** [PingFunc]: a bare function as a dependency. *)
Definition PingFunc (f : Z -> M D unit) : Pinger := f.

(** [Handler]: its dependencies; the flag it owns is [pb_draining], which is
    down when the process starts. *)
Record Handler := MkHandler {
  required : list (string * Pinger);
  optional : list (string * Pinger);
}.

Definition NewHandler (required optional : list (string * Pinger)) : Handler := MkHandler required optional.

(** [Handler.BeginDrain]. *)
Definition BeginDrain : M (probed D) unit := modify (fun s => MkProbed true (pb_deps s)).

(** [Liveness]. *)
Definition Liveness : M (probed D) Response :=
  ret (WriteJSON StatusOK (Ok (marshal_strings {["status" := "ok"]}))).

(** The two loops of [Readiness], over the maps' entries in the order Go
    iterates them, which is any. *)
Fixpoint ping_required (ctx : Z) (deps : list (string * Pinger)) (status : Z) (checks : gmap string string)
    : M D (Z * gmap string string) :=
  match deps with
  | [] => ret (status, checks)
  | (name, dep) :: deps' =>
      let! pinged := try (dep ctx) in
      match pinged with
      | Err err => ping_required ctx deps' StatusServiceUnavailable (<[name := ("down: " ++ error_text err)%string]> checks)
      | Ok _ => ping_required ctx deps' status (<[name := "up"]> checks)
      end
  end.

Fixpoint ping_optional (ctx : Z) (deps : list (string * Pinger)) (checks : gmap string string)
    : M D (gmap string string) :=
  match deps with
  | [] => ret checks
  | (name, dep) :: deps' =>
      let! pinged := try (dep ctx) in
      match pinged with
      | Err err => ping_optional ctx deps' (<[name := ("degraded: " ++ error_text err)%string]> checks)
      | Ok _ => ping_optional ctx deps' (<[name := "up"]> checks)
      end
  end.

(** [Handler.Readiness]: all pings share one deadline. *)
Definition Readiness (h : Handler) : M (probed D) Response :=
  let! s := get_data in
  if pb_draining s
  then ret (WriteJSON StatusServiceUnavailable (Ok (marshal_strings {["status" := "draining"]})))
  else
    let! t := now in
    let ctx := t + 3 * Second in
    let! '(status, checks) := on_deps (ping_required ctx (required h) StatusOK ∅) in
    let! checks := on_deps (ping_optional ctx (optional h) checks) in
    ret (WriteJSON status (Ok (marshal_object {["checks" := marshal_strings checks]}))).

(** ** The probe server *)

(** [http.Server]: where it listens, its timeouts, and what it answers to a
    method and a path. *)
Record http_Server := MkServer {
  srv_Addr : string;
  srv_Handler : string -> string -> M (probed D) Response;
  srv_ReadTimeout : Z;
  srv_WriteTimeout : Z;
  srv_IdleTimeout : Z;
}.

Record HTTPServer := MkHTTPServer { srv : http_Server; h : Handler }.

(** The two routes; [chi_other] is what the router answers to any other
    request. *)
Definition serve_probe (chi_other : string -> string -> Response) (h : Handler) (method path : string)
    : M (probed D) Response :=
  if String.eqb method "GET" && String.eqb path "/healthz" then Liveness
  else if String.eqb method "GET" && String.eqb path "/readyz" then Readiness h
  else ret (chi_other method path).

Definition NewHTTPServer (chi_other : string -> string -> Response) (port : Z)
    (required optional : list (string * Pinger)) : HTTPServer :=
  let h := NewHandler required optional in
  MkHTTPServer (MkServer (":" ++ format_int port)%string (serve_probe chi_other h)
                  (10 * Second) (30 * Second) (60 * Second)) h.

(** [HTTPServer.BeginDrain]. *)
Definition http_BeginDrain (s : HTTPServer) : M (probed D) unit := BeginDrain.

(** ** What the grpc binary probes *)

(** [redisPinger]: without a client the probe reports the degradation. *)
Definition redisPinger (rdb_up : bool) (ping : Pinger) : Pinger :=
  PingFunc (if rdb_up then ping else fun _ => throw (errors_New "redis unavailable (optional mode)")).

(** The required dependencies of [RunGRPC]; it has no optional ones. *)
Definition grpc_required (rdb_up : bool) (pool redis : Pinger) : list (string * Pinger) :=
  [("postgres", pool); ("redis", redisPinger rdb_up redis)].

(** The probe server of [RunGRPC]. *)
Definition grpc_probe (chi_other : string -> string -> Response) (port : Z) (rdb_up : bool)
    (pool redis : Pinger) : HTTPServer :=
  NewHTTPServer chi_other port (grpc_required rdb_up pool redis) [].
End probes.
Arguments Pinger : clear implicits.
Arguments Handler : clear implicits.
Arguments http_Server : clear implicits.
Arguments HTTPServer : clear implicits.
