(* ===== verification/HealthFacts.v ===== *)
(** * Theorems on the probes

    Readiness against a reference that first pings every dependency once and
    then decides: what makes it fail, that optional dependencies never do,
    that the order the maps are iterated in does not matter, and that draining
    is final. *)
From S2P Require Import Prelude Utf8 Json App Health.

Section readiness.
Context {D : Type} `{ErrorText}.

(** Every dependency pinged once, in order, under one deadline. *)
Fixpoint observe (ctx : Z) (deps : list (string * Pinger D)) : M D (list (string * result unit)) :=
  match deps with
  | [] => ret []
  | (name, dep) :: deps' =>
      let! pinged := try (dep ctx) in
      let! rest := observe ctx deps' in
      ret ((name, pinged) :: rest)
  end.

Definition all_up (obs : list (string * result unit)) : bool := forallb (fun o => is_ok (snd o)) obs.

(** What is reported of one ping. *)
Definition report (word : string) (r : result unit) : string :=
  match r with Ok _ => "up" | Err e => (word ++ ": " ++ error_text e)%string end.

Definition reports (word : string) (obs : list (string * result unit)) (checks : gmap string string) :=
  foldl (fun m o => <[fst o := report word (snd o)]> m) checks obs.

(** The reference. *)
Definition verdict (required optional : list (string * result unit)) : Response :=
  WriteJSON (if all_up required then StatusOK else StatusServiceUnavailable)
    (Ok (marshal_object {["checks" :=
       marshal_strings (reports "degraded" optional (reports "down" required ∅))]})).

Lemma observe_Ok ctx deps w : exists obs w', observe ctx deps w = (Ok obs, w') /\ map fst obs = map fst deps.
Proof.
  revert w. induction deps as [|[name dep] deps IH]; intros w; cbn [observe].
  { by exists [], w. }
  rewrite bind_try, run_bind. destruct (IH (snd (dep ctx w))) as (obs & w' & -> & Hn).
  exists ((name, fst (dep ctx w)) :: obs), w'. split; [done|]. cbn. by rewrite Hn.
Qed.

(** A ping that respects the deadline of its context. *)
Definition punctual (dep : Pinger D) : Prop :=
  forall ctx w, w_clock w <= ctx -> w_clock w <= w_clock (snd (dep ctx w)) <= ctx.

Lemma observe_punctual ctx deps w :
  Forall (fun d => punctual (snd d)) deps -> w_clock w <= ctx ->
  w_clock w <= w_clock (snd (observe ctx deps w)) <= ctx.
Proof.
  intros Hdeps. revert w. induction Hdeps as [|[name dep] deps Hd _ IH]; intros w Hw; cbn [observe]; [cbn; lia|].
  specialize (Hd ctx w Hw). cbn [snd] in Hd. rewrite bind_try, run_bind. specialize (IH (snd (dep ctx w))).
  destruct (observe_Ok ctx deps (snd (dep ctx w))) as (obs & w' & Hrun & _). rewrite Hrun in *. cbn in *. lia.
Qed.

Lemma ping_required_observe ctx deps status checks w :
  ping_required ctx deps status checks w =
  bind (observe ctx deps)
    (fun obs => ret (if all_up obs then status else StatusServiceUnavailable, reports "down" obs checks)) w.
Proof.
  revert status checks w. induction deps as [|[name dep] deps IH]; intros status checks w; [done|].
  cbn [ping_required observe]. rewrite bind_try, run_bind, bind_try, run_bind.
  destruct (run (dep ctx) w) as [[[]|e] w1]; cbn [fst snd]; rewrite IH, run_bind;
    destruct (observe_Ok ctx deps w1) as (obs & w' & -> & _); cbn; [done|]. by destruct (all_up obs).
Qed.

Lemma ping_optional_observe ctx deps checks w :
  ping_optional ctx deps checks w = bind (observe ctx deps) (fun obs => ret (reports "degraded" obs checks)) w.
Proof.
  revert checks w. induction deps as [|[name dep] deps IH]; intros checks w; [done|].
  cbn [ping_optional observe]. rewrite bind_try, run_bind, bind_try, run_bind.
  destruct (run (dep ctx) w) as [[[]|e] w1]; cbn [fst snd]; rewrite IH, run_bind;
    by destruct (observe_Ok ctx deps w1) as (obs & w' & -> & _).
Qed.

(** C34: the readiness probe pings every required dependency once and then every
    optional one, and its answer is the verdict on what it saw: 503 exactly
    when a required ping failed, whatever the optional ones did, with every
    dependency reported; and where the pings respect the deadline of their
    context, the answer comes within three seconds, however many there are.
    While the process drains nothing is pinged and the answer is 503. *)
Theorem Readiness_refines required optional w :
  (pb_draining (w_data w) = true ->
     exists body, Readiness (NewHandler required optional) w = (Ok (MkResponse 503 "application/json" body), w)) /\
  (pb_draining (w_data w) = false ->
     let ctx := w_clock w + 3 * Second in
     Readiness (NewHandler required optional) w =
     bind (on_deps (observe ctx required)) (fun r =>
     bind (on_deps (observe ctx optional)) (fun o => ret (verdict r o))) w) /\
  (Forall (fun d => punctual (snd d)) (required ++ optional) ->
     w_clock (snd (Readiness (NewHandler required optional) w)) <= w_clock w + 3 * Second) /\
  forall r o, rs_Status (verdict r o) = 503 <-> exists name e, (name, Err e) ∈ r.
Proof.
  assert (pb_draining (w_data w) = false ->
     let ctx := w_clock w + 3 * Second in
     Readiness (NewHandler required optional) w =
     bind (on_deps (observe ctx required)) (fun r =>
     bind (on_deps (observe ctx optional)) (fun o => ret (verdict r o))) w) as Hrun.
  { intros Hd. unfold Readiness, on_deps. rewrite bind_get_data, Hd, bind_now. cbn zeta.
    cbn [NewHandler Health.required Health.optional]. set (ctx := w_clock w + _).
    rewrite !run_bind, !(run_zoom pb_deps _), ping_required_observe, run_bind.
    destruct (run (observe ctx required) _) as [[r|e] w1]; cbn [fst snd ret run]; [|done].
    rewrite !run_bind, !(run_zoom pb_deps _), ping_optional_observe, run_bind.
    by destruct (run (observe ctx optional) _) as [[o|e] w2]. }
  split_and!; [|exact Hrun| |].
  - intros Hd. unfold Readiness. rewrite bind_get_data, Hd. by eexists.
  - intros [Hreq Hopt]%Forall_app. destruct (pb_draining (w_data w)) eqn:Hd.
    { unfold Readiness. rewrite bind_get_data, Hd. unfold Second. cbn. lia. }
    rewrite (Hrun eq_refl). clear Hrun. cbn zeta. set (ctx := w_clock w + _).
    assert (w_clock w <= ctx) as Hw by (unfold ctx, Second; lia).
    rewrite run_bind. unfold on_deps. rewrite (run_zoom pb_deps _).
    pose proof (observe_punctual ctx required (part pb_deps w) Hreq Hw) as H1.
    destruct (observe_Ok ctx required (part pb_deps w)) as (r & w1 & Hr & _). rewrite Hr in *. cbn [fst snd] in *.
    rewrite run_bind, (run_zoom pb_deps _).
    pose proof (observe_punctual ctx optional w1 Hopt (proj2 H1)) as H2.
    replace (part pb_deps (whole _ (w_data w) w1)) with w1 by (by destruct w1).
    destruct (observe_Ok ctx optional w1) as (o & w2 & Ho & _). rewrite Ho in *. cbn [fst snd ret run whole w_clock] in *. lia.
  - intros r o. unfold verdict. cbn [rs_Status WriteJSON]. destruct (all_up r) eqn:Hup.
    + split; [done|]. intros (name & e & Hin). unfold all_up in Hup. rewrite forallb_forall in Hup.
      apply list_elem_of_In in Hin. by specialize (Hup _ Hin).
    + split; [intros _|done]. clear -Hup. induction r as [|[name [[]|e]] r IH]; [done|..].
      * destruct (IH Hup) as (name' & e & Hin). exists name', e. by right.
      * exists name, e. left.
Qed.

Lemma reports_lookup word obs checks name :
  reports word obs checks !! name =
  match (list_to_map (reverse obs) : gmap string (result unit)) !! name with Some r => Some (report word r) | None => checks !! name end.
Proof.
  induction obs as [|[n r] obs IH] using rev_ind; [done|].
  unfold reports. rewrite foldl_snoc, reverse_snoc. fold (reports word obs checks). cbn [fst snd].
  rewrite list_to_map_cons, !lookup_insert. by case_decide.
Qed.

Lemma reports_perm word obs obs' checks :
  NoDup (map fst obs) -> obs ≡ₚ obs' -> reports word obs checks = reports word obs' checks.
Proof.
  intros Hnd Hp. apply map_eq. intros name. rewrite !reports_lookup.
  rewrite (list_to_map_proper (reverse obs) (reverse obs')); [done|..].
  - by rewrite reverse_Permutation.
  - by rewrite !reverse_Permutation.
Qed.

Lemma all_up_perm obs obs' : obs ≡ₚ obs' -> all_up obs = all_up obs'.
Proof.
  unfold all_up. induction 1 as [|x l l' _ IH|x y l|l l' l'' _ IH _ IH']; cbn; [done| | |congruence].
  - by rewrite IH.
  - rewrite !andb_assoc. f_equal. apply andb_comm.
Qed.

(** The order in which Go iterates the dependency maps does not show: two
    probes that saw the same pings, in any order, give the same answer. *)
Theorem verdict_order_independent r r' o o' :
  NoDup (map fst r) -> NoDup (map fst o) -> r ≡ₚ r' -> o ≡ₚ o' -> verdict r o = verdict r' o'.
Proof.
  intros Hr Ho Hpr Hpo. unfold verdict. rewrite (all_up_perm r r' Hpr).
  by rewrite (reports_perm _ r r' _ Hr Hpr), (reports_perm _ o o' _ Ho Hpo).
Qed.

(** In optional mode with Redis unreachable at boot the grpc binary never
    becomes ready: its probe requires the Redis pinger, which without a client
    always fails. *)
Theorem optional_redis_never_ready chi_other port (pool redis : Pinger D) (w : world (probed D)) :
  exists body w',
    srv_Handler (srv (grpc_probe chi_other port false pool redis)) "GET" "/readyz" w = (Ok (MkResponse 503 "application/json" body), w').
Proof.
  unfold grpc_probe, NewHTTPServer, serve_probe. cbn [srv srv_Handler].
  change (String.eqb "GET" "GET" && String.eqb "/readyz" "/healthz") with false.
  change (String.eqb "GET" "GET" && String.eqb "/readyz" "/readyz") with true. cbn iota.
  unfold Readiness. rewrite bind_get_data. destruct (pb_draining (w_data w)); [by do 2 eexists|].
  unfold on_deps, grpc_required, redisPinger, PingFunc. cbn [NewHandler required optional].
  rewrite bind_now. cbn zeta. rewrite run_bind, (run_zoom pb_deps _). cbn [ping_required].
  rewrite bind_try. destruct (run (pool _) _) as [[[]|e] w1]; cbn; by do 2 eexists.
Qed.

(** ** The probe server over time *)

(** What happens to the server: a request, or the drain of the shutdown. *)
Inductive probe_step := Request (method path : string) | Drain.

(** The answers to the requests, in order. *)
Fixpoint serve_all (s : HTTPServer D) (steps : list probe_step) : M (probed D) (list (string * string * Response)) :=
  match steps with
  | [] => ret []
  | Request method path :: steps' =>
      let! answer := srv_Handler (srv s) method path in
      let! rest := serve_all s steps' in
      ret ((method, path, answer) :: rest)
  | Drain :: steps' => do! http_BeginDrain s in serve_all s steps'
  end.

Definition readyz_draining : Response :=
  MkResponse 503 "application/json" (marshal_object (appendString <$> {["status" := "draining"]})).
Definition healthz_ok : Response :=
  MkResponse 200 "application/json" (marshal_object (appendString <$> {["status" := "ok"]})).

(** What a draining server answers. *)
Definition draining_answer (chi_other : string -> string -> Response) (method path : string) : Response :=
  if String.eqb method "GET" && String.eqb path "/healthz" then healthz_ok
  else if String.eqb method "GET" && String.eqb path "/readyz" then readyz_draining
  else chi_other method path.

Definition requests (steps : list probe_step) : list (string * string) :=
  omap (fun s => match s with Request m p => Some (m, p) | Drain => None end) steps.

Lemma serve_draining chi_other port required optional method path (w : world (probed D)) :
  pb_draining (w_data w) = true ->
  srv_Handler (srv (NewHTTPServer chi_other port required optional)) method path w
  = (Ok (draining_answer chi_other method path), w).
Proof.
  intros Hd. unfold NewHTTPServer, serve_probe, draining_answer. cbn [srv srv_Handler].
  destruct (_ && _); [done|]. destruct (_ && _); [|done].
  unfold Readiness. by rewrite bind_get_data, Hd.
Qed.

Lemma serve_all_draining chi_other port required optional steps (w : world (probed D)) :
  pb_draining (w_data w) = true ->
  serve_all (NewHTTPServer chi_other port required optional) steps w
  = (Ok (map (fun mp => (mp, draining_answer chi_other (fst mp) (snd mp))) (requests steps)), w).
Proof.
  revert w. induction steps as [|[method path|] steps IH]; intros w Hd; [done|..]; cbn [serve_all].
  - rewrite run_bind, serve_draining, run_bind, IH by done. done.
  - unfold http_BeginDrain, BeginDrain. rewrite run_bind. cbn.
    destruct w as [[dr deps] clk sch]. cbn in Hd |- *. subst dr. by apply IH.
Qed.

(** C35: draining is final, for the whole life of the probe server: after
    [BeginDrain] every readiness probe is answered 503 and every liveness probe
    still 200, no dependency is pinged any more, and no sequence of requests
    or further drains brings readiness back. *)
Theorem draining_is_final chi_other port required optional steps (w : world (probed D)) :
  let s := NewHTTPServer chi_other port required optional in
  let w' := snd (http_BeginDrain s w) in
  pb_deps (w_data w') = pb_deps (w_data w) /\
  serve_all s (Drain :: steps) w
  = (Ok (map (fun mp => (mp, draining_answer chi_other (fst mp) (snd mp))) (requests steps)), w').
Proof.
  cbn zeta. split; [done|]. cbn [serve_all]. rewrite run_bind.
  unfold http_BeginDrain, BeginDrain. cbn. by apply serve_all_draining.
Qed.
End readiness.

(** ** Concrete runs *)

#[local] Instance demo_texts : ErrorText := fun e => match e with External s => s | _ => "error" end.

Definition demo_down : Pinger unit := fun _ => throw (External "refused").

Example demo_readyz :
  rs_Body (verdict [("redis", Ok tt); ("postgres", Err (External "refused"))] []) =
  jtext "{'checks':{'postgres':'down: refused','redis':'up'}}".
Proof. vm_compute. reflexivity. Qed.

Lemma verdict_order_independent_witness :
  verdict [("a", Ok tt); ("b", Err (External "x"))] [] = verdict [("b", Err (External "x")); ("a", Ok tt)] [].
Proof.
  apply verdict_order_independent.
  - apply (bool_decide_unpack _). vm_compute. exact I.
  - constructor.
  - apply Permutation_swap.
  - constructor.
Defined.

Example demo_draining :
  let run := (do! BeginDrain in Readiness (NewHandler (grpc_required true (fun _ => ret tt) (fun _ => ret tt)) []))
               (World (MkProbed false tt) 0 []) in
  match fst run with Ok r => (rs_Status r, rs_Body r) | Err _ => (0, "") end
  = (503, jtext "{'status':'draining'}").
Proof. vm_compute. reflexivity. Qed.
