(* ===== verification/Worker.v ===== *)
(** * The outbox worker: [internal/app/worker.go]

    The binary that drains the outbox: its boot, and the loop over a ticker
    and the stop signal, one [PublishPending] to a tick. *)
From S2P Require Import Prelude GoTime Uuid Repository Kafka Constant Envelope Outbox Config App.

Definition publishInterval : Z := 1 * Second.
Definition workerIDPrefix : string := "outbox-worker-".

(** [cfg.Service.InstanceID], in the platform's section. *)
Class ServiceSettings (P : Type) := InstanceID : P -> string.

Definition worker_id {P} `{ServiceSettings P} (cfg : Config P) : string :=
  (workerIDPrefix ++ InstanceID (rest cfg))%string.

(** When the tick of a [time.Ticker] of period [p] after the one that was due at
    [due] and received at [t] is due: the first multiple of the period past [t],
    since the ticks its channel had no room for are dropped. *)
Definition next_tick_time (p due t : Z) : Z := due + p * (1 + (t - due) / p).

Section worker.
Context {K : Type} `{KafkaLib K, UuidLib, PgLib, ErrorText}.
Variable injected : UUID -> list RecordHeader.
(** the time the process is told to stop, if ever; and whether [select], in a
    round that finds both the tick and the stop ready, picks the tick *)
Variables (ctx : option Z) (picks_tick : nat -> bool).

(** The loop for [ticks] rounds from round [n] on, the next tick being due at
    [due]: [true] when it returned, [false] when it is still running. *)
Fixpoint publish_loop (workerID : string) (ticks n : nat) (due : Z) : M (pubstore K) bool :=
  match ticks with
  | O => ret false
  | S ticks' =>
      let! t := now in
      let tick := Z.max t due in
      let stop := Z.max t <$> ctx in
      let picked := match stop with
                    | None => true
                    | Some s => (tick <? s) || (tick =? s) && picks_tick n
                    end in
      if negb picked then do! sleep_until (default t stop) in ret true
      else
        do! sleep_until tick in
        do! try (svc_PublishPending (NewOutboxService injected) workerID 100) in
        publish_loop workerID ticks' (S n) (next_tick_time publishInterval due tick)
  end.

(** [RunWorker]. *)
Definition RunWorker {P} `{PostgresSettings P, ServiceSettings P} (cfg : Config P) (ticks : nat)
    : M (pubstore K) bool :=
  do! open_postgres cfg in
  do! boot_step "connect kafka: %w" dial in
  let! t := now in
  publish_loop (worker_id cfg) ticks 0 (t + publishInterval).
End worker.
