(* ===== verification/WorkerFacts.v ===== *)
(** * Theorems on the outbox worker

    What any run of the binary does to the outbox and to Kafka, tick after
    tick, and that it stops when it is told to. *)
From S2P Require Import Prelude GoTime Uuid Repository RepositoryFacts Kafka Constant Envelope Outbox OutboxFacts Config ConfigFacts App AppFacts Worker.

Section worker.
Context {K : Type} `{KafkaLaws K, UuidLib, PgLib, ErrorText, !PgLaws}.
Variable injected : UUID -> list RecordHeader.
Variables (ctx : option Z) (picks_tick : nat -> bool).

#[local] Abbreviation record_of := (event_record injected).

(** What any number of ticks does: records of rows are appended to Kafka, and
    every row stays, marked published only if its record was appended. *)
Definition worked (s s' : pubstore K) : Prop :=
  exists es, drained injected es s s' /\
    forall e, e ∈ es -> exists e0, db_rows (ps_db s) !! ID e = Some e0 /\ fixed_part e0 = fixed_part e.

Lemma worked_refl s : worked s s.
Proof. exists []. split; [by apply drained_nil | by intros e ?%elem_of_nil]. Qed.

Lemma worked_trans s1 s2 s3 : worked s1 s2 -> worked s2 s3 -> worked s1 s3.
Proof.
  intros (es1 & Hd1 & Hin1) (es2 & Hd2 & Hin2). exists (es1 ++ es2).
  split; [by eapply drained_trans|]. intros e [He|He]%elem_of_app; [auto|].
  destruct (Hin2 e He) as (e2 & He2 & Hf2). destruct Hd1 as (recs & _ & _ & Hk & Hn).
  destruct (Hn _ _ He2) as [e1 He1]. exists e1. split; [done|].
  destruct (Hk _ _ He1) as (e2' & He2' & (Hf1 & _) & _). congruence.
Qed.

(** As a relation on the worlds of the binary. *)
Definition works (w w' : world (pubstore K)) : Prop :=
  table_wf (ps_db (w_data w)) -> worked (w_data w) (w_data w') /\ table_wf (ps_db (w_data w')).

#[export] Instance works_preorder : PreOrder works.
Proof.
  split; [intros w Hwf; split; [apply worked_refl | done]|].
  intros w1 w2 w3 H12 H23 Hwf. destruct (H12 Hwf) as [Hw1 Hwf1]. destruct (H23 Hwf1) as [Hw2 Hwf2].
  split; [by eapply worked_trans | done].
Qed.

Lemma works_same w w' : w_data w' = w_data w -> works w w'.
Proof. intros He Hwf. rewrite He. split; [apply worked_refl | done]. Qed.

Lemma PublishPending_works workerID batchSize : within works (PublishPending injected workerID batchSize).
Proof.
  intros w Hwf.
  destruct (PublishPending_drained injected workerID batchSize w Hwf) as (es & Hd & Hwf' & Hes).
  split; [|done]. exists es. split; [done|]. intros e He.
  destruct Hes as [->|(t & d & _ & Hclaim)]; [by apply elem_of_nil in He|].
  destruct (claim_drained injected _ _ _ _ _ _ Hwf Hclaim) as [(r & _ & _ & Hk & Hn) [_ Hin]].
  destruct (Hin e He) as (e1 & He1 & Hf1). destruct (Hn _ _ He1) as [e0 He0]. exists e0.
  split; [done|]. destruct (Hk _ _ He0) as (e1' & He1' & (Hf0 & _) & _). cbn in He1', He1. congruence.
Qed.

Lemma idle_works w w' : idle w w' -> works w w'.
Proof. intros [Hd _]. by apply works_same. Qed.

(** What waiting does and what a tick does, the worker does. *)
Section moves.
Variable (R : relation (world (pubstore K))).
Context `{!PreOrder R}.
Hypothesis waits_R : forall w w', idle w w' -> R w w'.
Hypothesis ticks_R : forall workerID batchSize, within R (PublishPending injected workerID batchSize).

Lemma publish_loop_within workerID ticks n due :
  within R (publish_loop injected ctx picks_tick workerID ticks n due).
Proof.
  assert (forall t, within R (sleep_until t)) as Hsleep.
  { intros t w. apply waits_R. split; [done | unfold later; cbn; lia]. }
  revert n due. induction ticks as [|ticks IH]; intros n due; cbn [publish_loop]; [apply within_ret, _|].
  apply within_bind; [apply _|apply within_now, _|]. intros t. destruct (negb _).
  - apply within_bind; [apply _|apply Hsleep|intros _; apply within_ret, _].
  - apply within_bind; [apply _|apply Hsleep|intros _].
    apply within_bind; [apply _|apply within_try, ticks_R|intros _; apply IH].
Qed.

Lemma RunWorker_within {P} `{PostgresSettings P, ServiceSettings P} (cfg : Config P) ticks :
  within R (RunWorker injected ctx picks_tick cfg ticks).
Proof.
  assert (forall A (m : M (pubstore K) A), within idle m -> within R m) as Hidle.
  { intros A m Hm w. apply waits_R, Hm. }
  unfold RunWorker. apply within_bind; [apply _|apply Hidle, idle_open_postgres|intros _].
  apply within_bind; [apply _|apply Hidle, idle_boot_step, idle_dial|intros _].
  apply within_bind; [apply _|apply within_now, _|]. intros t. apply publish_loop_within.
Qed.
End moves.

Lemma RunWorker_works {P} `{PostgresSettings P, ServiceSettings P} (cfg : Config P) ticks :
  within works (RunWorker injected ctx picks_tick cfg ticks).
Proof. apply RunWorker_within; [apply _ | apply idle_works | apply PublishPending_works]. Qed.

(** C17: the worker loses nothing, however long it runs and whatever fails: only
    records of rows of the table are appended to Kafka, no row is dropped or
    has its event part changed, and a row is marked published only if its
    record was appended. *)
Theorem RunWorker_safe {P} `{PostgresSettings P, ServiceSettings P} (cfg : Config P) ticks w :
  table_wf (ps_db (w_data w)) ->
  let s := w_data w in
  let s' := w_data (snd (RunWorker injected ctx picks_tick cfg ticks w)) in
  exists recs,
    kf_log (ps_kafka s') = kf_log (ps_kafka s) ++ recs /\
    (forall r, r ∈ recs -> exists id e, db_rows (ps_db s) !! id = Some e /\ r = record_of e) /\
    (forall id e, db_rows (ps_db s) !! id = Some e -> exists e',
       db_rows (ps_db s') !! id = Some e' /\ same_event e e' /\
       (PublishedAt e' <> None -> PublishedAt e <> None \/ record_of e' ∈ recs)).
Proof.
  intros Hwf. cbn zeta. destruct (RunWorker_works cfg ticks w Hwf) as [(es & (recs & Hlog & Hsub & Hk & _) & Hin) _].
  exists recs. split_and!; [done| |done]. intros r Hr.
  apply (elem_of_sublist _ _ _ Hr) in Hsub. apply list_elem_of_fmap in Hsub as (e & -> & He).
  destruct (Hin e He) as (e0 & He0 & Hf). exists (ID e), e0. split; [done|].
  by apply event_record_fixed.
Qed.

(** ** Stopping *)

Section stopping.
Variable c : Z.
Hypothesis stops : ctx = Some c.

(** The ticker moves on by an interval at least, past the tick received. *)
Lemma next_tick_due due t :
  due <= t -> due + publishInterval <= next_tick_time publishInterval due t /\
    t < next_tick_time publishInterval due t.
Proof. intros Ht. unfold next_tick_time, publishInterval, Second. dlia. Qed.

(** A round whose tick is due after the stop is the last one, unless [select]
    finds both ready and picks the tick. *)
Lemma publish_loop_stops workerID ticks n due w r :
  (r < ticks)%nat -> c < due + publishInterval * Z.of_nat r -> picks_tick (n + r) = false ->
  fst (publish_loop injected ctx picks_tick workerID ticks n due w) = Ok true.
Proof.
  revert n due w r. induction ticks as [|ticks IH]; intros n due w r Hr Hc Hpick; [lia|]. cbn [publish_loop].
  rewrite bind_now, stops. cbn [fmap option_fmap option_map default].
  set (tick := Z.max (w_clock w) due). set (stop := Z.max (w_clock w) c).
  destruct ((tick <? stop) || (tick =? stop) && picks_tick n) eqn:Hp; cbn [negb]; [|done].
  destruct r as [|r].
  { exfalso. rewrite Nat.add_0_r in Hpick. rewrite Hpick, andb_false_r, orb_false_r in Hp.
    apply Z.ltb_lt in Hp. lia. }
  rewrite run_bind. unfold sleep_until at 1. rewrite run_atomic, bind_try, <- stops.
  apply (IH _ _ _ r); [lia | | by rewrite Nat.add_succ_comm].
  pose proof (next_tick_due due tick ltac:(lia)) as [? _]. unfold publishInterval, Second in *. lia.
Qed.

(** C23: the worker stops: told to stop at [c], it returns, with nil or with the
    error of its boot, no later than in the first round [n] in which [select]
    takes the stop and whose tick, the [n]-th after its start, is due after [c];
    until then it may find a tick as ready as the stop and publish once more.
    That is whatever its calls meet, and however long they take. *)
Theorem RunWorker_stops {P} `{PostgresSettings P, ServiceSettings P} (cfg : Config P) ticks n w :
  (n < ticks)%nat -> c < w_clock w + publishInterval * Z.of_nat (S n) -> picks_tick n = false ->
  let run := RunWorker injected ctx picks_tick cfg ticks w in
  fst run = Ok true \/ exists e, fst run = Err e /\ w_data (snd run) = w_data w.
Proof.
  intros Hn Hc Hpick. cbn zeta. unfold RunWorker. rewrite run_bind.
  destruct (idle_open_postgres cfg w) as [Hd1 Hl1].
  destruct (run (open_postgres cfg) w) as [[[]|e] w1]; cbn [fst snd] in *; [|right; by exists e].
  rewrite run_bind. destruct (idle_boot_step "connect kafka: %w" dial idle_dial w1) as [Hd2 Hl2].
  destruct (run (boot_step _ _) w1) as [[[]|e] w2]; cbn [fst snd] in *; [|right; exists e; split; [done | congruence]].
  rewrite bind_now. unfold later in *. left.
  apply (publish_loop_stops _ _ _ _ _ n); [done | unfold publishInterval, Second in *; lia | done].
Qed.
End stopping.
End worker.

(** ** A concrete run *)

#[local] Existing Instance demo_uuid.
#[local] Existing Instance demo_pg.
#[local] Instance demo_texts : ErrorText := fun _ => "error".
#[local] Instance demo_boot : PostgresSettings unit := fun _ => false.
#[local] Instance demo_service : ServiceSettings unit := fun _ => "1".

Definition demo_worker (ticks : nat) (sch : list tick) : world (pubstore (list KRecord)) :=
  snd (RunWorker (fun _ => []) (Some (4 * Second)) (fun _ => true) demo_config ticks (demo_pub sch)).

(** The first publish fails; the row is tried again once its delay is over. *)
Lemma RunWorker_safe_witness :
  exists e', db_rows (ps_db (w_data (demo_worker 9 [Tick 1 NoFault]))) !! "aaaaaaaaaaaaaaa2" = Some e' /\
    fixed_part e' = fixed_part (new_row (demo_create "aaaaaaaaaaaaaaa2") "{}" 20).
Proof.
  destruct (RunWorker_safe (fun _ => []) (Some (4 * Second)) (fun _ => true) demo_config 9
              (demo_pub [Tick 1 NoFault])) as (recs & _ & _ & Hk).
  - exact demo_db_wf.
  - destruct (Hk "aaaaaaaaaaaaaaa2" (new_row (demo_create "aaaaaaaaaaaaaaa2") "{}" 20))
      as (e' & He' & (Hf & _) & _); [vm_compute; reflexivity|].
    exists e'. split; [exact He' | exact Hf].
Defined.

(** Told to stop after four seconds, it has returned within six rounds, where
    [select] picks the tick in every round but the sixth. *)
Lemma RunWorker_stops_witness :
  let run := RunWorker (fun _ => []) (Some (4 * Second)) (fun n => negb (n =? 5)%nat) demo_config 6 (demo_pub [Tick 1 NoFault]) in
  fst run = Ok true \/ exists e, fst run = Err e /\ w_data (snd run) = w_data (demo_pub [Tick 1 NoFault]).
Proof.
  apply (RunWorker_stops (fun _ => []) (Some (4 * Second)) (fun n => negb (n =? 5)%nat) (4 * Second) eq_refl
    demo_config 6 5).
  - lia.
  - vm_compute. reflexivity.
  - reflexivity.
Defined.

(** A tick whose calls take three and a half seconds: of the ticks due meanwhile
    one is delivered, the others are dropped. *)
Example demo_overrun :
  map (next_tick_time publishInterval (1 * Second)) [1 * Second; 4 * Second + 500000000; 5 * Second]
  = [2 * Second; 5 * Second; 6 * Second].
Proof. reflexivity. Qed.

Example demo_worker_stops :
  fst (RunWorker (fun _ => []) (Some (4 * Second)) (fun _ => true) demo_config 9 (demo_pub [])) = Ok true /\
  length (kf_log (ps_kafka (w_data (demo_worker 9 [])))) = 3%nat.
Proof. vm_compute. split; reflexivity. Qed.
