(* ===== verification/WorkerProgress.v ===== *)
(** * The worker's progress

    Where nothing fails, every tick publishes a full batch or all there is, so
    that the worker empties the outbox within as many ticks as it has batches,
    one record for each row. *)
From S2P Require Import Prelude GoTime Uuid Repository RepositoryFacts Kafka Constant Envelope Outbox OutboxFacts Config ConfigFacts App AppFacts Worker WorkerFacts.

(** ** What is left to publish *)

(** The rows not published yet. *)
Definition backlog (d : db) : gmap UUID OutboxEvent := filter (fun kv => unpublished (snd kv) = true) (db_rows d).

Lemma backlog_lookup d id e :
  backlog d !! id = Some e <-> db_rows d !! id = Some e /\ PublishedAt e = None.
Proof. unfold backlog. rewrite map_lookup_filter_Some. cbn. by rewrite unpublished_spec. Qed.

(** Each of them can be claimed, now and later. *)
Definition ready (t : Z) (d : db) : Prop :=
  forall id e, backlog d !! id = Some e -> claimable t e = true /\ ID e ∉ db_busy d.

Lemma claimable_later t t' e : t <= t' -> claimable t e = true -> claimable t' e = true.
Proof.
  intros Ht. rewrite !claimable_spec. intros (Hu & Hn & Hl). split; [done|].
  split; intros x Hx; [specialize (Hn x Hx) | specialize (Hl x Hx)]; lia.
Qed.

Lemma ready_later t t' d : t <= t' -> ready t d -> ready t' d.
Proof. intros Ht Hr id e He. destruct (Hr id e He). split; [by eapply claimable_later | done]. Qed.

Section worker.
Context {K : Type} `{KafkaLaws K, UuidLib, PgLib, ErrorText, !PgLaws}.
Variable injected : UUID -> list RecordHeader.
(** Kafka takes what it is sent. *)
Hypothesis kf_up : forall r t k, fst (kf_publish r t k) = Ok tt.

#[local] Abbreviation record_of := (event_record injected).
#[local] Abbreviation healthy w := (Forall (fault_ok (fun _ => False)) (w_sched w)).
#[local] Abbreviation log w := (kf_log (ps_kafka (w_data w))).
#[local] Abbreviation table w := (ps_db (w_data w)).

(** ** Publishing a batch *)

Lemma publishEvent_later event : within later (publishEvent injected event).
Proof.
  unfold publishEvent, in_kafka, in_db. cbn [repo_Queries NewStore New q_MarkOutboxEventPublished q_MarkOutboxEventFailed]. repeat (apply within_bind; [apply _| |intros ?]; try case_match);
    eauto with gw_within typeclass_instances.
Qed.

(** One event: the others stay as they are, and an acknowledged one is one
    record more. *)
Lemma publishEvent_one event w :
  healthy w ->
  let w' := snd (publishEvent injected event w) in
  healthy w' /\ later w w' /\ log w' = log w ++ [record_of event] /\
  db_busy (table w') = db_busy (table w) /\
  forall id, id <> ID event -> db_rows (table w') !! id = db_rows (table w) !! id.
Proof.
  intros Hw. cbn zeta. pose proof (publishEvent_attempt injected event w) as Hat.
  destruct (publishEvent_ok injected kf_up event w Hw) as [Hw' Herr].
  pose proof (publishEvent_later event w) as Hl. destruct (run (publishEvent injected event) w) as [r w']. cbn [fst snd] in *.
  destruct Hat as [r w' Hlog Hdb|err t t' w' _ _ _]; [|destruct (Herr _ eq_refl)].
  assert (r = Ok tt) as -> by (destruct r as [[]|err]; [done | destruct (Herr _ eq_refl)]).
  destruct Hdb as [[[] _]|(t & _ & Hdb)]; [done|]. rewrite Hdb, exec_busy. split_and!; try done.
  intros id Hid. cbn [exec MarkOutboxEventPublished snd]. rewrite update_unpublished_lookup.
  by rewrite bool_decide_false.
Qed.

Lemma publish_all_each es w :
  healthy w ->
  let w' := snd (publish_all injected es w) in
  healthy w' /\ later w w' /\ log w' = log w ++ (record_of <$> es) /\
  db_busy (table w') = db_busy (table w) /\
  forall id, id ∉ map ID es -> db_rows (table w') !! id = db_rows (table w) !! id.
Proof.
  revert w. induction es as [|event es IH]; intros w Hw; cbn zeta; cbn [publish_all].
  { cbn [ret run snd]. rewrite app_nil_r. by split_and!. }
  rewrite bind_try. destruct (publishEvent_one event w Hw) as (Hw1 & Hl1 & Hlog1 & Hb1 & Ho1).
  destruct (IH _ Hw1) as (Hw2 & Hl2 & Hlog2 & Hb2 & Ho2). split_and!; [done | by etransitivity | | congruence |].
  - by rewrite Hlog2, Hlog1, <- app_assoc.
  - intros id Hid. cbn in Hid. apply not_elem_of_cons in Hid as [Hne Hid].
    by rewrite Ho2, Ho1.
Qed.

(** ** A tick *)

Variable workerID : string.
Hypothesis named : pg_text workerID = true.

(** The claim of a tick cannot fail. *)
Lemma claim_answers t d : exists es d', ClaimPendingOutboxEvents (claim_limit 100) (Some workerID) t d = (Ok es, d').
Proof. unfold ClaimPendingOutboxEvents. change (claim_limit 100 <? 0) with false. cbn. rewrite named. eauto. Qed.

(** What the claim takes off the backlog, once it is published. *)
Lemma backlog_published t d es d1 d2 :
  table_wf d -> ready t d -> ClaimPendingOutboxEvents (claim_limit 100) (Some workerID) t d = (Ok es, d1) ->
  (forall e, e ∈ es -> is_published d2 (ID e)) ->
  (forall id, id ∉ map ID es -> db_rows d2 !! id = db_rows d1 !! id) ->
  backlog d2 ⊆ backlog d /\
  (size (backlog d2) + length es = size (backlog d))%nat /\
  (backlog d2 = ∅ \/ length es = 100%nat).
Proof.
  intros Hwf Hr Hclaim Hpub Hother.
  destruct (claim_rows _ _ _ _ _ _ Hwf Hclaim) as (_ & Hnd & Hes & Hrest).
  assert (forall id e, backlog d2 !! id = Some e <-> backlog d !! id = Some e /\ id ∉ map ID es) as Hback.
  { intros id e. rewrite !backlog_lookup. destruct (decide (id ∈ map ID es)) as [Hin|Hni].
    - split; [intros [He Hn] | by intros []]. exfalso.
      apply list_elem_of_fmap in Hin as (e0 & -> & Hin). destruct (Hpub e0 Hin) as (e' & He' & Hp). congruence.
    - rewrite Hother, Hrest by done. tauto. }
  assert (forall id, id ∈ map ID es -> is_Some (backlog d !! id)) as Hin.
  { intros id (e' & -> & He')%list_elem_of_fmap. destruct (Hes e' He') as (e & He & Hc & _ & -> & _).
    rewrite set_lock_ID. exists e. apply backlog_lookup. by apply claimable_spec in Hc as [Hu _]. }
  split; [|split].
  - apply map_subseteq_spec. intros id e He. by apply Hback.
  - rewrite <- !size_dom, <- (length_map ID es), <- (size_list_to_set (C := gset UUID) (map ID es)) by done.
    rewrite <- size_union.
    + f_equal. apply set_eq. intros id. rewrite elem_of_union, elem_of_list_to_set, !elem_of_dom. split.
      * intros [[e He]|Hid]; [exists e; by apply Hback | by apply Hin].
      * intros [e He]. destruct (decide (id ∈ map ID es)); [by right | left; exists e; by apply Hback].
    + intros id. rewrite elem_of_dom, elem_of_list_to_set. intros [e He] Hid. by apply Hback in He as [_ ?].
  - destruct (decide (backlog d2 = ∅)) as [|Hne]; [by left | right].
    apply map_choose in Hne as (id & e & He). apply Hback in He as [He Hni].
    destruct (Hr id e He) as [Hc Hb]. apply backlog_lookup in He as [He _]. destruct (Hwf _ _ He) as [<- _].
    destruct (claim_full _ _ _ _ _ _ e Hclaim He Hc Hb Hni) as [Hlen _]. change (claim_limit 100) with 100 in Hlen. lia.
Qed.

(** The state of the worker between two ticks: [n] batches empty the backlog,
    and what was sent and what is left is what it was. *)
Record on_track (total n : nat) (w : world (pubstore K)) : Prop := {
  tr_healthy : healthy w;
  tr_table : table_wf (table w);
  tr_ready : ready (w_clock w) (table w);
  tr_left : (size (backlog (table w)) <= 100 * n)%nat;
  tr_total : (length (log w) + size (backlog (table w)) = total)%nat;
}.

Lemma tick_on_track total n w :
  on_track total (S n) w -> on_track total n (snd (PublishPending injected workerID 100 w)).
Proof.
  intros [Hw Hwf Hr Hleft Htotal]. unfold PublishPending. cbn [repo_Queries NewStore New q_ClaimPendingOutboxEvents]. rewrite bind_try.
  destruct (zoom_remote_inv ps_db (fun d s => MkPub d (ps_kafka s))
    (ClaimPendingOutboxEvents (claim_limit 100) (Some workerID)) w)
    as (t & d & Ht & Hclk & Hd & _ & Hok); [by intros []|].
  destruct (raises_zoom (fun _ => False) ps_db (fun d s => MkPub d (ps_kafka s)) _
    (raises_remote (fun _ => False) (ClaimPendingOutboxEvents (claim_limit 100) (Some workerID))
      ltac:(intros t' d' e'; by destruct (claim_answers t' d') as (? & ? & ->))) w Hw) as [Hw1 Herr].
  unfold in_db. destruct (run (zoom _ _ _) w) as [[es|e] w1]; cbn [fst snd] in *; [|by destruct (Herr e eq_refl)].
  destruct (Hok es eq_refl) as [Ha Hd1]. destruct (claim_answers t (table w)) as (es' & d' & Hclaim).
  rewrite Hclaim in Ha, Hd1. cbn [fst snd] in Ha, Hd1. injection Ha as ->. subst d.
  destruct (claim_drained injected _ _ _ (w_data w) _ _ Hwf Hclaim) as [_ Hin].
  assert (in_table es (table w1)) as Hin1 by (by rewrite Hd).
  destruct (publish_all_each es w1 Hw1) as (Hw2 & Hl2 & Hlog & Hbusy & Hother).
  pose proof (publish_all_publishes injected kf_up es w1 Hin1 Hw1) as Hpub.
  pose proof (publish_all_wf injected es w1 Hin1) as Hwf2.
  set (w2 := snd (publish_all injected es w1)) in *. rewrite Hd in Hlog, Hbusy, Hother. cbn [ps_db ps_kafka] in *.
  pose proof (ready_later (w_clock w) t (table w) Ht Hr) as Hrt.
  destruct (backlog_published t (table w) es d' (table w2) Hwf Hrt Hclaim Hpub Hother) as (Hsub & Hsize & Hfull).
  split; [done | done | | |].
  - intros id e He. destruct (Hrt id e) as [Hc Hb]; [by eapply lookup_weaken|].
    split; [eapply claimable_later; [|exact Hc]; unfold later in Hl2; lia|].
    rewrite Hbusy. replace d' with (exec (SClaim (claim_limit 100) (Some workerID)) t (table w)) by (cbn; by rewrite Hclaim).
    by rewrite exec_busy.
  - destruct Hfull as [-> | Hlen]; [rewrite map_size_empty|]; lia.
  - rewrite Hlog, length_app, length_fmap. lia.
Qed.

Lemma sleep_on_track total n t w : on_track total n w -> on_track total n (snd (sleep_until t w)).
Proof. intros [? ? Hr ? ?]. split; try done. cbn. eapply ready_later, Hr. lia. Qed.

Lemma publish_loop_on_track picks_tick total ticks round due w :
  on_track total ticks w ->
  let run := publish_loop injected None picks_tick workerID ticks round due w in
  fst run = Ok false /\ on_track total 0 (snd run).
Proof.
  revert round due w. induction ticks as [|n IH]; intros round due w Hw; cbn zeta; cbn [publish_loop]; [done|].
  rewrite bind_now. cbn [fmap option_fmap option_map negb]. rewrite run_bind.
  pose proof (sleep_on_track total (S n) (Z.max (w_clock w) due) w Hw) as Hw1.
  unfold sleep_until. rewrite run_atomic, bind_try. apply IH. by apply tick_on_track.
Qed.
End worker.

(** ** The binary *)

Section binary.
Context {K : Type} `{KafkaLaws K, UuidLib, PgLib, ErrorText, !PgLaws}.
Variables (injected : UUID -> list RecordHeader) (picks_tick : nat -> bool).
Hypothesis kf_up : forall r t k, fst (kf_publish r t k) = Ok tt.

#[local] Abbreviation healthy w := (Forall (fault_ok (fun _ => False)) (w_sched w)).
#[local] Abbreviation log w := (kf_log (ps_kafka (w_data w))).
#[local] Abbreviation table w := (ps_db (w_data w)).

Lemma RunWorker_empties {P} `{PostgresSettings P, ServiceSettings P} (cfg : Config P) ticks w :
  healthy w -> table_wf (table w) -> ready (w_clock w) (table w) -> pg_text (worker_id cfg) = true ->
  (size (backlog (table w)) <= 100 * ticks)%nat ->
  let run := RunWorker injected None picks_tick cfg ticks w in
  fst run = Ok false /\ on_track (length (log w) + size (backlog (table w))) 0 (snd run).
Proof.
  intros Hw Hwf Hr Hname Hsize. cbn zeta.
  unfold RunWorker. rewrite run_bind. destruct (idle_open_postgres cfg w) as [Hd1 Hl1].
  destruct (open_postgres_ok cfg w Hw) as [Hw1 Herr1].
  destruct (run (open_postgres cfg) w) as [[[]|e] w1]; cbn [fst snd] in *; [|by destruct (Herr1 e eq_refl)].
  rewrite run_bind. destruct (idle_boot_step "connect kafka: %w" dial idle_dial w1) as [Hd2 Hl2].
  destruct (boot_step_ok "connect kafka: %w" dial dial_ok w1 Hw1) as [Hw2 Herr2].
  destruct (run (boot_step _ _) w1) as [[[]|e] w2]; cbn [fst snd] in *; [|by destruct (Herr2 e eq_refl)].
  rewrite bind_now. apply publish_loop_on_track; [done | done |].
  assert (w_data w2 = w_data w) as Hd by congruence. unfold later in *.
  split; rewrite ?Hd; try done. eapply ready_later, Hr. lia.
Qed.

(** What the worker did where it left no backlog. *)
Lemma emptied w w' :
  worked injected (w_data w) (w_data w') -> backlog (table w') = ∅ ->
  exists recs, log w' = log w ++ recs /\
    forall id e, db_rows (table w) !! id = Some e -> exists e',
      db_rows (table w') !! id = Some e' /\ same_event e e' /\ PublishedAt e' <> None /\
      (PublishedAt e = None -> event_record injected e ∈ recs).
Proof.
  intros (es & (recs & Hlog & _ & Hk & _) & _) Hempty. exists recs. split; [done|].
  intros id e He. destruct (Hk id e He) as (e' & He' & Hse & Hp). exists e'.
  assert (PublishedAt e' <> None) as Hpub.
  { intros Hn. pose proof (proj2 (backlog_lookup _ id e') (conj He' Hn)) as Hb.
    rewrite Hempty in Hb. by apply lookup_empty_Some in Hb. }
  split_and!; [done..|]. intros Hn. destruct (Hp Hpub) as [|Hin]; [done|].
  rewrite (event_record_fixed injected e e'); [done|]. by destruct Hse as [-> _].
Qed.

(** C22: the worker drains the outbox: where nothing fails and no row is leased,
    delayed or locked, it publishes every row within as many ticks as the
    backlog has batches of a hundred, and goes on; exactly one record goes to
    Kafka for each row that was not published, and every row stays. *)
Theorem worker_drains {P} `{PostgresSettings P, ServiceSettings P} (cfg : Config P) ticks w :
  healthy w -> table_wf (table w) -> ready (w_clock w) (table w) -> pg_text (worker_id cfg) = true ->
  (size (backlog (table w)) <= 100 * ticks)%nat ->
  let run := RunWorker injected None picks_tick cfg ticks w in
  fst run = Ok false /\
  exists recs, log (snd run) = log w ++ recs /\ length recs = size (backlog (table w)) /\
    forall id e, db_rows (table w) !! id = Some e -> exists e',
      db_rows (table (snd run)) !! id = Some e' /\ same_event e e' /\ PublishedAt e' <> None /\
      (PublishedAt e = None -> event_record injected e ∈ recs).
Proof.
  intros Hw Hwf Hr Hname Hsize. cbn zeta.
  destruct (RunWorker_empties cfg ticks w Hw Hwf Hr Hname Hsize) as [Hrun [_ _ _ Hleft Htotal]].
  destruct (RunWorker_works injected None picks_tick cfg ticks w Hwf) as [Hworked _].
  destruct (emptied w _ Hworked) as (recs & Hlog & Hrows); [apply map_size_empty_inv; lia|].
  split; [done|]. exists recs. rewrite Hlog, length_app in Htotal. split_and!; [done | lia | exact Hrows].
Qed.
End binary.

(** ** A concrete run *)

#[local] Existing Instance demo_uuid.
#[local] Existing Instance demo_pg.
#[local] Instance demo_texts : ErrorText := fun _ => "error".
#[local] Instance demo_boot : PostgresSettings unit := fun _ => false.
#[local] Instance demo_service : ServiceSettings unit := fun _ => "1".

(** Three rows, in one tick. *)
Lemma worker_drains_witness :
  length (kf_log (ps_kafka (w_data (snd (RunWorker (fun _ => []) None (fun _ => true) demo_config 1 (demo_pub [])))))) = 3%nat.
Proof.
  destruct (worker_drains (K := list KRecord) (fun _ => []) (fun _ => true) log_up demo_config 1 (demo_pub []))
    as (_ & recs & Hlog & Hlen & _).
  - constructor.
  - exact demo_db_wf.
  - intros id e He. apply elem_of_map_to_list in He.
    assert (map_to_list (backlog (ps_db (w_data (demo_pub [])))) =
      map (fun e => (ID e, e)) (map (fun kt => new_row (demo_create (fst kt)) "{}" (snd kt))
        (map snd (map_to_list (backlog demo_db)) ≫= fun e => [(ID e, CreatedAt e)]))) as Heq by (vm_compute; reflexivity).
    rewrite Heq in He. clear Heq. vm_compute in He.
    repeat (apply elem_of_cons in He as [He|He]; [injection He as -> ->; split; [vm_compute; reflexivity | vm_compute; done]|]).
    by apply elem_of_nil in He.
  - vm_compute. reflexivity.
  - vm_compute. lia.
  - pose proof (f_equal (@length KRecord) Hlog) as Hl. rewrite length_app, Hlen in Hl.
    refine (eq_trans Hl _). vm_compute. reflexivity.
Defined.
