(* ===== verification/WorkerRecovery.v ===== *)
(** * The worker's recovery

    Whatever a life of the worker meets, no row it leaves unpublished is out of
    reach: its delay ends within thirty seconds and its lease within five
    minutes, so that a later life in which nothing fails publishes it. *)
From S2P Require Import Prelude GoTime Uuid Repository RepositoryFacts Kafka Constant Envelope Outbox OutboxFacts Config ConfigFacts App AppFacts Worker WorkerFacts WorkerProgress.

(** ** Rows within reach *)

(** The longest delay of a failed publish. *)
Definition max_backoff : Z := 30 * Second.

Lemma backoff_le a : 0 <= a < max_int32 -> backoff a <= max_backoff.
Proof. intros Ha. destruct (backoff_bounds a Ha) as [_ [_ Hb]]. exact Hb. Qed.

(** No row is delayed or leased beyond what an attempt up to [t] can do. *)
Definition within_reach (t : Z) (d : db) : Prop :=
  forall id e, backlog d !! id = Some e ->
    (forall n, NextAttemptAt e = Some n -> n <= t + max_backoff) /\
    (forall l, LockedAt e = Some l -> l <= t).

Lemma within_reach_later t t' d : t <= t' -> within_reach t d -> within_reach t' d.
Proof.
  intros Ht Hr id e He. destruct (Hr id e He) as [Hn Hl].
  split; intros x Hx; [specialize (Hn x Hx) | specialize (Hl x Hx)]; lia.
Qed.

Lemma within_reach_ready t t' d :
  within_reach t d -> db_busy d = ∅ -> t + lock_timeout < t' -> ready t' d.
Proof.
  intros Hr Hbusy Ht id e He. rewrite Hbusy. split; [|by apply not_elem_of_empty].
  destruct (Hr id e He) as [Hn Hl]. apply backlog_lookup in He as [_ Hu].
  apply claimable_spec. unfold lock_timeout, max_backoff, Minute, Second in *.
  split; [done|]. split; intros x Hx; [specialize (Hn x Hx) | specialize (Hl x Hx)]; lia.
Qed.

Section statements.
Context `{PgLib}.

(** A failure is recorded with a delay of an attempt. *)
Definition short_delay (t : Z) (d : db) (st : statement) : Prop :=
  forall arg row, st = SMarkFailed arg -> db_rows d !! f_ID arg = Some row -> AttemptCount row < max_int32 ->
    forall n, f_NextAttemptAt arg = Some n -> n <= t + max_backoff.

Lemma no_delay t d st : (forall arg, st <> SMarkFailed arg) -> short_delay t d st.
Proof. intros Hst arg row ->. by destruct (Hst arg). Qed.

Lemma exec_within_reach st t d :
  table_wf d -> short_delay t d st -> within_reach t d -> within_reach t (exec st t d).
Proof.
  intros Hwf Hst Hr id e' [He' Hn']%backlog_lookup.
  destruct (db_rows d !! id) as [e|] eqn:He.
  - pose proof (exec_row st t d id e Hwf He) as Hs. rewrite He' in Hs.
    assert (PublishedAt e = None -> (forall n, NextAttemptAt e = Some n -> n <= t + max_backoff) /\
      (forall l, LockedAt e = Some l -> l <= t)) as Hold by (intros Hu; apply (Hr id); by apply backlog_lookup).
    inversion Hs as [|limit by_ Hc|Hu|arg Hid Hu Hlt|Hu|]; subst.
    + by apply Hold.
    + apply claimable_spec in Hc as [Hu _]. destruct (Hold Hu) as [Hn _]. destruct e. cbn in *.
      split; [done | by intros l [= <-]].
    + by destruct e.
    + specialize (Hst arg e eq_refl). rewrite Hid in Hst. destruct (Hwf _ _ He) as [<- _].
      specialize (Hst He Hlt). destruct e. cbn in *. by split.
    + destruct (Hold Hu) as [Hn _]. destruct e. cbn in *. by split.
  - destruct (exec_new _ _ _ _ _ He He') as (arg & payload & _ & _ & _ & ->). by split.
Qed.

(** The events of a batch have been tried no more often than their rows. *)
Definition counted (es : list OutboxEvent) (d : db) : Prop :=
  forall e, e ∈ es -> exists row, db_rows d !! ID e = Some row /\ 0 <= AttemptCount e <= AttemptCount row.

Lemma exec_counted st t d es : st <> SDelete -> table_wf d -> counted es d -> counted es (exec st t d).
Proof.
  intros Hst Hwf Hes e He. destruct (Hes e He) as (row & Hrow & Hc).
  pose proof (exec_row st t d _ row Hwf Hrow) as Hs. destruct (Hwf _ _ Hrow) as [_ Hrw].
  apply row_step_some in Hs; [|done]. destruct (db_rows (exec st t d) !! ID e) as [row'|]; [|by destruct Hs].
  destruct Hs as (_ & _ & _ & Ha & _). exists row'. split; [done | lia].
Qed.

Lemma claim_counted `{!PgLaws} limit by_ t d es d' :
  table_wf d -> ClaimPendingOutboxEvents limit by_ t d = (Ok es, d') -> counted es d'.
Proof.
  intros Hwf Hclaim e' He'. destruct (claim_rows _ _ _ _ _ _ Hwf Hclaim) as (_ & _ & Hes & _).
  destruct (Hes e' He') as (e & He & _ & _ & -> & Hrow). rewrite set_lock_ID.
  destruct (Hwf _ _ He) as [_ [_ Ha]]. exists (set_lock e (Some t) by_). split; [done|]. by destruct e; cbn in *; lia.
Qed.
End statements.

(** ** A life of the worker *)

Section worker.
Context {K : Type} `{KafkaLaws K, UuidLib, PgLib, ErrorText, !PgLaws}.
Variable injected : UUID -> list RecordHeader.

#[local] Abbreviation table w := (ps_db (w_data w)).

Record sane (w : world (pubstore K)) : Prop := {
  sn_table : table_wf (table w);
  sn_reach : within_reach (w_clock w) (table w);
  sn_open : db_busy (table w) = ∅;
}.

Lemma sane_same w w' : table w' = table w -> later w w' -> sane w -> sane w'.
Proof. intros Ht Hl [? ? ?]. split; rewrite ?Ht; try done. by eapply within_reach_later. Qed.

Lemma sane_exec st t w w' :
  table w' = exec st t (table w) -> w_clock w <= t <= w_clock w' -> short_delay t (table w) st -> sane w -> sane w'.
Proof.
  intros Ht [Hl Hl'] Hst [Hwf Hr Hb]. split; rewrite ?Ht; [by apply exec_wf | | by rewrite exec_busy].
  apply (within_reach_later t); [done|]. apply exec_within_reach; [done | done | by eapply within_reach_later].
Qed.

Lemma publishEvent_sane event es w :
  sane w -> counted (event :: es) (table w) ->
  let w' := snd (publishEvent injected event w) in sane w' /\ counted es (table w').
Proof.
  intros Hw Hes. cbn zeta. pose proof (publishEvent_attempt injected event w) as Hat.
  pose proof (publishEvent_later injected event w) as Hl.
  destruct (Hes event ltac:(left)) as (row & Hrow & Hcount).
  assert (counted es (table w)) as Hes' by (intros e He; apply Hes; by right).
  destruct (run (publishEvent injected event) w) as [r w']. cbn [fst snd] in *.
  destruct Hat as [r w' _ [[_ Hd]|(t & Ht & Hd)]|err t t' w' _ [[Ht Ht'] Hl'] [Hd|Hd]].
  - split; [by apply (sane_same w) | by rewrite Hd].
  - split; [by apply (sane_exec _ t w w' Hd Ht); [apply no_delay|] | rewrite Hd; by apply exec_counted, Hes'; [|apply sn_table]].
  - split; [by apply (sane_same w) | by rewrite Hd].
  - split; [|rewrite Hd; by apply exec_counted, Hes'; [|apply sn_table]].
    apply (sane_exec _ t' w w' Hd); [lia | | done].
    intros arg row' [= <-] Hrow' Hlt n [= <-]. cbn in Hrow'. assert (row' = row) as -> by congruence.
    pose proof (backoff_le (AttemptCount event)). lia.
Qed.

Lemma publish_all_sane es w :
  sane w -> counted es (table w) -> sane (snd (publish_all injected es w)).
Proof.
  revert w. induction es as [|event es IH]; intros w Hw Hes; cbn [publish_all]; [done|].
  rewrite bind_try. by apply IH; apply (publishEvent_sane event es w).
Qed.

(** What a step may do. *)
Definition stays_sane (w w' : world (pubstore K)) : Prop := sane w -> sane w'.

#[export] Instance stays_sane_preorder : PreOrder stays_sane.
Proof. split; [by intros w Hw|]. intros w1 w2 w3 H12 H23 Hw. auto. Qed.

Lemma PublishPending_sane workerID batchSize : within stays_sane (PublishPending injected workerID batchSize).
Proof.
  intros w Hw. unfold PublishPending. cbn [repo_Queries NewStore New q_ClaimPendingOutboxEvents]. rewrite bind_try.
  destruct (zoom_remote_inv ps_db (fun d s => MkPub d (ps_kafka s))
    (ClaimPendingOutboxEvents (claim_limit batchSize) (Some workerID)) w)
    as (t & d & Ht & Hclk & Hd & Hx & Hok); [by intros []|].
  unfold in_db. destruct (run (zoom _ _ _) w) as [events w1]. cbn [fst snd] in *.
  assert (sane w1) as Hw1.
  { destruct Hx as [-> | ->].
    - apply (sane_same w); [by rewrite Hd | unfold later; lia | done].
    - apply (sane_exec (SClaim (claim_limit batchSize) (Some workerID)) t w w1); [by rewrite Hd | lia | by apply no_delay | done]. }
  destruct events as [es|err]; [|done]. destruct (Hok es eq_refl) as [Ha ->].
  apply publish_all_sane; [done|]. rewrite Hd. cbn [ps_db].
  eapply claim_counted; [apply Hw|]. by rewrite (surjective_pairing (ClaimPendingOutboxEvents _ _ t (table w))), Ha.
Qed.

Lemma RunWorker_sane {P} `{PostgresSettings P, ServiceSettings P} ctx picks_tick (cfg : Config P) ticks :
  within stays_sane (RunWorker injected ctx picks_tick cfg ticks).
Proof.
  apply RunWorker_within; [apply _ | | apply PublishPending_sane].
  intros w w' [Hd Hl] Hw. apply (sane_same w); [by rewrite Hd | done | done].
Qed.

(** Rows only leave the backlog. *)
Lemma worked_backlog s s' : worked injected s s' -> (size (backlog (ps_db s')) <= size (backlog (ps_db s)))%nat.
Proof.
  intros (es & (recs & _ & _ & Hk & Hn) & _). rewrite <- !size_dom. apply subseteq_size.
  intros id. rewrite !elem_of_dom. intros [e' [He' Hu']%backlog_lookup].
  destruct (Hn id e' He') as [e He]. exists e. apply backlog_lookup. split; [done|].
  destruct (PublishedAt e) as [t|] eqn:Ht; [|done].
  destruct (Hk id e He) as (e2 & He2 & (_ & _ & Hfr) & _). assert (e2 = e') as -> by congruence.
  rewrite Hfr in Hu'; congruence.
Qed.

(** ** Lives *)

(** One life of the process: when it is told to stop, what [select] picks, its
    ticks, what its calls meet, and how long it is down afterwards. *)
Record life (P : Type) := MkLife {
  l_ctx : option Z;
  l_picks : nat -> bool;
  l_cfg : Config P;
  l_ticks : nat;
  l_sched : list tick;
  l_down : N;
}.

Fixpoint restart {P} `{PostgresSettings P, ServiceSettings P} (lives : list (life P)) (w : world (pubstore K))
    : world (pubstore K) :=
  match lives with
  | [] => w
  | l :: lives' =>
      let w' := snd (RunWorker injected (l_ctx _ l) (l_picks _ l) (l_cfg _ l) (l_ticks _ l)
                       (World (w_data w) (w_clock w) (l_sched _ l))) in
      restart lives' (World (w_data w') (w_clock w' + Z.of_N (l_down _ l)) [])
  end.

Lemma restart_sane {P} `{PostgresSettings P, ServiceSettings P} (lives : list (life P)) w :
  sane w -> sane (restart lives w) /\ worked injected (w_data w) (w_data (restart lives w)).
Proof.
  revert w. induction lives as [|l lives IH]; intros w Hw; cbn [restart]; [split; [done | apply worked_refl]|].
  set (w0 := World (w_data w) (w_clock w) (l_sched _ l)). assert (sane w0) as Hw0 by (by apply (sane_same w); [|unfold later|]).
  pose proof (RunWorker_sane (l_ctx _ l) (l_picks _ l) (l_cfg _ l) (l_ticks _ l) w0 Hw0) as Hw1.
  destruct (RunWorker_works injected (l_ctx _ l) (l_picks _ l) (l_cfg _ l) (l_ticks _ l) w0 (sn_table _ Hw0)) as [Hk _].
  set (w1 := snd (RunWorker _ _ _ _ _ w0)) in *.
  destruct (IH (World (w_data w1) (w_clock w1 + Z.of_N (l_down _ l)) [])) as [Hs Hk'].
  { apply (sane_same w1); [done | unfold later; cbn; lia | exact Hw1]. }
  split; [exact Hs | exact (worked_trans injected _ _ _ Hk Hk')].
Qed.

(** C8: the outbox recovers from anything: over any number of lives of the
    worker, each stopped, failing or crashing anywhere, no row is lost and none
    gets out of reach; once a life finds nothing failing, five minutes after the
    last attempt, it publishes every row left within as many ticks as there are
    batches, so that the record of every row that was not published is on
    Kafka. *)
Theorem worker_recovers {P} `{PostgresSettings P, ServiceSettings P} (lives : list (life P)) (cfg : Config P)
    picks_tick ticks down sch w :
  (forall r t k, fst (kf_publish r t k) = Ok tt) ->
  sane w -> (size (backlog (table w)) <= 100 * ticks)%nat -> pg_text (worker_id cfg) = true ->
  lock_timeout < down -> Forall (fault_ok (fun _ => False)) sch ->
  let w1 := restart lives w in
  let run := RunWorker injected None picks_tick cfg ticks (World (w_data w1) (w_clock w1 + down) sch) in
  fst run = Ok false /\
  exists recs, kf_log (ps_kafka (w_data (snd run))) = kf_log (ps_kafka (w_data w)) ++ recs /\
    forall id e, db_rows (table w) !! id = Some e -> exists e',
      db_rows (table (snd run)) !! id = Some e' /\ same_event e e' /\ PublishedAt e' <> None /\
      (PublishedAt e = None -> event_record injected e ∈ recs).
Proof.
  intros Hup Hw Hsize Hname Hdown Hsch. cbn zeta. destruct (restart_sane lives w Hw) as [[Hwf Hr Hb] Hk].
  set (w2 := World (w_data (restart lives w)) (w_clock (restart lives w) + down) sch).
  destruct (RunWorker_empties injected picks_tick Hup cfg ticks w2) as [Hdone [_ _ _ Hleft _]];
    [done | done | | done | |].
  - eapply within_reach_ready; [exact Hr | done | cbn; lia].
  - etransitivity; [by apply worked_backlog | done].
  - destruct (RunWorker_works injected None picks_tick cfg ticks w2 Hwf) as [Hk2 _].
    split; [exact Hdone|]. apply emptied; [|apply map_size_empty_inv; lia].
    exact (worked_trans injected _ _ _ Hk Hk2).
Qed.
End worker.

(** ** A concrete run *)

#[local] Existing Instance demo_uuid.
#[local] Existing Instance demo_pg.
#[local] Instance demo_texts : ErrorText := fun _ => "error".
#[local] Instance demo_boot : PostgresSettings unit := fun _ => false.
#[local] Instance demo_service : ServiceSettings unit := fun _ => "1".

(** A life whose publishes fail, and one whose claim is answered too late. *)
Definition demo_lost_answer : tick := Tick 1 (FailAfter (External "conn closed")).
Definition demo_no_broker : tick := Tick 1 (FailBefore (External "no broker")).
Definition demo_bad_lives : list (life unit) :=
  [MkLife unit None (fun _ => true) demo_config 1
     [Tick 1 NoFault; Tick 1 NoFault; Tick 1 NoFault; demo_no_broker; demo_lost_answer; demo_no_broker] 5;
   MkLife unit None (fun _ => true) demo_config 1 [Tick 1 NoFault; Tick 1 NoFault; demo_lost_answer] 5].

Definition demo_recovered : world (pubstore (list KRecord)) :=
  snd (RunWorker (fun _ => []) None (fun _ => true) demo_config 1
    (World (w_data (restart (fun _ => []) demo_bad_lives (demo_pub [])))
       (w_clock (restart (fun _ => []) demo_bad_lives (demo_pub [])) + 6 * Minute) [])).

Lemma worker_recovers_witness :
  exists e', db_rows (ps_db (w_data demo_recovered)) !! "aaaaaaaaaaaaaaa2" = Some e' /\ PublishedAt e' <> None.
Proof.
  destruct (worker_recovers (K := list KRecord) (fun _ => []) demo_bad_lives demo_config (fun _ => true) 1 (6 * Minute)
    [] (demo_pub [])) as (_ & recs & _ & Hrows).
  - exact log_up.
  - split; [exact demo_db_wf | | reflexivity].
    intros id e He. apply backlog_lookup in He as [He _].
    assert (NextAttemptAt e = None /\ LockedAt e = None) as [-> ->]; [|split; discriminate].
    apply elem_of_map_to_list in He. vm_compute in He.
    repeat (apply elem_of_cons in He as [He|He]; [injection He as -> ->; split; reflexivity|]). by apply elem_of_nil in He.
  - vm_compute. lia.
  - vm_compute. reflexivity.
  - reflexivity.
  - constructor.
  - destruct (Hrows "aaaaaaaaaaaaaaa2" (new_row (demo_create "aaaaaaaaaaaaaaa2") "{}" 20)) as (e' & He' & _ & Hp & _);
      [vm_compute; reflexivity|]. exists e'. split; [exact He' | exact Hp].
Defined.
