(* ===== verification/Pipeline.v ===== *)
(** * The pipeline: the binaries together

    What the consumer, the worker, the limiter of the grpc binary and the
    maintenance of the table share, and the programs that run on it at the same
    time ([binary]); the protocol they keep: what each may rely on of the others
    ([respects]) and what always holds of the stores ([sound]). *)
From S2P Require Import Prelude Utf8 Json GoTime Uuid Repository RepositoryFacts Redis Kafka Constant Envelope Router RouterFacts Outbox Config Auth App Concurrent Consumer ConsumerFacts Worker.

(** Redis and PostgreSQL, and the cluster the worker publishes to; the consumer
    group of a process is its own. *)
Record stores (R L : Type) := MkStores { sy_store : store R; sy_kafka : L }.
Arguments MkStores {R L} _ _.
Arguments sy_store {R L} _.
Arguments sy_kafka {R L} _.

Section pipeline.
Context {K R L P : Type} `{GroupLib K, RedisLib R, KafkaLib L, UuidLib, PgLib, FmtOther, ErrorText}.
Context `{PostgresSettings P, ServiceSettings P}.
(** The configurations the consumers run with. *)
Variable configured : Config P -> Prop.

#[local] Abbreviation shared := (stores R L).
#[local] Abbreviation state := (shared * K)%type.
#[local] Abbreviation rows sh := (db_rows (st_db (sy_store sh))).
#[local] Abbreviation redis sh := (st_redis (sy_store sh)).
#[local] Abbreviation log sh := (kf_log (sy_kafka sh)).

(** ** What each program sees *)

Definition site_of (s : state) : site K R := MkSite (sy_store (fst s)) (snd s).
Definition with_site (x : site K R) (s : state) : state :=
  (MkStores (si_store x) (sy_kafka (fst s)), si_group x).

Definition pub_of (s : state) : pubstore L := MkPub (st_db (sy_store (fst s))) (sy_kafka (fst s)).
Definition with_pub (x : pubstore L) (s : state) : state :=
  (MkStores (MkStore (redis (fst s)) (ps_db x)) (ps_kafka x), snd s).

Definition db_of (s : state) : db := st_db (sy_store (fst s)).
Definition with_db (sh : shared) (d : db) : shared := MkStores (MkStore (redis sh) d) (sy_kafka sh).
Definition cache_of (s : state) : R := redis (fst s).
Definition with_cache (sh : shared) (r : R) : shared :=
  MkStores (MkStore r (st_db (sy_store sh))) (sy_kafka sh).

#[export] Instance site_lens : Lens site_of with_site.
Proof. by split; [intros [? ?] [[[? ?] ?] ?] | intros [[[? ?] ?] ?] |]. Qed.
#[export] Instance pub_lens : Lens pub_of with_pub.
Proof. by split; [intros [? ?] [[[? ?] ?] ?] | intros [[[? ?] ?] ?] |]. Qed.
#[export] Instance shared_db_lens : Lens db_of (fun d s => (with_db (fst s) d, snd s)).
Proof. by split; [| intros [[[? ?] ?] ?] |]. Qed.
#[export] Instance shared_cache_lens : Lens cache_of (fun r s => (with_cache (fst s) r, snd s)).
Proof. by split; [| intros [[[? ?] ?] ?] |]. Qed.

(** ** The processes *)

(** One life of the consumer and of the worker. *)
Definition consumer_process (ctx : option Z) (lag : Delivery -> N) (cfg : Config P) (polls : nat) : M state unit :=
  do! zoom site_of with_site (RunConsumer ctx lag cfg polls) in ret tt.
Definition worker_process (injected : UUID -> list RecordHeader) (ctx : option Z) (picks_tick : nat -> bool)
    (cfg : Config P) (ticks : nat) : M state unit :=
  do! zoom pub_of with_pub (RunWorker injected ctx picks_tick cfg ticks) in ret tt.

(** The checks of the rate limiter for the requests one handler after the other
    lets in; handlers run at the same time as processes of their own. *)
Fixpoint limiter_process (requests : list (Caller * CallerConfig)) : M state unit :=
  match requests with
  | [] => ret tt
  | (caller, limit) :: requests' =>
      do! zoom cache_of (fun r s => (with_cache (fst s) r, snd s)) (Allow true caller limit) in
      limiter_process requests'
  end.

(** Statements an operator or a job runs against the table, other than
    inserting rows or declaring them published. *)
Definition maintenance (st : statement) : Prop :=
  match st with SCreate _ | SMarkPublished _ => False | _ => True end.

Fixpoint operator_process (sts : list statement) : M state unit :=
  match sts with
  | [] => ret tt
  | st :: sts' =>
      do! zoom db_of (fun d s => (with_db (fst s) d, snd s)) (remote (fun t d => (Ok tt, exec st t d))) in
      operator_process sts'
  end.

Inductive binary : M state unit -> Prop :=
  | consumer_binary ctx lag cfg polls : configured cfg -> binary (consumer_process ctx lag cfg polls)
  | worker_binary injected ctx picks_tick cfg ticks : binary (worker_process injected ctx picks_tick cfg ticks)
  | limiter_binary requests : binary (limiter_process requests)
  | operator_binary sts : Forall maintenance sts -> binary (operator_process sts).

(** ** The protocol *)

(** A row of the outbox comes from a record of the contract that a consumer
    routed, with one of the configurations. *)
Definition origin (e : OutboxEvent) : Prop :=
  exists value (cfg : Config P) env traceID e0,
    configured cfg /\ Parse value = Ok env /\ routed_from (consumer_router cfg) env traceID (ID e) e0 /\
    fixed_part e = fixed_part e0.

(** The cluster holds a record of the event with that id. *)
Definition sent (sh : shared) (id : UUID) : Prop :=
  exists injected e, ID e = id /\ origin e /\ event_record injected e ∈ log sh.

(** An event of the outbox is in the table or on its way. *)
Definition kept (sh : shared) (id : UUID) : Prop := is_Some (rows sh !! id) \/ sent sh id.

(** What a process may do to the stores. *)
Record respects (sh sh' : shared) : Prop := {
  re_log : log sh `prefix_of` log sh';
  re_rows id : is_Some (rows sh !! id) -> kept sh' id;
}.

(** What always holds of the stores at time [t]; [log0] is what the cluster held
    to begin with. *)
Record sound (log0 : list KRecord) (t : Z) (sh : shared) : Prop := {
  so_table : table_wf (st_db (sy_store sh));
  so_marks k t' : t <= t' -> rd_get t' (dedupeKeyPrefix ++ k)%string (redis sh) <> None ->
    exists sid, uuid_Parse k = Some sid /\ kept sh (routed_id sid);
  so_published id e : rows sh !! id = Some e -> PublishedAt e <> None -> sent sh id;
  so_origin id e : rows sh !! id = Some e -> origin e;
  so_log r : r ∈ log sh -> r ∈ log0 \/ exists injected e, origin e /\ r = event_record injected e;
  so_leases id e l : rows sh !! id = Some e -> LockedAt e = Some l -> l <= t;
}.

(** A source record is routed, or dead-lettered by the group [k]. *)
Definition routed_to (sh : shared) (r : Source) : Prop :=
  exists env sid, Parse (r_Value (s_Record r)) = Ok env /\ uuid_Parse (EventID env) = Some sid /\
    kept sh (routed_id sid).
Definition accounted (sh : shared) (k : K) (r : Source) : Prop :=
  routed_to sh r \/ exists m, (r, m) ∈ gr_dlq k.

(** Every record below a committed offset of the group is accounted for. *)
Definition accounts (sh : shared) (k : K) : Prop := committed_are (accounted sh k) k.
End pipeline.
