(* ===== verification/PipelineFacts.v ===== *)
(** * Theorems on the pipeline

    Every binary keeps the protocol of the pipeline, so that the properties of
    the whole hold whatever processes run, however their steps interleave, and
    whenever they die: no record the group is past is lost, and nothing is
    published that was not routed. *)
From S2P Require Import Prelude Utf8 Json GoTime Uuid Repository RepositoryFacts Redis Kafka Constant Envelope EnvelopeFacts Router RouterFacts Outbox OutboxFacts Config Auth App Concurrent Consumer ConsumerFacts Worker Pipeline.

Section pipeline.
Context {K R L P : Type} `{GroupLaws K, RedisLaws R, KafkaLaws L, UuidLib, PgLib, !PgLaws, FmtOther, ErrorText}.
Context `{PostgresSettings P, ServiceSettings P}.
Variable configured : Config P -> Prop.
Variable log0 : list KRecord.

#[local] Abbreviation shared := (stores R L).
#[local] Abbreviation state := (shared * K)%type.
#[local] Abbreviation rows sh := (db_rows (st_db (sy_store sh))).
#[local] Abbreviation redis sh := (st_redis (sy_store sh)).
#[local] Abbreviation log sh := (kf_log (sy_kafka sh)).
#[local] Abbreviation origin := (origin (P := P) configured).
#[local] Abbreviation sent := (sent (R := R) (L := L) (P := P) configured).
#[local] Abbreviation kept := (kept (R := R) (L := L) (P := P) configured).
#[local] Abbreviation respects := (respects (R := R) (L := L) (P := P) configured).
#[local] Abbreviation sound := (sound (R := R) (L := L) (P := P) configured log0).
#[local] Abbreviation accounts := (accounts (K := K) (R := R) (L := L) (P := P) configured).
#[local] Abbreviation accounted := (accounted (K := K) (R := R) (L := L) (P := P) configured).

(** ** What the protocol preserves *)

Lemma sent_prefix sh sh' id : log sh `prefix_of` log sh' -> sent sh id -> sent sh' id.
Proof.
  intros [l Hl] (inj & e & Hid & Ho & Hin). exists inj, e. split_and!; [done..|].
  rewrite Hl. apply elem_of_app. by left.
Qed.

Lemma kept_respects sh sh' id : respects sh sh' -> kept sh id -> kept sh' id.
Proof. intros [Hl Hr] [Hrow|Hs]; [auto | right; by eapply sent_prefix]. Qed.

#[export] Instance respects_preorder : PreOrder respects.
Proof.
  split; [intros sh; split; [done | by left]|]. intros s1 s2 s3 H12 H23. split.
  - etransitivity; [apply H12 | apply H23].
  - intros id Hr. eapply kept_respects; [exact H23|]. by apply H12.
Qed.

Lemma respects_refl sh : respects sh sh.
Proof. reflexivity. Qed.

Lemma accounted_respects sh sh' k r : respects sh sh' -> accounted sh k r -> accounted sh' k r.
Proof.
  intros Hg [(env & sid & Hp & Hs & Hk)|Hd]; [left | by right]. exists env, sid.
  split_and!; [done..|]. by eapply kept_respects.
Qed.

Lemma sound_later t t' sh : t <= t' -> sound t sh -> sound t' sh.
Proof.
  intros Ht [Hw Hm Hp Ho Hl Hle]. split; auto; [intros k t0 Ht0; apply Hm; lia|].
  intros id e l He Hlk. specialize (Hle id e l He Hlk). lia.
Qed.

Lemma accounts_respects sh sh' k : respects sh sh' -> accounts sh k -> accounts sh' k.
Proof. intros Hg. apply committed_mono. intros r. by apply accounted_respects. Qed.

#[export] Instance pipeline_protocol : Protocol shared K := {
  rely := respects;
  guar := respects;
  ghost := eq;
  inv := sound;
  own := accounts;
  meets _ := True;
  ghost_refl _ := eq_refl;
  guar_refl := respects_refl;
  inv_later := sound_later;
  own_stable := accounts_respects;
}.

(** Every process keeps the same protocol, of the stores as they are. *)
#[export] Instance pipeline_protocols : Protocols shared shared K.
Proof.
  refine {| erase sh := sh; update sh _ := sh; protocol _ := pipeline_protocol; invariant := sound;
            allowed _ := True |}; try done; by intros.
Defined.

(** ** The statements and the calls *)

(** A statement keeps the protocol, if the rows it inserts have an origin and
    those it declares published are sent. *)
Lemma exec_keeps st t sh :
  sound t sh ->
  (forall arg payload, st = SCreate arg -> pg_jsonb (p_Payload arg) = Some payload ->
     origin (new_row arg payload t)) ->
  (forall id, st = SMarkPublished id -> sent sh id) ->
  sound t (with_db sh (exec st t (st_db (sy_store sh)))) /\
  respects sh (with_db sh (exec st t (st_db (sy_store sh)))).
Proof.
  intros [Hwf Hm Hp Ho Hl Hle] Hnew Hpub. set (sh' := with_db _ _).
  assert (respects sh sh') as Hg.
  { split; [done|]. intros id [e He]. pose proof (exec_row st t _ id e Hwf He) as Hs.
    destruct (Hwf _ _ He) as [_ Hrow]. apply row_step_some in Hs; [|done]. unfold kept. cbn [sy_store st_db sh' with_db].
    destruct (db_rows (exec st t _) !! id); [by left|]. destruct Hs as (_ & x & Hx & _).
    right. apply (Hp _ _ He). by rewrite Hx. }
  split; [|exact Hg]. split; [by apply exec_wf| | | |exact Hl|].
  - intros k t' Ht Hk. destruct (Hm k t' Ht Hk) as (sid & Hsid & Hkept). exists sid. split; [done|].
    by eapply kept_respects.
  - intros id e' He' Hpe'. cbn [sy_store st_db sh' with_db] in He'.
    destruct (rows sh !! id) as [e|] eqn:He.
    + pose proof (exec_row st t _ id e Hwf He) as Hs. rewrite He' in Hs.
      destruct (Hwf _ _ He) as [Hid Hrow]. apply row_step_some in Hs as (_ & _ & _ & _ & _ & Hpp); [|done].
      destruct (PublishedAt e') as [x|]; [|done]. destruct (Hpp x eq_refl) as [Hx|[-> _]].
      * apply (Hp _ _ He). by rewrite Hx.
      * rewrite <- Hid. by apply Hpub.
    + destruct (exec_new _ _ _ _ _ He He') as (arg & payload & _ & _ & _ & ->). done.
  - intros id e' He'. cbn [sy_store st_db sh' with_db] in He'. destruct (rows sh !! id) as [e|] eqn:He.
    + pose proof (exec_row st t _ id e Hwf He) as Hs. rewrite He' in Hs.
      destruct (Hwf _ _ He) as [Hid Hrow]. apply row_step_some in Hs as (Hid' & _ & Hf & _); [|done].
      destruct (Ho _ _ He) as (v & cfg & env & tr & e0 & Hcf & Hv & Hr & Hf0).
      exists v, cfg, env, tr, e0. rewrite Hid'. split_and!; [done..|congruence].
    + destruct (exec_new _ _ _ _ _ He He') as (arg & payload & -> & _ & Hj & ->). by apply Hnew.
  - intros id e' l He' Hlk. cbn [sy_store st_db sh' with_db] in He'. destruct (rows sh !! id) as [e|] eqn:He.
    + pose proof (exec_row st t _ id e Hwf He) as Hs. rewrite He' in Hs.
      destruct (row_step_lease _ _ _ _ _ Hs Hlk) as [Hlk'| ->]; [by apply (Hle id e) | done].
    + destruct (exec_new _ _ _ _ _ He He') as (arg & payload & _ & _ & _ & ->). done.
Qed.

(** A call on Redis keeps it if it leaves the live marks as they were, but those
    of events that are kept. *)
Lemma cache_keeps t sh r :
  sound t sh ->
  (forall k t', t <= t' -> rd_get t' (dedupeKeyPrefix ++ k)%string r <> None ->
     rd_get t' (dedupeKeyPrefix ++ k)%string (redis sh) <> None \/
     exists sid, uuid_Parse k = Some sid /\ kept sh (routed_id sid)) ->
  sound t (with_cache sh r) /\ respects sh (with_cache sh r).
Proof.
  intros [Hwf Hm Hp Ho Hl Hle] Hr. split; [|split; [done | by left]]. split; try done.
  intros k t' Ht Hk. destruct (Hr k t' Ht Hk); [|done]. by apply (Hm k t').
Qed.

(** A publish keeps it if the record is of an event with an origin. *)
Lemma publish_keeps t sh inj e kf :
  sound t sh -> origin e -> kf_log kf = log sh \/ kf_log kf = log sh ++ [event_record inj e] ->
  sound t (MkStores (sy_store sh) kf) /\ respects sh (MkStores (sy_store sh) kf).
Proof.
  intros [Hwf Hm Hp Ho Hl Hle] He Hk.
  assert (log sh `prefix_of` kf_log kf) as Hpre by (destruct Hk as [-> | ->]; [done | by apply prefix_app_r]).
  assert (respects sh (MkStores (sy_store sh) kf)) as Hg by (split; [done | by left]).
  split; [|exact Hg]. split; [done| | |done| |done].
  - intros k t' Ht Hk'. destruct (Hm k t' Ht Hk') as (sid & ? & ?). exists sid. split; [done|]. by eapply kept_respects.
  - intros id e' He' Hpe'. eapply sent_prefix; [exact Hpre|]. by eapply Hp.
  - intros r. cbn [sy_kafka]. destruct Hk as [-> | ->]; [apply Hl|].
    rewrite elem_of_app, list_elem_of_singleton. intros [Hr| ->]; [by apply Hl|]. right. by exists inj, e.
Qed.

(** A call on what the processes share. *)
Lemma safe_shared {S A} (get : state -> S) put (upd : S -> shared -> shared) (f : Z -> S -> result A * S) Q s :
  (forall s, put (get s) s = s) -> (forall x s, put x s = (upd x (fst s), snd s)) -> stable Q ->
  (forall sh t, respects (fst s) sh -> sound t sh ->
     let run := f t (get (sh, snd s)) in
     sound t (upd (snd run) sh) /\ respects sh (upd (snd run) sh) /\
     Q (fst run) (upd (snd run) sh, snd s) /\
     forall e, Q (Err e) (sh, snd s) /\ Q (Err e) (upd (snd run) sh, snd s)) ->
  safe get put (remote f) Q s.
Proof.
  intros Hput Hupd HQ Hf. apply safe_remote; [done..|]. intros sh t Hg Ho Hi. cbn zeta. rewrite Hupd.
  destruct (Hf sh t Hg Hi) as (Hi' & Hg' & Hq & He). split_and!; [done..| |done|done].
  by apply (accounts_respects sh).
Qed.

(** A call on a process's group. *)
Lemma safe_group {A} (f : Z -> K -> result A * K) Q s :
  stable Q ->
  (forall sh t, respects (fst s) sh -> accounts sh (snd s) ->
     let run := f t (snd s) in
     accounts sh (snd run) /\ Q (fst run) (sh, snd run) /\
     forall e, Q (Err e) (sh, snd s) /\ Q (Err e) (sh, snd run)) ->
  safe site_of with_site (in_group (remote f)) Q s.
Proof.
  intros HQ Hf. zoom_in; apply safe_remote; [by intros [[[? ?] ?] ?] | done |].
  intros sh t Hg Ho Hi. destruct (Hf sh t Hg Ho) as (Ho' & Hq & He).
  assert (MkStores (sy_store sh) (sy_kafka sh) = sh) as Heq by (by destruct sh).
  unfold with_site. cbn [fst snd si_store si_group site_of]. rewrite Heq. by split_and!.
Qed.

(** ** The router *)

#[local] Abbreviation store_of := (fun s : state => si_store (site_of s)).
#[local] Abbreviation with_store := (fun x (s : state) => with_site (MkSite x (si_group (site_of s))) s).

(** The transaction that inserts a row with an origin. *)
Lemma insert_safe arg s :
  (forall t payload, pg_jsonb (p_Payload arg) = Some payload -> origin (new_row arg payload t)) ->
  safe store_of with_store (on_db (ExecTx (insert_routed arg)))
    (fun r s' => snd s' = snd s /\ (r = Ok tt -> kept (fst s') (p_ID arg))) s.
Proof.
  intros Harg. zoom_in. unfold ExecTx. apply safe_bind_try.
  apply (safe_shared _ _ (fun d sh => with_db sh d)); [by intros [[[? ?] ?] ?] | done | apply safe_stable|].
  intros sh t _ Hi. cbn zeta. cbn [fst snd].
  assert (with_db sh (st_db (sy_store sh)) = sh) as Heq by (by destruct sh as [[? ?] ?]).
  unfold with_site, site_of. cbn [fst snd si_store si_group st_db st_redis]. rewrite Heq.
  assert (forall e, safe (fun s : state => st_db (sy_store (fst s)))
    (fun d s => (with_db (fst s) d, snd s)) (@throw db unit e)
    (fun r s' => snd s' = snd s /\ (r = Ok tt -> kept (fst s') (p_ID arg))) (sh, snd s)) as Herr.
  { intros e. apply safe_done. by intros. }
  split_and!; [done|apply respects_refl| |intros e; cbn [fst snd]; split; exact (Herr _)].
  cbn beta iota. apply safe_atomic.
  { intros r x sh' Hg [Hx Hk]. split; [done|]. intros Hr. eapply kept_respects; [exact Hg | by apply Hk]. }
  intros sh' t' sch Hg' Ho' _ Hi'.
  set (cw := body_and_commit (insert_routed arg New) (World (st_db (sy_store sh')) t' sch)).
  exists (with_db sh' (w_data (snd cw))). split; [done|].
  change (let sh2 := with_db sh' (w_data (snd cw)) in
    t' <= w_clock (snd cw) /\ sound (w_clock (snd cw)) sh2 /\
    (waits (body_and_commit (insert_routed arg New)) -> sound t' sh2) /\ respects sh' sh2 /\ accounts sh2 (snd s) /\
    snd s = snd s /\ (fst cw = Ok tt -> kept sh2 (p_ID arg))).
  assert (forall d, d = st_db (sy_store sh') -> with_db sh' d = sh') as Hsame by (intros d ->; by destruct sh' as [[? ?] ?]).
  assert (waits (body_and_commit (insert_routed arg New)) -> sound t' (with_db sh' (w_data (snd cw)))) as Hw
    by (intros Hw; rewrite Hsame; [done | exact (Hw _)]).
  revert Hw. unfold cw. clear cw. cbn zeta.
  pose proof (later_commit _ (World (st_db (sy_store sh')) t' sch) (later_insert arg)) as Hl.
  unfold later in Hl. cbn [w_clock] in Hl.
  destruct (commit_insert arg (World (st_db (sy_store sh')) t' sch)) as [e w' Hd|r t1 n w' Ht Hcr];
    cbn [fst snd] in *; intros Hw.
  - rewrite Hd. cbn [w_data]. rewrite Hsame by done.
    split; [done|]. split; [by eapply sound_later|]. split; [done|]. split; [apply respects_refl|]. by split.
  - cbn [w_data w_clock] in *.
    destruct (exec_keeps (SCreate arg) t1 sh') as [Hi2 Hg2]; [by apply (sound_later t'); [lia|] | | done |].
    { intros arg' payload [= <-]. apply Harg. }
    cbn [exec] in Hi2, Hg2. rewrite Hcr in Hi2, Hg2. cbn [snd] in Hi2, Hg2.
    split; [done|]. split; [by apply (sound_later t1); [lia|]|].
    split; [exact Hw|]. split; [done|]. split; [by apply (accounts_respects sh')|]. split; [done|]. intros _. left.
    by destruct (insert_now _ _ _ _ _ Hcr) as [Hin _].
Qed.

Lemma redis_store (sh : shared) : with_cache sh (redis sh) = sh.
Proof. by destruct sh as [[? ?] ?]. Qed.

(** A call of the router on Redis. *)
Lemma on_redis_safe {A} (f : Z -> R -> result A * R) Q s :
  stable Q ->
  (forall sh t, respects (fst s) sh -> sound t sh ->
     (forall k t', t <= t' -> rd_get t' (dedupeKeyPrefix ++ k)%string (snd (f t (redis sh))) <> None ->
        rd_get t' (dedupeKeyPrefix ++ k)%string (redis sh) <> None \/
        exists sid, uuid_Parse k = Some sid /\ kept sh (routed_id sid)) /\
     Q (fst (f t (redis sh))) (with_cache sh (snd (f t (redis sh))), snd s) /\
     forall e, Q (Err e) (sh, snd s) /\ Q (Err e) (with_cache sh (snd (f t (redis sh))), snd s)) ->
  safe store_of with_store (on_redis (remote f)) Q s.
Proof.
  intros HQ Hf. zoom_in; apply (safe_shared _ _ (fun r sh => with_cache sh r));
    [by intros [[[? ?] ?] ?] | done | done |].
  intros sh t Hg Hi. destruct (Hf sh t Hg Hi) as (Hk & Hq & He).
  destruct (cache_keeps t sh (snd (f t (redis sh))) Hi Hk) as [Hi' Hg']. by split; [|split; [|split]].
Qed.

Lemma Handle_safe value (cfg : Config P) env traceID s :
  configured cfg -> Parse value = Ok env ->
  safe store_of with_store (Handle (consumer_router cfg) env traceID)
    (fun r s' => snd s' = snd s /\
       (r = Ok tt -> exists sid, uuid_Parse (EventID env) = Some sid /\ kept (fst s') (routed_id sid))) s.
Proof.
  intros Hcf Hp. set (Q := fun (r : result unit) (s' : state) => _).
  assert (forall e s', snd s' = snd s -> safe store_of with_store (throw e) Q s') as Hthrow.
  { intros e s' Hs. apply safe_done. intros. by split. }
  unfold Handle. destruct (negb (Router.KnownCaller _ _)) eqn:Hk; [by apply Hthrow|].
  destruct (uuid_Parse (DocumentID env)) as [docID|] eqn:Hdoc; [|by apply Hthrow].
  destruct (uuid_Parse (EventID env)) as [sid|] eqn:Hev; [|by apply Hthrow].
  cbn [rdb_up consumer_router negb].
  assert (forall s', snd s' = snd s -> kept (fst s') (routed_id sid) -> safe store_of with_store (ret tt) Q s') as Hret.
  { intros s' Hs Hkept. apply safe_done. intros sh Hg _. split; [done|]. intros _. exists sid. split; [done|].
    by eapply kept_respects. }
  apply safe_bind_try, on_redis_safe; [apply safe_stable|]. intros sh t Hg Hi. cbn [fst snd]. rewrite redis_store.
  split; [by left|]. split; [|by intros e; split; apply Hthrow].
  destruct (0 <? rd_exists t _ _) eqn:Hex.
  { apply Hret; [done|]. apply Z.ltb_lt in Hex. rewrite exists_get in Hex.
    destruct (so_marks _ _ _ _ Hi (EventID env) t) as (sid' & Hs' & Hkept); [lia | |].
    - unfold dedupe_key in Hex. by destruct (rd_get _ _ _).
    - by assert (sid' = sid) as -> by congruence. }
  destruct (Marshal _) as [payload|e] eqn:Hm; [|by apply Hthrow].
  apply safe_bind_try. eapply safe_conseq; [|apply insert_safe].
  - intros [[]|e] s' _ [Hs Hkept]; [|by apply Hthrow]. specialize (Hkept eq_refl). cbn in Hkept.
    apply safe_bind_try, on_redis_safe; [apply safe_stable|]. intros sh' t' Hg' Hi'.
    assert (kept sh' (routed_id sid)) as Hkept' by (by eapply kept_respects).
    split; [|split; [|intros e; split]]; try by apply Hret.
    intros k t2 Ht2 Hlive. destruct (decide (k = EventID env)) as [->|Hne]; [right; by exists sid | left].
    destruct (rd_setnx _ _ _ _ _) as [b r] eqn:Hset. cbn [snd] in Hlive.
    pose proof (setnx_other t' (dedupe_key env) "1" (Router.DedupeTTL (opts (consumer_router cfg))) (redis sh') t2
      (dedupeKeyPrefix ++ k)%string Ht2) as Ho. rewrite Hset in Ho. cbn [snd] in Ho. rewrite <- Ho; [done|].
    unfold dedupe_key. intros Heq. apply Hne. by apply str_app_inj_l in Heq.
  - intros t2 stored Hj. exists value, cfg, env, traceID, (new_row (routed_params (opts (consumer_router cfg)) env traceID docID (routed_id sid) payload) stored t2).
    split; [done|]. split; [done|]. split; [|done]. exists docID, sid, payload, stored, t2.
    unfold refusal. rewrite Hk, Hdoc, Hev. by split_and!.
Qed.

(** ** Waiting *)

#[local] Abbreviation anything := (fun _ _ => True).

Lemma stable_anything {A} : stable (Sh := shared) (P := K) (A := A) anything.
Proof. done. Qed.

Lemma quiet_dial {S} : quiet (@dial S).
Proof.
  split; [|by intros x]. intros w. unfold call. destruct (next_tick _) as [[n flt] sch].
  destruct flt; cbn; split; done || lia.
Qed.

Lemma quiet_boot_step {S A} what (m : M S A) : quiet m -> quiet (boot_step what m).
Proof. intros Hm. apply quiet_bind; [by apply quiet_try|]. by intros []. Qed.

Lemma quiet_setupRedis {S} (cfg : Config P) : quiet (@setupRedis S P cfg).
Proof. apply quiet_bind; [apply quiet_try, quiet_dial|]. intros []; [done|]. by case_match. Qed.

Lemma quiet_open_postgres {S} (cfg : Config P) : quiet (@open_postgres S P _ cfg).
Proof.
  apply quiet_bind; [apply quiet_boot_step, quiet_dial|]. intros _. unfold migrate. case_match; [|done].
  apply quiet_boot_step, quiet_dial.
Qed.

(** A part of a program that only waits. *)
Lemma safe_wait {S A B} get put (m : M S A) (k : A -> M S B) s :
  (forall s, put (get s) s = s) -> quiet m ->
  (forall a s', safe (Sh := shared) (P := K) get put (k a) anything s') -> safe get put (bind m k) anything s.
Proof.
  intros Hput Hm Hk. apply safe_bind, safe_quiet; [done..| |by intros [a|e]].
  by apply safe_stable_bind.
Qed.

(** ** The consumer *)

#[local] Abbreviation site_safe := (safe (Sh := shared) (P := K) site_of with_site).

(** Handling a record keeps the offsets and the dead letters, and accounts for
    the record when it is acknowledged. *)
Definition handled (d : Delivery) (s0 : state) (r : result unit) (s : state) : Prop :=
  same_offsets (snd s0) (snd s) /\ gr_dlq (snd s0) ⊆ gr_dlq (snd s) /\
  (r = Ok tt -> accounted (fst s) (snd s) (d_Source d)).

Lemma handled_stable d s0 : stable (handled d s0).
Proof.
  intros r s sh Hg (Ho & Hd & Ha). split; [done|]. split; [done|]. intros Hr.
  eapply accounted_respects; [exact Hg | by apply Ha].
Qed.

Lemma deadLetter_safe d s : site_safe (@deadLetter K R _ d) (handled d s) s.
Proof.
  apply safe_group; [apply handled_stable|]. intros sh t Hg Ho. cbn zeta.
  set (k' := snd (gr_deadletter d (dlq_metadata d) t (snd s))).
  assert (same_offsets (snd s) k') as Hso by apply deadletter_offsets.
  assert (gr_dlq (snd s) ⊆ gr_dlq k') as Hd by (intros x Hx; apply deadletter_only; by left).
  split; [|split; [|intros e; split]].
  - intros r. rewrite (so_records _ _ Hso), (so_committed _ _ Hso). intros Hin Hb.
    destruct (Ho r Hin Hb) as [|[m Hm]]; [by left | right; exists m; by apply Hd].
  - split; [done|]. split; [done|]. intros Hr. right. exists (dlq_metadata d). by apply deadletter_acked.
  - by split_and!.
  - by split_and!.
Qed.

Section configured.
Variables (ctx : option Z) (lag : Delivery -> N) (cfg : Config P).
Hypothesis registered : configured cfg.

Lemma record_safe d s :
  site_safe (handleProcessedRecord ctx lag (consumer_router cfg) d) (handled d s) s.
Proof.
  unfold handleProcessedRecord. destruct (Parse _) as [env|e] eqn:Hp; [|apply deadLetter_safe].
  destruct (nonempty _ && _); [apply deadLetter_safe|].
  apply safe_bind_try; zoom_in. eapply safe_conseq; [|by eapply Handle_safe].
  intros r s' _ [Hk Hr]. unfold handled. rewrite <- Hk. destruct r as [[]|err].
  - apply safe_done. intros sh Hg _. split; [done|]. split; [done|]. intros _. left.
    destruct (Hr eq_refl) as (sid & Hsid & Hkept). exists env, sid. split_and!; [done..|].
    by eapply kept_respects.
  - apply safe_bind, safe_still; [by intros [[[? ?] ?] ?] | apply safe_stable_bind, handled_stable | done |]. intros [t|e].
    + destruct (is_canceled err || _); [by apply safe_done|].
      destruct (as_permanent err); [apply deadLetter_safe | by apply safe_done].
    + by split_and!.
Qed.

(** Everything below the offsets of a process is accounted for, and everything
    its client read is or is in the batch at hand. *)
Definition held (s : state) : Prop := marked_are (accounted (fst s) (snd s)) (snd s).
Definition reading (ds : list Delivery) (s : state) : Prop := read_are (accounted (fst s) (snd s)) ds (snd s).

Lemma accounted_grows sh sh' k k' r :
  respects sh sh' -> gr_dlq k ⊆ gr_dlq k' -> accounted sh k r -> accounted sh' k' r.
Proof.
  intros Hg Hd Ha. destruct (accounted_respects _ _ _ _ Hg Ha) as [|[m Hm]]; [by left | right].
  exists m. by apply Hd.
Qed.

Lemma held_step sh sh' k k' :
  respects sh sh' -> same_offsets k k' -> gr_dlq k ⊆ gr_dlq k' -> held (sh, k) -> held (sh', k').
Proof. intros Hg Ho Hd. apply marked_mono; [done|]. intros r. by apply accounted_grows. Qed.

Lemma reading_step sh sh' k k' ds :
  respects sh sh' -> same_offsets k k' -> gr_dlq k ⊆ gr_dlq k' -> reading ds (sh, k) -> reading ds (sh', k').
Proof. intros Hg Ho Hd. apply read_mono; [done|]. intros r. by apply accounted_grows. Qed.

Lemma held_env s sh : respects (fst s) sh -> held s -> held (sh, snd s).
Proof. destruct s as [sh0 k]. intros Hg. by apply held_step; [|apply same_offsets_refl|]. Qed.

Lemma reading_env ds s sh : respects (fst s) sh -> reading ds s -> reading ds (sh, snd s).
Proof. destruct s as [sh0 k]. intros Hg. by apply reading_step; [|apply same_offsets_refl|]. Qed.

(** The dead letters being the same, so is what is accounted for. *)
Lemma held_same sh k k' : gr_dlq k' = gr_dlq k -> marked_are (accounted sh k) k' -> held (sh, k').
Proof.
  intros Hd. apply marked_mono; [apply same_offsets_refl|]. intros r Ha.
  apply (accounted_grows sh sh k k'); [apply respects_refl | rewrite Hd; reflexivity | exact Ha].
Qed.

Lemma reading_same sh k k' ds : gr_dlq k' = gr_dlq k -> read_are (accounted sh k) ds k' -> reading ds (sh, k').
Proof.
  intros Hd. apply read_mono; [apply same_offsets_refl|]. intros r Ha.
  apply (accounted_grows sh sh k k'); [apply respects_refl | rewrite Hd; reflexivity | exact Ha].
Qed.

Lemma commitPending_safe s : held s -> site_safe commitPending (fun _ s' => held s') s.
Proof.
  intros Hm. apply safe_bind_try, safe_group; [apply safe_stable|]. intros sh t Hg _. cbn zeta.
  pose proof (held_env _ _ Hg Hm) as Hm0.
  destruct (flush_are _ (snd s) (snd (gr_flush t (snd s))) ltac:(eauto) Hm0) as [Hd Hm'].
  apply (held_same sh) in Hm'; [|done].
  assert (forall k, held (sh, k) -> site_safe (ret tt) (fun _ s' => held s') (sh, k)) as Hret.
  { intros k Hk. apply safe_done. intros sh' Hg' _. by apply (held_env (sh, k)). }
  split; [by apply marked_committed|]. split; [by apply Hret|]. intros e. split; by apply Hret.
Qed.

Lemma process_records_safe ds s :
  held s -> reading ds s -> in_order ds ->
  Forall (fun d => below (gr_position (snd s)) (d_Source d)) ds ->
  site_safe (process_records ctx lag (consumer_router cfg) ds)
    (fun r s' => held s' /\ (r = Ok tt -> reading [] s')) s.
Proof.
  revert s. induction ds as [|d ds IH]; intros s Hm Hr Hord Hpos; cbn [process_records].
  { apply safe_done. intros sh Hg _. split; [by apply held_env|]. intros _. by apply reading_env. }
  assert (forall f a e s', held s' -> site_safe (do! commitPending in throw (Errorf f a [e]))
    (fun r s' => held s' /\ (r = @Ok unit tt -> reading [] s')) s') as Hfail.
  { intros f a e s' Hs'. apply safe_bind. eapply safe_conseq; [|by apply commitPending_safe].
    intros [x|x] s2 _ Hs2; [|by split]. apply safe_done. intros sh Hg _. split; [by apply held_env | done]. }
  apply safe_bind_try. eapply safe_conseq; [|eapply (safe_along _ _ _ _ _ respects); [by intros | by intros | apply record_safe]].
  intros r [sh k] _ [Hg (Ho & Hd & Hok)]. destruct s as [sh0 k0]. cbn [fst snd] in *.
  pose proof (held_step _ _ _ _ Hg Ho Hd Hm) as Hm1. pose proof (reading_step _ _ _ _ _ Hg Ho Hd Hr) as Hr1.
  rewrite <- (so_position _ _ Ho) in Hpos. destruct r as [[]|e]; [|by apply Hfail].
  specialize (Hok eq_refl).
  apply safe_bind_try, safe_group; [apply safe_stable|]. cbn [fst snd]. intros sh1 t Hg1 _. cbn zeta.
  destruct (commit_are (accounted sh1 k) d ds k (snd (gr_commit d t k))) as (Ed & Hm2 & Hr2 & Hp2); try done;
    [eauto | by apply (held_env (sh, k)) | by apply (reading_env _ (sh, k)) | by eapply accounted_respects |].
  pose proof (held_same sh1 k _ Ed Hm2) as Hm3. pose proof (reading_same sh1 k _ _ Ed Hr2) as Hr3.
  split; [by apply marked_committed|]. split.
  - destruct (fst (gr_commit d t k)) as [[]|e]; [|by apply Hfail]. apply IH; [done..|by destruct Hord|done].
  - intros e. split; apply Hfail; [by apply (held_env (sh, k)) | done].
Qed.

Lemma consume_safe polls s :
  held s -> reading [] s -> site_safe (consume ctx lag (consumer_router cfg) polls) anything s.
Proof.
  revert s. induction polls as [|n IH]; intros s Hm Hr; cbn [consume]; [by apply safe_done|].
  apply safe_bind_try, safe_group; [apply safe_stable|]. intros sh t Hg _. cbn zeta.
  pose proof (held_env _ _ Hg Hm) as Hm0. pose proof (reading_env _ _ _ Hg Hr) as Hr0.
  assert (forall e k, held (sh, k) -> site_safe (let! t := now in
    if done_at ctx t then do! commitPending in ret true
    else throw (Errorf "poll %s: %w" [TopicDocumentProcessed] [e])) anything (sh, k)) as Hfail.
  { intros e k Hk. apply safe_bind.
    eapply safe_conseq; [|apply (safe_quiet _ _ now (fun _ s' => held s')); [by intros [[[? ?] ?] ?] | done | | done]].
    - intros [t0|e0] s' _ Hs'; [|done]. destruct (done_at ctx t0); [|by apply safe_done].
      apply safe_bind. eapply safe_conseq; [|by apply commitPending_safe].
      intros [x|x] s2 _ _; [by apply safe_done | done].
    - intros _ s0 sh' Hg'. by apply held_env. }
  destruct (poll_are (accounted sh (snd s)) (snd s) (snd (gr_poll t (snd s))) ltac:(eauto) Hm0) as [Hd Hm'].
  apply (held_same sh) in Hm'; [|done].
  split; [by apply marked_committed|]. split; [|intros e; split; by apply Hfail].
  destruct (fst (gr_poll t (snd s))) as [ds|e] eqn:Hds; [|by apply Hfail].
  destruct (polled_are (accounted sh (snd s)) t (snd s) ds Hr0 Hds) as (Hr' & Hord & Hpos).
  apply (reading_same sh) in Hr'; [|done].
  apply safe_bind. eapply safe_conseq; [|by apply process_records_safe].
  intros [[]|e] s' _ [Hs' Hok]; [|done]. apply IH; [done | by apply Hok].
Qed.

Lemma RunConsumer_safe polls s : site_safe (RunConsumer ctx lag cfg polls) anything s.
Proof.
  unfold RunConsumer. destruct (String.eqb _ ""); [by apply safe_done|].
  apply safe_wait; [by intros [[[? ?] ?] ?] | apply quiet_setupRedis|]. intros up s1.
  destruct (negb up); [by apply safe_done|].
  apply safe_wait; [by intros [[[? ?] ?] ?] | apply quiet_open_postgres|]. intros _ s2.
  apply safe_bind. unfold boot_step. apply safe_bind_try, safe_group; [apply safe_stable|].
  intros sh t Hg Ho. cbn zeta. cbn [fst snd].
  destruct (join_are (accounted sh (snd s2)) (snd s2) (snd (gr_join t (snd s2))) ltac:(eauto) Ho) as [Hd Ho'].
  split; [|split; [|intros e; split; by apply safe_done]].
  - eapply committed_mono; [|exact Ho']. intros r Ha. unfold accounted in *. by rewrite Hd.
  - destruct (fst (gr_join t (snd s2))) as [[]|e]; [|by apply safe_done].
    destruct (joined_are (accounted sh (snd s2)) t (snd s2) Ho) as [Hm Hr].
    apply (held_same sh) in Hm; [|done]. apply (reading_same sh) in Hr; [|done].
    apply safe_done. intros sh' Hg' _. apply consume_safe.
    + by apply (held_env (sh, snd (gr_join t (snd s2)))).
    + by apply (reading_env [] (sh, snd (gr_join t (snd s2)))).
Qed.

End configured.

(** ** The worker *)

#[local] Abbreviation pub_safe := (safe (Sh := shared) (P := K) pub_of with_pub).

Lemma in_db_safe {A} (f : Z -> db -> result A * db) st Q s :
  stable Q -> (forall t d, snd (f t d) = exec st t d \/ snd (f t d) = d) ->
  (forall arg, st <> SCreate arg) -> (forall id, st = SMarkPublished id -> sent (fst s) id) ->
  (forall sh t sh', respects (fst s) sh -> sound t sh -> respects sh sh' ->
     Q (fst (f t (st_db (sy_store sh)))) (sh', snd s) /\ forall e, Q (Err e) (sh', snd s)) ->
  pub_safe (in_db (remote f)) Q s.
Proof.
  intros HQ Hf Hc Hp Hq. zoom_in; apply (safe_shared _ _ (fun d sh => with_db sh d));
    [by intros [[[? ?] ?] ?] | done | done |].
  intros sh t Hg Hi. cbn zeta. set (d' := snd (f t _)).
  assert (sound t (with_db sh d') /\ respects sh (with_db sh d')) as [Hi' Hg'].
  { destruct (Hf t (st_db (sy_store sh))) as [Heq|Heq]; unfold d'; cbn [fst snd pub_of ps_db] in *; rewrite Heq.
    - apply exec_keeps; [done | intros arg ? Hst; by destruct (Hc arg) | ]. intros id Hid. eapply sent_prefix; [apply Hg | by apply Hp].
    - assert (with_db sh (st_db (sy_store sh)) = sh) as -> by (by destruct sh as [[? ?] ?]).
      split; [done | apply respects_refl]. }
  split; [done|]. split; [done|].
  destruct (Hq sh t (with_db sh d') Hg Hi Hg') as [Hok He]. split; [exact Hok|]. intros e. split; [|apply He].
  apply (Hq sh t sh Hg Hi), respects_refl.
Qed.

Lemma publishEvent_safe injected event s :
  origin event -> pub_safe (publishEvent injected event) anything s.
Proof.
  intros Ho. assert (forall e s', pub_safe (throw (A := unit) e) anything s') as Hthrow by (intros; by apply safe_done).
  apply safe_bind_try; zoom_in; apply (safe_shared _ _ (fun k sh => MkStores (sy_store sh) k));
    [by intros [[[? ?] ?] ?] | by intros k [[[? ?] ?] ?] | apply safe_stable |].
  intros sh t Hg Hi. cbn zeta. cbn [fst snd pub_of ps_kafka].
  set (r := event_record injected event). set (k' := snd (kf_publish r t (sy_kafka sh))).
  destruct (publish_keeps t sh injected event k' Hi Ho) as [Hi' Hg']; [by apply publish_log|].
  assert (forall err s', pub_safe (let! t := now in
      do! try (in_db (remote (MarkOutboxEventFailed
            (MkFailedParams (ID event) (Some (t + backoff (AttemptCount event))) (Some (error_text err)))))) in
      throw (A := unit) (Errorf "publish outbox event: %w" [] [err])) anything s') as Hfail.
  { intros err s'. apply safe_wait; [by intros [[[? ?] ?] ?] | done|]. intros t0 s0.
    set (arg := MkFailedParams _ _ _).
    apply safe_bind_try, (in_db_safe _ (SMarkFailed arg)); [apply safe_stable | by left | done | done |].
    intros. split; [|intros e]; apply Hthrow. }
  split; [done|]. split; [done|]. split; [|intros e; split; apply Hfail].
  destruct (fst (kf_publish r t (sy_kafka sh))) as [[]|err] eqn:Hack; [|apply Hfail].
  apply publish_acked in Hack. fold k' in Hack.
  apply safe_bind_try, (in_db_safe _ (SMarkPublished (ID event))); [apply safe_stable | by left | done | |].
  - intros id [= <-]. exists injected, event. split; [done|]. split; [done|]. cbn [fst sy_kafka]. rewrite Hack.
    apply elem_of_app. right. by left.
  - intros. split; [by apply safe_done | intros e; apply Hthrow].
Qed.

Lemma publish_all_safe injected es s :
  Forall origin es -> pub_safe (publish_all injected es) anything s.
Proof.
  intros Hes. revert s. induction Hes as [|e es He Hes IH]; intros s; cbn [publish_all]; [by apply safe_done|].
  apply safe_bind_try. eapply safe_conseq; [|by apply publishEvent_safe]. intros r s' _ _. apply IH.
Qed.

Lemma fixed_origin e e' : fixed_part e = fixed_part e' -> origin e' -> origin e.
Proof.
  intros Hf (v & cfg & env & tr & e0 & Hcf & Hv & Hr & Hf0). exists v, cfg, env, tr, e0.
  assert (ID e = ID e') as -> by (unfold fixed_part in Hf; congruence). split_and!; [done..|congruence].
Qed.

Lemma PublishPending_keeps injected workerID batchSize s :
  pub_safe (PublishPending injected workerID batchSize) anything s.
Proof.
  set (l := claim_limit batchSize). set (by_ := Some workerID).
  apply safe_bind_try, (in_db_safe _ (SClaim l by_)); [apply safe_stable | by left | done | done |].
  intros sh t sh' _ Hi _. split; [|intros e; by apply safe_done].
  destruct (ClaimPendingOutboxEvents l by_ t (st_db (sy_store sh))) as [[es|e] d'] eqn:Hc; unfold l, by_ in Hc; rewrite Hc; [|by apply safe_done].
  apply publish_all_safe, Forall_forall. intros e' He'. apply list_elem_of_In in He'.
  destruct (claim_inv _ _ _ _ _ _ Hc) as (_ & Hperm & _ & _). rewrite Hperm in He'.
  apply list_elem_of_fmap in He' as (e & -> & He). apply pending_candidates, elem_of_candidates in He as ([id Hid] & _ & _).
  eapply fixed_origin; [|by apply (so_origin _ _ _ _ Hi id e)]. by destruct e.
Qed.

Lemma quiet_sleep {S} t : quiet (@sleep_until S t).
Proof. split; [|done]. intros w. cbn. split; [done | lia]. Qed.

Lemma publish_loop_safe injected ctx picks_tick workerID ticks round due s :
  pub_safe (publish_loop injected ctx picks_tick workerID ticks round due) anything s.
Proof.
  revert round due s. induction ticks as [|n IH]; intros round due s; cbn [publish_loop]; [by apply safe_done|].
  apply safe_wait; [by intros [[[? ?] ?] ?] | done|]. intros t s1. cbn zeta. destruct (negb _).
  - apply safe_wait; [by intros [[[? ?] ?] ?] | apply quiet_sleep|]. intros _ s2. by apply safe_done.
  - apply safe_wait; [by intros [[[? ?] ?] ?] | apply quiet_sleep|]. intros _ s2.
    apply safe_bind_try. eapply safe_conseq; [|apply PublishPending_keeps]. intros r s3 _ _. apply IH.
Qed.

Lemma RunWorker_keeps injected ctx picks_tick (cfg : Config P) ticks s :
  pub_safe (RunWorker injected ctx picks_tick cfg ticks) anything s.
Proof.
  unfold RunWorker. apply safe_wait; [by intros [[[? ?] ?] ?] | apply quiet_open_postgres|]. intros _ s1.
  apply safe_wait; [by intros [[[? ?] ?] ?] | apply quiet_boot_step, quiet_dial|]. intros _ s2.
  apply safe_wait; [by intros [[[? ?] ?] ?] | done|]. intros t s3. apply publish_loop_safe.
Qed.

(** ** The limiter and the maintenance *)

#[local] Abbreviation cache_safe :=
  (safe (Sh := shared) (P := K) cache_of (fun r s => (with_cache (fst s) r, snd s))).

(** The counters of the limiter are not dedupe marks. *)
Lemma counter_call_safe {A} name ws (f : Z -> R -> result A * R) s :
  (forall t r t' k', t <= t' -> k' <> rate_key name ws -> rd_get t' k' (snd (f t r)) = rd_get t' k' r) ->
  cache_safe (remote f) anything s.
Proof.
  intros Hf. apply (safe_shared _ _ (fun r sh => with_cache sh r)); [by intros [[[? ?] ?] ?] | done | done |].
  intros sh t _ Hi. destruct (cache_keeps t sh (snd (f t (redis sh))) Hi) as [Hi' Hg']; [|by split_and!].
  intros k t' Ht Hk. left. rewrite (Hf t) in Hk; done.
Qed.

Lemma Allow_safe caller limit s : cache_safe (Allow true caller limit) anything s.
Proof.
  unfold Allow. cbn [negb]. apply safe_wait; [by intros [[[? ?] ?] ?] | done|]. intros t s1.
  apply safe_bind_try. eapply safe_conseq; [|eapply counter_call_safe].
  2: { intros t0 r t' k'. apply incr_other. }
  intros [n|e] s2 _ _; [|by apply safe_done].
  assert (forall s', cache_safe (if Requests (RateLimit limit) <? n then
      let! t' := now in
      ret (int64 (Window (RateLimit limit) - int64 (t' - int64 (window_start (Window (RateLimit limit)) t *
        Window (RateLimit limit)))), false) else ret (0, true)) anything s') as Hend.
  { intros s'. destruct (_ <? n); [|by apply safe_done].
    apply safe_wait; [by intros [[[? ?] ?] ?] | done|]. intros t' s3. by apply safe_done. }
  apply safe_bind. destruct (n =? 1); [|by apply safe_done; intros; apply Hend].
  apply safe_bind_try. eapply safe_conseq; [|eapply counter_call_safe].
  2: { intros t0 r t' k' Ht Hk. destruct (rd_expire _ _ _ _) as [b r'] eqn:He. cbn [snd].
       pose proof (expire_other t0 _ (int64 (2 * Window (RateLimit limit))) r t' k' Ht Hk) as Ho.
       rewrite He in Ho. exact Ho. }
  intros r s3 _ _. apply safe_done. intros sh _ _. apply Hend.
Qed.

Lemma operator_step_safe st s :
  maintenance st ->
  safe (Sh := shared) (P := K) db_of (fun d s => (with_db (fst s) d, snd s))
    (remote (fun t d => (Ok tt, exec st t d))) anything s.
Proof.
  intros Hst. apply (safe_shared _ _ (fun d sh => with_db sh d)); [by intros [[[? ?] ?] ?] | done | done |].
  intros sh t _ Hi. destruct (exec_keeps st t sh Hi) as [Hi' Hg']; [by intros ? ? -> | by intros ? -> | by split_and!].
Qed.

(** ** The system *)

#[local] Abbreviation binary := (binary (K := K) (R := R) (L := L) (P := P) configured).

(** A process runs its binary, keeping the protocol. *)
Lemma binary_keeps i m s : binary m -> keeps (Sh0 := shared) i m s.
Proof.
  destruct 1 as [ctx lag cfg polls Hcf|injected ctx picks cfg ticks|requests|sts Hsts].
  - apply safe_bind; zoom_in. eapply safe_conseq; [|by apply RunConsumer_safe].
    intros [a|e] s' _ _; [by apply safe_done | done].
  - apply safe_bind; zoom_in. eapply safe_conseq; [|apply RunWorker_keeps].
    intros [a|e] s' _ _; [by apply safe_done | done].
  - revert s. induction requests as [|[caller limit] l IH]; intros s; cbn [limiter_process]; [by apply safe_done|].
    apply safe_bind; zoom_in. eapply safe_conseq; [|apply Allow_safe]. intros [a|e] s' _ _; [apply IH | done].
  - revert s. induction Hsts as [|st sts Hst _ IH]; intros s; cbn [operator_process]; [by apply safe_done|].
    apply safe_bind; zoom_in. eapply safe_conseq; [|by apply operator_step_safe].
    intros [a|e] s' _ _; [apply IH | done].
Qed.

(** The processes as they are deployed: binaries about to start, with stores
    and groups that keep the protocol. *)
Definition deployed (c : system shared K) : Prop :=
  sound (c_clock c) (c_shared c) /\
  forall i k m, c_procs c !! i = Some (k, m) -> accounts (c_shared c) k /\ binary m.

Lemma deployed_good c : deployed c -> good (c_shared c) c.
Proof.
  intros [Hi Hps]. split; [done|]. split; [done|]. intros i k m Hm. destruct (Hps i k m Hm).
  split; [done | by apply binary_keeps].
Qed.

Lemma good_runs c c' :
  good (c_shared c) c -> rtc (step binary (fun _ => True)) c c' ->
  good (c_shared c') c' /\ respects (c_shared c) (c_shared c').
Proof.
  intros Hc Hs. destruct (system_sound binary binary_keeps _ c c' respects (fun _ _ _ Hg => Hg) Hs Hc)
    as (sh & Hc' & Hg). by destruct (proj1 Hc').
Qed.

Lemma deployed_runs c c' :
  deployed c -> rtc (step binary (fun _ => True)) c c' ->
  sound (c_clock c') (c_shared c') /\ respects (c_shared c) (c_shared c') /\
  forall i k m, c_procs c' !! i = Some (k, m) -> accounts (c_shared c') k.
Proof.
  intros Hc Hs. destruct (good_runs c c' (deployed_good c Hc) Hs) as [(_ & Hi & Hps) Hg].
  split_and!; [done..|]. intros i k m Hm. by destruct (Hps i k m Hm).
Qed.

(** C1: nothing is lost in the pipeline: whatever binaries run at the same time
    on the stores, however their steps interleave, whichever calls fail, and
    however often processes die anywhere and start again, every record below an
    offset that a consumer's group committed is in its dead-letter topic, or its
    routed row is in the outbox, or the cluster holds a record made of a row
    with that id; and once every row is published, it is the record. *)
Theorem pipeline_loses_nothing c c' i k m r :
  deployed c -> rtc (step binary (fun _ => True)) c c' ->
  c_procs c' !! i = Some (k, m) -> r ∈ gr_records k -> below (gr_committed k) r ->
  (exists meta, (r, meta) ∈ gr_dlq k) \/
  exists env sid, Parse (r_Value (s_Record r)) = Ok env /\ uuid_Parse (EventID env) = Some sid /\
    ((exists e, rows (c_shared c') !! routed_id sid = Some e /\ PublishedAt e = None) \/
     exists injected e, ID e = routed_id sid /\ event_record injected e ∈ log (c_shared c')).
Proof.
  intros Hc Hs Hp Hin Hb. destruct (deployed_runs c c' Hc Hs) as (Hi & _ & Ha).
  destruct (Ha i k m Hp r Hin Hb) as [(env & sid & Hv & Hid & Hk)|Hd]; [right | by left].
  exists env, sid. split; [done|]. split; [done|].
  assert (sent (c_shared c') (routed_id sid) -> exists injected e, ID e = routed_id sid /\
    event_record injected e ∈ log (c_shared c')) as Hsent by (intros (inj & e & ? & _ & ?); eauto).
  destruct Hk as [[e He]|Hk]; [|by right; apply Hsent].
  destruct (PublishedAt e) as [t|] eqn:Hpub; [right | left; eauto].
  apply Hsent, (so_published _ _ _ _ Hi _ e); [done | by rewrite Hpub].
Qed.

(** C15: a row of the outbox gets out of the table to Kafka only: once it was
    there, it still is, with its publication recorded only if the cluster holds
    a record of that id, or the cluster holds one; the retention DELETE, run by
    anyone at any moment, drops no event that was not sent. *)
Theorem pipeline_keeps_rows c c1 c2 id e :
  deployed c -> rtc (step binary (fun _ => True)) c c1 -> rtc (step binary (fun _ => True)) c1 c2 ->
  rows (c_shared c1) !! id = Some e ->
  (exists e', rows (c_shared c2) !! id = Some e' /\ PublishedAt e' = None) \/
  exists injected e', ID e' = id /\ event_record injected e' ∈ log (c_shared c2).
Proof.
  intros Hc Hs1 Hs2 He. destruct (good_runs c c1 (deployed_good c Hc) Hs1) as [Hc1 _].
  destruct (good_runs c1 c2 Hc1 Hs2) as [(_ & Hi2 & _) Hg].
  destruct (re_rows _ _ _ Hg id) as [[e' He']|(inj & e' & ? & _ & ?)]; [eauto | | right; eauto].
  destruct (PublishedAt e') as [t|] eqn:Hpub; [right | left; eauto].
  destruct (so_published _ _ _ _ Hi2 id e' He') as (inj & e2 & ? & _ & ?); [by rewrite Hpub | eauto].
Qed.

(** C16: nothing is made up: every record the binaries put on the cluster is the
    record of the routed envelope of a record of the document.processed contract,
    of a caller that the configuration of one of the consumers registers, on that
    caller's topic as that configuration renders it, under the id derived from
    the source event's, with the payload PostgreSQL makes of the encoding of the
    routed envelope. *)
Theorem pipeline_invents_nothing c c' x :
  deployed c -> rtc (step binary (fun _ => True)) c c' -> x ∈ log (c_shared c') -> x ∉ log0 ->
  exists value env (cfg : Config P) sid payload stored injected e,
    configured cfg /\ Parse value = Ok env /\
    KnownCaller (NewCallerRegistry (Callers (Gateway cfg))) (CallerID env) = true /\
    uuid_Parse (EventID env) = Some sid /\ ID e = routed_id sid /\
    Marshal (routed_envelope env (routed_id sid)) = Ok payload /\ pg_jsonb payload = Some stored /\
    x = event_record injected e /\ r_Value x = stored /\
    r_Topic x = RoutedTopic (Config.RoutedTopicTemplate (Gateway cfg)) (CallerID env).
Proof.
  intros Hc Hs Hx Hnew. destruct (deployed_runs c c' Hc Hs) as (Hi & _ & _).
  destruct (so_log _ _ _ _ Hi x Hx) as [|(inj & e & (v & cfg & env & tr & e0 & Hcf & Hv & Hr & Hf) & ->)]; [done|].
  destruct Hr as (docID & sid & payload & stored & t & Href & _ & Hsid & Hid & Hm & Hj & ->).
  rewrite Hid in Hm. exists v, env, cfg, sid, payload, stored, inj, e.
  assert (Payload e = stored /\ Topic e = RoutedTopic (Config.RoutedTopicTemplate (Gateway cfg)) (CallerID env))
    as [Hpl Ht] by (unfold fixed_part in Hf; injection Hf; intros; by split).
  split_and!; try done. unfold refusal in Href. by destruct (negb (Router.KnownCaller _ _)) eqn:Hkn; [|apply negb_false_iff].
Qed.
End pipeline.

(** ** A concrete system *)

#[local] Existing Instance demo_uuid.
#[local] Existing Instance demo_pg.
#[local] Existing Instance demo_fmt_other.
#[local] Instance demo_settings : PostgresSettings unit := fun _ => false.
#[local] Instance demo_service : ServiceSettings unit := fun _ => "1".
#[local] Instance demo_texts : ErrorText := fun _ => "error".
#[local] Instance demo_group : GroupLib cluster := cluster_group false.
#[local] Instance demo_group_laws : GroupLaws cluster := cluster_laws.

Definition demo_stores : stores keyspace (list KRecord) := MkStores (MkStore ∅ (MkDb ∅ ∅)) [].

Definition demo_requests : list (Caller * CallerConfig) :=
  [(MkRegistered "expense" ∅, MkCaller "expense" "" (MkRateLimit 1 1) ∅)].

(** A consumer of the source topic, a worker, and the limiter. *)
Definition demo_system : system (stores keyspace (list KRecord)) cluster :=
  System 1000 demo_stores
    [(demo_cluster, consumer_process None (fun _ => 0%N) demo_consumer_config 1);
     (MkCluster [] 0 0 0 [], worker_process (fun _ => []) None (fun _ => true) demo_consumer_config 3);
     (MkCluster [] 0 0 0 [], limiter_process demo_requests)].

(** The worker polls between the consumer's steps, and publishes the row before
    the consumer has marked it in Redis. *)
Definition demo_schedule : list (nat * Z * tick) :=
  let c := (0%nat, 1, Tick 1 NoFault) in
  let w := (1%nat, 1, Tick 1 NoFault) in
  let g := (2%nat, 1, Tick 1 NoFault) in
  [c; c; w; c; g; c; w; c; c; w; c; w; w; g; w; w; w; w; w; w; c; c; c; c; c; c; c].

Definition demo_at (n : nat) := scheduled (take n demo_schedule) demo_system.

Definition demo_mid := demo_at 11%nat.
Definition demo_end := scheduled (drop 11 demo_schedule) demo_mid.

(** After sixteen steps the record is on Kafka, uncommitted and not marked in
    Redis, which only holds the limiter's counter; at the end the group is past
    both records of the topic, one of them poison. *)
Example demo_interleaving :
  let kafka n := length (kf_log (sy_kafka (c_shared n))) in
  let marks n := size (st_redis (sy_store (c_shared n))) in
  let offsets n := map (fun p => cl_committed (fst p)) (c_procs n) in
  (kafka (demo_at 16%nat), marks (demo_at 16%nat), offsets (demo_at 16%nat)) = (1%nat, 1%nat, [0; 0; 0]) /\
  (kafka demo_end, marks demo_end, offsets demo_end) = (1%nat, 2%nat, [2; 0; 0]).
Proof. vm_compute. split; reflexivity. Qed.

(** The consumers run with the one configuration. *)
Definition demo_configured (cfg : Config unit) : Prop := cfg = demo_consumer_config.

Lemma demo_deployed configured : configured demo_consumer_config -> deployed (P := unit) configured [] demo_system.
Proof.
  intros Hcf. split.
  - split; cbn.
    + intros id e He. change ((∅ : gmap UUID OutboxEvent) !! id = Some e) in He. by rewrite lookup_empty in He.
    + intros k t' _ Hk. unfold ks_get in Hk. change (st_redis (sy_store demo_stores)) with (∅ : keyspace) in Hk.
      by rewrite lookup_empty in Hk.
    + intros id e He. change ((∅ : gmap UUID OutboxEvent) !! id = Some e) in He. by rewrite lookup_empty in He.
    + intros id e He. change ((∅ : gmap UUID OutboxEvent) !! id = Some e) in He. by rewrite lookup_empty in He.
    + by intros r ?%elem_of_nil.
    + intros id e l He. change ((∅ : gmap UUID OutboxEvent) !! id = Some e) in He. by rewrite lookup_empty in He.
  - assert (forall k, cl_committed k = 0 -> accounts (P := unit) configured demo_stores k) as Hk.
    { intros k Hz r Hr Hb. destruct (numbered_In _ _ 0 Hr) as [Ho Hown].
      unfold below in Hb. cbn [gr_committed demo_group cluster_group] in Hb.
      rewrite cl_own_offset, Hz in Hb by done. lia. }
    intros [|[|[|i]]] k m; [intros [= <- <-]; split; [by apply Hk|]..|done].
    + by apply consumer_binary.
    + apply worker_binary.
    + exact (limiter_binary configured demo_requests).
Qed.

Abbreviation demo_binary := (binary (P := unit) demo_configured) (only parsing).

Lemma demo_first : rtc (step demo_binary (fun _ => True)) demo_system demo_mid.
Proof. apply (scheduled_steps demo_binary). by apply Forall_true. Qed.

Lemma demo_last : rtc (step demo_binary (fun _ => True)) demo_mid demo_end.
Proof. apply (scheduled_steps demo_binary). by apply Forall_true. Qed.

Lemma pipeline_loses_nothing_witness :
  exists k m, c_procs demo_end !! 0%nat = Some (k, m) /\
    exists r, r ∈ gr_records k /\ below (gr_committed k) r /\
    ((exists meta, (r, meta) ∈ gr_dlq k) \/
     exists env sid, Parse (r_Value (s_Record r)) = Ok env /\ uuid_Parse (EventID env) = Some sid /\
    ((exists e, db_rows (st_db (sy_store (c_shared demo_end))) !! routed_id sid = Some e /\ PublishedAt e = None) \/
        exists injected e, ID e = routed_id sid /\
    event_record injected e ∈ kf_log (sy_kafka (c_shared demo_end)))).
Proof.
  destruct (c_procs demo_end !! 0%nat) as [[k m]|] eqn:Hp; [|vm_compute in Hp; discriminate].
  exists k, m. split; [reflexivity|].
  set (r := MkSource (on_topic (MkRecord "" "" demo_value [])) 0 0). exists r.
  assert (k = fst (default (MkCluster [] 0 0 0 [], ret tt) (c_procs demo_end !! 0%nat))) as Hk by (by rewrite Hp).
  assert (cl_sources k = cl_sources demo_cluster) as Hrec by (rewrite Hk; vm_compute; reflexivity).
  assert (r ∈ gr_records k) as Hin by (cbn; rewrite Hrec; left).
  assert (below (gr_committed k) r) as Hb by (rewrite Hk; vm_compute; reflexivity).
  split; [exact Hin|]. split; [exact Hb|].
  exact (pipeline_loses_nothing demo_configured [] demo_system demo_end 0 k m r (demo_deployed demo_configured eq_refl)
           (rtc_trans _ _ _ demo_first demo_last) Hp Hin Hb).
Defined.

Lemma pipeline_keeps_rows_witness :
  (exists e', db_rows (st_db (sy_store (c_shared demo_end))) !! routed_id demo_sid = Some e' /\ PublishedAt e' = None) \/
  exists injected e', ID e' = routed_id demo_sid /\ event_record injected e' ∈ kf_log (sy_kafka (c_shared demo_end)).
Proof.
  destruct (db_rows (st_db (sy_store (c_shared demo_mid))) !! routed_id demo_sid) as [e|] eqn:He;
    [|vm_compute in He; discriminate].
  exact (pipeline_keeps_rows demo_configured [] demo_system demo_mid demo_end _ e
            (demo_deployed demo_configured eq_refl) demo_first demo_last He).
Defined.

(** What is published is of the one caller registered. *)
Lemma pipeline_invents_nothing_witness :
  exists x, x ∈ kf_log (sy_kafka (c_shared demo_end)) /\ exists value env,
    Parse value = Ok env /\ map Name (Callers (Gateway demo_consumer_config)) = [CallerID env] /\
    r_Topic x = RoutedTopic (Config.RoutedTopicTemplate (Gateway demo_consumer_config)) (CallerID env).
Proof.
  destruct (kf_log (sy_kafka (c_shared demo_end))) as [|x l] eqn:Hl; [vm_compute in Hl; discriminate|].
  exists x. split; [left|].
  destruct (pipeline_invents_nothing demo_configured [] demo_system demo_end x (demo_deployed demo_configured eq_refl)
    (rtc_trans _ _ _ demo_first demo_last))
    as (value & env & cfg & sid & payload & stored & inj & e & Hcfg & Hv & Hknown & _ & _ & _ & _ & _ & _ & Ht).
  - rewrite Hl. left.
  - apply not_elem_of_nil.
  - unfold demo_configured in Hcfg. subst cfg. exists value, env. split; [exact Hv|]. split; [|exact Ht].
    assert (map_to_list (byKeyHash (NewCallerRegistry (Callers (Gateway demo_consumer_config)))) =
      [("", MkRegistered "expense" ∅)]) as Hreg by (vm_compute; reflexivity).
    clear -Hknown Hreg. unfold KnownCaller in Hknown. rewrite Hreg in Hknown.
    apply orb_true_iff in Hknown as [Heq%String.eqb_eq|]; [|discriminate]. exact (f_equal (fun n => [n]) Heq).
Defined.
