(* ===== verification/EndToEnd.v ===== *)
(** * From the source topic to the callers' topics

    The consumer and the worker composed, where nothing fails: what one poll of
    the consumer reads is dead-lettered if it is poison, and is otherwise on
    Kafka once the worker has drained the outbox. *)
From S2P Require Import Prelude Utf8 Json GoTime Uuid Repository RepositoryFacts Redis Kafka Constant Envelope EnvelopeFacts Router RouterFacts Outbox OutboxFacts Config ConfigFacts Auth App AppFacts Concurrent Consumer ConsumerFacts ConsumerProgress Worker WorkerFacts WorkerProgress Pipeline.

(** ** What the consumer adds to the table *)

Section adds.
Context {K R : Type} `{GroupLaws K, RedisLaws R, UuidLib, PgLib, FmtOther}.
Variables (ctx : option Z) (lag : Delivery -> N) (s : routerService).

#[local] Abbreviation table w := (st_db (si_store (w_data w))).
#[local] Abbreviation handle := (handleProcessedRecord (K := K) (R := R) ctx lag s).

(** [e] is the row the router makes of [d]. *)
Definition routes (d : Delivery) (id : UUID) (e : OutboxEvent) : Prop :=
  exists env, Parse (r_Value (s_Record (d_Source d))) = Ok env /\
    routed_from s env (recordHeader d HeaderTraceID) id e.

(** Rows stay as they are, and new ones are those of [ds]. *)
Record adds (ds : list Delivery) (w w' : world (site K R)) : Prop := {
  ad_later : later w w';
  ad_kept id e : db_rows (table w) !! id = Some e -> db_rows (table w') !! id = Some e;
  ad_new id e : db_rows (table w') !! id = Some e ->
    db_rows (table w) !! id = Some e \/ exists d, d ∈ ds /\ routes d id e;
  ad_busy : db_busy (table w') = db_busy (table w);
}.

#[export] Instance adds_preorder ds : PreOrder (adds ds).
Proof.
  split; [intros w; split; auto; reflexivity|].
  intros w1 w2 w3 [L1 K1 N1 B1] [L2 K2 N2 B2]. split; [by etransitivity | auto | | congruence].
  intros id e [He|]%N2; [by apply N1 | by right].
Qed.

Lemma adds_idle ds w w' : si_store (w_data w') = si_store (w_data w) -> later w w' -> adds ds w w'.
Proof. intros Hs Hl. split; rewrite ?Hs; auto. Qed.

Lemma adds_group {A} ds (f : Z -> K -> result A * K) : within (adds ds) (@in_group K R _ (remote f)).
Proof. intros w. destruct (on_group f w) as (Hs & Hl & _). by apply adds_idle. Qed.

Lemma routing_adds ds d env w :
  d ∈ ds -> Parse (r_Value (s_Record (d_Source d))) = Ok env ->
  adds ds w (snd (@in_store K R _ (Handle s env (recordHeader d HeaderTraceID)) w)).
Proof.
  intros Hd Henv. unfold in_store. rewrite (run_zoom si_store _). cbn [snd].
  pose proof (Handle_outcome s env (recordHeader d HeaderTraceID) (part si_store w)) as Ho.
  destruct (outcome_rows _ _ _ _ _ _ Ho) as [Hkeep Hnew].
  destruct (run (Handle _ _ _) (part si_store w)) as [r w1]. cbn [fst snd] in *.
  assert (later (part si_store w) w1) as Hl by (by destruct Ho).
  split; cbn [w_data whole si_store w_clock]; [exact Hl | exact Hkeep | |].
  - intros id e He. destruct (Hnew id e He) as [|Hfrom]; [by left | right]. exists d. split; [done|]. by exists env.
  - destruct Ho as [| e w1 _ _ -> | t w1 _ _ _ _ _ -> | docID sid payload r t n d' w1 _ _ _ _ _ _ Hcr Hdb _]; [done..|].
    rewrite Hdb. change d' with (snd (Ok n, d')). rewrite <- Hcr.
    exact (exec_busy (SCreate (routed_row s env (recordHeader d HeaderTraceID) docID sid payload)) t _).
Qed.

Lemma handle_adds ds d : d ∈ ds -> within (adds ds) (handle d).
Proof.
  intros Hd w. destruct (handle_cases ctx lag s d w) as [_|env e p Hp routing _ _|env res Hp _ routing _ _].
  - apply adds_group.
  - etransitivity; [by apply routing_adds | apply adds_group].
  - by apply routing_adds.
Qed.

Lemma process_adds ds ds' : (forall d, d ∈ ds' -> d ∈ ds) -> within (adds ds) (process_records ctx lag s ds').
Proof.
  assert (forall A (m : M (site K R) unit) (e : error), within (adds ds) m -> within (adds ds) (do! m in @throw _ A e)) as Hfail.
  { intros A m e Hm. apply within_bind; [apply _ | done | intros _; apply within_throw, _]. }
  assert (within (adds ds) (@commitPending K R _)) as Hflush.
  { apply within_bind; [apply _ | apply within_try, adds_group | intros _; apply within_ret, _]. }
  induction ds' as [|d ds' IH]; intros Hds; cbn [process_records]; [apply within_ret, _|].
  apply within_bind; [apply _ | by apply within_try, handle_adds, Hds; left | intros [[]|e]; [|by apply Hfail]].
  apply within_bind; [apply _ | apply within_try, adds_group | intros [[]|e]; [|by apply Hfail]].
  apply IH. intros d' Hd'. apply Hds. by right.
Qed.

(** ** The table it leaves to the worker *)

Lemma routes_row d id e :
  routes d id e -> ID e = id /\ row_wf e /\ forall t, claimable t e = true.
Proof.
  intros (env & _ & docID & sid & payload & stored & t & _ & _ & _ & _ & _ & _ & ->). split; [done|].
  split; [split; cbn; [done | unfold max_int32; lia] | done].
Qed.

Lemma adds_wf ds w w' : adds ds w w' -> table_wf (table w) -> table_wf (table w').
Proof. intros [_ _ Hnew _] Hwf id e [He|(d & _ & Hr)]%Hnew; [by apply Hwf | by apply routes_row in Hr as (? & ? & _)]. Qed.

Lemma adds_ready ds w w' :
  adds ds w w' -> db_busy (table w) = ∅ -> ready (w_clock w) (table w) -> ready (w_clock w') (table w').
Proof.
  intros [Hl _ Hnew Hb] Hbusy Hr id e [He Hn]%backlog_lookup. rewrite Hb, Hbusy. split; [|by apply not_elem_of_empty].
  apply Hnew in He as [He|(d & _ & Hd)]; [|by apply routes_row in Hd as (_ & _ & ?)].
  destruct (Hr id e) as [Hc _]; [by apply backlog_lookup|]. by eapply claimable_later.
Qed.

(** The id of the row the router makes of [d]. *)
Definition routed_row_id (d : Delivery) : UUID :=
  match Parse (r_Value (s_Record (d_Source d))) with
  | Ok env => routed_id (default "" (uuid_Parse (EventID env)))
  | Err _ => ""
  end.

Lemma adds_backlog ds w w' :
  adds ds w w' -> (size (backlog (table w')) <= size (backlog (table w)) + length ds)%nat.
Proof.
  intros [_ _ Hnew _].
  apply (size_le_list (map fst (map_to_list (backlog (table w))) ++ map routed_row_id ds)).
  - intros id [e [He Hn]%backlog_lookup]. apply elem_of_app.
    apply Hnew in He as [He|(d & Hd & env & Henv & docID & sid & payload & stored & t & _ & _ & Hsid & -> & _)].
    + left. apply list_elem_of_fmap. exists (id, e). split; [done|]. by apply elem_of_map_to_list, backlog_lookup.
    + right. apply list_elem_of_fmap. exists d. split; [|done]. unfold routed_row_id. by rewrite Henv, Hsid.
  - by rewrite length_app, !length_map, length_map_to_list.
Qed.
End adds.

(** ** One life of the consumer *)

Section consumer.
Context {K R P : Type} `{GroupLaws K, RedisLaws R, UuidLaws, PgLib, FmtOther, PostgresSettings P}.
Variables (ctx : option Z) (lag : Delivery -> N) (cfg : Config P).

#[local] Abbreviation healthy w := (Forall (fault_ok (fun _ => False)) (w_sched w)).
#[local] Abbreviation group w := (si_group (w_data w)).
#[local] Abbreviation svc := (consumer_router cfg).

(** What the first poll of a member that joins [k] can answer. *)
Definition polled (k : K) (ds : list Delivery) : Prop :=
  exists t t', fst (gr_poll t' (snd (gr_join t k))) = Ok ds.

(** The group lets members in and answers their polls, its records can be
    handled to the end, and the process is not stopped while they are. *)
Record answers (k : K) : Prop := {
  an_join t : fst (gr_join t k) = Ok tt;
  an_poll t t' : exists ds, fst (gr_poll t' (snd (gr_join t k))) = Ok ds;
  an_records ds d : polled k ds -> d ∈ ds ->
    acknowledged (K := K) d /\ handleable svc d /\ forall t, done_at (processCtx ctx lag d) t = false;
}.

Lemma healthy_group {A} (f : Z -> K -> result A * K) w :
  healthy w -> (forall t, is_ok (fst (f t (group w))) = true) ->
  let run := @in_group K R _ (remote f) w in
  healthy (snd run) /\ exists a t, fst run = Ok a /\ fst (f t (group w)) = Ok a /\ group (snd run) = snd (f t (group w)).
Proof.
  intros Hw Hf. cbn zeta. split; [by apply healthy_call|].
  destruct (on_group f w) as (_ & _ & t & _ & Hok).
  destruct (fst (in_group (remote f) w)) as [a|e] eqn:Hr; [by exists a, t; destruct (Hok a eq_refl)|].
  exfalso. unfold in_group in Hr. rewrite (run_zoom si_group _), run_remote in Hr. cbn [fst] in Hr.
  unfold call, part in Hr. cbn [w_sched w_clock w_data] in Hr. destruct (w_sched w) as [|[n flt] sch]; cbn in Hr.
  - specialize (Hf (w_clock w + 0)). destruct (f _ _) as [[]]; done.
  - apply list.Forall_cons in Hw as [Hx _]. destruct flt; [|done..].
    specialize (Hf (w_clock w + Z.of_N n)). cbn in Hr. destruct (f _ _) as [[]]; done.
Qed.

(** A life in which nothing fails boots, polls once, and has what it read to
    work on. *)
Lemma RunConsumer_polls w :
  Group (Consumer (Kafka cfg)) <> "" -> healthy w -> answers (group w) ->
  exists ds w1, polled (group w) ds /\ in_order ds /\ healthy w1 /\ later w w1 /\
    si_store (w_data w1) = si_store (w_data w) /\ (forall d, d ∈ ds -> d_Source d ∈ gr_records (group w1)) /\
    RunConsumer (K := K) (R := R) ctx lag cfg 1 w = run (do! process_records ctx lag svc ds in ret false) w1.
Proof.
  intros Hgroup Hw [Hjoin Hpoll _]. unfold RunConsumer.
  rewrite (proj2 (String.eqb_neq _ _) Hgroup), run_bind.
  destruct (setupRedis_ok cfg w Hw) as [Hr1 Hw1]. destruct (idle_setupRedis cfg w) as [Hd1 Hl1].
  destruct (run (setupRedis cfg) w) as [[up|e] w1]; cbn [fst snd] in *; [injection Hr1 as -> | done].
  cbn [negb]. rewrite run_bind. destruct (open_postgres_ok cfg w1 Hw1) as [Hw2 Herr2].
  destruct (idle_open_postgres cfg w1) as [Hd2 Hl2].
  destruct (run (open_postgres cfg) w1) as [[[]|e] w2]; cbn [fst snd] in *; [|by destruct (Herr2 e eq_refl)].
  assert (w_data w2 = w_data w) as Hd12 by congruence.
  rewrite run_bind. unfold boot_step. rewrite bind_try.
  destruct (healthy_group (fun t k => gr_join t k) w2 Hw2) as (Hw3 & [] & t & Hr3 & _ & Hg3).
  { intros t. by rewrite Hd12, Hjoin. }
  destruct (on_group (fun t k => gr_join t k) w2) as (Hs3 & Hl3 & _).
  destruct (run (in_group _) w2) as [res w3]; cbn [fst snd] in *. subst res. rewrite Hd12 in Hs3, Hg3. cbn [ret run].
  destruct (healthy_group (fun t k => gr_poll t k) w3 Hw3) as (Hw4 & ds & t' & Hr4 & Hds & Hg4).
  { intros t'. rewrite Hg3. by destruct (Hpoll t t') as [ds ->]. }
  destruct (on_group (fun t k => gr_poll t k) w3) as (Hs4 & Hl4 & _).
  cbn [consume]. rewrite bind_try. destruct (run (in_group _) w3) as [res w4]; cbn [fst snd] in *. subst res.
  exists ds, w4. split_and!; [exists t, t'; by rewrite <- Hg3 | by eapply poll_ordered | done | | congruence | | done].
  - by do 3 (etransitivity; [eassumption|]).
  - intros d Hd. rewrite Hg4. by apply (poll_real t' _ ds).
Qed.

(** Whatever the stores hold, it goes past all it read, leaving rows of it. *)
Lemma RunConsumer_commits w :
  Group (Consumer (Kafka cfg)) <> "" -> healthy w -> answers (group w) ->
  let run := RunConsumer (K := K) (R := R) ctx lag cfg 1 w in
  fst run = Ok false /\ healthy (snd run) /\
  exists ds, polled (group w) ds /\ adds svc ds w (snd run) /\
    forall d, d ∈ ds -> d_Source d ∈ gr_records (group (snd run)) /\
      below (gr_committed (group (snd run))) (d_Source d).
Proof.
  intros Hgroup Hw Hans. cbn zeta.
  destruct (RunConsumer_polls w Hgroup Hw Hans) as (ds & w1 & Hpolled & Hord & Hw1 & Hl & Hs & Hreal & ->).
  destruct (process_commits ctx lag svc eq_refl ds w1 (fun d => an_records _ Hans ds d Hpolled) Hw1 Hord)
    as (Hrun & Hw2 & Hrec & _ & Hall).
  pose proof (process_adds ctx lag svc ds ds (fun d Hin => Hin) w1) as Hadds.
  rewrite run_bind. destruct (run (process_records ctx lag svc ds) w1) as [res w2]; cbn [fst snd] in *. subst res. cbn [fst snd ret run].
  split_and!; [done..|]. exists ds. split_and!; [done | by etransitivity; [apply (adds_idle _ _ w w1)|] |].
  intros d Hd. split; [rewrite Hrec; by apply Hreal | by apply Hall].
Qed.

(** Where the dedupe marks are durable, each record is where it belongs. *)
Lemma RunConsumer_progresses w :
  Group (Consumer (Kafka cfg)) <> "" -> healthy w -> durable w -> answers (group w) ->
  let run := RunConsumer (K := K) (R := R) ctx lag cfg 1 w in
  fst run = Ok false /\ healthy (snd run) /\
  exists ds, polled (group w) ds /\ adds svc ds w (snd run) /\
    forall d, d ∈ ds -> below (gr_committed (group (snd run))) (d_Source d) /\ disposed svc d (snd run).
Proof.
  intros Hgroup Hw Hd Hans. cbn zeta.
  destruct (RunConsumer_polls w Hgroup Hw Hans) as (ds & w1 & Hpolled & Hord & Hw1 & Hl & Hs & _ & ->).
  pose proof (fun d => an_records _ Hans ds d Hpolled) as Hgood.
  destruct (process_commits ctx lag svc eq_refl ds w1 Hgood Hw1 Hord) as (Hrun & Hw2 & _ & _ & Hall).
  destruct (process_disposes ctx lag svc eq_refl ds w1 Hgood) as [_ Hdis]; [by eapply durable_idle | done |].
  pose proof (process_adds ctx lag svc ds ds (fun d Hin => Hin) w1) as Hadds.
  rewrite run_bind. destruct (run (process_records ctx lag svc ds) w1) as [res w2]; cbn [fst snd] in *. subst res. cbn [fst snd ret run].
  split_and!; [done..|]. exists ds. split_and!; [done | by etransitivity; [apply (adds_idle _ _ w w1)|] |].
  intros d Hin. split; [by apply Hall | by apply Hdis].
Qed.
End consumer.

(** ** The consumer and the worker *)

Section pipeline.
Context {K R L P : Type} `{GroupLaws K, RedisLaws R, KafkaLaws L, UuidLaws, PgLib, !PgLaws, FmtOther, ErrorText}.
Context `{PostgresSettings P, ServiceSettings P}.
Variables (ctx : option Z) (lag : Delivery -> N) (injected : UUID -> list RecordHeader) (picks_tick : nat -> bool).

#[local] Abbreviation state := (stores R L * K)%type.
#[local] Abbreviation healthy w := (Forall (fault_ok (fun _ => False)) (w_sched w)).
#[local] Abbreviation table w := (st_db (sy_store (fst (w_data w)))).
#[local] Abbreviation log w := (kf_log (sy_kafka (fst (w_data w)))).
#[local] Abbreviation group w := (snd (w_data w)).

(** The stores in working order: the dedupe marks are durable, the table is
    well-formed, no other transaction is open, every row is either claimable or
    on Kafka. *)
Record orderly (w : world state) : Prop := {
  io_healthy : healthy w;
  io_durable : durable (part site_of w);
  io_table : table_wf (table w);
  io_open : db_busy (table w) = ∅;
  io_ready : ready (w_clock w) (table w);
  io_published id e : db_rows (table w) !! id = Some e -> PublishedAt e <> None ->
    exists inj, event_record inj e ∈ log w;
}.

(** C3: end to end, where nothing fails: of what one poll of the consumer reads,
    each record is committed, and once the worker has run for as many ticks as
    the outbox has batches, it is in the dead-letter topic if it is poison, and
    otherwise the record of its routed row is on Kafka: the row the router makes
    of a record of that poll, or one that was there before. *)
Theorem pipeline_delivers (cfg cfg' : Config P) ticks (w : world state) :
  (forall r t k, fst (kf_publish r t k) = Ok tt) ->
  orderly w -> Group (Consumer (Kafka cfg)) <> "" -> answers ctx lag cfg (group w) ->
  pg_text (worker_id cfg') = true ->
  (forall ds, polled (group w) ds -> size (backlog (table w)) + length ds <= 100 * ticks)%nat ->
  let w1 := snd (consumer_process ctx lag cfg 1 w) in
  let w2 := snd (worker_process injected None picks_tick cfg' ticks w1) in
  exists ds, polled (group w) ds /\ forall d, d ∈ ds ->
    below (gr_committed (group w2)) (d_Source d) /\
    (poison (consumer_router cfg) d -> exists m, (d_Source d, m) ∈ gr_dlq (group w2)) /\
    (~ poison (consumer_router cfg) d -> exists env sid e inj,
       Parse (r_Value (s_Record (d_Source d))) = Ok env /\ uuid_Parse (EventID env) = Some sid /\
       event_record inj e ∈ log w2 /\
       (db_rows (table w) !! routed_id sid = Some e \/
        exists d', d' ∈ ds /\ routes (consumer_router cfg) d' (routed_id sid) e)).
Proof.
  intros Hup [Hw Hdur Hwf Hopen Hready Hpub] Hgroup Hans Hname Hsize. cbn zeta.
  unfold consumer_process, worker_process. rewrite !run_bind, !(run_zoom site_of _).
  destruct (RunConsumer_progresses ctx lag cfg (part site_of w) Hgroup Hw Hdur Hans)
    as (Hrun & Hw1 & ds & Hpolled & Hadds & Hall).
  destruct (run (RunConsumer ctx lag cfg 1) (part site_of w)) as [res [x1 clk1 sch1]]. cbn [fst snd] in *. subst res.
  cbn [ret run snd]. unfold whole. cbn [w_data w_clock w_sched]. rewrite !(run_zoom pub_of _).
  set (w1 := part pub_of (World (with_site x1 (w_data w)) clk1 sch1)).
  destruct (RunWorker_empties injected picks_tick Hup cfg' ticks w1) as [Hdone [_ _ _ Hleft _]].
  - exact Hw1.
  - exact (adds_wf _ _ _ _ Hadds Hwf).
  - exact (adds_ready _ _ _ _ Hadds Hopen Hready).
  - exact Hname.
  - etransitivity; [exact (adds_backlog _ _ _ _ Hadds) | by apply Hsize].
  - destruct (RunWorker_works injected None picks_tick cfg' ticks w1 (adds_wf _ _ _ _ Hadds Hwf)) as [Hworked _].
    destruct (emptied injected w1 _ Hworked) as (recs & Hlog & Hrows); [apply map_size_empty_inv; lia|]. subst w1.
    destruct (run (RunWorker _ _ _ _ _) _) as [res [x2 clk2 sch2]]. cbn [fst snd] in *. subst res.
    cbn [ret run snd w_data whole fst pub_of with_pub with_site part ps_db ps_kafka sy_store sy_kafka si_store si_group st_db] in *.
    exists ds. split; [done|]. intros d Hd. destruct (Hall d Hd) as (Hbelow & [Hdlq Hrouted]).
    split; [exact Hbelow|]. split; [exact Hdlq|].
    intros Hp. destruct (Hrouted Hp) as (env & sid & Henv & Hsid & [e He]).
    destruct (Hrows (routed_id sid) e He) as (_ & _ & _ & _ & Hsent).
    assert (exists inj, event_record inj e ∈ kf_log (ps_kafka x2)) as [inj Hinj].
    { rewrite Hlog. destruct (PublishedAt e) as [t|] eqn:Ht.
      - apply (ad_new _ _ _ _ Hadds) in He as [He|(d' & _ & Hr)].
        + destruct (Hpub _ _ He) as [inj Hinj]; [by rewrite Ht|]. exists inj. apply elem_of_app. by left.
        + destruct Hr as (env' & _ & ? & ? & ? & ? & ? & _ & _ & _ & _ & _ & _ & ->). done.
      - exists injected. apply elem_of_app. right. by apply Hsent. }
    exists env, sid, e, inj. split_and!; [done..|]. exact (ad_new _ _ _ _ Hadds _ _ He).
Qed.
End pipeline.

(** ** A concrete run *)

#[local] Existing Instance demo_uuid.
#[local] Existing Instance demo_pg.
#[local] Existing Instance demo_fmt_other.
#[local] Instance demo_settings : PostgresSettings unit := fun _ => false.
#[local] Instance demo_service : ServiceSettings unit := fun _ => "1".
#[local] Instance demo_texts : ErrorText := fun _ => "error".
#[local] Instance demo_group : GroupLib cluster := cluster_group false.
#[local] Instance demo_group_laws : GroupLaws cluster := cluster_laws.

Definition demo_start : world (stores keyspace (list KRecord) * cluster) :=
  World (MkStores (MkStore ∅ (MkDb ∅ ∅)) [], demo_cluster) 1000 [].
Definition demo_svc : routerService := consumer_router demo_consumer_config.
Definition demo_good : Delivery := MkDelivery (MkSource (on_topic (MkRecord "" "" demo_value [])) 0 0) None.
Definition demo_bad : Delivery := MkDelivery (MkSource (on_topic (MkRecord "" "" "not json" [])) 0 1) None.

Lemma demo_polled ds : polled demo_cluster ds -> ds = [demo_good; demo_bad].
Proof. intros (t & t' & Hds). vm_compute in Hds. by injection Hds. Qed.

Lemma demo_svc_storable : storable demo_svc demo_env "".
Proof. destruct demo_storable as [? _ ? ?]. split; [done | vm_compute; reflexivity | done | done]. Qed.

Lemma demo_bad_poison : poison demo_svc demo_bad.
Proof. eapply bad_envelope. vm_compute. reflexivity. Qed.

Lemma demo_good_sound : ~ poison demo_svc demo_good.
Proof.
  intros [e He|env _ Hn _|env He Hn].
  - change (Parse demo_value = Err e) in He. by rewrite demo_parses in He.
  - by apply Hn.
  - change (Parse demo_value = Ok env) in He. rewrite demo_parses in He. injection He as <-.
    apply Hn. vm_compute. reflexivity.
Qed.

Lemma demo_answers (g : cluster) :
  (forall ds, polled g ds -> ds = [demo_good; demo_bad]) -> answers None (fun _ => 0%N) demo_consumer_config g.
Proof.
  intros Hg. split; [done | by eexists |]. intros ds d Hds%Hg. subst ds.
  assert (forall d, cl_own (d_Source d) = true -> acknowledged (K := cluster) d) as Hack.
  { intros d' Hown. split; [|done]. intros t k. cbn. by rewrite Hown. }
  intros [->|[->|Hd]%elem_of_cons]%elem_of_cons; [..|by apply elem_of_nil in Hd].
  - split; [by apply Hack|]. split; [|done]. right. exists demo_env. split; [exact demo_parses | exact demo_svc_storable].
  - split; [by apply Hack|]. split; [|done]. left. exact demo_bad_poison.
Qed.

(** The event is on Kafka and the other record in the dead-letter topic. *)
Lemma pipeline_delivers_witness :
  let w1 := snd (consumer_process (K := cluster) None (fun _ => 0%N) demo_consumer_config 1 demo_start) in
  let w2 := snd (worker_process (fun _ => []) None (fun _ => true) demo_consumer_config 1 w1) in
  (exists m, (d_Source demo_bad, m) ∈ gr_dlq (snd (w_data w2))) /\
  exists e inj, event_record inj e ∈ kf_log (sy_kafka (fst (w_data w2))).
Proof.
  destruct (pipeline_delivers (K := cluster) None (fun _ => 0%N) (fun _ => []) (fun _ => true)
    demo_consumer_config demo_consumer_config 1 demo_start) as (ds & Hds%demo_polled & Hall).
  - exact log_up.
  - assert (db_rows (st_db (sy_store (fst (w_data demo_start)))) = ∅) as Hno by reflexivity.
    split; [constructor | exact (demo_marked []) | | reflexivity | |].
    + intros id e He. rewrite Hno in He. by rewrite lookup_empty in He.
    + intros id e He. apply backlog_lookup in He as [He _]. rewrite Hno in He. by rewrite lookup_empty in He.
    + intros id e He. rewrite Hno in He. by rewrite lookup_empty in He.
  - discriminate.
  - exact (demo_answers _ demo_polled).
  - vm_compute. reflexivity.
  - intros ds ->%demo_polled. vm_compute. lia.
  - subst ds. split.
    + apply (Hall demo_bad ltac:(right; left)). exact demo_bad_poison.
    + destruct (Hall demo_good ltac:(left)) as (_ & _ & Hgood).
      destruct (Hgood demo_good_sound) as (env & sid & e & inj & _ & _ & Hin & _). by exists e, inj.
Defined.
