(* ===== verification/PipelineRecovery.v ===== *)
(** * The pipeline's recovery

    From whatever the binaries leave behind, however they interleaved and failed
    and wherever they died, one life of the consumer and one of the worker in
    which nothing fails bring every record the group is past to where it
    belongs.  A life that runs alone is one of the interleavings ([run_alone]),
    so that what holds of every run of the system holds at the end of both. *)
From S2P Require Import Prelude Utf8 Json GoTime Uuid Repository RepositoryFacts Redis Kafka Constant Envelope EnvelopeFacts Router RouterFacts Outbox OutboxFacts Config ConfigFacts Auth App AppFacts Concurrent Consumer ConsumerFacts ConsumerProgress Worker WorkerFacts WorkerProgress Pipeline PipelineFacts EndToEnd.

Section recovery.
Context {K R L P : Type} `{GroupLaws K, RedisLaws R, KafkaLaws L, UuidLaws, PgLib, !PgLaws, FmtOther, ErrorText}.
Context `{PostgresSettings P, ServiceSettings P}.
Variable log0 : list KRecord.
(** The consumers run with any configurations. *)
#[local] Abbreviation anyone := (fun _ : Config P => True).

#[local] Abbreviation shared := (stores R L).
#[local] Abbreviation state := (shared * K)%type.
#[local] Abbreviation healthy w := (Forall (fault_ok (fun _ => False)) (w_sched w)).
#[local] Abbreviation rows sh := (db_rows (st_db (sy_store sh))).
#[local] Abbreviation table w := (st_db (sy_store (fst (w_data w)))).
#[local] Abbreviation log w := (kf_log (sy_kafka (fst (w_data w)))).
#[local] Abbreviation group w := (snd (w_data w)).
#[local] Abbreviation binary := (binary (K := K) (R := R) (L := L) (P := P) anyone).
#[local] Abbreviation deployed := (deployed (K := K) (R := R) (L := L) (P := P) anyone log0).
#[local] Abbreviation runs := (rtc (step binary (fun _ => True))).
#[local] Abbreviation sound := (sound (R := R) (L := L) (P := P) anyone log0).
#[local] Abbreviation accounts := (accounts (K := K) (R := R) (L := L) (P := P) anyone).

(** A process starts again and is left alone: what it leaves is a state of the
    system. *)
Lemma life_reaches c i k m m' t sch :
  c_procs c !! i = Some (k, m) -> binary m' -> c_clock c <= t ->
  let w := snd (run m' (World (c_shared c, k) t sch)) in
  exists c', runs c c' /\ c_clock c' = w_clock w /\ c_shared c' = fst (w_data w) /\
    exists m'', c_procs c' !! i = Some (snd (w_data w), m'').
Proof.
  intros Hp Hb Ht. cbn zeta. destruct c as [t0 sh ps]. cbn [c_clock c_shared c_procs] in *.
  assert (i < length ps)%nat as Hi by (by eapply lookup_lt_Some).
  pose proof (process_restarts binary (fun _ => True) t0 sh ps i k m m' Hp Hb) as Hs.
  pose proof (run_alone binary i k m' t sch t0 sh (<[i := (k, m')]> ps)
    (list_lookup_insert_eq _ _ _ Hi) Ht) as Hr. cbn zeta in Hr. rewrite list_insert_insert_eq in Hr.
  eexists. split; [by eapply rtc_l; [exact Hs | exact Hr]|].
  cbn [c_clock c_shared c_procs]. split_and!; [done..|]. eexists. by apply list_lookup_insert_eq.
Qed.

(** One life of the consumer in which nothing fails. *)
Lemma consumer_life ctx lag (cfg : Config P) (w : world state) :
  Group (Consumer (Kafka cfg)) <> "" -> healthy w -> answers ctx lag cfg (group w) ->
  let w1 := snd (consumer_process ctx lag cfg 1 w) in
  healthy w1 /\ exists ds, polled (group w) ds /\
    adds (consumer_router cfg) ds (part site_of w) (part site_of w1) /\
    forall d, d ∈ ds -> d_Source d ∈ gr_records (group w1) /\ below (gr_committed (group w1)) (d_Source d).
Proof.
  intros Hgroup Hw Hans. cbn zeta. unfold consumer_process. rewrite run_bind, (run_zoom site_of _).
  destruct (RunConsumer_commits ctx lag cfg (part site_of w) Hgroup Hw Hans) as (Hrun & Hw1 & ds & Hpolled & Hadds & Hall).
  destruct (run (RunConsumer ctx lag cfg 1) (part site_of w)) as [res [[st k] clk sch]]. cbn [fst snd] in *. subst res.
  cbn [ret run snd]. split; [exact Hw1|]. exists ds. split; [done|]. split; [exact Hadds | exact Hall].
Qed.

(** One life of the worker in which nothing fails leaves no row unpublished. *)
Lemma worker_life injected picks_tick (cfg : Config P) ticks (w : world state) :
  (forall r t k, fst (kf_publish r t k) = Ok tt) ->
  healthy w -> table_wf (table w) -> ready (w_clock w) (table w) -> pg_text (worker_id cfg) = true ->
  (size (backlog (table w)) <= 100 * ticks)%nat ->
  let w' := snd (worker_process injected None picks_tick cfg ticks w) in
  backlog (table w') = ∅ /\ group w' = group w.
Proof.
  intros Hup Hw Hwf Hr Hname Hsize. cbn zeta. unfold worker_process. rewrite run_bind, (run_zoom pub_of _).
  destruct (RunWorker_empties injected picks_tick Hup cfg ticks (part pub_of w) Hw Hwf Hr Hname Hsize)
    as [Hrun [_ _ _ Hleft _]].
  destruct (run (RunWorker _ _ _ _ _) (part pub_of w)) as [res w']. cbn [fst snd] in *. subst res.
  cbn [ret run snd]. split; [apply map_size_empty_inv; cbn; lia | done].
Qed.

(** Delays and leases of a table that keeps the protocol end. *)
Lemma sound_ready t t' sh :
  sound t sh -> t + lock_timeout < t' -> db_busy (st_db (sy_store sh)) = ∅ ->
  (forall id e n, rows sh !! id = Some e -> PublishedAt e = None -> NextAttemptAt e = Some n -> n <= t') ->
  ready t' (st_db (sy_store sh)).
Proof.
  intros Hi Ht Hbusy Hdelay id e [He Hu]%backlog_lookup. rewrite Hbusy. split; [|by apply not_elem_of_empty].
  apply claimable_spec. split; [done|]. split; intros x Hx; [by eapply Hdelay|].
  pose proof (so_leases _ _ _ _ Hi id e x He Hx). lia.
Qed.

(** C2: the pipeline recovers from anything: whatever the binaries did at the
    same time, whichever calls failed and wherever processes died, once one life
    of the consumer and then one of the worker find nothing failing, after the
    leases and the delays are over, everything they had left behind is done:
    the group is past all that the consumer read, no row of the outbox is
    unpublished, and every record the group is past, then or ever before, is in
    its dead-letter topic, or the cluster holds a record of the id derived from
    the event's. *)
Theorem pipeline_recovers c c' i k m ctx lag injected picks_tick (cfg cfg' : Config P) ticks t sch :
  (forall r t k, fst (kf_publish r t k) = Ok tt) ->
  deployed c -> runs c c' -> c_procs c' !! i = Some (k, m) ->
  c_clock c' + lock_timeout < t -> Forall (fault_ok (fun _ => False)) sch ->
  db_busy (st_db (sy_store (c_shared c'))) = ∅ ->
  (forall id e n, rows (c_shared c') !! id = Some e -> PublishedAt e = None -> NextAttemptAt e = Some n -> n <= t) ->
  Group (Consumer (Kafka cfg)) <> "" -> answers ctx lag cfg k -> pg_text (worker_id cfg') = true ->
  (forall ds, polled k ds -> size (backlog (st_db (sy_store (c_shared c')))) + length ds <= 100 * ticks)%nat ->
  let w1 := snd (consumer_process ctx lag cfg 1 (World (c_shared c', k) t sch)) in
  let w2 := snd (worker_process injected None picks_tick cfg' ticks w1) in
  (exists ds, polled k ds /\ forall d, d ∈ ds ->
     d_Source d ∈ gr_records (group w2) /\ below (gr_committed (group w2)) (d_Source d)) /\
  (forall id e, db_rows (table w2) !! id = Some e -> PublishedAt e <> None) /\
  forall r, r ∈ gr_records (group w2) -> below (gr_committed (group w2)) r ->
    (exists meta, (r, meta) ∈ gr_dlq (group w2)) \/
    exists env sid inj e, Parse (r_Value (s_Record r)) = Ok env /\ uuid_Parse (EventID env) = Some sid /\
      ID e = routed_id sid /\ event_record inj e ∈ log w2.
Proof.
  intros Hup Hc Hs Hp Ht Hsch Hbusy Hdelay Hgroup Hans Hname Hsize w1 w2.
  destruct (deployed_runs anyone log0 c c' Hc Hs) as (Hi0 & _ & _).
  destruct (consumer_life ctx lag cfg (World (c_shared c', k) t sch) Hgroup Hsch Hans)
    as (Hw1 & ds & Hpolled & Hadds & Hall). fold w1 in Hw1, Hadds, Hall.
  destruct (life_reaches c' i k m _ t sch Hp (consumer_binary anyone ctx lag cfg 1 I)) as (c1 & Hs1 & Hclk1 & Hsh1 & m1 & Hp1);
    [unfold lock_timeout, Minute, Second in Ht; lia|]. fold w1 in Hclk1, Hsh1, Hp1.
  destruct (worker_life injected picks_tick cfg' ticks w1 Hup Hw1) as [Hempty Hgroup2];
    [exact (adds_wf _ _ _ _ Hadds (so_table _ _ _ _ Hi0)) | | exact Hname | | fold w2 in Hempty, Hgroup2].
  { exact (adds_ready _ _ _ _ Hadds Hbusy (sound_ready _ t _ Hi0 Ht Hbusy Hdelay)). }
  { etransitivity; [exact (adds_backlog _ _ _ _ Hadds) | by apply Hsize]. }
  destruct (life_reaches c1 i _ m1 _ (w_clock w1) (w_sched w1) Hp1 (worker_binary anyone injected None picks_tick cfg' ticks))
    as (c2 & Hs2 & _ & Hsh2 & m2 & Hp2); [lia|].
  rewrite Hsh1, <- surjective_pairing in Hsh2, Hp2.
  replace (World (w_data w1) (w_clock w1) (w_sched w1)) with w1 in Hsh2, Hp2 by (by destruct w1). fold w2 in Hsh2, Hp2.
  destruct (deployed_runs anyone log0 c c2 Hc) as (Hi2 & _ & Ha2); [by do 2 (etransitivity; [eassumption|])|].
  specialize (Ha2 i _ m2 Hp2). rewrite Hsh2 in Hi2, Ha2.
  assert (forall id e, db_rows (table w2) !! id = Some e -> PublishedAt e <> None) as Hpub.
  { intros id e He Hn. pose proof (proj2 (backlog_lookup _ id e) (conj He Hn)) as Hb.
    rewrite Hempty in Hb. by apply lookup_empty_Some in Hb. }
  split; [rewrite Hgroup2; by exists ds|]. split; [exact Hpub|]. intros r Hr Hb.
  destruct (Ha2 r Hr Hb) as [(env & sid & Henv & Hsid & Hk)|Hd]; [right | by left].
  assert (sent (P := P) anyone (fst (w_data w2)) (routed_id sid)) as (inj & e & Hid & _ & Hin).
  { destruct Hk as [[e He]|Hk]; [|done]. apply (so_published _ _ _ _ Hi2 (routed_id sid) e); [done | by eapply Hpub]. }
  by exists env, sid, inj, e.
Qed.
End recovery.

(** ** A concrete run *)

#[local] Existing Instance demo_uuid.
#[local] Existing Instance demo_pg.
#[local] Existing Instance demo_fmt_other.
#[local] Instance demo_settings : PostgresSettings unit := fun _ => false.
#[local] Instance demo_service : ServiceSettings unit := fun _ => "1".
#[local] Instance demo_texts : ErrorText := fun _ => "error".
#[local] Instance demo_group : GroupLib cluster := cluster_group false.
#[local] Instance demo_group_laws : GroupLaws cluster := cluster_laws.

(** The worker has claimed the row and is about to publish it, the consumer has
    not committed, when both die. *)
Definition demo_crash := demo_at 15%nat.

Lemma demo_crashed : rtc (step (binary (P := unit) (fun _ => True)) (fun _ => True)) demo_system demo_crash.
Proof. apply (scheduled_steps (binary (P := unit) (fun _ => True))). by apply Forall_true. Qed.

Definition demo_left : cluster := MkCluster (cl_records demo_cluster) 0 0 2 [].

Lemma demo_crash_consumer : exists m, c_procs demo_crash !! 0%nat = Some (demo_left, m).
Proof.
  assert (fst <$> c_procs demo_crash !! 0%nat = Some demo_left) as Hk by (vm_compute; reflexivity).
  destruct (c_procs demo_crash !! 0%nat) as [[k m]|]; [|done]. injection Hk as ->. by exists m.
Qed.

Lemma demo_left_polled ds : polled demo_left ds -> ds = [demo_good; demo_bad].
Proof. intros (t & t' & Hds). vm_compute in Hds. by injection Hds. Qed.

(** Seven minutes later both start again: the record is dead-lettered or on
    Kafka, whichever of the two it is. *)
Lemma pipeline_recovers_witness :
  let w1 := snd (consumer_process (K := cluster) None (fun _ => 0%N) demo_consumer_config 1
    (World (c_shared demo_crash, demo_left) (c_clock demo_crash + 7 * Minute) [])) in
  let w2 := snd (worker_process (fun _ => []) None (fun _ => true) demo_consumer_config 1 w1) in
  Forall (fun d => (exists meta, (d_Source d, meta) ∈ gr_dlq (snd (w_data w2))) \/
    exists env sid inj e, Parse (r_Value (s_Record (d_Source d))) = Ok env /\ uuid_Parse (EventID env) = Some sid /\
      ID e = routed_id sid /\ event_record inj e ∈ kf_log (sy_kafka (fst (w_data w2)))) [demo_good; demo_bad].
Proof.
  destruct demo_crash_consumer as [m Hp].
  destruct (pipeline_recovers (K := cluster) [] demo_system demo_crash 0 demo_left m None (fun _ => 0%N) (fun _ => [])
    (fun _ => true) demo_consumer_config demo_consumer_config 1 (c_clock demo_crash + 7 * Minute) [])
    as ((ds & Hds%demo_left_polled & Hall) & _ & Hdone).
  - exact log_up.
  - exact (demo_deployed (fun _ => True) I).
  - exact demo_crashed.
  - exact Hp.
  - unfold lock_timeout, Minute, Second. lia.
  - constructor.
  - vm_compute. reflexivity.
  - assert (map_Forall (fun _ e => NextAttemptAt e = None) (db_rows (st_db (sy_store (c_shared demo_crash))))) as Hno.
    { apply (bool_decide_unpack _). vm_compute. exact I. }
    intros id e n He _ Hn. rewrite (Hno id e He) in Hn. discriminate.
  - discriminate.
  - exact (demo_answers _ demo_left_polled).
  - vm_compute. reflexivity.
  - intros ds ->%demo_left_polled. vm_compute. lia.
  - subst ds. cbn zeta. apply list.Forall_forall. intros d Hd.
    destruct (Hall d Hd) as [Hr Hb]. exact (Hdone _ Hr Hb).
Defined.
