(* ===== verification/Server.v ===== *)
(** * The listeners and their wiring: [internal/server], [internal/app/di.go]

    How the grpc binary's server and its client to the engine are put together,
    the request counter's single instrument, and when a listener's [Start]
    returns what.  The gRPC runtime is the platform's: [PlatformGrpc] is its
    constructors, the options they are given the data of this file. *)
From S2P Require Import Prelude Utf8 Redis Constant Config Auth Proto Gateway.

(** ** Settings of the platform's sections *)

Record TLSSettings := MkTLS {
  tls_Enabled : bool;
  CAFile : string;
  CertFile : string;
  KeyFile : string;
  ServerName : string;
  MutualTLS : bool;
}.

Class GrpcSettings (P : Type) := {
  grpc_MaxRecvMsgSize : P -> Z;
  grpc_MaxSendMsgSize : P -> Z;
  grpc_MaxHeaderSize : P -> Z;
  grpc_TLS : P -> TLSSettings;
  client_Timeout : P -> Z;
  client_MaxRecvMsgSize : P -> Z;
  client_MaxSendMsgSize : P -> Z;
}.

(** What [UnaryAuth] is built from. *)
Record Gate := MkGate {
  g_registry : CallerRegistry;
  g_limits : gmap string CallerConfig;
  g_limiter : RateLimiter;
  g_metrics : bool;
}.

(** [platformgrpc.Option]. *)
Inductive grpc_option (T : Type) :=
  | WithUnaryTimeout (d : Z)
  | WithMaxRecvMsgSize (n : Z)
  | WithMaxSendMsgSize (n : Z)
  | WithMaxHeaderSize (n : Z)
  | WithUnaryServerInterceptor (g : Gate)
  | WithTLS (t : T).
Arguments WithUnaryTimeout {T} _.
Arguments WithMaxRecvMsgSize {T} _.
Arguments WithMaxSendMsgSize {T} _.
Arguments WithMaxHeaderSize {T} _.
Arguments WithUnaryServerInterceptor {T} _.
Arguments WithTLS {T} _.

(** The platform's constructors; [T] is a TLS configuration. *)
Class PlatformGrpc (T : Type) := {
  NewTLSConfig : string -> string -> string -> string -> bool -> result T;
  NewServer : list (grpc_option T) -> result unit;
  NewClient : string -> list (grpc_option T) -> result unit;
}.

(** ** The request counter *)

(** [NewMetrics]: the instrument is built once per process; the state is what
    [metricsOnce] left, and an instrument counts unless the meter refused it. *)
Definition NewMetrics (Int64Counter : result unit) : M (option bool) bool :=
  let! inst := get_data in
  match inst with
  | Some m => ret m
  | None =>
      let m := is_ok Int64Counter in
      do! modify (fun _ => Some m) in
      ret m
  end.

(** ** The gRPC server *)

Record GRPCServer (T : Type) := MkGRPCServer { gs_options : list (grpc_option T); gs_addr : string }.
Arguments MkGRPCServer {T} _ _.
Arguments gs_options {T} _.
Arguments gs_addr {T} _.

Section wiring.
Context {P T : Type} `{GrpcSettings P, PlatformGrpc T}.

(** [NewGRPC]; [rdb_up] is [rdb != nil], [metrics] whether there is an
    instrument.  The address is [Start]'s. *)
Definition NewGRPC (cfg : Config P) (rdb_up metrics : bool) : result (GRPCServer T) :=
  let callers := Callers (Gateway cfg) in
  let opts :=
    [WithMaxRecvMsgSize (grpc_MaxRecvMsgSize (rest cfg));
     WithMaxSendMsgSize (grpc_MaxSendMsgSize (rest cfg));
     WithMaxHeaderSize (grpc_MaxHeaderSize (rest cfg));
     WithUnaryServerInterceptor
       (MkGate (NewCallerRegistry callers) (caller_limits callers) (MkLimiter rdb_up) metrics)] in
  let tls := grpc_TLS (rest cfg) in
  let secured :=
    if tls_Enabled tls then
      match NewTLSConfig (CAFile tls) (CertFile tls) (KeyFile tls) (ServerName tls) (MutualTLS tls) with
      | Err err => Err (Errorf "build grpc server TLS config: %w" [] [err])
      | Ok tlsConfig => Ok (opts ++ [WithTLS tlsConfig])
      end
    else Ok opts in
  match secured with
  | Err err => Err err
  | Ok opts =>
      match NewServer opts with
      | Err err => Err (Errorf "grpc server: %w" [] [err])
      | Ok _ => Ok (MkGRPCServer opts (":" ++ format_int (GRPC_ServerPort cfg))%string)
      end
  end.

(** [newOcrClient]: the client to the engine. *)
Record OcrClient := MkClient { oc_target : string; oc_options : list (grpc_option T) }.

Definition newOcrClient (cfg : Config P) : result OcrClient :=
  let opts :=
    [WithUnaryTimeout (client_Timeout (rest cfg));
     WithMaxRecvMsgSize (client_MaxRecvMsgSize (rest cfg));
     WithMaxSendMsgSize (client_MaxSendMsgSize (rest cfg))] in
  match NewClient (GRPCTarget (Ocr cfg)) opts with
  | Err err => Err err
  | Ok _ => Ok (MkClient (GRPCTarget (Ocr cfg)) opts)
  end.
End wiring.

(** ** What the server serves *)

Fixpoint gate_of {T} (opts : list (grpc_option T)) : option Gate :=
  match opts with
  | [] => None
  | WithUnaryServerInterceptor g :: _ => Some g
  | _ :: opts' => gate_of opts'
  end.

Section hosting.
Context {R E T : Type} `{RedisLib R, GrpcLib, OcrEngine E}.

(** The two registered methods, behind the interceptor the server was given; a
    server given none would call the handlers with no caller in the context. *)
Definition hosted_SubmitDocument (srv : GRPCServer T) (md : option (gmap string (list string)))
    (req : Gatewaypb.SubmitDocumentRequest) : M (edge R E) Gatewaypb.SubmitDocumentResponse :=
  match gate_of (gs_options srv) with
  | Some g =>
      UnaryAuth (g_registry g) (g_limits g) (g_limiter g) (g_metrics g) (incoming md) SubmitDocument_FullMethodName
        (fun ctx => on_engine (SubmitDocument gateway_server ctx (Some req)))
  | None => on_engine (SubmitDocument gateway_server (incoming md) (Some req))
  end.

Definition hosted_GetDocument (srv : GRPCServer T) (md : option (gmap string (list string)))
    (req : Gatewaypb.GetDocumentRequest) : M (edge R E) (option Gatewaypb.GetDocumentResponse) :=
  match gate_of (gs_options srv) with
  | Some g =>
      UnaryAuth (g_registry g) (g_limits g) (g_limiter g) (g_metrics g) (incoming md) GetDocument_FullMethodName
        (fun ctx => on_engine (GetDocument gateway_server ctx (Some req)))
  | None => on_engine (GetDocument gateway_server (incoming md) (Some req))
  end.
End hosting.

(** ** Listening *)

(** What the network does to a listener: whether its address can be bound, when
    and how its accept loop fails, if ever, and what the loop returns once it
    is shut down. *)
Record listener := MkListener {
  ls_listen : result unit;
  ls_fails : option (Z * error);
  ls_stopped : option error;
}.

(** How a goroutine that serves a listener from [t0] on ends with an error: by
    itself at a time, or once it is shut down. *)
Record serving := MkServing { sv_fails : option (Z * error); sv_stopped : option error }.

Section listening.
(** [errors.Is(err, http.ErrServerClosed)] *)
Variable is_server_closed : error -> bool.

Definition wrapped (context : string) (err : error) : error := Errorf context [] [err].

(** [GRPCServer.Start], as [RunGRPC] runs it. *)
Definition grpc_Start (t0 : Z) (l : listener) : serving :=
  match ls_listen l with
  | Err err => MkServing (Some (t0, wrapped "grpc listener: %w" (wrapped "grpc listen: %w" err))) None
  | Ok _ =>
      let failed err := wrapped "grpc listener: %w" (wrapped "grpc server: %w" err) in
      MkServing ((fun x => (Z.max t0 (fst x), failed (snd x))) <$> ls_fails l) (failed <$> ls_stopped l)
  end.

(** [http.Server.ListenAndServe], whose error [report] judges. *)
Definition ListenAndServe (report : error -> option error) (t0 : Z) (l : listener) : serving :=
  match ls_listen l with
  | Err err => MkServing ((fun e => (t0, e)) <$> report err) None
  | Ok _ =>
      MkServing (x ← ls_fails l; (fun e => (Z.max t0 (fst x), e)) <$> report (snd x))
        (ls_stopped l ≫= report)
  end.

(** [HTTPServer.Start] and the profiling listener, as [RunGRPC] runs them. *)
Definition http_Start : Z -> listener -> serving :=
  ListenAndServe (fun err => if is_server_closed err then None
    else Some (wrapped "probe listener: %w" (wrapped "probe listener: %w" err))).
Definition pprof_Start : Z -> listener -> serving :=
  ListenAndServe (fun err => if is_server_closed err then None else Some (wrapped "pprof listener: %w" err)).
End listening.

(** ** The group of listeners *)

(** The earliest of the failures: its error is the group's, and cancels the
    group's context. *)
Fixpoint first_failure (l : list serving) : option (Z * error) :=
  match l with
  | [] => None
  | s :: l' =>
      match sv_fails s, first_failure l' with
      | Some (t, e), Some (t', e') => if t' <? t then Some (t', e') else Some (t, e)
      | Some x, None => Some x
      | None, r => r
      end
  end.

(** [g.Wait], at a time when every listener was shut down. *)
Definition group_wait (l : list serving) (t : Z) : option error :=
  match first_failure l with
  | Some (t', e) => if t' <=? t then Some e else head (omap sv_stopped l)
  | None => head (omap sv_stopped l)
  end.

(** When the group's context is done: at the signal or at the first failure. *)
Definition run_done (signal : option Z) (l : list serving) : option Z :=
  match signal, first_failure l with
  | Some s, Some (t, _) => Some (Z.min s t)
  | Some s, None => Some s
  | None, Some (t, _) => Some t
  | None, None => None
  end.
