(* ===== verification/ServerFacts.v ===== *)
(** * Theorems on the wiring of the listeners

    The server [NewGRPC] assembles serves its RPCs behind the gate of the
    configured callers, over TLS exactly when it is configured; the client to
    the engine never is; and the request counter is one. *)
From S2P Require Import Prelude Utf8 Redis Constant Config ConfigFacts Auth AuthFacts Proto Gateway GatewayFacts Server.

(** ** The counter *)

(** Whatever the meter answers later, the process keeps its first instrument. *)
Lemma NewMetrics_once c1 c2 w :
  fst (NewMetrics c2 (snd (NewMetrics c1 w))) = fst (NewMetrics c1 w) /\
  snd (NewMetrics c2 (snd (NewMetrics c1 w))) = snd (NewMetrics c1 w).
Proof. unfold NewMetrics. destruct w as [[m|] clk sch]; by destruct c1. Qed.

(** ** The limits of the registered callers *)

Lemma limits_snoc cs c : caller_limits (cs ++ [c]) = <[Name c := c]> (caller_limits cs).
Proof. unfold caller_limits. by rewrite foldl_snoc. Qed.

Lemma limits_is_Some cs c : c ∈ cs -> is_Some (caller_limits cs !! Name c).
Proof.
  induction cs as [|c' cs IH] using rev_ind; [by intros ?%elem_of_nil|].
  rewrite limits_snoc, lookup_insert. intros [Hin|Hin]%elem_of_app; case_decide; [done | by apply IH | done |].
  by apply list_elem_of_singleton in Hin as ->.
Qed.

Lemma limits_Some cs n c : caller_limits cs !! n = Some c -> c ∈ cs /\ Name c = n.
Proof.
  induction cs as [|c' cs IH] using rev_ind; [done|]. rewrite limits_snoc, lookup_insert.
  case_decide as Hn; [intros [= <-] | intros [Hc ?]%IH]; (split; [apply elem_of_app | done]);
    [right; by apply list_elem_of_singleton | by left].
Qed.

(** The registry resolves keys to callers whose budget is known. *)
Lemma Lookup_limited cs key caller :
  Lookup (NewCallerRegistry cs) key = Some caller -> is_Some (caller_limits cs !! c_Name caller).
Proof. intros (c & Hc & _ & ->)%Lookup_Some. by apply limits_is_Some. Qed.

Section gate.
Context {R E : Type} `{RedisLib R, GrpcLib}.

Lemma Allow_Ok rdb_up caller limit (w : world R) : is_ok (fst (Allow rdb_up caller limit w)) = true.
Proof.
  unfold Allow. destruct rdb_up; [|done]. cbn [negb]. rewrite bind_now, bind_try.
  destruct (run (Incr _) _) as [[n|e] w1]; cbn [fst snd]; [|done].
  rewrite run_bind. destruct (n =? 1).
  - rewrite bind_try. cbn [ret run]. destruct (run (Expire _ _) w1) as [r w2]. cbn [snd].
    by destruct (_ <? n).
  - cbn [ret run]. by destruct (_ <? n).
Qed.

(** What the gate of a configured server refuses a request with. *)
Lemma gate_refusals cs limiter ctx method (w : world (edge R E)) e :
  fst (authenticate ctx method (NewCallerRegistry cs) (caller_limits cs) limiter w) = Err e ->
  exists code format args, e = Status code format args /\
    (code = code_Unauthenticated \/ code = code_ResourceExhausted /\ method = SubmitDocument_FullMethodName).
Proof.
  assert (forall f, exists code format args, Status code_Unauthenticated f [] = Status code format args /\
    (code = code_Unauthenticated \/ code = code_ResourceExhausted /\ method = SubmitDocument_FullMethodName)) as Hun.
  { intros f. eexists _, _, _. split; [done | by left]. }
  unfold authenticate. destruct (FromIncomingContext ctx) as [md|]; [|intros [= <-]; apply Hun].
  destruct (default [] (md !! apiKeyHeader)) as [|key ks]; [intros [= <-]; apply Hun|].
  destruct (String.eqb key ""); [intros [= <-]; apply Hun|].
  destruct (Lookup _ key) as [caller|] eqn:Hl; [|intros [= <-]; apply Hun].
  destruct (Lookup_limited _ _ _ Hl) as [limit ->].
  destruct (String.eqb_spec method SubmitDocument_FullMethodName) as [Hm|]; [|done].
  rewrite run_bind. unfold on_cache. rewrite (run_zoom e_redis _).
  pose proof (Allow_Ok (limiter_rdb_up limiter) caller limit (part e_redis w)) as Hok.
  destruct (run (Allow _ _ _) _) as [[[after allowed]|e'] w1]; [|done]. cbn [fst snd].
  destruct allowed; [done|]. rewrite run_bind. unfold SetHeader, modify, atomic. cbn [run fst throw].
  intros [= <-]. eexists _, _, _. split; [done | by right].
Qed.
End gate.

(** ** The server *)

Section server.
Context {P T R E : Type} `{GrpcSettings P, PlatformGrpc T, RedisLib R, GrpcLib, OcrEngine E}.

Lemma NewGRPC_Ok (cfg : Config P) rdb_up metrics (srv : GRPCServer T) :
  NewGRPC cfg rdb_up metrics = Ok srv ->
  let gate := MkGate (NewCallerRegistry (Callers (Gateway cfg))) (caller_limits (Callers (Gateway cfg)))
                (MkLimiter rdb_up) metrics in
  gate_of (gs_options srv) = Some gate /\
  forall o, o ∈ gs_options srv ->
    o ∈ [WithMaxRecvMsgSize (grpc_MaxRecvMsgSize (rest cfg)); WithMaxSendMsgSize (grpc_MaxSendMsgSize (rest cfg));
         WithMaxHeaderSize (grpc_MaxHeaderSize (rest cfg)); WithUnaryServerInterceptor gate] \/
    exists t, o = WithTLS t.
Proof.
  unfold NewGRPC. destruct (tls_Enabled _); [destruct (NewTLSConfig _ _ _ _ _) as [t|]; [|done]|];
    destruct (NewServer _) as [[]|]; try done; intros [= <-]; cbn [gs_options gate_of app]; (split; [done|]);
    intros o Ho; [|by left]. rewrite !elem_of_cons in Ho. rewrite !elem_of_cons.
  destruct Ho as [->|[->|[->|[->|[->|[]%elem_of_nil]]]]]; eauto 10.
Qed.

(** C32: the server the grpc binary hosts is the gate of its configuration: an
    RPC runs behind the interceptor of the configured callers and no other way;
    the gate refuses requests only as unauthenticated or, for submits, as over
    the caller's budget, every caller it resolves having one; and the link is
    encrypted exactly when the configuration says so. *)
Theorem NewGRPC_hosts (cfg : Config P) rdb_up metrics (srv : GRPCServer T) :
  NewGRPC cfg rdb_up metrics = Ok srv ->
  (forall md req, hosted_SubmitDocument (R := R) (E := E) srv md req =
     rpc_SubmitDocument (Callers (Gateway cfg)) (MkLimiter rdb_up) metrics md req) /\
  (forall md req, hosted_GetDocument (R := R) (E := E) srv md req =
     rpc_GetDocument (Callers (Gateway cfg)) (MkLimiter rdb_up) metrics md req) /\
  (forall g ctx method (w : world (edge R E)) e, gate_of (gs_options srv) = Some g ->
     fst (authenticate ctx method (g_registry g) (g_limits g) (g_limiter g) w) = Err e ->
     exists code format args, e = Status code format args /\
       (code = code_Unauthenticated \/ code = code_ResourceExhausted /\ method = SubmitDocument_FullMethodName)) /\
  ((exists t, WithTLS t ∈ gs_options srv) <-> tls_Enabled (grpc_TLS (rest cfg)) = true).
Proof.
  intros Hsrv. destruct (NewGRPC_Ok cfg rdb_up metrics srv Hsrv) as [Hg _].
  split; [|split; [|split]].
  - intros md req. unfold hosted_SubmitDocument. by rewrite Hg.
  - intros md req. unfold hosted_GetDocument. by rewrite Hg.
  - intros g ctx method w e. rewrite Hg. intros [= <-]. apply gate_refusals.
  - revert Hsrv. unfold NewGRPC. destruct (tls_Enabled _).
    + destruct (NewTLSConfig _ _ _ _ _) as [t|]; [|done]. destruct (NewServer _) as [[]|]; [|done].
      intros [= <-]. split; [done|]. intros _. exists t. cbn [gs_options app]. do 4 right. left.
    + destruct (NewServer _) as [[]|]; [|done]. intros [= <-]. split; [|done].
      intros [t Ht]. cbn [gs_options] in Ht. rewrite !elem_of_cons in Ht.
      by destruct Ht as [?|[?|[?|[?|?%elem_of_nil]]]].
Qed.

(** The client to the engine has no TLS option, whatever [grpc_client] says. *)
Theorem engine_link_in_clear (cfg : Config P) c t : newOcrClient cfg = Ok c -> WithTLS t ∉ oc_options (T := T) c.
Proof.
  unfold newOcrClient. destruct (NewClient _ _) as [[]|]; [|done]. intros [= <-] Ht. cbn [oc_options] in Ht.
  rewrite !elem_of_cons in Ht. by destruct Ht as [?|[?|[?|?%elem_of_nil]]].
Qed.
End server.

(** ** The group of listeners *)

Lemma first_failure_In l t e : first_failure l = Some (t, e) -> exists s, s ∈ l /\ sv_fails s = Some (t, e).
Proof.
  revert t e. induction l as [|s l IH]; intros t e; cbn [first_failure]; [done|].
  destruct (sv_fails s) as [[t1 e1]|] eqn:Hs; [destruct (first_failure l) as [[t2 e2]|] eqn:Hl; [case_match|]|].
  - intros [= <- <-]. destruct (IH t2 e2 eq_refl) as (s' & Hin & ?). exists s'. split; [by right | done].
  - intros [= <- <-]. exists s. split; [left | done].
  - intros [= <- <-]. exists s. split; [left | done].
  - intros Hf. destruct (IH t e Hf) as (s' & Hin & ?). exists s'. split; [by right | done].
Qed.

Lemma first_failure_le l s t e :
  s ∈ l -> sv_fails s = Some (t, e) -> exists t' e', first_failure l = Some (t', e') /\ t' <= t.
Proof.
  induction l as [|s' l IH]; [by intros ?%elem_of_nil|]. intros [->|Hin]%elem_of_cons Hs; cbn [first_failure].
  - rewrite Hs. destruct (first_failure l) as [[t' e']|]; [case_match eqn:Hlt|]; eexists _, _; (split; [done|]); lia.
  - destruct (IH Hin Hs) as (t1 & e1 & -> & Ht). destruct (sv_fails s') as [[t2 e2]|]; [|by exists t1, e1].
    destruct (Z.ltb_spec t1 t2); eexists _, _; (split; [done|]); lia.
Qed.

(** ** A concrete server *)

#[local] Instance demo_grpc : GrpcSettings unit := {|
  grpc_MaxRecvMsgSize := fun _ => 4194304; grpc_MaxSendMsgSize := fun _ => 4194304;
  grpc_MaxHeaderSize := fun _ => 8192; grpc_TLS := fun _ => MkTLS true "ca.pem" "crt.pem" "key.pem" "gw" true;
  client_Timeout := fun _ => 5 * Second; client_MaxRecvMsgSize := fun _ => 4194304;
  client_MaxSendMsgSize := fun _ => 4194304;
|}.
#[local] Instance demo_platform_grpc : PlatformGrpc string := {|
  NewTLSConfig := fun ca _ _ _ _ => Ok ca; NewServer := fun _ => Ok tt; NewClient := fun _ _ => Ok tt;
|}.

#[local] Existing Instance same_shape.
#[local] Existing Instance demo_engine.
#[local] Existing Instance demo_codes.

Definition demo_server : GRPCServer string :=
  match NewGRPC demo_config true true with Ok srv => srv | Err _ => MkGRPCServer [] "" end.

Lemma NewGRPC_hosts_witness :
  (exists t, WithTLS t ∈ gs_options demo_server) /\
  hosted_SubmitDocument (R := keyspace) (E := list EngineSubmit) demo_server (demo_md "test") (demo_request "receipt") =
  rpc_SubmitDocument [demo_caller] (MkLimiter true) true (demo_md "test") (demo_request "receipt").
Proof.
  destruct (NewGRPC_hosts (R := keyspace) (E := list EngineSubmit) demo_config true true demo_server)
    as (Hs & _ & _ & Ht).
  - reflexivity.
  - split; [apply Ht; reflexivity | exact (Hs (demo_md "test") (demo_request "receipt"))].
Defined.
