(* ===== verification/Gate.v ===== *)
(** * Requests at the gate at the same time

    gRPC runs a request in a goroutine of its own: the requests in flight are
    processes that share Redis, and each has its engine, its response header and
    its counter.  [gate_process] is what one of them does up to the handler; the
    protocol is what a proof about all of them needs: the requests of a caller's
    window in the order Redis counted them ([tally]). *)
From S2P Require Import Prelude Utf8 GoTime Sha256 Redis Constant Config ConfigFacts Auth AuthFacts Concurrent.

(** A request served: when it came, when it was decided, and how. *)
Record served := MkServed { sv_from : Z; sv_to : Z; sv_outcome : result Caller }.

(** What a request has of its own. *)
Record desk (E : Type) := MkDesk {
  dk_engine : E;
  dk_requests : list (string * option string);
  dk_header : list (string * string);
  dk_served : option served;
}.
Arguments MkDesk {E} _ _ _ _.
Arguments dk_engine {E} _.
Arguments dk_requests {E} _.
Arguments dk_header {E} _.
Arguments dk_served {E} _.

Section gate.
Context {R E : Type} `{RedisLib R, GrpcLib}.

Definition edge_of (s : R * desk E) : edge R E :=
  MkEdge (fst s) (dk_engine (snd s)) (dk_requests (snd s)) (dk_header (snd s)).
Definition with_edge (x : edge R E) (s : R * desk E) : R * desk E :=
  (e_redis x, MkDesk (e_engine x) (e_requests x) (e_header x) (dk_served (snd s))).

#[export] Instance edge_lens : Lens edge_of with_edge.
Proof. by split; [intros [] [? []] | intros [? []] |]. Qed.

Definition serve_as (x : served) (s : R * desk E) : R * desk E :=
  (fst s, MkDesk (dk_engine (snd s)) (dk_requests (snd s)) (dk_header (snd s)) (Some x)).

(** A SubmitDocument request with the metadata [md], at the gate of a server
    with the callers [cs]. *)
Definition gate_process (cs : list CallerConfig) (md : option (gmap string (list string))) : M (R * desk E) unit :=
  let! t := now in
  let! outcome := try (zoom edge_of with_edge (authenticate (incoming md) SubmitDocument_FullMethodName
    (NewCallerRegistry cs) (caller_limits cs) (MkLimiter true))) in
  let! t' := now in
  modify (serve_as (MkServed t t' outcome)).

(** The requests about to be served. *)
Definition gate_system (cs : list CallerConfig) (e : E) (mds : list (option (gmap string (list string))))
    (t : Z) (r : R) : system R (desk E) :=
  System t r (map (fun md => (MkDesk e [] [] None, gate_process cs md)) mds).

(** The registered caller a request presents the key of. *)
Definition caller_for (cs : list CallerConfig) (md : option (gmap string (list string))) : option Caller :=
  presented md ≫= Lookup (NewCallerRegistry cs).
End gate.

(** ** The protocol *)

(** Redis, with what only the proof sees: the requests the counter of the window
    counted while it was open, in that order and with the times of their INCRs,
    and the time it is at least. *)
Record tally (R : Type) := MkTally { ta_redis : R; ta_counts : list (nat * Z); ta_now : Z }.
Arguments MkTally {R} _ _ _.
Arguments ta_redis {R} _.
Arguments ta_counts {R} _.
Arguments ta_now {R} _.

Definition ta_counted {R} (sh : tally R) : list nat := map fst (ta_counts sh).

Section protocol.
Context {R E : Type} `{RedisLib R}.
Variables (cs : list CallerConfig) (mds : list (option (gmap string (list string)))) (c : CallerConfig) (ws : Z).
(** whether the calls on Redis all go through *)
Variable healthy : bool.
(** what Redis shows of the times of the window's INCRs *)
Variable recorded : R -> list Z -> Prop.

Definition win_start : Z := ws * Window (RateLimit c).
Definition win_end : Z := win_start + Window (RateLimit c).
Definition win_key : string := rate_key (Name c) ws.

(** How the request that came [k]-th is answered. *)
Definition verdict (k : nat) : result Caller :=
  if Z.of_nat k <? Requests (RateLimit c) then Ok (caller_of c)
  else Err (Status code_ResourceExhausted "rate limit exceeded for caller %q" [Name c]).

(** The counter's value after [n] requests. *)
Definition shown (n : nat) : option string :=
  match n with O => None | S _ => Some (counter_text (Z.of_nat n)) end.

Definition with_redis (r : R) (sh : tally R) : tally R := MkTally r (ta_counts sh) (ta_now sh).

Definition of_caller (i : nat) : Prop :=
  exists md, mds !! i = Some md /\ caller_for cs md = Some (caller_of c).

Record counts (t : Z) (sh : tally R) : Prop := {
  co_now : 0 <= ta_now sh <= t;
  co_once : NoDup (ta_counted sh);
  co_caller i : i ∈ ta_counted sh -> of_caller i;
  co_past x : x ∈ ta_counts sh -> snd x <= ta_now sh;
  co_record : recorded (ta_redis sh) (map snd (ta_counts sh));
  co_shown t' : t <= t' < win_end -> rd_get t' win_key (ta_redis sh) = shown (length (ta_counted sh));
}.

(** What request [i] does to the counted ones, and expects of the others. *)
Record counts_itself (i : nat) (sh sh' : tally R) : Prop := {
  ci_counted : ta_counts sh' = ta_counts sh \/
    exists t, i ∉ ta_counted sh /\ ta_counts sh' = ta_counts sh ++ [(i, t)] /\ ta_now sh <= t <= ta_now sh';
  ci_now : ta_now sh <= ta_now sh';
}.
Record counted_by_others (i : nat) (sh sh' : tally R) : Prop := {
  cb_prefix : ta_counted sh `prefix_of` ta_counted sh';
  cb_other t : (i, t) ∈ ta_counts sh' -> (i, t) ∈ ta_counts sh;
  cb_now : ta_now sh <= ta_now sh';
}.

(** Request [i] has its place among the counted, and is answered by it; or its
    count failed, and it is let through; or the window is over. *)
Definition placed (i : nat) (let_through : Prop) (P : nat -> Prop) (sh : tally R) : Prop :=
  win_end <= ta_now sh \/ (healthy = false /\ let_through) \/ exists k, ta_counted sh !! k = Some i /\ P k.

(** A request of the caller decided within the window is answered by its place,
    unless its count failed; and one that was counted was counted while it was
    served. *)
Definition answered (i : nat) (sh : tally R) (d : desk E) : Prop :=
  forall x, dk_served d = Some x ->
    (of_caller i -> win_start <= sv_from x -> sv_to x < win_end ->
       (healthy = false /\ sv_outcome x = Ok (caller_of c)) \/
       exists k, ta_counted sh !! k = Some i /\ sv_outcome x = verdict k) /\
    forall t, (i, t) ∈ ta_counts sh -> sv_from x <= t <= sv_to x.

(** Request [i] presented the caller's key, came and was decided within the
    window, with that outcome. *)
Definition decided (s : system R (desk E)) (i : nat) (outcome : result Caller) : Prop :=
  exists d m from til, c_procs s !! i = Some (d, m) /\ dk_served d = Some (MkServed from til outcome) /\
    of_caller i /\ win_start <= from /\ til < win_end.
End protocol.
