(* ===== verification/GateFacts.v ===== *)
(** * Theorems on concurrent requests at the gate

    The requests keep the protocol of the window they come in, so that Redis's
    counter puts those of a caller in one order, whatever the interleaving, and
    the first [Requests] of them are let through.  Where calls on Redis fail,
    a request that was not counted is let through as well. *)
From S2P Require Import Prelude Utf8 GoTime Sha256 Redis Constant Config ConfigFacts Auth AuthFacts Concurrent ServerFacts Gate.

Section gate.
Context {R E : Type} `{RedisLaws R, GrpcLib}.
Variables (cs : list CallerConfig) (mds : list (option (gmap string (list string)))) (c : CallerConfig) (ws : Z).
(** Whether every call on Redis goes through, and what Redis shows of the times
    of the window's INCRs. *)
Variables (healthy : bool) (recorded : R -> list Z -> Prop).

#[local] Abbreviation W := (Window (RateLimit c)).
#[local] Abbreviation counts := (counts (R := R) cs mds c ws recorded).
#[local] Abbreviation answered := (answered (R := R) (E := E) cs mds c ws healthy).
#[local] Abbreviation of_caller := (of_caller cs mds c).
#[local] Abbreviation win_start := (win_start c ws).
#[local] Abbreviation win_end := (win_end c ws).
#[local] Abbreviation win_key := (win_key c ws).

(** ** The protocol *)

#[export] Instance others_preorder i : PreOrder (counted_by_others (R := R) i).
Proof.
  split; [by intros sh; split|]. intros s1 s2 s3 [? ? ?] [? ? ?]. split; [by etransitivity | auto | lia].
Qed.

Lemma counted_at i (sh : tally R) : i ∈ ta_counted sh <-> exists t, (i, t) ∈ ta_counts sh.
Proof.
  unfold ta_counted. rewrite list_elem_of_fmap. split; [intros ([j t] & -> & Hin); by exists t | intros [t Hin]; by exists (i, t)].
Qed.

Lemma others_counted i (sh sh' : tally R) : counted_by_others i sh sh' -> i ∈ ta_counted sh' -> i ∈ ta_counted sh.
Proof. intros Hg. rewrite !counted_at. intros [t Ht]. exists t. by apply (cb_other _ _ _ Hg). Qed.

#[export] Instance now_preorder : PreOrder (fun sh sh' : tally R => ta_now sh <= ta_now sh').
Proof. split; [intros sh | intros s1 s2 s3]; lia. Qed.

Lemma counts_later t t' sh : t <= t' -> counts t sh -> counts t' sh.
Proof. intros Ht [Hn Ho Hc Hp Hr Hs]. split; [lia | done..|]. intros t2 Ht2. apply Hs. lia. Qed.

Lemma itself_refl i (sh : tally R) : counts_itself i sh sh.
Proof. split; [by left | done]. Qed.

Lemma itself_others i j (sh sh' : tally R) : i <> j -> counts_itself i sh sh' -> counted_by_others j sh sh'.
Proof.
  unfold ta_counted. intros Hne [[Heq|(t & Hi & Heq & _)] Hn]; split; unfold ta_counted; rewrite ?Heq, ?map_app; try done;
    [by apply prefix_app_r|].
  intros t' [|Hin]%elem_of_app; [done|]. apply list_elem_of_singleton in Hin. congruence.
Qed.

Lemma answered_stable i sh sh' d : counted_by_others i sh sh' -> answered i sh d -> answered i sh' d.
Proof.
  intros [Hp Ho _] Ha x Hx. destruct (Ha x Hx) as [Hplace Htime]. split; [|by intros t Ht; apply Htime, Ho].
  intros Hi Hs He. destruct (Hplace Hi Hs He) as [Hthrough|(k & Hk & Hv)]; [by left | right].
  exists k. split; [by eapply prefix_lookup_Some | done].
Qed.

Definition window_protocol (i : nat) : Protocol (tally R) (desk E) := {|
  rely := counted_by_others i;
  guar := counts_itself i;
  ghost sh sh' := ta_redis sh' = ta_redis sh;
  inv := counts;
  own := answered i;
  meets tk := healthy = true -> t_fault tk = NoFault;
  rely_preorder := others_preorder i;
  ghost_refl _ := eq_refl;
  guar_refl := itself_refl i;
  inv_later := counts_later;
  own_stable := answered_stable i;
|}.

#[export] Instance window_protocols : Protocols R (tally R) (desk E).
Proof.
  refine {| erase := ta_redis; update := with_redis; protocol := window_protocol; invariant := counts;
            allowed tk := healthy = true -> t_fault tk = NoFault |}; try done.
  intros i j sh sh'. apply itself_others.
Defined.

Lemma placed_stable i F (P : nat -> Prop) sh sh' :
  counted_by_others i sh sh' -> placed (R := R) c ws healthy i F P sh -> placed c ws healthy i F P sh'.
Proof.
  intros [Hp _ Hn] [He|[HF|(k & Hk & HP)]]; [left; lia | by right; left | right; right].
  exists k. split; [by eapply prefix_lookup_Some | done].
Qed.

Lemma placed_mono i (F F' : Prop) (P P' : nat -> Prop) (sh : tally R) :
  (F -> F') -> (forall k, P k -> P' k) -> placed c ws healthy i F P sh -> placed c ws healthy i F' P' sh.
Proof.
  intros HF HP [He|[[Hh Hf]|(k & Hk & Hv)]]; [by left | right; left; auto | right; right; eauto].
Qed.

(** ** The calls on Redis *)

Hypothesis valid : callers_errors ∅ cs = [].
Hypothesis configured : c ∈ cs.
Hypothesis window_fits : W < 4611686018427387904.
Hypothesis few : Z.of_nat (length mds) < 9223372036854775807.
Hypothesis recorded_incr : forall t k r l, recorded r l ->
  recorded (snd (rd_incr t k r))
    (l ++ if String.eqb k win_key && (win_start <=? t) && (t <? win_end) then [t] else []).
Hypothesis recorded_expire : forall t k ttl r l, recorded r l -> recorded (snd (rd_expire t k ttl r)) l.
Variables (r0 : R) (t0 : Z).
Hypothesis fresh : rd_get t0 win_key r0 = None.

Lemma window_positive : 0 < W.
Proof. apply callers_errors_nil in valid as (Hok & _ & _). rewrite list.Forall_forall in Hok. by destruct (Hok c configured). Qed.

(** What the registry resolves a key to. *)
Lemma resolved key caller :
  Lookup (NewCallerRegistry cs) key = Some caller ->
  exists limit, caller_limits cs !! c_Name caller = Some limit /\ no_colon (c_Name caller) = true /\
    (c_Name caller = Name c -> caller = caller_of c /\ limit = c).
Proof.
  intros Hl. pose proof (Lookup_limited _ _ _ Hl) as [limit Hlim].
  apply Lookup_Some in Hl as (c' & Hc' & _ & ->). exists limit. cbn in *.
  apply callers_errors_nil in valid as (Hok & Hnd & _). rewrite list.Forall_forall in Hok.
  split; [done|]. split; [by apply pattern_no_colon; destruct (Hok c' Hc')|].
  intros Hn. assert (c' = c) as -> by (by apply (NoDup_map_eq Name cs)). split; [done|].
  apply limits_Some in Hlim as [Hin Hname]. by apply (NoDup_map_eq Name cs).
Qed.

Lemma name_no_colon : no_colon (Name c) = true.
Proof.
  apply callers_errors_nil in valid as (Hok & _ & _). rewrite list.Forall_forall in Hok.
  by apply pattern_no_colon; destruct (Hok c configured).
Qed.

(** The requests are fewer than a counter can count. *)
Lemma counted_few t sh : counts t sh -> Z.of_nat (length (ta_counted sh)) < 9223372036854775807.
Proof.
  intros [_ Hnd Hc _ _ _]. enough (length (ta_counted sh) <= length mds)%nat by lia.
  transitivity (length (seq 0 (length mds))); [|by rewrite length_seq].
  apply submseteq_length, NoDup_submseteq; [done|].
  intros i (md & Hmd & _)%Hc. apply elem_of_seq. apply lookup_lt_Some in Hmd. lia.
Qed.

Section request.
Variable i : nat.
#[local] Instance protocol_here : Protocol (tally R) (desk E) := window_protocol i.

Lemma faulty : may_fail -> healthy = false.
Proof. intros (tk & Hm & Hf). cbn in Hm. destruct healthy; [by destruct Hf; apply Hm | done]. Qed.

#[local] Abbreviation state := (tally R * desk E)%type.
#[local] Abbreviation tally_safe :=
  (safe (fun s : state => ta_redis (fst s)) (fun r s => (with_redis r (fst s), snd s))).

(** A call that leaves the counter of the window as it is. *)
Lemma keeping_safe {A} (f : Z -> R -> result A * R) Q s :
  stable Q ->
  (forall sh t, counted_by_others i (fst s) sh -> counts t sh ->
     (forall t', t <= t' < win_end ->
        rd_get t' win_key (snd (f t (ta_redis sh))) = rd_get t' win_key (ta_redis sh)) /\
     (forall l, recorded (ta_redis sh) l -> recorded (snd (f t (ta_redis sh))) l) /\
     Q (fst (f t (ta_redis sh))) (with_redis (snd (f t (ta_redis sh))) sh, snd s) /\
     (healthy = false -> forall e, Q (Err e) (sh, snd s) /\
        Q (Err e) (with_redis (snd (f t (ta_redis sh))) sh, snd s))) ->
  tally_safe (remote f) Q s.
Proof.
  intros HQ Hf. apply safe_call; [by intros [[] []] | done |]. intros sh t1 t Hg Ho Hi Ht.
  destruct (Hf sh t Hg (counts_later _ _ _ Ht Hi)) as (Hk & Hrec & Hq & He). cbn [fst snd].
  exists (with_redis (snd (f t (ta_redis sh))) sh). split; [done|].
  destruct (counts_later _ _ _ Ht Hi) as [Hn Hnd Hc Hp Hr Hs].
  split; [|split; [|split; [split; [by left | done] | split; [done | split; [done | by intros Hm%faulty; apply He]]]]].
  - split; [done..| by apply Hrec |]. intros t' Ht'. cbn [ta_redis with_redis]. rewrite Hk by done. by apply Hs.
  - intros Hpure. rewrite Hpure. by destruct sh.
Qed.

(** The counter of the window, counting one of the requests of the caller. *)
Lemma counting t sh :
  counts t sh -> t < win_end ->
  exists r, rd_incr t win_key (ta_redis sh) = (Ok (Z.of_nat (length (ta_counted sh)) + 1), r) /\
    forall t', t <= t' < win_end -> rd_get t' win_key r = shown (S (length (ta_counted sh))).
Proof.
  intros Hi Ht. pose proof (counted_few _ _ Hi) as Hfew. destruct Hi as [_ _ _ _ _ Hs].
  cbn [shown]. rewrite Nat2Z.inj_succ, <- Z.add_1_r.
  destruct (length (ta_counted sh)) as [|n]; cbn [shown] in Hs.
  - destruct (incr_absent t win_key (ta_redis sh)) as [Hi Hg]; [apply Hs; lia|].
    destruct (rd_incr _ _ _) as [x r]. cbn [fst snd] in *. subst x. exists r. split; [done|].
    intros t' Ht'. apply Hg. lia.
  - pose proof (Hs t ltac:(lia)) as Hlive. set (m := Z.of_nat (S n)) in *.
    destruct (incr_live t win_key (ta_redis sh) m Hlive ltac:(lia)) as (Hi & _ & Hl).
    pose proof (incr_live_value t win_key (ta_redis sh) m) as Hval.
    destruct (rd_incr _ _ _) as [x r]. cbn [fst snd] in *. subst x. exists r. split; [done|].
    intros t' Ht'. destruct (rd_get t' win_key r) as [x|] eqn:Hx.
    + f_equal. eapply (Hval t' x); [done | lia | lia | done].
    + apply Hl in Hx; [|lia]. rewrite Hs in Hx; [done | lia].
Qed.

(** The tally with one request more. *)
Lemma counts_snoc t sh r :
  counts t sh -> of_caller i -> i ∉ ta_counted sh -> recorded r (map snd (ta_counts sh) ++ [t]) ->
  (forall t', t <= t' < win_end -> rd_get t' win_key r = shown (S (length (ta_counted sh)))) ->
  counts t (MkTally r (ta_counts sh ++ [(i, t)]) t).
Proof.
  intros [Hn Hnd Hc Hp _ _] Hi Hni Hrec Hs.
  split; unfold ta_counted; cbn [ta_now ta_counts ta_redis]; rewrite ?map_app; cbn [map fst snd]; [lia | | | | done |].
  - apply list.NoDup_app. split; [done|]. split; [|apply NoDup_singleton]. by intros x Hx ->%list_elem_of_singleton.
  - intros j [Hj|Hj%list_elem_of_singleton]%elem_of_app; [by apply Hc | by subst j].
  - intros x [Hx| ->%list_elem_of_singleton]%elem_of_app; [specialize (Hp x Hx); lia | done].
  - rewrite length_app, Nat.add_comm. exact Hs.
Qed.

Lemma Incr_window s :
  of_caller i -> i ∉ ta_counted (fst s) -> win_start <= ta_now (fst s) -> dk_served (snd s) = None ->
  tally_safe (Incr win_key) (fun r s' => snd s' = snd s /\
    placed c ws healthy i (is_ok r = false) (fun k => r = Ok (Z.of_nat k + 1)) (fst s')) s.
Proof.
  intros Hi Hnew Hstart Hunserved. apply safe_call; [by intros [[] []]| |].
  { intros r s1 sh Hg [Hs Hp]. split; [done|]. by eapply placed_stable. }
  intros sh t1 t Hg Ho Hinv Ht. pose proof (counts_later _ _ _ Ht Hinv) as Hinv'. cbn [fst snd].
  assert (i ∉ ta_counted sh) as Hni by (intros Hc; by eapply Hnew, others_counted).
  assert (~ forall t x, snd (rd_incr t win_key x) = x) as Hnot.
  { intros Hpure. destruct (incr_absent t0 win_key r0 fresh) as [_ Hg0].
    specialize (Hg0 t0 ltac:(lia)). rewrite Hpure, fresh in Hg0. done. }
  pose proof (cb_now _ _ _ Hg) as Hgn. pose proof (recorded_incr t win_key _ _ (co_record _ _ _ _ _ _ _ Hinv')) as Hrec.
  rewrite String.eqb_refl, (proj2 (Z.leb_le win_start t)) in Hrec by (destruct Hinv'; lia). cbn [andb] in Hrec.
  destruct (Z.ltb_spec t win_end) as [Hlt|Hge].
  - destruct (counting t sh Hinv' Hlt) as (r & Hcount & Hshown). rewrite Hcount in *. cbn [fst snd] in *.
    exists (MkTally r (ta_counts sh ++ [(i, t)]) t). split; [done|].
    split; [by apply counts_snoc|]. pose proof (co_now _ _ _ _ _ _ _ Hinv') as Hn.
    split; [by intros Hpure; destruct Hnot|]. split; [split; [right; exists t; split; [exact Hni | split; [reflexivity | cbn; lia]] | cbn; lia]|].
    split; [intros x Hx; congruence | split; [split; [done|]|]].
    + right; right. exists (length (ta_counted sh)). split; [|done]. unfold ta_counted. cbn [ta_counts].
      rewrite map_app. by apply list_lookup_middle.
    + intros Hm%faulty e. by split; (split; [done | right; left]).
  - rewrite app_nil_r in Hrec.
    exists (MkTally (snd (rd_incr t win_key (ta_redis sh))) (ta_counts sh) t). split; [done|].
    destruct Hinv' as [Hn Hnd Hc Hp _ Hs].
    split; [split; cbn; [lia | done | done | intros x Hx; specialize (Hp x Hx); lia | done | lia]|].
    split; [by intros Hpure; destruct Hnot|].
    split; [split; cbn; [by left | lia]|]. split; [done|]. split; [by split; [|left]|].
    intros Hm%faulty e. by split; (split; [done | right; left]).
Qed.

(** EXPIRE on the counter does not cut the window short. *)
Lemma expire_window t sh t' :
  counts t sh -> win_start <= ta_now sh -> t <= t' < win_end ->
  rd_get t' win_key (snd (rd_expire t win_key (int64 (2 * W)) (ta_redis sh))) = rd_get t' win_key (ta_redis sh).
Proof.
  intros [Hn _ _ _ _ Hs] Hstart Ht. pose proof window_positive as HW. rewrite int64_id by lia.
  pose proof (whole_seconds_half W HW) as Hhalf. unfold win_end in *. rewrite Hs by lia.
  destruct (shown _) as [x|] eqn:Hx.
  - apply expire_keeps; [lia | lia |]. apply Hs. lia.
  - destruct (rd_get t' win_key _) as [x|] eqn:Hg; [|done]. apply expire_value in Hg; [|lia | lia].
    rewrite Hs in Hg; [done | lia].
Qed.

(** Reading the clock. *)
Lemma clock_safe {S} (get : state -> S) put s :
  (forall s, put (get s) s = s) ->
  safe get put now (fun r s' => exists t, r = Ok t /\ 0 <= t /\ ta_now (fst s) <= t <= ta_now (fst s') /\
    counted_by_others i (fst s) (fst s') /\ snd s' = snd s) s.
Proof.
  intros Hput. apply safe_now; [done | |].
  { intros r s1 sh Hg (t & -> & H0t & Ht & Hg1 & Hs). exists t. split; [done|]. split; [done|]. split; [|split; [by etransitivity | done]].
    pose proof (cb_now _ _ _ Hg). cbn [fst] in *. lia. }
  intros sh t Hg Ho [Hn Hnd Hc Hp Hr Hs]. exists (MkTally (ta_redis sh) (ta_counts sh) t). cbn [fst snd].
  pose proof (cb_now _ _ _ Hg). split; [done|].
  split; [split; cbn; [lia | done | done | intros x Hx; specialize (Hp x Hx); lia | done | done]|].
  split; [split; cbn; [by left | lia]|]. split; [done|]. exists t. cbn. split; [done|]. split; [lia|]. split; [lia|]. split; [|done].
  etransitivity; [exact Hg|]. split; cbn; done || lia.
Qed.

(** ** The limiter *)

Section allow.
Variables (caller : Caller) (limit : CallerConfig) (t : Z).
Hypothesis named : no_colon (c_Name caller) = true.
Hypothesis limited : c_Name caller = Name c -> limit = c /\ of_caller i.

(** The request is of the caller, and came no sooner than the window. *)
#[local] Abbreviation due := (c_Name caller = Name c /\ win_start <= t).
#[local] Abbreviation key t1 := (rate_key (c_Name caller) (window_start (Window (RateLimit limit)) t1)).

Lemma key_window t1 : 0 <= t1 -> key t1 = win_key -> limit = c /\ of_caller i /\ win_start <= t1 < win_end.
Proof.
  intros Ht Hk. apply rate_key_inj in Hk as [Hn Hws]; [|done | apply name_no_colon].
  destruct (limited Hn) as [-> Hi]. split; [done|]. split; [done|].
  by apply window_start_iff in Hws; [|apply window_positive | done].
Qed.

Lemma key_other t1 : due -> 0 <= t1 -> t <= t1 -> key t1 <> win_key -> win_end <= t1.
Proof.
  intros [Hn Hs] Hpos Ht Hk. destruct (limited Hn) as [-> _]. destruct (Z.lt_ge_cases t1 win_end) as [Hlt|]; [|done].
  destruct Hk. rewrite Hn. unfold win_key. f_equal. apply window_start_iff; [apply window_positive | done |].
  unfold win_end, win_start in *. lia.
Qed.

(** INCR, and EXPIRE after it, for a request that looked at the clock at [t1]. *)
Lemma Incr_placed t1 s :
  0 <= t1 -> t <= t1 <= ta_now (fst s) -> i ∉ ta_counted (fst s) -> dk_served (snd s) = None ->
  tally_safe (Incr (key t1)) (fun r s' => ta_now (fst s) <= ta_now (fst s') /\ snd s' = snd s /\
    (due -> placed c ws healthy i (is_ok r = false) (fun k => r = Ok (Z.of_nat k + 1)) (fst s'))) s.
Proof.
  intros Hpos Ht Hnew Hunserved. destruct (decide (key t1 = win_key)) as [Hk|Hk].
  - rewrite Hk. destruct (key_window t1 Hpos Hk) as (_ & Hi & Hw).
    apply (safe_along _ _ _ _ _ (fun sh sh' => ta_now sh <= ta_now sh')); [by intros ? ? [] | by intros ? ? []|].
    eapply safe_conseq; [|exact (Incr_window s Hi Hnew ltac:(lia) Hunserved)]. by intros r s' _ [Hs Hp].
  - apply keeping_safe.
    { intros r s1 sh Hg (Hn & Hs & Hp). pose proof (cb_now _ _ _ Hg). split; [cbn in *; lia|].
      split; [done|]. intros Hd. eapply placed_stable; [exact Hg | by apply Hp]. }
    intros sh t2 Hg _. pose proof (cb_now _ _ _ Hg). cbn [fst snd with_redis ta_now].
    assert (due -> win_end <= ta_now sh) as Hover by (intros Hd; pose proof (key_other t1 Hd Hpos ltac:(lia) Hk); lia).
    split; [intros t' Ht'; apply incr_other; [lia | congruence]|].
    split; [intros l Hl; apply (recorded_incr t2 (key t1)) in Hl; by rewrite (proj2 (String.eqb_neq _ _) Hk), app_nil_r in Hl|].
    split; [|intros _ e; split]; (split; [done|]; split; [done|]; intros Hd; left; by apply Hover).
Qed.

Lemma Expire_keeps t1 s (Q : tally R -> Prop) :
  0 <= t1 <= ta_now (fst s) -> (forall sh sh', counted_by_others i sh sh' -> Q sh -> Q sh') -> Q (fst s) ->
  (forall r sh, Q sh -> Q (with_redis r sh)) ->
  tally_safe (Expire (key t1) (int64 (2 * Window (RateLimit limit)))) (fun _ s' => snd s' = snd s /\ Q (fst s')) s.
Proof.
  intros Ht HQ Hs Hr. unfold Expire. apply keeping_safe.
  { intros r s1 sh Hg [Hp Hq]. split; [done | by eapply HQ]. }
  intros sh t2 Hg Hi. pose proof (cb_now _ _ _ Hg).
  destruct (rd_expire t2 (key t1) _ (ta_redis sh)) as [b r] eqn:He. cbn [fst snd].
  assert (r = snd (rd_expire t2 (key t1) (int64 (2 * Window (RateLimit limit))) (ta_redis sh))) as Hr' by by rewrite He.
  split; [|split; [intros l Hl; rewrite Hr'; by apply recorded_expire|split; [|intros _ e; split]]];
    [|by split; [done | try apply Hr; eapply HQ]..].
  intros t' Ht'. rewrite Hr'.
  destruct (decide (key t1 = win_key)) as [Hk|Hk].
  - destruct (key_window t1 ltac:(lia) Hk) as (Hl & _ & Hw). rewrite Hk, Hl. apply expire_window; [done | lia | done].
  - apply expire_other; [lia | congruence].
Qed.

Lemma Allow_placed s :
  t <= ta_now (fst s) -> 0 <= ta_now (fst s) -> i ∉ ta_counted (fst s) -> dk_served (snd s) = None ->
  tally_safe (Allow true caller limit) (fun r s' => snd s' = snd s /\
    exists x b, r = Ok (x, b) /\
      (due -> placed c ws healthy i (b = true) (fun k => b = (Z.of_nat k <? Requests (RateLimit c))) (fst s'))) s.
Proof.
  intros Ht Hpos Hnew Hunserved. unfold Allow. cbn [negb]. set (post := fun (r : result (Z * bool)) (s' : state) => _).
  apply safe_bind. eapply safe_conseq; [|apply clock_safe; by intros [[] ?]].
  intros r s1 _ (t1 & -> & _ & Ht1 & Hg1 & Hs1).
  assert (i ∉ ta_counted (fst s1)) as Hnew1 by (intros Hin; by eapply Hnew, others_counted).
  apply safe_bind_try. eapply safe_conseq; [|apply (Incr_placed t1); [lia | lia | done | congruence]].
  intros [n|e] s2 _ (Hn & Hs2 & Hp).
  2: { apply safe_done. intros sh Hg _. split; [cbn; congruence|]. exists 0, true. split; [done|].
       intros Hd. apply (placed_stable i _ _ (fst s2)); [exact Hg|]. eapply placed_mono, (Hp Hd); done. }
  set (Q := fun sh : tally R => due -> placed c ws healthy i False (fun k => n = Z.of_nat k + 1) sh).
  assert (Q (fst s2)) as Hq by (intros Hd; eapply placed_mono, (Hp Hd); [done | by intros k [= ->]]).
  assert (forall sh sh', counted_by_others i sh sh' -> Q sh -> Q sh') as HQ
    by (intros sh sh' Hg Hsh Hd; eapply placed_stable; [exact Hg | by apply Hsh]).
  assert (forall s3, snd s3 = snd s -> Q (fst s3) -> tally_safe (if Requests (RateLimit limit) <? n then
      let! t' := now in
      ret (int64 (Window (RateLimit limit) - int64 (t' - int64 (window_start (Window (RateLimit limit)) t1 *
        Window (RateLimit limit)))), false) else ret (0, true)) post s3) as Hend.
  { intros s3 Hs3 Hq3.
    assert (forall x s4, snd s4 = snd s -> Q (fst s4) ->
      tally_safe (ret (x, negb (Requests (RateLimit limit) <? n))) post s4) as Hret.
    { intros x s4 Hs4 Hq4. apply safe_done. intros sh Hg _. split; [done|]. eexists _, _. split; [done|].
      intros Hd. eapply placed_mono, (HQ _ _ Hg Hq4 Hd); [done|]. intros k ->.
      destruct (limited (proj1 Hd)) as [-> _]. cbn. destruct (Z.ltb_spec (Requests (RateLimit c)) (Z.of_nat k + 1)), (Z.ltb_spec (Z.of_nat k) (Requests (RateLimit c))); done || lia. }
    destruct (_ <? n); [|by apply Hret].
    apply safe_bind. eapply safe_conseq; [|apply clock_safe; by intros [[] ?]].
    intros r s4 _ (t' & -> & _ & _ & Hg4 & Hs4). apply Hret; [congruence | by eapply HQ]. }
  apply safe_bind. destruct (n =? 1); [|by apply safe_done; intros sh Hg _; apply Hend; [cbn; congruence | by eapply HQ]].
  apply safe_bind_try. eapply safe_conseq; [|apply (Expire_keeps t1 s2 Q); [lia | done | done | done]].
  intros r s3 _ [Hs3 Hq3]. apply safe_done. intros sh Hg _. apply Hend; [cbn; congruence | by eapply HQ].
Qed.
End allow.

(** ** The gate *)

#[local] Abbreviation edge_safe := (safe (fun s : state => edge_of (seen s))
  (fun x s => with_seen (with_edge x (seen s)) s)).

Lemma edge_put (s : state) : with_seen (with_edge (edge_of (seen s)) (seen s)) s = s.
Proof. by destruct s as [[] []]. Qed.

Lemma authenticate_placed md t s :
  mds !! i = Some md -> t <= ta_now (fst s) -> 0 <= ta_now (fst s) -> i ∉ ta_counted (fst s) ->
  dk_served (snd s) = None ->
  edge_safe (authenticate (incoming md) SubmitDocument_FullMethodName (NewCallerRegistry cs) (caller_limits cs) (MkLimiter true))
    (fun r s' => dk_served (snd s') = dk_served (snd s) /\
       (of_caller i -> win_start <= t ->
          placed c ws healthy i (r = Ok (caller_of c)) (fun k => r = verdict c k) (fst s'))) s.
Proof.
  intros Hmd Ht Hpos Hnew Hunserved. set (post := fun (r : result Caller) (s' : state) => _).
  assert (stable post) as Hpost.
  { intros r s1 sh Hg [Hd Hp]. split; [done|]. intros Hi Hs. eapply placed_stable; [exact Hg | by apply Hp]. }
  assert (forall e, caller_for cs md = None -> edge_safe (throw e) post s) as Hthrow.
  { intros e Hno. apply safe_done. intros sh _ _. split; [done|]. intros (md' & Hmd' & Hc). congruence. }
  unfold authenticate, incoming, FromIncomingContext. cbn [ctx_Incoming]. unfold caller_for, presented in Hthrow. destruct md as [hdr|]; [|by apply Hthrow].
  destruct (default [] _) as [|key ks] eqn:Ekeys; [by apply Hthrow|]. destruct (String.eqb key "") eqn:Ekey; [by apply Hthrow|].
  destruct (Lookup _ key) as [caller|] eqn:Hl; [|by apply Hthrow].
  destruct (resolved key caller Hl) as (limit & Hlim & Hnamed & Hsame). rewrite Hlim.
  assert (caller_for cs (Some hdr) = Some caller) as Hcaller by (unfold caller_for, presented; by rewrite Ekeys, Ekey).
  apply safe_bind. zoom_in.
  apply (safe_ext (fun s => ta_redis (fst s)) _ (fun r s => (with_redis r (fst s), snd s)));
    [done | by intros r [[] []] |].
  eapply safe_conseq; [|apply (Allow_placed caller limit t); [done | | done..]].
  2: { intros Hn. destruct (Hsame Hn) as [-> ->]. split; [done|]. by exists (Some hdr). }
  intros r s1 _ (Hs1 & x & b & -> & Hp).
  assert (of_caller i -> caller = caller_of c) as Hof by (intros (md' & Hmd' & Hc); congruence).
  destruct b.
  - apply safe_done. intros sh Hg _. apply (Hpost _ s1); [done|]. split; [by rewrite Hs1|]. intros Hi Hs.
    eapply placed_mono, Hp; [|intros k Hk|by rewrite (Hof Hi)]; [by rewrite (Hof Hi)|].
    unfold verdict. rewrite <- Hk. by rewrite (Hof Hi).
  - apply safe_bind, safe_modify; [by apply safe_stable_bind | by intros [] |].
    intros [r1 n1 t2] t1 Hg Ho _. split; [exact Ho|]. apply safe_done. intros sh' Hg' _.
    apply Hpost; [exact Hg'|]. split; [by rewrite <- Hs1|]. intros Hi Hs.
    apply (placed_stable i _ _ (fst s1)); [exact Hg|]. eapply placed_mono, Hp; [done| |by rewrite (Hof Hi)].
    intros k Hk. unfold verdict. rewrite <- Hk. by rewrite (Hof Hi).
Qed.

(** The request is counted between two looks at the clock. *)
Definition counted_between (sh sh' : tally R) : Prop :=
  ta_now sh <= ta_now sh' /\
  forall t, (i, t) ∈ ta_counts sh' -> (i, t) ∈ ta_counts sh \/ ta_now sh <= t <= ta_now sh'.

#[local] Instance between_preorder : PreOrder counted_between.
Proof.
  split; [intros sh; split; [lia | by left]|]. intros s1 s2 s3 [H12 Hc12] [H23 Hc23]. split; [lia|].
  intros t [Ht|]%Hc23; [|lia || (right; lia)]. destruct (Hc12 t Ht); [by left | right; lia].
Qed.

Lemma itself_between sh sh' : counts_itself i sh sh' -> counted_between sh sh'.
Proof.
  intros [[Heq|(t & _ & Heq & Ht)] Hn]; (split; [done|]); rewrite Heq; [by left|].
  intros t' [|Hin%list_elem_of_singleton]%elem_of_app; [by left | right]. by injection Hin as ->.
Qed.

Lemma others_between sh sh' : counted_by_others i sh sh' -> counted_between sh sh'.
Proof. intros [_ Ho Hn]. split; [done|]. intros t Ht. left. by apply Ho. Qed.

Lemma gate_safe md (s : state) :
  mds !! i = Some md -> 0 <= ta_now (fst s) -> i ∉ ta_counted (fst s) -> dk_served (snd s) = None ->
  safe seen with_seen (gate_process cs md) (fun _ _ => True) s.
Proof.
  intros Hmd Hpos Hnew Hunserved. unfold gate_process.
  assert (forall s : state, with_seen (seen s) s = s) as Hput by (by intros [[] []]).
  apply safe_bind. eapply safe_conseq; [|by apply clock_safe].
  intros r s1 _ (t & -> & _ & Ht & Hg1 & Hs1).
  assert (i ∉ ta_counted (fst s1)) as Hnew1 by (intros Hin; by eapply Hnew, others_counted).
  apply safe_bind_try. zoom_in.
  eapply safe_conseq; [|eapply (safe_along _ _ _ _ _ counted_between);
    [exact itself_between | exact others_between | apply (authenticate_placed md t); [done | lia | lia | done | congruence]]].
  intros outcome s2 _ ([Hn2 Hb] & _ & Hp). apply safe_bind. eapply safe_conseq; [|by apply clock_safe].
  intros r s3 _ (t' & -> & _ & Ht' & Hg3 & _). apply safe_modify; [done | by intros [] |].
  intros sh t1 Hg _ _. split; [|done]. intros x [= <-]. cbn [sv_from sv_to sv_outcome]. split.
  - intros Hi Hs He. destruct (Hp Hi Hs) as [Hover|[Hthrough|(k & Hk & Hv)]]; [lia | by left | right].
    exists k. split; [|done]. eapply prefix_lookup_Some; [exact Hk|]. etransitivity; [apply Hg3 | apply Hg].
  - intros tc Hc. apply (cb_other _ _ _ Hg), (cb_other _ _ _ Hg3), Hb in Hc as [Hc|Hc]; [|lia].
    destruct Hnew1. apply counted_at. by exists tc.
Qed.
End request.
End gate.

(** ** The requests together *)

Section together.
Context {R E : Type} `{RedisLaws R, GrpcLib}.

Section decisions.
Variables (recorded : R -> list Z -> Prop) (healthy : bool) (cs : list CallerConfig) (c : CallerConfig) (ws : Z).
#[local] Abbreviation from := (win_start c ws).
#[local] Abbreviation til := (win_end c ws).

(** One order of the requests of the caller decides, the one Redis counted them
    in; where [healthy] fails, a request may be let through because its count
    failed. *)
Lemma gate_decisions (e : E) mds t (r : R) s :
  callers_errors ∅ cs = [] -> c ∈ cs -> Window (RateLimit c) < 4611686018427387904 ->
  Z.of_nat (length mds) < 9223372036854775807 ->
  (forall t k r l, recorded r l -> recorded (snd (rd_incr t k r))
     (l ++ if String.eqb k (win_key c ws) && (from <=? t) && (t <? til) then [t] else [])) ->
  (forall t k ttl r l, recorded r l -> recorded (snd (rd_expire t k ttl r)) l) ->
  0 <= t -> (forall t', t <= t' -> rd_get t' (rate_key (Name c) ws) r = None) -> recorded r [] ->
  rtc (step (fun _ => False) (fun tk => healthy = true -> t_fault tk = NoFault)) (gate_system cs e mds t r) s ->
  exists counted : list (nat * Z), NoDup (map fst counted) /\ recorded (c_shared s) (map snd counted) /\
    (forall i tc, (i, tc) ∈ counted -> of_caller cs mds c i /\
       forall d m x, c_procs s !! i = Some (d, m) -> dk_served d = Some x -> sv_from x <= tc <= sv_to x) /\
    forall i outcome, decided cs mds c ws s i outcome ->
      (healthy = false /\ outcome = Ok (caller_of c)) \/
      exists k, map fst counted !! k = Some i /\ outcome = verdict c k.
Proof.
  intros Hv Hin Hfit Hfew Hincr Hexp Ht Hfresh Hrec Hrun.
  pose (protocols := window_protocols (R := R) (E := E) cs mds c ws healthy recorded).
  destruct (system_sound (Protocols0 := protocols) (fun _ => False) (fun _ _ _ Hf => match Hf with end)
    (MkTally r [] t) (gate_system cs e mds t r) s (fun sh sh' => ta_now sh <= ta_now sh'))
    as (sh & (Herase & [_ Hnd Hof _ Hshow _] & Hown) & _).
  - by intros i ? ? [].
  - done.
  - split; [done|]. split; [split; cbn; [lia | apply NoDup_nil_2 | by intros i ?%elem_of_nil | by intros x ?%elem_of_nil | done |]|].
    + intros t' Ht'. apply Hfresh. lia.
    + intros i p m. unfold gate_system. cbn [c_procs]. rewrite (list_lookup_fmap _ mds).
      destruct (mds !! i) as [md|] eqn:Hmd; [|done]. intros [= <- <-]. split; [by intros x|].
      apply (gate_safe cs mds c ws healthy recorded Hv Hin Hfit Hfew Hincr Hexp r t); [by apply Hfresh | done | done | | done].
      by apply not_elem_of_nil.
  - exists (ta_counts sh). split; [exact Hnd|]. split; [by rewrite <- Herase|]. split.
    + intros i tc Hc. split; [apply Hof, counted_at; by exists tc|].
      intros d m x Hp Hx. destruct (Hown i d m Hp) as [Ha _]. by apply (Ha x Hx).
    + intros i outcome (d & m & from & til & Hp & Hx & Hi & Hs & Hend).
      destruct (Hown i d m Hp) as [Ha _]. by apply (Ha _ Hx).
Qed.
End decisions.

(** C12: the limiter at work under concurrency: whatever requests run at the
    same time against one Redis, however their steps interleave, there is one
    order of the requests of a configured caller such that every one of them
    that comes and is decided within a window is let through when it is among the
    first [Requests] of that order, and refused with RESOURCE_EXHAUSTED when it
    is not; so never more than [Requests] of the window get through. *)
Theorem rate_limit_concurrent cs c ws (e : E) mds t (r : R) s :
  callers_errors ∅ cs = [] -> c ∈ cs -> Window (RateLimit c) < 4611686018427387904 ->
  Z.of_nat (length mds) < 9223372036854775807 ->
  0 <= t -> (forall t', t <= t' -> rd_get t' (rate_key (Name c) ws) r = None) ->
  rtc (step (fun _ => False) (fun tk => t_fault tk = NoFault)) (gate_system cs e mds t r) s ->
  (exists order : list nat, NoDup order /\ (forall i, i ∈ order -> of_caller cs mds c i) /\
     forall i outcome, decided cs mds c ws s i outcome ->
       exists k, order !! k = Some i /\
         outcome = if Z.of_nat k <? Requests (RateLimit c) then Ok (caller_of c)
                   else Err (Status code_ResourceExhausted "rate limit exceeded for caller %q" [Name c])) /\
  forall l, NoDup l -> (forall i, i ∈ l -> decided cs mds c ws s i (Ok (caller_of c))) ->
    Z.of_nat (length l) <= Requests (RateLimit c).
Proof.
  intros Hv Hin Hfit Hfew Ht Hfresh Hrun.
  destruct (gate_decisions (fun _ _ => True) true cs c ws e mds t r s) as (counted & Hnd & _ & Hof & Horder); [done..| |].
  { eapply rtc_subrel, Hrun. intros s1 s2. by apply prog_step_mono. }
  set (order := map fst counted) in *.
  assert (forall i, i ∈ order -> of_caller cs mds c i) as Hof'
    by (intros i ([j tc] & -> & Hc)%list_elem_of_fmap; by apply (Hof j tc)).
  assert (forall i outcome, decided cs mds c ws s i outcome ->
    exists k, order !! k = Some i /\ outcome = verdict c k) as Hplace
    by (by intros i outcome [[] |]%Horder).
  split; [by exists order|]. intros l Hl Hdec.
  assert (0 <= Requests (RateLimit c)).
  { apply callers_errors_nil in Hv as (Hok & _ & _). rewrite list.Forall_forall in Hok. destruct (Hok c Hin). lia. }
  enough (length l <= Z.to_nat (Requests (RateLimit c)))%nat by lia.
  transitivity (length (take (Z.to_nat (Requests (RateLimit c))) order)); [|rewrite length_take; lia].
  apply submseteq_length, NoDup_submseteq; [done|]. intros i Hl'%Hdec.
  destruct (Hplace _ _ Hl') as (k & Hk & Hvd). unfold verdict in Hvd.
  destruct (Z.ltb_spec (Z.of_nat k) (Requests (RateLimit c))); [|done].
  apply list_elem_of_lookup. exists k. rewrite lookup_take_Some. split; [done | lia].
Qed.

End together.

Section failing.
Context {R E : Type} `{RedisLaws R, GrpcLib}.

(** C13: the limiter fails open, also under concurrency: whatever happens to the
    calls on Redis, the INCRs that Redis carried out on the counter of a caller's
    window, while the window was open, are those of as many requests of the
    caller, each counted once and while it was served; and a request of the
    caller that comes and is decided within the window is refused only with
    RESOURCE_EXHAUSTED, and only after [Requests] of them had been counted before
    it; every other one is let through. *)
Theorem rate_limit_fails_open cs c ws (e : E) mds t (r : R) s :
  callers_errors ∅ cs = [] -> c ∈ cs -> Window (RateLimit c) < 4611686018427387904 ->
  Z.of_nat (length mds) < 9223372036854775807 ->
  0 <= t -> (forall t', t <= t' -> rd_get t' (rate_key (Name c) ws) r = None) ->
  rtc (step (fun _ => False) (fun _ => True)) (gate_system cs e mds t (MkMonitored r [])) s ->
  exists counted : list (nat * Z), NoDup (map fst counted) /\
    map snd counted = incrs_in (rate_key (Name c) ws)
      (ws * Window (RateLimit c)) (ws * Window (RateLimit c) + Window (RateLimit c)) (c_shared s) /\
    (forall i tc, (i, tc) ∈ counted -> of_caller cs mds c i /\
       forall d m x, c_procs s !! i = Some (d, m) -> dk_served d = Some x -> sv_from x <= tc <= sv_to x) /\
    forall i outcome, decided cs mds c ws s i outcome ->
      outcome = Ok (caller_of c) \/
      (outcome = Err (Status code_ResourceExhausted "rate limit exceeded for caller %q" [Name c]) /\
       exists earlier tc later, counted = earlier ++ (i, tc) :: later /\
         Requests (RateLimit c) <= Z.of_nat (length earlier)).
Proof.
  intros Hv Hin Hfit Hfew Ht Hfresh Hrun.
  destruct (gate_decisions (fun r l => l = incrs_in (win_key c ws) (win_start c ws) (win_end c ws) r) false cs c ws
    e mds t (MkMonitored r []) s) as (counted & Hnd & Hrec & Hof & Hdec); try done.
  { intros t1 k r1 l ->. by rewrite incrs_in_incr. }
  { eapply rtc_subrel, Hrun. intros s1 s2. by apply prog_step_mono. }
  exists counted. split; [exact Hnd|]. split; [exact Hrec|]. split; [exact Hof|]. intros i outcome Ho.
  destruct (Hdec i outcome Ho) as [[_ ->]|(k & Hk & ->)]; [by left|]. unfold verdict.
  destruct (Z.ltb_spec (Z.of_nat k) (Requests (RateLimit c))) as [_|Hge]; [by left | right].
  split; [done|]. rewrite (list_lookup_fmap fst counted) in Hk.
  destruct (counted !! k) as [[j tc]|] eqn:Hj; [|done]. injection Hk as ->.
  exists (take k counted), tc, (drop (S k) counted). split; [symmetry; by apply take_drop_middle|].
  apply lookup_lt_Some in Hj. rewrite length_take. lia.
Qed.
End failing.

(** ** A concrete run *)

#[local] Instance demo_grpc_gate : GrpcLib := format_int.

Definition demo_gate_caller : CallerConfig :=
  MkCaller "expense" demo_hash (MkRateLimit 2 Minute) {["invoice" := "invoice@1"]}.

(** Three requests of a caller with a budget of two, step by step in turn. *)
Definition demo_gate_mds : list (option (gmap string (list string))) := repeat (Some {[apiKeyHeader := ["test"]]}) 3.
Definition demo_gate_schedule : list (nat * Z * tick) :=
  concat (repeat [(2%nat, 1, Tick 1 NoFault); (0%nat, 1, Tick 1 NoFault); (1%nat, 1, Tick 1 NoFault)] 8).
Definition demo_gate_start : system keyspace (desk unit) := gate_system [demo_gate_caller] tt demo_gate_mds 7 ∅.
Definition demo_gate_end := scheduled demo_gate_schedule demo_gate_start.

Lemma demo_gate_served :
  map (fun p => dk_served (fst p)) (c_procs demo_gate_end) =
  [Some (MkServed 9 22 (verdict demo_gate_caller 1)); Some (MkServed 10 28 (verdict demo_gate_caller 2));
   Some (MkServed 8 24 (verdict demo_gate_caller 0))].
Proof. vm_compute. reflexivity. Qed.

Lemma demo_gate_run :
  rtc (step (fun _ => False) (fun tk => t_fault tk = NoFault)) demo_gate_start demo_gate_end.
Proof. apply scheduled_steps. repeat constructor. Qed.

Lemma demo_gate_decided {R} n (s : system R (desk unit)) i from til outcome :
  map (fun p => dk_served (fst p)) (c_procs s) !! i = Some (Some (MkServed from til outcome)) ->
  (i < n)%nat -> 0 <= from -> til < 60000000000 ->
  decided (R := R) (E := unit) [demo_gate_caller] (repeat (Some {[apiKeyHeader := ["test"]]}) n)
    demo_gate_caller 0 s i outcome.
Proof.
  intros Hi Hlt Hfrom Htil. rewrite (list_lookup_fmap _ (c_procs s)) in Hi.
  destruct (c_procs s !! i) as [[d m]|] eqn:Hp; [|discriminate]. injection Hi as Hd.
  exists d, m, from, til. split; [exact Hp|]. split; [exact Hd|]. split; [|by split].
  exists (Some {[apiKeyHeader := ["test"]]}). split; [|vm_compute; reflexivity].
  clear -Hlt. revert i Hlt. induction n as [|n IH]; intros i Hlt; [lia|]. destruct i; [done|]. apply IH. lia.
Qed.

Lemma demo_gate_through i :
  i ∈ [0%nat; 2%nat] ->
  decided [demo_gate_caller] demo_gate_mds demo_gate_caller 0 demo_gate_end i (Ok (caller_of demo_gate_caller)).
Proof.
  intros [->|Hi]%elem_of_cons; [apply (demo_gate_decided 3 _ 0 9 22)|].
  - by rewrite demo_gate_served.
  - lia.
  - lia.
  - lia.
  - apply list_elem_of_singleton in Hi as ->. by apply (demo_gate_decided 3 _ 2 8 24); [rewrite demo_gate_served|lia..].
Qed.

Lemma rate_limit_concurrent_witness :
  Z.of_nat (length [0%nat; 2%nat]) <= 2 /\
  exists order k, NoDup order /\ order !! k = Some 2%nat /\ (k < 2)%nat.
Proof.
  destruct (rate_limit_concurrent [demo_gate_caller] demo_gate_caller 0 tt demo_gate_mds 7 (∅ : keyspace) demo_gate_end)
    as [(order & Hnd & _ & Horder) Hmax].
  - vm_compute. reflexivity.
  - left.
  - vm_compute. reflexivity.
  - vm_compute. reflexivity.
  - lia.
  - reflexivity.
  - exact demo_gate_run.
  - split.
    + apply Hmax; [|exact demo_gate_through]. apply (bool_decide_unpack _). vm_compute. exact I.
    + destruct (Horder 2%nat _ (demo_gate_through 2 ltac:(right; left))) as (k & Hk & Hv).
      exists order, k. split; [exact Hnd|]. split; [exact Hk|].
      destruct (Z.ltb_spec (Z.of_nat k) (Requests (RateLimit demo_gate_caller))) as [Hlt|]; [cbn in Hlt; lia | discriminate].
Defined.

(** A fourth request, whose calls on Redis fail after they took effect: it is
    counted and let through all the same, and one of the others is refused. *)
Definition demo_lost : tick := Tick 1 (FailAfter (External "connection reset")).
Definition demo_faulty_mds : list (option (gmap string (list string))) := repeat (Some {[apiKeyHeader := ["test"]]}) 4.
Definition demo_faulty_schedule : list (nat * Z * tick) :=
  concat (repeat [(3%nat, 1, demo_lost); (0%nat, 1, Tick 1 NoFault); (1%nat, 1, Tick 1 NoFault); (2%nat, 1, Tick 1 NoFault)] 8).
Definition demo_faulty_start : system (monitored keyspace) (desk unit) :=
  gate_system [demo_gate_caller] tt demo_faulty_mds 7 (MkMonitored ∅ []).
Definition demo_faulty_end := scheduled demo_faulty_schedule demo_faulty_start.

Lemma demo_faulty_served :
  map (fun p => dk_served (fst p)) (c_procs demo_faulty_end) =
  [Some (MkServed 9 25 (verdict demo_gate_caller 1)); Some (MkServed 10 32 (verdict demo_gate_caller 2));
   Some (MkServed 11 33 (verdict demo_gate_caller 3)); Some (MkServed 8 24 (Ok (caller_of demo_gate_caller)))].
Proof. vm_compute. reflexivity. Qed.

(** Of the four requests counted in the window two were before the one refused. *)
Lemma rate_limit_fails_open_witness :
  exists counted earlier tc later, map snd counted = map fst (mo_incrs (c_shared demo_faulty_end)) /\
    counted = earlier ++ (2%nat, tc) :: later /\ 2 <= Z.of_nat (length earlier).
Proof.
  destruct (rate_limit_fails_open [demo_gate_caller] demo_gate_caller 0 tt demo_faulty_mds 7 (∅ : keyspace) demo_faulty_end)
    as (counted & _ & Hrec & _ & Hdec).
  - vm_compute. reflexivity.
  - left.
  - vm_compute. reflexivity.
  - vm_compute. reflexivity.
  - lia.
  - reflexivity.
  - apply scheduled_steps. apply list.Forall_forall. done.
  - destruct (Hdec 2%nat (verdict demo_gate_caller 3)) as [Hthrough|(_ & earlier & tc & later & Heq & Hlen)].
    + apply (demo_gate_decided 4 _ 2 11 33); [by rewrite demo_faulty_served | lia..].
    + discriminate.
    + exists counted, earlier, tc, later. split; [|split; [exact Heq | exact Hlen]].
      rewrite Hrec. vm_compute. reflexivity.
Defined.
