(* ===== verification/Serve.v ===== *)
(** * The grpc binary: [RunGRPC] of [internal/app/grpc.go], and the listeners of
    [internal/server]

    The boot in its order with what it defers, and the shutdown: readiness fails
    first, the drain delay passes, and only then the listeners close, under one
    deadline; then the connections are closed, the last one opened first, and the
    telemetry is flushed last.  The binary's own state is the log of what it did
    to its listeners and connections. *)
From S2P Require Import Prelude GoTime Redis Config Auth Proto Gateway App Server.

(** ** The listeners *)

(** The profiling listener, bound to loopback, or none when it is off. *)
Definition NewPprofServer (enabled : bool) (port : Z) : option string :=
  if enabled then Some ("127.0.0.1:" ++ format_int port)%string else None.

(** ** The lifecycle *)

(** What the process logs: its two drain flags; that a listener was told to close,
    from when on it accepts nothing; that its shutdown came back with nothing left
    in flight; and that a connection is closed. *)
Inductive event :=
  | ProbeDraining
  | GrpcNotServing
  | PprofClosed
  | PprofIdle
  | ProbeClosed
  | ProbeIdle
  | GrpcClosed
  | GrpcStopped
  | EngineDisconnected
  | RedisDisconnected
  | PoolClosed.

Abbreviation lifelog := (list (Z * event)) (only parsing).

(** A flag the process sets itself. *)
Definition flag (e : event) : M lifelog unit :=
  atomic (fun w => (Ok tt, World (w_data w ++ [(w_clock w, e)]) (w_clock w) (w_sched w))).

(** Waiting for something under a context with a deadline: it takes time and may
    fail, with [achieved] done where it does not; a wait that is not over by the
    deadline ends there with [late], and leaves what it waited for as it is. *)
Definition DeadlineExceeded : error := External "context deadline exceeded".
Definition wait_until (deadline : Z) (late : result unit) (achieved : Z -> lifelog -> lifelog) : M lifelog unit :=
  atomic (fun w =>
    let (tick, sch) := next_tick (w_sched w) in
    let finish t r := (r, World (if is_ok r then achieved t (w_data w) else w_data w) t sch) in
    if w_clock w + Z.of_N (t_delay tick) <=? Z.max (w_clock w) deadline
    then finish (w_clock w + Z.of_N (t_delay tick))
           match t_fault tick with NoFault => Ok tt | FailBefore e | FailAfter e => Err e end
    else finish (Z.max (w_clock w) deadline) late).

(** [http.Server.Shutdown]: the listener closes at once, and the call waits until
    no connection is active; at the deadline it returns the context's error, and
    active connections go on. *)
Definition http_server_Shutdown (deadline : Z) (closed idle : event) : M lifelog unit :=
  do! flag closed in
  wait_until deadline (Err DeadlineExceeded) (fun t log => log ++ [(t, idle)]).

(** [HTTPServer.Shutdown], [GRPCServer.BeginDrain], and [GRPCServer.Shutdown]:
    the platform's [Stop] ends by the deadline, and [late] is what it answers
    when calls are still in flight there. *)
Definition http_Shutdown (deadline : Z) : M lifelog unit := http_server_Shutdown deadline ProbeClosed ProbeIdle.
Definition grpc_BeginDrain : M lifelog unit := flag GrpcNotServing.
Definition grpc_Shutdown (late : result unit) (deadline : Z) : M lifelog unit :=
  do! flag GrpcClosed in
  wait_until deadline late (fun t log => log ++ [(t, GrpcStopped)]).

(** ** The connections *)

(** Closing a connection or a pool of them, which waits for those in use; what
    [Close] returns is discarded. *)
Definition disconnect (e : event) : M lifelog unit :=
  atomic (fun w =>
    let (tick, sch) := next_tick (w_sched w) in
    let t := w_clock w + Z.of_N (t_delay tick) in
    (Ok tt, World (w_data w ++ [(t, e)]) t sch)).

(** [defer d(); body]: what is deferred runs when the body returns, which it does
    unless it serves for ever. *)
Definition deferred (d : M lifelog unit) (body : M lifelog bool) : M lifelog bool :=
  let! returned := try body in
  match returned with
  | Ok false => ret false
  | _ => do! d in of_result returned
  end.

(** ** The telemetry *)

(** The settings of the platform's telemetry section, and its sampler. *)
Class TelemetrySettings (P : Type) := {
  TracesEnabled : P -> bool;
  TraceEndpoint : P -> string;
  NewSampler : P -> result string;
  MetricsEnabled : P -> bool;
  MetricEndpoint : P -> string;
  MetricExportInterval : P -> Z;
}.

(** The options [telemetry.Setup] is given. *)
Inductive TelemetryOption :=
  | WithBuild (version commit : string)
  | WithTracing (endpoint sampler : string)
  | WithMetrics (endpoint : string) (interval : Z).

Definition telemetry_options {P} `{TelemetrySettings P} (build : provenance) (cfg : Config P)
    : result (list TelemetryOption) :=
  let otelOpts := [WithBuild (version build) (commit build)] in
  let metrics := if MetricsEnabled (rest cfg)
    then [WithMetrics (MetricEndpoint (rest cfg)) (MetricExportInterval (rest cfg))] else [] in
  if TracesEnabled (rest cfg)
  then match NewSampler (rest cfg) with
       | Err err => Err (Errorf "configure trace sampler: %w" [] [err])
       | Ok sampler => Ok (otelOpts ++ [WithTracing (TraceEndpoint (rest cfg)) sampler] ++ metrics)
       end
  else Ok (otelOpts ++ metrics).

(** [telemetry.Setup] opens connections to the exporters, if any. *)
Definition setup_telemetry {P} `{TelemetrySettings P} (build : provenance) (cfg : Config P)
    : M lifelog (list TelemetryOption) :=
  let! otelOpts := of_result (telemetry_options build cfg) in
  do! boot_step "setup telemetry: %w" dial in
  ret otelOpts.

Definition otelFlushTimeout : Z := 5 * Second.

(** The deferred flush; its error is only logged. *)
Definition flush_telemetry : M lifelog unit :=
  let! t := now in
  do! try (wait_until (t + otelFlushTimeout) (Err DeadlineExceeded) (fun _ log => log)) in
  ret tt.

(** ** The shutdown *)

Section serve.
(** [errors.Is(err, http.ErrServerClosed)]; and what the platform's [Stop]
    answers at its deadline *)
Variables (is_server_closed : error -> bool) (late : result unit).

Definition sleep (d : Z) : M lifelog unit := let! t := now in sleep_until (t + d).

(** The end of [RunGRPC], from [runCtx.Done()]; [wait] is what [g.Wait] returns
    at a time. *)
Definition shutdown {P} (cfg : Config P) (wait : Z -> option error) : M lifelog unit :=
  do! flag ProbeDraining in
  do! grpc_BeginDrain in
  do! (if 0 <? DrainDelay (Server cfg) then sleep (DrainDelay (Server cfg)) else ret tt) in
  let! t := now in
  let deadline := t + ShutdownTimeout (Server cfg) in
  do! (match NewPprofServer (pprof_Enabled (Pprof cfg)) (pprof_Port (Pprof cfg)) with
       | Some _ =>
           let! closed := try (http_server_Shutdown deadline PprofClosed PprofIdle) in
           match closed with
           | Err err => if is_server_closed err then ret tt else throw (Errorf "pprof shutdown: %w" [] [err])
           | Ok _ => ret tt
           end
       | None => ret tt
       end) in
  do! boot_step "probe server shutdown: %w" (http_Shutdown deadline) in
  do! boot_step "grpc graceful shutdown: %w" (grpc_Shutdown late deadline) in
  let! t := now in
  match wait t with Some err => throw err | None => ret tt end.

(** The listeners [RunGRPC] starts, at [t0], and what the network does to them. *)
Record network := MkNetwork { nw_grpc : listener; nw_probe : listener; nw_pprof : listener }.

Definition listeners {P} (cfg : Config P) (net : network) (t0 : Z) : list serving :=
  [grpc_Start t0 (nw_grpc net); http_Start is_server_closed t0 (nw_probe net)] ++
  match NewPprofServer (pprof_Enabled (Pprof cfg)) (pprof_Port (Pprof cfg)) with
  | Some _ => [pprof_Start is_server_closed t0 (nw_pprof net)]
  | None => []
  end.

(** [RunGRPC] once everything is set up: [signal] is the time the process is told to stop, if ever;
    [true] when it returned nil, [false] when it serves for ever. *)
Definition grpc_serve {P} (cfg : Config P) (net : network) (signal : option Z) : M lifelog bool :=
  let! t0 := now in
  let group := listeners cfg net t0 in
  match run_done signal group with
  | None => ret false
  | Some stopped =>
      do! sleep_until stopped in
      do! shutdown cfg (group_wait group) in
      ret true
  end.

(** [RunGRPC]; a Redis client there is none of is not closed. *)
Definition RunGRPC {P T} `{PostgresSettings P, TelemetrySettings P, GrpcSettings P, PlatformGrpc T}
    (build : provenance) (cfg : Config P) (metrics : bool) (net : network) (signal : option Z) : M lifelog bool :=
  do! setup_telemetry build cfg in
  deferred flush_telemetry (
    do! new_pool in
    deferred (disconnect PoolClosed) (
      do! migrate cfg in
      let! rdb := setupRedis cfg in
      deferred (if rdb then disconnect RedisDisconnected else ret tt) (
        do! boot_step "connect ocr gRPC: %w" (of_result (newOcrClient (T := T) cfg)) in
        deferred (disconnect EngineDisconnected) (
          do! boot_step "create grpc server: %w" (of_result (NewGRPC (T := T) cfg rdb metrics)) in
          grpc_serve cfg net signal)))).
End serve.
