(* ===== verification/ServeFacts.v ===== *)
(** * Theorems on the grpc binary

    When it stops serving, in which order and by when its listeners and its
    connections close, and which errors it reports. *)
From S2P Require Import Prelude GoTime Redis Config ConfigFacts Auth Proto Gateway App AppFacts Server ServerFacts Serve.

Section shutdown.
Variables (is_server_closed : error -> bool) (late : result unit).

(** What a part of the shutdown adds to the log between [t0] and [t1]: closings of
    [evs], in order, by [t1]; and all of the [must], if it succeeds. *)
Definition closes {A} (t0 t1 : Z) (evs must : list event) (m : M lifelog A) : Prop :=
  forall w, t0 <= w_clock w <= t1 ->
  exists cs, w_data (snd (m w)) = w_data w ++ cs /\ t0 <= w_clock (snd (m w)) <= t1 /\
    Forall (fun c => t0 <= fst c <= w_clock (snd (m w))) cs /\ map snd cs `sublist_of` evs /\
    (is_ok (fst (m w)) = true -> must `sublist_of` map snd cs).

Lemma closes_ret {A} t0 t1 (a : A) : closes t0 t1 [] [] (ret a).
Proof. intros w [Ht Ht']. exists []. rewrite app_nil_r. by split_and!. Qed.

Lemma closes_throw {A} t0 t1 e must : closes t0 t1 [] must (@throw _ A e).
Proof. intros w [Ht Ht']. exists []. rewrite app_nil_r. by split_and!. Qed.

(** The clock goes on from one part to the next. *)
Lemma closes_bind {A B} t0 t1 evs1 evs2 must1 must2 (m : M lifelog A) (k : A -> M lifelog B) :
  (forall a, within later (k a)) -> closes t0 t1 evs1 must1 m -> (forall a, closes t0 t1 evs2 must2 (k a)) ->
  closes t0 t1 (evs1 ++ evs2) (must1 ++ must2) (bind m k).
Proof.
  intros Hl Hm Hk w Ht. destruct (Hm w Ht) as (cs1 & Hd1 & Ht1 & Hf1 & Hs1 & Hm1). rewrite run_bind.
  destruct (run m w) as [[a|e] w1]; cbn [fst snd is_ok] in *.
  - destruct (Hk a w1 Ht1) as (cs2 & Hd2 & Ht2 & Hf2 & Hs2 & Hm2). specialize (Hl a w1). unfold later in Hl.
    exists (cs1 ++ cs2). rewrite Hd2, Hd1, app_assoc, map_app. split_and!; auto; try lia.
    + apply Forall_app. split; [|done]. eapply list.Forall_impl; [exact Hf1|]. cbn. lia.
    + by apply sublist_app.
    + intros Hok. apply sublist_app; auto.
  - exists cs1. split_and!; try done; try lia. by apply sublist_inserts_r.
Qed.

Lemma closes_weaken {A} t0 t1 evs evs' must must' (m : M lifelog A) :
  evs `sublist_of` evs' -> must' `sublist_of` must -> closes t0 t1 evs must m -> closes t0 t1 evs' must' m.
Proof.
  intros He Hu Hm w Ht. destruct (Hm w Ht) as (cs & ? & ? & ? & Hs & Hok). exists cs.
  split_and!; try done; [lia | lia | by etransitivity|]. intros Hr. etransitivity; [exact Hu | by apply Hok].
Qed.

Lemma closes_flag t0 t1 e : closes t0 t1 [e] [e] (flag e).
Proof. intros w Ht. exists [(w_clock w, e)]. cbn. split_and!; try done; try lia. apply Forall_singleton. cbn. lia. Qed.

(** A wait is over by its deadline. *)
Lemma wait_until_run deadline late' achieved w :
  exists clk sch r, wait_until deadline late' achieved w =
      (r, World (if is_ok r then achieved clk (w_data w) else w_data w) clk sch) /\
    w_clock w <= clk <= Z.max (w_clock w) deadline.
Proof.
  unfold wait_until. rewrite run_atomic. destruct (next_tick (w_sched w)) as [[n flt] sch]. cbn [t_delay t_fault].
  destruct (Z.leb_spec (w_clock w + Z.of_N n) (Z.max (w_clock w) deadline));
    do 3 eexists; (split; [reflexivity | lia]).
Qed.

Lemma closes_wait t0 t1 deadline late' e :
  deadline <= t1 -> closes t0 t1 [e] [e] (wait_until deadline late' (fun t log => log ++ [(t, e)])).
Proof.
  intros Hdl w Ht. destruct (wait_until_run deadline late' (fun t log => log ++ [(t, e)]) w) as (clk & sch & r & -> & Hc).
  cbn [fst snd w_data w_clock]. destruct (is_ok r).
  - exists [(clk, e)]. split_and!; try done; try lia. apply Forall_singleton. cbn. lia.
  - exists []. rewrite app_nil_r. split_and!; try done; try lia. apply sublist_nil_l.
Qed.

Lemma later_flag e : within later (flag e).
Proof. intros w. unfold later. cbn. lia. Qed.

Lemma later_wait deadline late' achieved : within later (wait_until deadline late' achieved).
Proof.
  intros w. destruct (wait_until_run deadline late' achieved w) as (clk & sch & r & -> & Hc). unfold later. cbn. lia.
Qed.

(** A listener told to close, and waited for. *)
Lemma closes_listener t0 t1 deadline late' e1 e2 :
  deadline <= t1 ->
  closes t0 t1 [e1; e2] [e1; e2] (do! flag e1 in wait_until deadline late' (fun t log => log ++ [(t, e2)])).
Proof.
  intros Hdl. apply (closes_bind _ _ [e1] [e2] [e1] [e2]);
    [intros _; apply later_wait | apply closes_flag | intros _; by apply closes_wait].
Qed.

Lemma later_listener deadline late' e1 achieved :
  within later (do! flag e1 in wait_until deadline late' achieved).
Proof. apply within_bind; [apply _ | apply later_flag | intros _; apply later_wait]. Qed.

(** What is done with the outcome of a part, without touching the log. *)
Lemma closes_handled {A B} t0 t1 evs must must' (m : M lifelog A) (k : result A -> M lifelog B) :
  closes t0 t1 evs must m -> (forall r w, snd (k r w) = w) ->
  (forall r w, is_ok (fst (k r w)) = true -> must' = [] \/ must' = must /\ is_ok r = true) ->
  closes t0 t1 evs must' (let! outcome := try m in k outcome).
Proof.
  intros Hm Hk Hr w Ht. rewrite bind_try. destruct (Hm w Ht) as (cs & Hd & Hc & Hf & Hs & Hok). exists cs.
  rewrite Hk. split_and!; [done | lia | lia | done | done|].
  intros Hres. destruct (Hr _ _ Hres) as [-> | [-> Hr']]; [apply sublist_nil_l | by apply Hok].
Qed.

Lemma closes_boot_step {A} what t0 t1 evs must (m : M lifelog A) :
  closes t0 t1 evs must m -> closes t0 t1 evs must (boot_step what m).
Proof.
  intros Hm. apply (closes_handled _ _ evs must); [done | by intros [] w|].
  intros [] w Hr; [by right | done].
Qed.

Definition close_pprof (deadline : Z) : M lifelog unit :=
  let! closed := try (http_server_Shutdown deadline PprofClosed PprofIdle) in
  match closed with
  | Err err => if is_server_closed err then ret tt else throw (Errorf "pprof shutdown: %w" [] [err])
  | Ok _ => ret tt
  end.

Lemma closes_pprof t0 t1 deadline : deadline <= t1 -> closes t0 t1 [PprofClosed; PprofIdle] [] (close_pprof deadline).
Proof.
  intros Hdl. apply (closes_handled _ _ _ [PprofClosed; PprofIdle]); [by apply closes_listener | | by left].
  intros [|e] w; [done | by destruct (is_server_closed e)].
Qed.

(** The closings, after the delay. *)
Definition close_listeners {P} (cfg : Config P) (deadline : Z) (wait : Z -> option error) : M lifelog unit :=
  do! (match NewPprofServer (pprof_Enabled (Pprof cfg)) (pprof_Port (Pprof cfg)) with
       | Some _ => close_pprof deadline
       | None => ret tt
       end) in
  do! boot_step "probe server shutdown: %w" (http_Shutdown deadline) in
  do! boot_step "grpc graceful shutdown: %w" (grpc_Shutdown late deadline) in
  let! t := now in
  match wait t with Some err => throw err | None => ret tt end.

(** What the shutdown may log, in this order, and what it has if it succeeds. *)
Definition all_closings : list event := [PprofClosed; PprofIdle; ProbeClosed; ProbeIdle; GrpcClosed; GrpcStopped].
Definition clean_closings : list event := [ProbeClosed; ProbeIdle; GrpcClosed; GrpcStopped].

(** When the listeners begin to close, and when they must have. *)
Definition drained {P} (cfg : Config P) (t : Z) : Z := t + Z.max 0 (DrainDelay (Server cfg)).
Definition closed_by {P} (cfg : Config P) (t : Z) : Z := drained cfg t + Z.max 0 (ShutdownTimeout (Server cfg)).

Lemma shutdown_run {P} (cfg : Config P) wait w :
  shutdown is_server_closed late cfg wait w =
  close_listeners cfg (drained cfg (w_clock w) + ShutdownTimeout (Server cfg)) wait
    (World (w_data w ++ [(w_clock w, ProbeDraining); (w_clock w, GrpcNotServing)])
       (drained cfg (w_clock w)) (w_sched w)).
Proof.
  unfold shutdown, drained. rewrite !run_bind. unfold grpc_BeginDrain, flag. rewrite !run_atomic, run_bind, !run_atomic.
  cbn [w_data w_clock w_sched]. rewrite <- app_assoc. cbn [app]. rewrite run_bind.
  destruct (Z.ltb_spec 0 (DrainDelay (Server cfg))).
  - unfold sleep, sleep_until. rewrite bind_now, run_atomic. cbn [w_data w_clock w_sched]. rewrite bind_now. cbn [w_clock].
    replace (Z.max (w_clock w) (w_clock w + DrainDelay (Server cfg)))
      with (w_clock w + Z.max 0 (DrainDelay (Server cfg))) by lia. done.
  - cbn [ret run]. rewrite bind_now. cbn [w_clock]. by replace (w_clock w + Z.max 0 (DrainDelay (Server cfg))) with (w_clock w) by lia.
Qed.

Lemma closes_listeners {P} t0 t1 deadline (cfg : Config P) wait :
  deadline <= t1 -> closes t0 t1 all_closings clean_closings (close_listeners cfg deadline wait).
Proof.
  intros Hdl. unfold close_listeners.
  assert (forall what (m : M lifelog unit), within later m -> within later (boot_step what m)) as Hstep.
  { intros what m Hm. unfold boot_step. apply within_bind; [apply _ | by apply within_try |].
    intros [a|err]; [apply within_ret | apply within_throw]; apply _. }
  assert (within later (let! t := now in (match wait t with Some err => throw err | None => ret tt end : M lifelog unit))) as Hend.
  { intros w. rewrite bind_now. by destruct (wait (w_clock w)). }
  assert (within later (do! boot_step "grpc graceful shutdown: %w" (grpc_Shutdown late deadline) in
    let! t := now in match wait t with Some err => throw err | None => ret tt end)) as Hgrpc
    by (apply within_bind; [apply _ | apply Hstep, later_listener | done]).
  apply (closes_bind t0 t1 [PprofClosed; PprofIdle] [ProbeClosed; ProbeIdle; GrpcClosed; GrpcStopped] [] clean_closings).
  - intros _. apply within_bind; [apply _ | apply Hstep, later_listener | done].
  - destruct (NewPprofServer _ _); [by apply closes_pprof|].
    eapply closes_weaken; [apply sublist_nil_l | done | apply closes_ret].
  - intros _. apply (closes_bind t0 t1 [ProbeClosed; ProbeIdle] [GrpcClosed; GrpcStopped] [ProbeClosed; ProbeIdle] [GrpcClosed; GrpcStopped]);
      [done | by apply closes_boot_step, closes_listener|intros _].
    apply (closes_bind t0 t1 [GrpcClosed; GrpcStopped] [] [GrpcClosed; GrpcStopped] []);
      [done | by apply closes_boot_step, closes_listener|intros _].
    intros w Ht. rewrite bind_now. destruct (wait (w_clock w)); [by apply closes_throw | by apply closes_ret].
Qed.

(** What the shutdown adds to the log, and when. *)
Lemma shutdown_drains {P} (cfg : Config P) wait w :
  let run := shutdown is_server_closed late cfg wait w in
  exists cs,
    w_data (snd run) =
      w_data w ++ [(w_clock w, ProbeDraining); (w_clock w, GrpcNotServing)] ++ cs /\
    Forall (fun c => drained cfg (w_clock w) <= fst c <= w_clock (snd run)) cs /\
    w_clock (snd run) <= closed_by cfg (w_clock w) /\
    map snd cs `sublist_of` all_closings /\
    (is_ok (fst run) = true -> clean_closings `sublist_of` map snd cs).
Proof.
  cbn zeta. rewrite shutdown_run. unfold closed_by. set (t0 := drained cfg (w_clock w)).
  destruct (closes_listeners t0 (t0 + Z.max 0 (ShutdownTimeout (Server cfg))) (t0 + ShutdownTimeout (Server cfg)) cfg wait
    ltac:(lia) (World (w_data w ++ [(w_clock w, ProbeDraining); (w_clock w, GrpcNotServing)]) t0 (w_sched w)))
    as (cs & Hd & Ht & Hf & Hs & Hok); [cbn; lia|].
  exists cs. rewrite Hd. cbn [w_data]. split_and!; try done; [by rewrite <- app_assoc | lia].
Qed.

Lemma run_bind_Ok {S A B} (m : M S A) (k : A -> M S B) w b :
  fst (run (bind m k) w) = Ok b ->
  exists a w1, run m w = (Ok a, w1) /\ run (bind m k) w = run (k a) w1.
Proof. rewrite run_bind. destruct (run m w) as [[a|e] w1]; [|done]. intros _. by exists a, w1. Qed.

(** A shutdown succeeds only if the group of listeners did. *)
Lemma shutdown_waits {P} (cfg : Config P) wait w :
  fst (shutdown is_server_closed late cfg wait w) = Ok tt ->
  wait (w_clock (snd (shutdown is_server_closed late cfg wait w))) = None.
Proof.
  rewrite shutdown_run. unfold close_listeners. intros Hr.
  do 3 (apply run_bind_Ok in Hr as Hr'; destruct Hr' as (? & ? & _ & Heq); rewrite Heq in *; clear Heq).
  rewrite bind_now in *. by destruct (wait (w_clock x4)) eqn:Hw.
Qed.

(** The flush is over in five seconds, whatever the exporters do. *)
Lemma flush_run w : exists clk sch, flush_telemetry w = (Ok tt, World (w_data w) clk sch) /\
  w_clock w <= clk <= w_clock w + otelFlushTimeout.
Proof.
  unfold flush_telemetry. rewrite bind_now, bind_try.
  destruct (wait_until_run (w_clock w + otelFlushTimeout) (Err DeadlineExceeded) (fun _ log => log) w)
    as (clk & sch & r & -> & Hc). cbn [snd].
  exists clk, sch. split; [by destruct (is_ok r)|]. unfold otelFlushTimeout, Second in *. lia.
Qed.

(** What is deferred runs when the body returns. *)
Lemma deferred_run d body w :
  run (deferred d body) w =
  let (returned, w1) := run body w in
  match returned with Ok false => (Ok false, w1) | _ => run (do! d in of_result returned) w1 end.
Proof. unfold deferred. rewrite bind_try. by destruct (run body w) as [[[]|e] w1]. Qed.

Lemma flushed_run body w : exists clk sch,
  run (deferred flush_telemetry body) w = (fst (run body w), World (w_data (snd (run body w))) clk sch) /\
  w_clock (snd (run body w)) <= clk <= w_clock (snd (run body w)) + otelFlushTimeout.
Proof.
  rewrite deferred_run. destruct (run body w) as [returned w1]. cbn [fst snd].
  destruct (flush_run w1) as (clk & sch & Hflush & Hc).
  assert (returned = Ok false \/ returned <> Ok false) as [-> |Hne] by (destruct returned as [[]|]; auto).
  - exists (w_clock w1), (w_sched w1). split; [by destruct w1 | unfold otelFlushTimeout, Second; lia].
  - exists clk, sch. split; [|done]. by destruct returned as [[]|]; [|done|]; rewrite run_bind, Hflush.
Qed.

Lemma disconnect_run e w : exists clk sch,
  disconnect e w = (Ok tt, World (w_data w ++ [(clk, e)]) clk sch) /\ w_clock w <= clk.
Proof.
  unfold disconnect. rewrite run_atomic. destruct (next_tick (w_sched w)) as [[n flt] sch]. cbn [t_delay].
  do 2 eexists. split; [reflexivity | lia].
Qed.

Section binary.
Context {P T : Type} `{PostgresSettings P, TelemetrySettings P, GrpcSettings P, PlatformGrpc T}.

(** The boot touches no listener. *)
Lemma idle_of_result {A} (r : result A) : within idle (@of_result lifelog A r).
Proof. apply within_of_result, _. Qed.

Lemma idle_setup_telemetry build (cfg : Config P) : within idle (setup_telemetry build cfg).
Proof.
  unfold setup_telemetry. apply within_bind; [apply _ | apply idle_of_result | intros opts].
  apply within_bind; [apply _ | apply idle_boot_step, idle_dial | intros _; apply within_ret, _].
Qed.

(** What the run is up to its defers: [ds] are the connections closed since, of
    [may], with all of [must]. *)
Definition served (cfg : Config P) (group : list serving) (t : Z) (must may : list event)
    (w : world lifelog) (returned : result bool) (w' : world lifelog) : Prop :=
  exists cs ds,
    w_data w' = w_data w ++ [(t, ProbeDraining); (t, GrpcNotServing)] ++ cs ++ ds /\
    Forall (fun c => drained cfg t <= fst c <= closed_by cfg t) cs /\
    map snd cs `sublist_of` all_closings /\
    must `sublist_of` map snd ds /\ map snd ds `sublist_of` may /\
    (forall c d, c ∈ cs -> d ∈ ds -> fst c <= fst d) /\ Forall (fun c => fst c <= w_clock w') cs /\
    returned <> Ok false /\
    (returned = Ok true -> clean_closings `sublist_of` map snd cs /\
       forall tf e, first_failure group = Some (tf, e) -> Forall (fun c => fst c < tf) cs).

Definition lived (cfg : Config P) net signal (must may : list event)
    (w : world lifelog) (returned : result bool) (w' : world lifelog) : Prop :=
  (exists e ds, returned = Err e /\ w_data w' = w_data w ++ ds /\ map snd ds `sublist_of` may) \/
  exists t0, w_clock w <= t0 /\
    let group := listeners is_server_closed cfg net t0 in
    match run_done signal group with
    | None => returned = Ok false /\ w_data w' = w_data w
    | Some stopped => served cfg group (Z.max t0 stopped) must may w returned w'
    end.

#[local] Abbreviation lives cfg net signal must may m w :=
  (lived cfg net signal must may w (fst (run m w)) (snd (run m w))).

Lemma lives_serve (cfg : Config P) net signal w :
  lives cfg net signal [] [] (grpc_serve is_server_closed late cfg net signal) w.
Proof.
  right. exists (w_clock w). split; [done|]. cbn zeta. unfold grpc_serve. rewrite bind_now. set (group := listeners _ _ _ _).
  destruct (run_done signal group) as [stopped|]; [|done].
  unfold sleep_until. rewrite run_bind, run_atomic. set (w1 := World _ _ _).
  destruct (shutdown_drains cfg (group_wait group) w1) as (cs & Hdata & Hf & Hclk & Hs & Hok).
  pose proof (shutdown_waits cfg (group_wait group) w1) as Hwait.
  rewrite run_bind. destruct (run (shutdown _ _ _ _) w1) as [returned w2]. cbn [fst snd] in *.
  assert (Forall (fun c => drained cfg (w_clock w1) <= fst c <= closed_by cfg (w_clock w1)) cs) as Hby
    by (eapply list.Forall_impl; [exact Hf|]; intros c [? ?]; split; [done | by etransitivity]).
  assert (Forall (fun c => fst c <= w_clock w2) cs) as Hle by (eapply list.Forall_impl; [exact Hf | by intros c []]).
  destruct returned as [[]|e]; cbn [ret run fst snd is_ok] in *; exists cs, []; rewrite app_nil_r;
    (split_and!; [done..|by intros c d _ ?%elem_of_nil|done|done|]); [|done].
  intros _. split; [by apply Hok|]. intros tf e Hff. specialize (Hwait eq_refl).
  unfold group_wait in Hwait. rewrite Hff in Hwait. destruct (Z.leb_spec tf (w_clock w2)); [done|].
  eapply list.Forall_impl; [exact Hle|]. cbn. lia.
Qed.

(** A step of the boot before it. *)
Lemma lives_after {A} (cfg : Config P) net signal must may (m : M lifelog A) k w :
  within idle m -> (forall a w1, lives cfg net signal must may (k a) w1) ->
  lives cfg net signal must may (bind m k) w.
Proof.
  intros Hm Hk. rewrite run_bind. destruct (Hm w) as [Hd Hl]. destruct (run m w) as [[a|e] w1]; cbn [fst snd] in *.
  - specialize (Hk a w1). destruct (run (k a) w1) as [returned w2]. cbn [fst snd] in *. unfold lived, served in *.
    rewrite Hd in Hk. destruct Hk as [|(t0 & Ht & Hk)]; [by left | right]. exists t0. split; [|done]. by etransitivity.
  - left. exists e, []. rewrite app_nil_r. split; [done|]. by split; [|apply sublist_nil_l].
Qed.

(** A connection closed when the body returns. *)
Lemma lives_deferred (cfg : Config P) net signal must may e body w :
  lives cfg net signal must may body w ->
  lives cfg net signal (must ++ [e]) (may ++ [e]) (deferred (disconnect e) body) w.
Proof.
  rewrite deferred_run. destruct (run body w) as [returned w1]. cbn [fst snd].
  destruct (disconnect_run e w1) as (clk & sch & Hrun & Hclk).
  assert (returned <> Ok false -> (match returned with Ok false => (Ok false, w1) | _ =>
      run (do! disconnect e in of_result returned) w1 end) = (returned, World (w_data w1 ++ [(clk, e)]) clk sch)) as Hend.
  { intros Hr. destruct returned as [[]|err]; [|done|]; by rewrite run_bind, Hrun. }
  intros [(err & ds & -> & Hd & Hs)|(t0 & Ht & Hl)].
  - rewrite Hend by done. left. exists err, (ds ++ [(clk, e)]). cbn [fst snd w_data]. rewrite Hd, <- app_assoc, map_app.
    split; [done|]. split; [done|]. by apply sublist_app.
  - right. exists t0. split; [done|]. cbn zeta in *. destruct (run_done signal _) as [stopped|].
    2: { destruct Hl as [-> Hd]. done. }
    destruct Hl as (cs & ds & Hd & Hf & Hs & Hmust & Hmay & Hord & Hle & Hne & Hok). rewrite Hend by done.
    exists cs, (ds ++ [(clk, e)]). cbn [fst snd w_data w_clock]. rewrite Hd, <- !app_assoc, map_app.
    split_and!; try done; [by apply sublist_app..| |].
    + intros c d Hc [Hin| ->%list_elem_of_singleton]%elem_of_app; [by apply Hord|].
      rewrite Forall_forall in Hle. specialize (Hle c ltac:(by apply list_elem_of_In)). cbn. lia.
    + eapply list.Forall_impl; [exact Hle|]. cbn. lia.
Qed.

(** The one of Redis, if there is a client. *)
Lemma lives_redis (cfg : Config P) net signal must may (rdb : bool) body w :
  lives cfg net signal must may body w ->
  lives cfg net signal must (may ++ [RedisDisconnected])
    (deferred (if rdb then disconnect RedisDisconnected else ret tt) body) w.
Proof.
  intros Hl. assert (forall must1 may1 r w', lived cfg net signal must1 may1 w r w' ->
    must `sublist_of` must1 -> may1 `sublist_of` may ++ [RedisDisconnected] ->
    lived cfg net signal must (may ++ [RedisDisconnected]) w r w') as Hweak.
  { intros must1 may1 r w' [(err & ds & ? & ? & Hs)|(t0 & Ht & Hx)] Hmust Hmay.
    - left. exists err, ds. split_and!; [done..|]. by etransitivity.
    - right. exists t0. split; [done|]. cbn zeta in *. destruct (run_done signal _); [|done].
      destruct Hx as (cs & ds & ? & ? & ? & Hm1 & Hm2 & ? & ? & ? & ?). exists cs, ds.
      split_and!; try done; by etransitivity. }
  destruct rdb.
  - eapply Hweak; [by apply lives_deferred | by apply sublist_inserts_r | done].
  - assert (run (deferred (ret tt) body) w = run body w) as ->.
    { rewrite deferred_run. by destruct (run body w) as [[[]|err] w1]. }
    eapply Hweak; [exact Hl | done | by apply sublist_inserts_r].
Qed.

Lemma engine_first (l : list event) :
  [EngineDisconnected] `sublist_of` l -> l `sublist_of` [EngineDisconnected; RedisDisconnected] ->
  l = [EngineDisconnected] \/ l = [EngineDisconnected; RedisDisconnected].
Proof.
  intros Hm Hl. apply sublist_cons_r in Hl as [Hl|(k & -> & Hk)].
  - pose proof (elem_of_sublist _ _ _ (proj2 (list_elem_of_singleton _ _) eq_refl) (transitivity Hm Hl)) as Hin.
    by apply list_elem_of_singleton in Hin.
  - apply sublist_cons_r in Hk as [Hk|(k' & -> & Hk)]; apply sublist_nil_r in Hk as ->; auto.
Qed.

(** [RunGRPC] up to the pool. *)
Lemma lives_pool (cfg : Config P) metrics net signal w :
  lives cfg net signal [EngineDisconnected] [EngineDisconnected; RedisDisconnected]
    (do! migrate cfg in
     let! rdb := setupRedis cfg in
     deferred (if rdb then disconnect RedisDisconnected else ret tt) (
       do! boot_step "connect ocr gRPC: %w" (of_result (newOcrClient (T := T) cfg)) in
       deferred (disconnect EngineDisconnected) (
         do! boot_step "create grpc server: %w" (of_result (NewGRPC (T := T) cfg rdb metrics)) in
         grpc_serve is_server_closed late cfg net signal))) w.
Proof.
  apply lives_after; [apply idle_migrate|]. intros _ w1. apply lives_after; [apply idle_setupRedis|]. intros rdb w2.
  apply (lives_redis cfg net signal [EngineDisconnected] [EngineDisconnected]).
  apply lives_after; [apply idle_boot_step, idle_of_result|].
  intros _ w3. apply (lives_deferred cfg net signal [] []).
  apply lives_after; [apply idle_boot_step, idle_of_result|]. intros _ w4. apply lives_serve.
Qed.

End binary.
End shutdown.

(** ** A concrete shutdown *)

(** What the platform's [Stop] answers at its deadline. *)
Definition demo_late : result unit := Err (External "stopped").

Example demo_shutdown :
  w_data (snd (shutdown (fun _ => false) demo_late demo_config (fun _ => None) (World [] 7 [Tick 3 NoFault])))
  = [(7, ProbeDraining); (7, GrpcNotServing);
     (7 + 5 * Second, ProbeClosed); (7 + 5 * Second + 3, ProbeIdle);
     (7 + 5 * Second + 3, GrpcClosed); (7 + 5 * Second + 3, GrpcStopped)].
Proof. vm_compute. reflexivity. Qed.

#[local] Instance demo_boot : PostgresSettings unit := fun _ => false.
#[local] Instance demo_telemetry : TelemetrySettings unit := {|
  TracesEnabled _ := true;
  TraceEndpoint _ := "otel:4317";
  NewSampler _ := Ok "parentbased_always_on";
  MetricsEnabled _ := false;
  MetricEndpoint _ := "";
  MetricExportInterval _ := 0;
|}.
#[local] Existing Instance demo_grpc.
#[local] Existing Instance demo_platform_grpc.

(** The gRPC listener fails after nine seconds, and the process is told to stop
    after twenty. *)
Definition demo_network : network :=
  MkNetwork (MkListener (Ok tt) (Some (9 * Second, External "accept")) None)
    (MkListener (Ok tt) None None) (MkListener (Ok tt) None None).
Definition demo_grpc_run : result bool * world lifelog :=
  RunGRPC (fun _ => false) demo_late (T := string) unstamped demo_config true demo_network (Some (20 * Second)) (World [] 7 []).

Example demo_failure_reported :
  fst demo_grpc_run = Err (wrapped "grpc listener: %w" (wrapped "grpc server: %w" (External "accept"))) /\
  w_data (snd demo_grpc_run) = [(9 * Second, ProbeDraining); (9 * Second, GrpcNotServing);
    (14 * Second, ProbeClosed); (14 * Second, ProbeIdle); (14 * Second, GrpcClosed); (14 * Second, GrpcStopped);
    (14 * Second, EngineDisconnected); (14 * Second, RedisDisconnected); (14 * Second, PoolClosed)].
Proof. vm_compute. split; reflexivity. Qed.

(** A call in flight that never ends, and a connection of the pool in use for two
    seconds more: the gRPC server is given up twenty seconds after the drain. *)
Example demo_stuck :
  let run := RunGRPC (fun _ => false) demo_late (T := string) unstamped demo_config true
    (MkNetwork (MkListener (Ok tt) None None) (MkListener (Ok tt) None None) (MkListener (Ok tt) None None))
    (Some (20 * Second)) (World [] 7 ([Tick 1 NoFault; Tick 1 NoFault; Tick 1 NoFault; Tick 3 NoFault; Tick 999999999999 NoFault]
      ++ [Tick 0 NoFault; Tick 0 NoFault; Tick 2000000000 NoFault])) in
  fst run = Err (wrapped "grpc graceful shutdown: %w" (External "stopped")) /\
  w_data (snd run) = [(20 * Second, ProbeDraining); (20 * Second, GrpcNotServing);
    (25 * Second, ProbeClosed); (25 * Second + 3, ProbeIdle); (25 * Second + 3, GrpcClosed);
    (45 * Second, EngineDisconnected); (45 * Second, RedisDisconnected); (47 * Second, PoolClosed)].
Proof. vm_compute. split; reflexivity. Qed.
