(* ===== verification/Entry.v ===== *)
(** * The entry points: [cmd/grpc], [cmd/consumer], [cmd/worker]

    Each loads the configuration, runs its binary and turns the outcome into the
    exit status of the process. *)
From S2P Require Import Prelude Utf8 Json GoTime Uuid Repository Redis Kafka Constant Envelope Router Config ConfigFacts Auth Proto Gateway App Consumer Outbox Worker Server Serve.

Section entry.
Context {P : Type} `{PlatformLib P, ViperLib P, UnicodeLib}.

(** [main]: the exit status, or none while the process runs. *)
Definition main {S : Type} (Run : Config P -> M S bool) : M S (option Z) :=
  match Load with
  | Err _ => ret (Some 1)
  | Ok cfg =>
      let! returned := try (Run cfg) in
      match returned with
      | Err _ => ret (Some 1)
      | Ok true => ret (Some 0)
      | Ok false => ret None
      end
  end.

Definition grpc_main {T} `{PostgresSettings P, TelemetrySettings P, GrpcSettings P, PlatformGrpc T}
    (is_server_closed : error -> bool) (late : result unit) (build : provenance) (metrics : bool) (net : network) (signal : option Z)
    : M (list (Z * event)) (option Z) :=
  main (fun cfg => RunGRPC is_server_closed late (T := T) build cfg metrics net signal).

Definition consumer_main {K R} `{GroupLib K, RedisLib R, UuidLib, PgLib, FmtOther, PostgresSettings P}
    (ctx : option Z) (lag : Delivery -> N) (polls : nat) : M (site K R) (option Z) :=
  main (fun cfg => RunConsumer ctx lag cfg polls).

Definition worker_main {K} `{KafkaLib K, UuidLib, PgLib, ErrorText, PostgresSettings P, ServiceSettings P}
    (injected : UUID -> list RecordHeader) (ctx : option Z) (picks_tick : nat -> bool) (ticks : nat)
    : M (pubstore K) (option Z) :=
  main (fun cfg => RunWorker injected ctx picks_tick cfg ticks).

(** A process only does something under a valid configuration: without one
    it exits with status 1 and has touched nothing; with one it does what its
    binary does, and its exit status is 0 exactly when that returns nil. *)
Theorem main_spec {S} (Run : Config P -> M S bool) w :
  (exists e, Load = Err e /\ main Run w = (Ok (Some 1), w)) \/
  exists cfg, Load = Ok cfg /\ valid_config cfg /\ snd (main Run w) = snd (Run cfg w) /\
    (fst (main Run w) = Ok (Some 0) <-> fst (Run cfg w) = Ok true) /\
    (fst (main Run w) = Ok (Some 1) <-> exists e, fst (Run cfg w) = Err e).
Proof.
  unfold main. destruct Load as [cfg|e] eqn:Hl; [right | left; by exists e].
  exists cfg. split; [done|]. split; [by apply (Load_Ok cfg)|]. rewrite bind_try.
  destruct (run (Run cfg) w) as [[[]|e] w1]; cbn [ret run fst snd]; split_and!; try done;
    (split; [try done | try (by intros [e' He'])]); eauto.
Qed.
End entry.
