(* ===== verification/Tests.v ===== *)
(** * The repository's own tests, run on the model

    [auth_test.go], [gateway/service_test.go] and [router/service_test.go]: each
    test as an example with the same inputs and expectations.  The fakes are
    those of the tests: a service that counts its calls, a client that keeps its
    request and fails, a store whose next insertion fails. *)
From S2P Require Import Prelude Utf8 Json GoTime Uuid Sha256 Repository Redis Constant Envelope Router Config Auth Proto Gateway.

#[local] Existing Instance same_shape.
#[local] Existing Instance demo_uuid.
#[local] Existing Instance demo_pg.
#[local] Existing Instance demo_fmt_other.
#[local] Instance codes : GrpcLib := format_int.

(** [status.Code]. *)
Definition status_of {A} (r : result A) : Z :=
  match r with
  | Ok _ => code_OK
  | Err e => match as_status e with Some (code, _) => code | None => code_Unknown end
  end.

(** ** server/auth_test.go *)

(** [recordingGatewayService]: the calls to [Submit] and to [Get]. *)
Definition recordingGatewayService : Service (nat * nat) :=
  MkService
    (fun _ _ => do! modify (fun n => (S (fst n), snd n)) in ret (MkSubmitted "doc-1" DOCUMENT_STATUS_QUEUED))
    (fun _ input => do! modify (fun n => (fst n, S (snd n))) in
       ret (MkGot (Some (Gatewaypb.MkGetResponse (in_DocumentID input) DOCUMENT_STATUS_QUEUED None None)))).

Definition test_caller : CallerConfig :=
  MkCaller "expense" (HashAPIKey "local-test-key") (MkRateLimit 1 Hour) {["receipt" := "receipt@1"]}.

(** An RPC of the test's server: its metrics have no instrument. *)
Definition test_rpc {A} (key method : string) (handler : Context -> M (nat * nat) A) : M (edge keyspace (nat * nat)) Z :=
  let! answer := try (UnaryAuth (NewCallerRegistry [test_caller]) {["expense" := test_caller]} (MkLimiter true) false
    (incoming (Some {[apiKeyHeader := [key]]})) method (fun ctx => on_engine (handler ctx))) in
  ret (status_of answer).

Definition test_server : GatewayServer (nat * nat) := NewGatewayServer recordingGatewayService.
Definition test_submit (key : string) : M (edge keyspace (nat * nat)) Z :=
  test_rpc key SubmitDocument_FullMethodName (fun ctx => SubmitDocument test_server ctx
    (Some (Gatewaypb.MkSubmitRequest "key-1" "expense-doc-1" "receipt"
       (Some (Gatewaypb.MkFileSource "receipts" "org/doc.jpg" 0 ""))))).
Definition test_get (key : string) : M (edge keyspace (nat * nat)) Z :=
  test_rpc key GetDocument_FullMethodName (fun ctx => GetDocument test_server ctx (Some (Gatewaypb.MkGetRequest "doc-1"))).

Definition test_calls : M (edge keyspace (nat * nat)) (list Z) :=
  let! s1 := test_submit "local-test-key" in
  let! s2 := test_submit "local-test-key" in
  let! g1 := test_get "local-test-key" in
  let! g2 := test_get "local-test-key" in
  let! g3 := test_get "wrong-key" in
  ret [s1; s2; g1; g2; g3].

Example TestUnaryAuthLimitsSubmitOnlyAndAuthenticatesEveryMethod :
  let run := test_calls (World (MkEdge ∅ (0%nat, 0%nat) [] []) 7 []) in
  fst run = Ok [code_OK; code_ResourceExhausted; code_OK; code_OK; code_Unauthenticated] /\
  e_header (w_data (snd run)) = [(retryAfterHeader, "3600")] /\
  e_engine (w_data (snd run)) = (1%nat, 2%nat).
Proof. vm_compute. split_and!; reflexivity. Qed.

Example TestRateLimiterUnavailableFailsOpenWithoutPanicking :
  fst (Allow false (MkRegistered "expense" ∅) (MkCaller "" "" (MkRateLimit 1 Minute) ∅) (World (∅ : keyspace) 7 []))
  = Ok (0, true).
Proof. vm_compute. reflexivity. Qed.

(** ** service/gateway/service_test.go *)

(** [fakeOCRClient]: it keeps its requests. *)
Definition fakeOCRClient (submitErr : error) : Client (list EngineSubmit) :=
  MkOcrClient (fun req => do! modify (fun l => l ++ [req]) in throw submitErr) (fun _ => ret None).

Definition test_context : Context :=
  WithCaller (incoming None) (MkRegistered "expense" {["receipt" := "receipt@1"]}).
Definition test_input (doctype : string) : SubmitInput :=
  MkSubmit "key-1" "expense-doc-1" doctype (MkSource "receipts" "org/doc.jpg" 1200 "image/jpeg").

Definition test_service_submit (doctype : string) :=
  svc_Submit (Gateway.NewService (fakeOCRClient (Status code_ResourceExhausted "engine queue is full" [])))
    test_context (test_input doctype) (World [] 7 []).

Example TestSubmitMapsVerifiedCallerAndForwardsEngineErrors :
  fst (test_service_submit "receipt") = Err (Status code_ResourceExhausted "engine queue is full" []) /\
  w_data (snd (test_service_submit "receipt")) =
    [MkEngineSubmit "key-1" "expense-doc-1" "receipt@1" "expense" "receipts" "org/doc.jpg" 1200 "image/jpeg"].
Proof. vm_compute. split; reflexivity. Qed.

Example TestSubmitRejectsUnknownDocTypeBeforeCallingEngine :
  fst (test_service_submit "passport") = Err ErrUnknownDocType /\ w_data (snd (test_service_submit "passport")) = [].
Proof. vm_compute. split; reflexivity. Qed.

(** ** service/router/service_test.go *)

Definition newTestRouter (rdb_up : bool) : routerService :=
  Router.NewService rdb_up (MkOptions (24 * Hour) "ocr.document.routed.%s.v1" (String.eqb "expense")).

Definition testEnvelope : Envelope :=
  MkEnvelope "1.0" "018f1f88-2f00-7000-8000-000000000001" EventTypeDocumentProcessed "2026-10-17T00:00:00Z"
    "018f1f88-2f00-7000-8000-000000000002" "expense-document" "expense" "018f1f88-2f00-7000-8000-000000000003" "ocr"
    (Some (jtext "{'fields':[{'name':'total','amount':12765}]}")) None.

Definition deliveries (s : routerService) (n : nat) : M (store keyspace) (list bool) :=
  (fix go n := match n with
   | O => ret []
   | S n' => let! r := try (Handle s testEnvelope "") in let! rest := go n' in ret (is_ok r :: rest)
   end) n.

Definition fine : tick := Tick 1 NoFault.
Definition fails : tick := Tick 1 (FailBefore (External "temporary failure")).
Definition empty_stores (sch : list tick) : world (store keyspace) := World (MkStore ∅ (MkDb ∅ ∅)) 1000 sch.
Definition marker (w : world (store keyspace)) : option string :=
  rd_get (w_clock w) (dedupe_key testEnvelope) (st_redis (w_data w)).
Definition rows_of (w : world (store keyspace)) : list OutboxEvent := map snd (map_to_list (db_rows (st_db (w_data w)))).

(** The insertion of the first delivery fails: no marker; the second inserts the
    row and the third is skipped by the marker. *)
Example TestHandleOnlyMarksRedisAfterDurableOutboxInsert :
  let first := deliveries (newTestRouter true) 1 (empty_stores [fine; fine; fails]) in
  let all := deliveries (newTestRouter true) 3 (empty_stores [fine; fine; fails]) in
  fst first = Ok [false] /\ marker (snd first) = None /\ rows_of (snd first) = [] /\
  fst all = Ok [false; true; true] /\ marker (snd all) = Some "1" /\
  map (fun e => (Repository.EventType e, Topic e, String.eqb (uuid_String (ID e)) (Envelope.EventID testEnvelope),
    match Unmarshal (Payload e) with
    | Ok routed => String.eqb (Envelope.EventID routed) (uuid_String (ID e)) &&
        String.eqb (Envelope.EventType routed) EventTypeDocumentRouted && String.eqb (Envelope.Producer routed) ProducerName &&
        bool_decide (Data routed = Data testEnvelope) &&
        String.eqb (Envelope.ExternalRef routed) (Envelope.ExternalRef testEnvelope) && String.eqb (CallerID routed) (CallerID testEnvelope)
    | Err _ => false
    end)) (rows_of (snd all))
  = [("document.routed", "ocr.document.routed.expense.v1", false, true)].
Proof. vm_compute. split_and!; reflexivity. Qed.

(** The marker fails after the commit; the redelivery finds another Redis. *)
Example TestHandleDoesNotLoseOutboxWhenRedisMarkFailsAfterCommit :
  let first := deliveries (newTestRouter true) 1 (empty_stores [fine; fine; fine; fine; fails]) in
  let again := deliveries (newTestRouter true) 1 (World (MkStore ∅ (st_db (w_data (snd first)))) 2000 []) in
  fst first = Ok [true] /\ marker (snd first) = None /\ length (rows_of (snd first)) = 1%nat /\
  fst again = Ok [true] /\ rows_of (snd again) = rows_of (snd first).
Proof. vm_compute. split_and!; reflexivity. Qed.

Example TestHandleFailsClosedWhenRedisIsUnavailable :
  let run := deliveries (newTestRouter false) 1 (empty_stores []) in
  fst run = Ok [false] /\ rows_of (snd run) = [].
Proof. vm_compute. split; reflexivity. Qed.
